(* ===== verification/_CoqProject ===== *)
-Q . S2P
Prelude.v
GoStrings.v
GoPath.v
Regexp.v
Captured.v
Config.v
Host.v
Samples.v
Trust.v
Run.v
ConfigClone.v
ConfigCache.v
Discover.v
ProcStat.v
Control.v
Data.v
Rss.v
Target.v
Info.v
Opcache.v
Scrape.v
