(* ===== verification/Prelude.v ===== *)
(** * phpfpm: a verification of the PHP-FPM library

    The library (package [phpfpm], Go) reads and steers PHP-FPM on a host: it
    finds php-fpm masters in the process table, asks each master's binary for its
    effective configuration, scrapes the status page of every pool, and reloads
    masters with SIGUSR2. Its hard parts are the ones modelled here: what may be
    executed or signalled when every fact comes from a process table anyone can
    write to, caches shared by concurrent callers, and scans and waits over a
    system that changes while it is being read.

    ** Parts and files

    The code is one package; a file of the development models one part of it.

    - [Prelude]: results ([result] is Go's [(T, error)]), machine integers as [Z]
      with their wrap-around, strings, lists.
    - [GoStrings], [GoPath], [Regexp]: what the code uses of the Go standard
      library's strings, bytes, strconv, path/filepath and regexp. These have no
      counterpart under src/; they are definitions, with their lemmas, and not
      assumptions.
    - [Config] (config.go: parseFPMConfigOutput): the parser of [php-fpm -tt], and
      the report it reads. [Captured] is the report in the repository's test data.
    - [ConfigClone] (config.go: clone): copies of a cached configuration, on a
      store of Go maps, since what is claimed is about aliasing.
    - [ConfigCache] (config.go: cacheKey, ParseConfigContext,
      InvalidateConfigCache): the cache, first as one caller runs it, then
      ([CacheSystem]) as a system of interleaved parses and invalidations.
    - [Host]: the operating system and the effect monad [M] every operation runs
      in. [Samples] has concrete hosts for the instances.
    - [Trust] (trust.go): which paths may be executed or read.
    - [Run] (run.go, config.go: limitedWriter): running a program with a bounded
      capture, behind the trust check.
    - [Discover] (discover.go): masters and their pools.
    - [ProcStat] (start_*.go, zombie_*.go): start times and zombies.
    - [Control] (control.go): Validate, Reload, ReloadMaster, VerifyMaster,
      MasterPID and ReloadAndWait.
    - [Data] (the structs of target.go, metrics.go, info.go, opcache.go),
      [Target] (target.go, metrics.go: ParseAddress).
    - [Rss] (rss.go): the memory of workers and of what they spawned.
    - [Info] (info.go): PHP's version and extensions, cached, and
      ([FlightSystem]) looked up once for all concurrent callers.
    - [Opcache] (opcache.go): the opcode cache probe and its script.
    - [Scrape] (status.go, metrics.go): reading a status page, counting, what of
      the configuration may leave the process, the scrape of one pool, and
      ([ScrapeSystem]) of all pools at once.

    ** How state and operations correspond to the code

    An operation that calls the operating system is a function in [Host.M]. Each
    system call is made at an instant of its own and sees the host as it is then
    ([Host.host_at]), so a theorem about an operation covers every way the
    system can change between two of its reads. What the library does to the
    world (signals, programs, files, requests, log lines) is the trace of the
    run. The order a Go map is ranged over is the host's choice at each instant.
    The package variables of config.go are in the run's [cache]; those of info.go
    and opcache.go are passed and returned ([Scrape.pkg_state]).

    Goroutines that share state under a lock are step relations, one step per
    critical section: [ConfigCache.CacheSystem], [Info.FlightSystem] and
    [Scrape.ScrapeSystem], whose steps use the same definitions of the critical
    sections as the sequential operations.

    ** What the theorems show

    - Safety of control: [verifyMaster_sound], [reload_gated],
      [ReloadAndWait_signals_once] and [ReloadAndWait_outcome] say what has been
      established about a pid when it is signalled or returned; [trustedPath_iff],
      [runBounded_gate] and [discover_gated] the same for paths and programs.
    - Termination: [trustedPath_terminates], [ReloadAndWait_returns] (with
      [ReloadAndWait_livelock], where it does not), [ScrapeAll_terminates].
    - Concurrency: [hit_is_current], [single_flight], [ScrapeAll_result].
    - Function: the parser reads back php-fpm's report, whatever its time stamps
      ([parse_render], [parse_report]), discovery reports every pool once
      ([pools_partition], [warm_scan], [unparsable_master_kept]), a discovered
      pool can be dialled ([discovered_status_endpoint]), the walk of a process
      subtree counts once ([subtreeRSS_counts_once]), enrichment touches only the
      workers that could be read ([enrichWorkerRSS_frame]), a status page is
      complete and its pool's ([ReadStatus_complete]), and what a scrape publishes
      comes from that page, counted, stripped and allow-listed ([scrape_outcome],
      [recountProcesses_spec], [exportableConfig_allow_list]).

    ** Fuel and bounds

    - [Trust.ancestors_loop], the [for] loop of trustedAncestors, is given one
      turn per byte of the path and one more; a parent directory is shorter than its child,
      so this is enough ([trustedPath_terminates] is about the fuel too).
    - [Control.wait_loop], the [for] loop of ReloadAndWait, takes its fuel as an
      argument, because the loop need not end; its safety theorems hold for every
      fuel, and [ReloadAndWait_returns] gives the condition under which some fuel
      is enough and more changes nothing.
    - [Rss.subtreeRSSBounded] is bounded by the code's own depth of 64, and the
      folding of runes by the four runes of the longest folding orbit.
    - [int] is 64 bits; conversions wrap ([to_int32] for a pid).

    ** What is not modelled

    - FastCGI (package fcgx), the decoding of JSON and [unicode.SimpleFold]'s
      table are parameters: classes [Opcache.FastCGI], [Opcache.OpcacheJSON] and
      [GoStrings.CaseFolding]. No law is assumed of them.
    - A context is what its [Err] answers at each instant; that ending it kills a
      running program's process group is part of what [run_program] answers.
    - The bodies of log lines are their message without attributes, and error
      values keep what callers can tell apart rather than the rendered text.
    - [CacheSystem], [FlightSystem] and [ScrapeSystem] leave open what a parse, a
      lookup or a scrape answers and when; in [ScrapeSystem] a scrape's own reads
      and writes of the shared caches are not interleaved with another's. *)

From Stdlib Require Export ZArith Lia Ascii.
From stdpp Require Export base list strings gmap.

(** ** Fallible results

    A Go function that returns [(T, error)] is modelled by [result E T]: a
    non-nil error is [Err], a nil error is [Ok]. *)

Inductive result (E T : Type) : Type :=
  | Ok (t : T)
  | Err (e : E).
Arguments Ok {_ _} _.
Arguments Err {_ _} _.

Definition is_ok {E T} (r : result E T) : bool :=
  match r with Ok _ => true | Err _ => false end.

Definition result_bind {E A B} (r : result E A) (f : A -> result E B) : result E B :=
  match r with Ok a => f a | Err e => Err e end.

Definition map_err {E F T} (f : E -> F) (r : result E T) : result F T :=
  match r with Ok a => Ok a | Err e => Err (f e) end.

Definition ok_option {E T} (r : result E T) : option T :=
  match r with Ok a => Some a | Err _ => None end.

Declare Scope go_scope.
Delimit Scope go_scope with go.

Notation "'let?' x ':=' r 'in' k" :=
  (result_bind r (fun x => k))
  (at level 10, x pattern, r at level 100, k at level 200)
  : go_scope.

Lemma result_bind_Ok {E A B} (r : result E A) (f : A -> result E B) b :
  result_bind r f = Ok b <-> exists a, r = Ok a /\ f a = Ok b.
Proof.
  destruct r; simpl; split; [by eauto|by intros (? & [= ->] & ?)|done|by intros (? & ? & _)].
Qed.

Lemma is_ok_iff {E T} (r : result E T) : is_ok r = true <-> exists t, r = Ok t.
Proof. destruct r; simpl; split; [by eauto|done|done|by intros []]. Qed.

Lemma map_err_Ok {E F T} (f : E -> F) (r : result E T) t :
  map_err f r = Ok t <-> r = Ok t.
Proof. destruct r; simpl; split; congruence. Qed.

(** ** Machine integers

    [int] is 64 bits wide on every platform the library builds for; a
    conversion between integer types keeps the low bits and reinterprets
    them, so each conversion is a wrap-around on [Z]. *)

Definition wrap_unsigned (w x : Z) : Z := x mod 2 ^ w.

Definition wrap_signed (w x : Z) : Z := (x + 2 ^ (w - 1)) mod 2 ^ w - 2 ^ (w - 1).

Definition to_int32 (x : Z) : Z := wrap_signed 32 x.
Definition to_int64 (x : Z) : Z := wrap_signed 64 x.
Definition to_uint64 (x : Z) : Z := wrap_unsigned 64 x.

Definition max_int64 : Z := 2 ^ 63 - 1.
Definition max_uint64 : Z := 2 ^ 64 - 1.

Definition is_int32 (x : Z) : Prop := (- 2 ^ 31 <= x < 2 ^ 31)%Z.
Definition is_int64 (x : Z) : Prop := (- 2 ^ 63 <= x < 2 ^ 63)%Z.
Definition is_uint64 (x : Z) : Prop := (0 <= x < 2 ^ 64)%Z.

Lemma to_int32_id x : is_int32 x -> to_int32 x = x.
Proof.
  unfold is_int32, to_int32, wrap_signed. intros H.
  rewrite Z.mod_small; [lia|]. change (2 ^ (32 - 1))%Z with (2 ^ 31)%Z. lia.
Qed.

Lemma to_int32_range x : is_int32 (to_int32 x).
Proof.
  unfold is_int32, to_int32, wrap_signed.
  pose proof (Z.mod_pos_bound (x + 2 ^ (32 - 1)) (2 ^ 32)). lia.
Qed.

Lemma to_int32_shift x k : to_int32 (x + k * 2 ^ 32) = to_int32 x.
Proof.
  unfold to_int32, wrap_signed.
  replace (x + k * 2 ^ 32 + 2 ^ (32 - 1))%Z with (x + 2 ^ (32 - 1) + k * 2 ^ 32)%Z by lia.
  by rewrite Z.mod_add by lia.
Qed.

Lemma to_int32_mod x y : (x mod 2 ^ 32 = y mod 2 ^ 32)%Z -> to_int32 y = to_int32 x.
Proof. intros E. unfold to_int32, wrap_signed. by rewrite <- Zplus_mod_idemp_l, <- E, Zplus_mod_idemp_l. Qed.

Lemma to_int64_id x : is_int64 x -> to_int64 x = x.
Proof.
  unfold is_int64, to_int64, wrap_signed. intros H.
  rewrite Z.mod_small; [lia|]. change (2 ^ (64 - 1))%Z with (2 ^ 63)%Z. lia.
Qed.

Lemma to_int64_range x : is_int64 (to_int64 x).
Proof.
  unfold is_int64, to_int64, wrap_signed.
  pose proof (Z.mod_pos_bound (x + 2 ^ (64 - 1)) (2 ^ 64)). lia.
Qed.

(** Wrapping once after each addition is wrapping once at the end. *)
Lemma to_int64_add_l x y : to_int64 (to_int64 x + y) = to_int64 (x + y).
Proof.
  unfold to_int64, wrap_signed.
  set (m := (2 ^ 64)%Z). set (h := (2 ^ (64 - 1))%Z).
  replace ((x + h) mod m - h + y + h)%Z with ((x + h) mod m + y)%Z by lia.
  rewrite Zplus_mod_idemp_l. f_equal. f_equal. lia.
Qed.

Lemma to_int64_add_r x y : to_int64 (x + to_int64 y) = to_int64 (x + y).
Proof. by rewrite Z.add_comm, to_int64_add_l, Z.add_comm. Qed.

Lemma to_uint64_id x : is_uint64 x -> to_uint64 x = x.
Proof. apply Z.mod_small. Qed.

(** ** Strings

    A Go string is a sequence of bytes, and so is [string]. *)

Lemma str_app_nil_l (s : string) : "" +:+ s = s.
Proof. reflexivity. Qed.

Lemma str_app_cons c (s t : string) : String c s +:+ t = String c (s +:+ t).
Proof. reflexivity. Qed.

Lemma str_app_nil_r (s : string) : s +:+ "" = s.
Proof. induction s as [|c s IH]; [done|]. by rewrite str_app_cons, IH. Qed.

Lemma str_app_assoc (s t u : string) : (s +:+ t) +:+ u = s +:+ t +:+ u.
Proof. induction s as [|c s IH]; [done|]. by rewrite !str_app_cons, IH. Qed.

Lemma str_length_app (s t : string) :
  String.length (s +:+ t) = String.length s + String.length t.
Proof. induction s as [|c s IH]; [done|]. rewrite str_app_cons. simpl. by rewrite IH. Qed.

Lemma str_app_inj_l (s t u : string) : s +:+ t = s +:+ u -> t = u.
Proof. induction s as [|c s IH]; [done|]. rewrite !str_app_cons. naive_solver. Qed.

Lemma str_app_inj_r (s t u : string) : s +:+ u = t +:+ u -> s = t.
Proof.
  intros H. assert (Hl : String.length s = String.length t).
  { apply (f_equal String.length) in H. rewrite !str_length_app in H. lia. }
  revert t Hl H. induction s as [|c s IH]; intros [|d t]; simpl; try lia; [done|].
  intros Hl. rewrite !str_app_cons. intros [= -> H]. f_equal. apply IH; [lia|done].
Qed.

(** A predicate on every byte of a string. *)
Fixpoint str_forall (P : ascii -> bool) (s : string) : bool :=
  match s with
  | "" => true
  | String c s' => P c && str_forall P s'
  end.

Lemma str_forall_app P s t : str_forall P (s +:+ t) = str_forall P s && str_forall P t.
Proof.
  induction s as [|c s IH]; [done|]. rewrite str_app_cons. simpl. rewrite IH.
  by rewrite andb_assoc.
Qed.

Lemma str_forall_impl (P Q : ascii -> bool) s :
  (forall c, P c = true -> Q c = true) -> str_forall P s = true -> str_forall Q s = true.
Proof.
  intros HPQ. induction s as [|c s IH]; simpl; [done|].
  intros [Hc Hs]%andb_true_iff. rewrite HPQ, IH; auto.
Qed.

Create Rewrite HintDb str.
#[export] Hint Rewrite str_app_nil_l str_app_cons str_app_nil_r str_app_assoc : str.

(** ** Lists *)

Lemma omap_step {A B} (f : A -> option B) x (l : list A) :
  omap f (x :: l) = option_list (f x) ++ omap f l.
Proof. cbn. by destruct (f x). Qed.

(** Splits every boolean conjunction and equation in the context. *)
Ltac bool_crush :=
  repeat match goal with
  | H : _ && _ = true |- _ => apply andb_true_iff in H; destruct H
  | H : _ || _ = false |- _ => apply orb_false_iff in H; destruct H
  | H : negb _ = true |- _ => apply negb_true_iff in H
  | H : negb _ = false |- _ => apply negb_false_iff in H
  | H : bool_decide _ = true |- _ => apply bool_decide_eq_true in H
  | H : bool_decide _ = false |- _ => apply bool_decide_eq_false in H
  | H : String.eqb _ _ = true |- _ => apply String.eqb_eq in H
  | H : String.eqb _ _ = false |- _ => apply String.eqb_neq in H
  | H : Ascii.eqb _ _ = true |- _ => apply Ascii.eqb_eq in H
  | H : Ascii.eqb _ _ = false |- _ => apply Ascii.eqb_neq in H
  | H : Z.eqb _ _ = true |- _ => apply Z.eqb_eq in H
  | H : Z.eqb _ _ = false |- _ => apply Z.eqb_neq in H
  | H : Z.leb _ _ = true |- _ => apply Z.leb_le in H
  | H : Z.leb _ _ = false |- _ => apply Z.leb_gt in H
  | H : Z.ltb _ _ = true |- _ => apply Z.ltb_lt in H
  | H : Z.ltb _ _ = false |- _ => apply Z.ltb_ge in H
  end; simplify_eq/=.
