(* ===== verification/GoStrings.v ===== *)
(** * Go's [strings], [bytes], [strconv] and [unicode/utf8], as far as the library uses them

    The functions are written on byte strings the way the Go documentation and
    sources define them, and each comes with the lemmas that characterise it.
    [TrimSpace], [Fields] and [ToLower] know the multi-byte UTF-8 spaces and the
    two non-ASCII runes whose lower case is an ASCII letter; [EqualFold] decodes
    runes and walks [unicode.SimpleFold], whose table is a parameter. *)

From S2P Require Import Prelude.

(** ** Bytes *)

Definition byte_of (c : ascii) : Z := Z.of_nat (nat_of_ascii c).

Definition in_byte_range (lo hi : Z) (c : ascii) : bool :=
  ((lo <=? byte_of c) && (byte_of c <=? hi))%Z.

Definition LF : ascii := "010"%char.
Definition CR : ascii := "013"%char.
Definition TAB : ascii := "009"%char.
Definition QUOTE : ascii := "034"%char.
Definition BACKSLASH : ascii := "092"%char.
Definition byte_string (c : ascii) : string := String c "".

(** ** Prefixes, suffixes and slices *)

Fixpoint HasPrefix (s prefix : string) {struct prefix} : bool :=
  match prefix, s with
  | "", _ => true
  | String p prefix', String c s' => Ascii.eqb c p && HasPrefix s' prefix'
  | String _ _, "" => false
  end.

(** [s[n:]], and [s[:n]], for [n] at most the length. *)
Fixpoint str_drop (n : nat) (s : string) : string :=
  match n, s with
  | O, _ => s
  | S _, "" => ""
  | S n', String _ s' => str_drop n' s'
  end.

Fixpoint str_take (n : nat) (s : string) : string :=
  match n, s with
  | O, _ => ""
  | S _, "" => ""
  | S n', String c s' => String c (str_take n' s')
  end.

Definition HasSuffix (s suffix : string) : bool :=
  (String.length suffix <=? String.length s)%nat &&
  String.eqb (str_drop (String.length s - String.length suffix) s) suffix.

Definition TrimPrefix (s prefix : string) : string :=
  if HasPrefix s prefix then str_drop (String.length prefix) s else s.

Definition TrimSuffix (s suffix : string) : string :=
  if HasSuffix s suffix then str_take (String.length s - String.length suffix) s else s.

(** ** Searching *)

(** [strings.Index]; [None] is the code's -1. *)
Fixpoint Index (s sub : string) : option nat :=
  if HasPrefix s sub then Some 0%nat
  else match s with
       | "" => None
       | String _ s' => S <$> Index s' sub
       end.

Definition Contains (s sub : string) : bool := bool_decide (is_Some (Index s sub)).

Fixpoint IndexByte (s : string) (b : ascii) : option nat :=
  match s with
  | "" => None
  | String c s' => if Ascii.eqb c b then Some 0%nat else S <$> IndexByte s' b
  end.

Fixpoint LastIndexByte (s : string) (b : ascii) : option nat :=
  match s with
  | "" => None
  | String c s' =>
      match LastIndexByte s' b with
      | Some i => Some (S i)
      | None => if Ascii.eqb c b then Some 0%nat else None
      end
  end.

(** ** Replacing and splitting *)

(** [strings.ReplaceAll] for a non-empty [old]: [skip] counts the bytes of an
    occurrence already replaced. *)
Fixpoint replace_from (old new : string) (skip : nat) (s : string) : string :=
  match s with
  | "" => ""
  | String c s' =>
      match skip with
      | S k => replace_from old new k s'
      | O => if HasPrefix s old
             then new +:+ replace_from old new (String.length old - 1) s'
             else String c (replace_from old new 0 s')
      end
  end.

Definition ReplaceAll (s old new : string) : string := replace_from old new 0 s.

(** [strings.Split(s, sep)] for a one-byte separator: never empty. *)
Fixpoint split_byte (b : ascii) (s : string) : list string :=
  match s with
  | "" => [""]
  | String c s' =>
      if Ascii.eqb c b then "" :: split_byte b s'
      else match split_byte b s' with
           | [] => [String c ""]
           | w :: ws => String c w :: ws
           end
  end.

(** [strings.SplitN(s, sep, 2)] for a one-byte separator that occurs. *)
Fixpoint cut_byte (b : ascii) (s : string) : option (string * string) :=
  match s with
  | "" => None
  | String c s' =>
      if Ascii.eqb c b then Some ("", s')
      else match cut_byte b s' with
           | Some (l, r) => Some (String c l, r)
           | None => None
           end
  end.

Fixpoint join_byte (b : ascii) (ws : list string) : string :=
  match ws with
  | [] => ""
  | [w] => w
  | w :: ws' => w +:+ String b (join_byte b ws')
  end.

(** ** Trimming *)

(** [strings.Trim(s, cutset)] for a cutset of one byte. *)
Fixpoint trim_left_byte (b : ascii) (s : string) : string :=
  match s with
  | "" => ""
  | String c s' => if Ascii.eqb c b then trim_left_byte b s' else s
  end.

Fixpoint trim_right_byte (b : ascii) (s : string) : string :=
  match s with
  | "" => ""
  | String c s' =>
      match trim_right_byte b s' with
      | "" => if Ascii.eqb c b then "" else String c ""
      | r => String c r
      end
  end.

Definition Trim (s : string) (b : ascii) : string := trim_right_byte b (trim_left_byte b s).

(** [unicode.IsSpace] on the encoded rune: the ASCII spaces, U+0085 and U+00A0
    (two bytes), and U+1680, U+2000..200A, U+2028, U+2029, U+202F, U+205F, U+3000
    (three bytes). *)
Definition space1 (a : ascii) : bool :=
  in_byte_range 9 13 a || Ascii.eqb a " "%char.

Definition space2 (a b : ascii) : bool :=
  (byte_of a =? 194)%Z && ((byte_of b =? 133)%Z || (byte_of b =? 160)%Z).

Definition space3 (a b c : ascii) : bool :=
  let x := byte_of a in let y := byte_of b in let z := byte_of c in
  (((x =? 225) && (y =? 154) && (z =? 128)) ||
   ((x =? 226) && (y =? 128) &&
      (((128 <=? z) && (z <=? 138)) || (z =? 168) || (z =? 169) || (z =? 175))) ||
   ((x =? 226) && (y =? 129) && (z =? 159)) ||
   ((x =? 227) && (y =? 128) && (z =? 128)))%Z.

(** The number of bytes of the encoded space [s] starts with; 0 when it starts
    with none. Continuation bytes never start a space, so scanning byte by byte
    sees exactly the spaces a rune-by-rune scan sees. *)
Definition space_width (s : string) : nat :=
  match s with
  | "" => 0
  | String a s1 =>
      if space1 a then 1
      else match s1 with
           | "" => 0
           | String b s2 =>
               if space2 a b then 2
               else match s2 with
                    | "" => 0
                    | String c _ => if space3 a b c then 3 else 0
                    end
           end
  end.

(** [strings.TrimLeftFunc(s, unicode.IsSpace)]; [skip] counts the bytes left of
    the space being dropped. *)
Fixpoint trim_left_space_from (skip : nat) (s : string) : string :=
  match s with
  | "" => ""
  | String _ s' =>
      match skip with
      | S k => trim_left_space_from k s'
      | O => match space_width s with
             | O => s
             | S k => trim_left_space_from k s'
             end
      end
  end.

Definition trim_left_space (s : string) : string := trim_left_space_from 0 s.

Definition all_space (s : string) : bool := String.eqb (trim_left_space s) "".

(** [strings.TrimRightFunc(s, unicode.IsSpace)]: the longest suffix made of
    encoded spaces is dropped. *)
Fixpoint trim_right_space (s : string) : string :=
  match s with
  | "" => ""
  | String c s' => if all_space s then "" else String c (trim_right_space s')
  end.

Definition TrimSpace (s : string) : string := trim_right_space (trim_left_space s).

(** [strings.Fields]: the maximal runs of non-space runes. [word] is the run
    being read. *)
Definition end_word (word : string) (rest : list string) : list string :=
  if String.eqb word "" then rest else word :: rest.

Fixpoint fields_from (skip : nat) (word : string) (s : string) : list string :=
  match s with
  | "" => end_word word []
  | String a s' =>
      match skip with
      | S k => fields_from k word s'
      | O => match space_width s with
             | O => fields_from 0 (word +:+ byte_string a) s'
             | S k => end_word word (fields_from k "" s')
             end
      end
  end.

Definition Fields (s : string) : list string := fields_from 0 "" s.

(** ** Case *)

Definition is_upper (c : ascii) : bool := in_byte_range 65 90 c.

Definition lower_byte (c : ascii) : ascii :=
  if is_upper c then ascii_of_nat (nat_of_ascii c + 32) else c.

(** [strings.ToLower], exact on every comparison with an ASCII string: besides
    the ASCII letters only U+0130 (C4 B0) and U+212A (E2 84 AA) have an ASCII
    lower case; every other non-ASCII rune lowers to a non-ASCII rune and is left
    as it is here. *)
Definition lower_width (s : string) : nat * ascii :=
  match s with
  | String a (String b s2) =>
      if ((byte_of a =? 196) && (byte_of b =? 176))%Z then (2%nat, "i"%char)
      else match s2 with
           | String c _ =>
               if ((byte_of a =? 226) && (byte_of b =? 132) && (byte_of c =? 170))%Z
               then (3%nat, "k"%char) else (1%nat, lower_byte a)
           | "" => (1%nat, lower_byte a)
           end
  | String a "" => (1%nat, lower_byte a)
  | "" => (1%nat, " "%char)
  end.

Fixpoint lower_from (skip : nat) (s : string) : string :=
  match s with
  | "" => ""
  | String _ s' =>
      match skip with
      | S k => lower_from k s'
      | O => let '(w, c) := lower_width s in String c (lower_from (w - 1) s')
      end
  end.

Definition ToLower (s : string) : string := lower_from 0 s.

(** [utf8.DecodeRuneInString] on a non-empty string: the rune and its width, and
    U+FFFD with width 1 for a malformed sequence. *)
Definition cont (c : ascii) : bool := in_byte_range 128 191 c.

Definition RuneError : Z := 65533.

Definition decode_rune (s : string) : Z * nat :=
  match s with
  | "" => (RuneError, 0%nat)
  | String a s1 =>
      let x := byte_of a in
      if (x <? 128)%Z then (x, 1%nat)
      else match s1 with
      | "" => (RuneError, 1%nat)
      | String b s2 =>
          let y := (byte_of b - 128)%Z in
          if in_byte_range 194 223 a && cont b then ((x - 192) * 64 + y, 2%nat)%Z
          else match s2 with
          | "" => (RuneError, 1%nat)
          | String c s3 =>
              let z := (byte_of c - 128)%Z in
              if in_byte_range 224 239 a && cont b && cont c &&
                 negb ((x =? 224)%Z && (y <? 32)%Z) && negb ((x =? 237)%Z && (31 <? y)%Z)
              then ((x - 224) * 4096 + y * 64 + z, 3%nat)%Z
              else match s3 with
              | "" => (RuneError, 1%nat)
              | String d _ =>
                  let u := (byte_of d - 128)%Z in
                  if in_byte_range 240 244 a && cont b && cont c && cont d &&
                     negb ((x =? 240)%Z && (y <? 16)%Z) && negb ((x =? 244)%Z && (15 <? y)%Z)
                  then ((x - 240) * 262144 + y * 4096 + z * 64 + u, 4%nat)%Z
                  else (RuneError, 1%nat)
              end
          end
      end
  end.

(** The runes of a string, as [for _, r := range s] yields them. *)
Fixpoint runes_from (skip : nat) (s : string) : list Z :=
  match s with
  | "" => []
  | String _ s' =>
      match skip with
      | S k => runes_from k s'
      | O => let '(r, w) := decode_rune s in r :: runes_from (w - 1) s'
      end
  end.

Definition runes (s : string) : list Z := runes_from 0 s.

(** [unicode.SimpleFold] is a table of the Unicode standard. *)
Class CaseFolding := simple_fold : Z -> Z.

Section EqualFold.
Context `{!CaseFolding}.

(** The loop [for r != sr && r < tr { r = unicode.SimpleFold(r) }]; a folding
    orbit has at most four runes, so [fuel] is 4. *)
Fixpoint fold_orbit (fuel : nat) (sr tr r : Z) : Z :=
  match fuel with
  | O => r
  | S f => if negb (r =? sr)%Z && (r <? tr)%Z then fold_orbit f sr tr (simple_fold r) else r
  end.

Definition rune_fold_eq (s t : Z) : bool :=
  if (s =? t)%Z then true
  else
    let sr := Z.min s t in
    let tr := Z.max s t in
    if (tr <? 128)%Z then ((65 <=? sr) && (sr <=? 90) && (tr =? sr + 32))%Z
    else (fold_orbit 4 sr tr (simple_fold sr) =? tr)%Z.

Fixpoint runes_fold_eq (s t : list Z) : bool :=
  match s, t with
  | [], [] => true
  | a :: s', b :: t' => rune_fold_eq a b && runes_fold_eq s' t'
  | _, _ => false
  end.

(** [strings.EqualFold]. *)
Definition EqualFold (s t : string) : bool := runes_fold_eq (runes s) (runes t).
End EqualFold.

(** ** Numbers *)

Inductive num_error := ErrSyntax | ErrRange.

Definition digit_of (c : ascii) : option Z :=
  if in_byte_range 48 57 c then Some (byte_of c - 48)%Z else None.

(** The loop of [strconv.ParseUint(s, 10, 64)]: a byte that is no digit is a
    syntax error, unless the value overflowed before it was reached. The number
    is the value the call returns beside the error. *)
Fixpoint parse_uint_loop (n : Z) (s : string) : Z * option num_error :=
  match s with
  | "" => (n, None)
  | String c s' =>
      match digit_of c with
      | None => (0, Some ErrSyntax)%Z
      | Some d =>
          if (max_uint64 / 10 + 1 <=? n)%Z then (max_uint64, Some ErrRange)
          else if (max_uint64 <? n * 10 + d)%Z then (max_uint64, Some ErrRange)
          else parse_uint_loop (n * 10 + d) s'
      end
  end.

Definition ParseUint (s : string) : Z * option num_error :=
  if String.eqb s "" then (0, Some ErrSyntax)%Z else parse_uint_loop 0 s.

(** [strconv.ParseInt(s, 10, 64)], and [strconv.Atoi], which returns the same
    value and the same kind of error on a 64-bit [int]. *)
Definition ParseInt (s : string) : Z * option num_error :=
  let '(neg, digits) :=
    match s with
    | String c s' =>
        if Ascii.eqb c "+"%char then (false, s')
        else if Ascii.eqb c "-"%char then (true, s') else (false, s)
    | "" => (false, "")
    end in
  match ParseUint digits with
  | (_, Some ErrSyntax) => (0, Some ErrSyntax)%Z
  | (un, _) =>
      if negb neg && (2 ^ 63 <=? un)%Z then (max_int64, Some ErrRange)
      else if neg && (2 ^ 63 <? un)%Z then (- 2 ^ 63, Some ErrRange)%Z
      else (if neg then - un else un, None)%Z
  end.

Definition Atoi (s : string) : Z * option num_error := ParseInt s.

(** [strconv.Itoa] on a non-negative number. *)
Fixpoint itoa_from (fuel : nat) (n : Z) (acc : string) : string :=
  match fuel with
  | O => acc
  | S f =>
      let acc' := String (ascii_of_nat (Z.to_nat (48 + n mod 10))) acc in
      if (n <? 10)%Z then acc' else itoa_from f (n / 10) acc'
  end.

Definition Itoa (n : Z) : string :=
  if (n <? 0)%Z then String "-"%char (itoa_from 20 (- n) "") else itoa_from 20 n "".

(** ** Lemmas: prefixes and slices *)

Lemma HasPrefix_app p t : HasPrefix (p +:+ t) p = true.
Proof.
  induction p as [|c p IH]; [by destruct t|].
  rewrite str_app_cons. simpl. by rewrite Ascii.eqb_refl.
Qed.

Lemma HasPrefix_spec s p : HasPrefix s p = true <-> exists t, s = p +:+ t.
Proof.
  split; [|intros [t ->]; apply HasPrefix_app].
  revert s. induction p as [|c p IH]; intros s; simpl; [by exists s|].
  destruct s as [|d s]; [done|]. intros H. bool_crush.
  destruct (IH s) as [t ->]; [done|]. by exists t.
Qed.

Lemma str_drop_app p t : str_drop (String.length p) (p +:+ t) = t.
Proof. induction p as [|c p IH]; [by destruct t|apply IH]. Qed.

Lemma str_take_app p t : str_take (String.length p) (p +:+ t) = p.
Proof.
  induction p as [|c p IH]; [by destruct t|]. rewrite str_app_cons. simpl. by rewrite IH.
Qed.

Lemma str_drop_0 s : str_drop 0 s = s.
Proof. by destruct s. Qed.

Lemma str_drop_length n s : String.length (str_drop n s) = (String.length s - n)%nat.
Proof.
  revert n. induction s as [|c s IH]; intros [|n]; simpl; auto.
Qed.

Lemma str_take_drop n s : str_take n s +:+ str_drop n s = s.
Proof.
  revert n. induction s as [|c s IH]; intros [|n]; try done.
  simpl. rewrite str_app_cons. by rewrite IH.
Qed.

Lemma str_drop_forall P n s : str_forall P s = true -> str_forall P (str_drop n s) = true.
Proof.
  revert n. induction s as [|c s IH]; intros [|n]; simpl; try done.
  intros H. bool_crush. by apply IH.
Qed.

Lemma HasSuffix_app t suf : HasSuffix (t +:+ suf) suf = true.
Proof.
  unfold HasSuffix. rewrite str_length_app.
  replace (String.length t + String.length suf - String.length suf)%nat
    with (String.length t) by lia.
  rewrite str_drop_app, String.eqb_refl, andb_true_r. apply Nat.leb_le. lia.
Qed.

Lemma HasSuffix_spec s suf : HasSuffix s suf = true <-> exists t, s = t +:+ suf.
Proof.
  split; [|intros [t ->]; apply HasSuffix_app].
  unfold HasSuffix. intros [_ H%String.eqb_eq]%andb_true_iff.
  set (n := (String.length s - String.length suf)%nat) in *.
  exists (str_take n s). by rewrite <- (str_take_drop n s) at 1; rewrite H.
Qed.

Lemma TrimPrefix_app p t : TrimPrefix (p +:+ t) p = t.
Proof. unfold TrimPrefix. rewrite HasPrefix_app. apply str_drop_app. Qed.

Lemma TrimSuffix_app t suf : TrimSuffix (t +:+ suf) suf = t.
Proof.
  unfold TrimSuffix. rewrite HasSuffix_app, str_length_app.
  replace (String.length t + String.length suf - String.length suf)%nat
    with (String.length t) by lia.
  apply str_take_app.
Qed.

(** ** Lemmas: searching *)

Lemma Index_Some s sub i :
  Index s sub = Some i -> s = str_take i s +:+ sub +:+ str_drop (i + String.length sub) s.
Proof.
  revert i. induction s as [|c s IH]; intros i; simpl.
  - destruct (HasPrefix "" sub) eqn:E; [|done].
    intros [= <-]. apply HasPrefix_spec in E as [t Et]. simpl.
    destruct sub; [done|]. by rewrite str_app_cons in Et.
  - destruct (HasPrefix (String c s) sub) eqn:E.
    + intros [= <-]. apply HasPrefix_spec in E as [t Et]. simpl.
      rewrite Et, str_app_nil_l, str_drop_app. done.
    + destruct (Index s sub) as [j|] eqn:Ej; simpl; [|done].
      intros [= <-]. simpl. rewrite str_app_cons. f_equal. by apply IH.
Qed.

Lemma Index_None_prefix s sub : Index s sub = None -> HasPrefix s sub = false.
Proof. destruct s; simpl; by destruct (HasPrefix _ _). Qed.

Lemma Index_app_Some u sub v : exists i, Index (u +:+ sub +:+ v) sub = Some i /\
  (i <= String.length u)%nat.
Proof.
  induction u as [|c u IH].
  - exists 0%nat. rewrite str_app_nil_l. split; [|done].
    pose proof (HasPrefix_app sub v) as H. destruct (sub +:+ v); simpl; by rewrite H.
  - destruct IH as [i [Hi Hle]]. rewrite str_app_cons. simpl.
    destruct (HasPrefix _ sub); [exists 0%nat; split; [done|lia]|].
    exists (S i). rewrite Hi. split; [done|simpl; lia].
Qed.

Lemma Contains_spec s sub : Contains s sub = true <-> exists u v, s = u +:+ sub +:+ v.
Proof.
  unfold Contains. rewrite bool_decide_eq_true. split.
  - intros [i Hi]. apply Index_Some in Hi. eauto.
  - intros (u & v & ->). destruct (Index_app_Some u sub v) as [i [-> _]]. eauto.
Qed.

(** The first occurrence of a pattern is where its first byte first occurs, when
    the pattern is there. *)
Lemma Index_first u b sub v :
  str_forall (fun c => negb (Ascii.eqb c b)) u = true ->
  Index (u +:+ String b (sub +:+ v)) (String b sub) = Some (String.length u).
Proof.
  induction u as [|c u IH]; intros H.
  - rewrite str_app_nil_l. simpl. by rewrite Ascii.eqb_refl, HasPrefix_app.
  - simpl in H. bool_crush. rewrite ?str_app_cons. simpl.
    match goal with H : c <> b |- _ => apply Ascii.eqb_neq in H; rewrite H end. simpl.
    by rewrite IH.
Qed.

Lemma Index_absent s b sub :
  str_forall (fun c => negb (Ascii.eqb c b)) s = true -> Index s (String b sub) = None.
Proof.
  induction s as [|c s IH]; simpl; [done|]. intros H. bool_crush.
  match goal with H : c <> b |- _ => apply Ascii.eqb_neq in H; rewrite H end. simpl.
  by rewrite IH.
Qed.

Lemma Index_byte s b : Index s (byte_string b) = IndexByte s b.
Proof.
  induction s as [|c s IH]; simpl; [done|].
  destruct (Ascii.eqb c b); simpl; [by destruct s|]. by rewrite <- IH.
Qed.

Lemma IndexByte_Some s b i : IndexByte s b = Some i ->
  s = str_take i s +:+ String b (str_drop (S i) s) /\
  str_forall (fun c => negb (Ascii.eqb c b)) (str_take i s) = true.
Proof.
  revert i. induction s as [|c s IH]; intros i; simpl; [done|].
  destruct (Ascii.eqb_spec c b) as [->|Hne].
  - by intros [= <-].
  - destruct (IndexByte s b) as [j|] eqn:Ej; simpl; [|done]. intros [= <-].
    destruct (IH j eq_refl) as [Hs Hn]. simpl. split.
    + rewrite str_app_cons. f_equal. apply Hs.
    + apply Ascii.eqb_neq in Hne. rewrite Hne. simpl. apply Hn.
Qed.

Lemma IndexByte_None s b :
  IndexByte s b = None <-> str_forall (fun c => negb (Ascii.eqb c b)) s = true.
Proof.
  induction s as [|c s IH]; simpl; [done|].
  destruct (Ascii.eqb c b); simpl; [done|].
  rewrite <- IH. by destruct (IndexByte s b).
Qed.

Lemma IndexByte_first u b v :
  str_forall (fun c => negb (Ascii.eqb c b)) u = true ->
  IndexByte (u +:+ String b v) b = Some (String.length u).
Proof. intros H. rewrite <- Index_byte. by apply (Index_first u b ""). Qed.

Lemma LastIndexByte_app u b v :
  str_forall (fun c => negb (Ascii.eqb c b)) v = true ->
  LastIndexByte (u +:+ String b v) b = Some (String.length u).
Proof.
  intros Hv. assert (Hn : LastIndexByte v b = None).
  { induction v as [|c v IH]; simpl in *; [done|]. bool_crush. rewrite IH by done.
    match goal with H : c <> b |- _ => apply Ascii.eqb_neq in H; by rewrite H end. }
  induction u as [|c u IH].
  - rewrite str_app_nil_l. simpl. by rewrite Hn, Ascii.eqb_refl.
  - rewrite str_app_cons. simpl. by rewrite IH.
Qed.

(** ** Lemmas: splitting *)

Definition no_byte (b : ascii) (s : string) : bool :=
  str_forall (fun c => negb (Ascii.eqb c b)) s.

Lemma cut_byte_first b l r :
  no_byte b l = true -> cut_byte b (l +:+ String b r) = Some (l, r).
Proof.
  unfold no_byte. induction l as [|c l IH]; intros H.
  - rewrite str_app_nil_l. simpl. by rewrite Ascii.eqb_refl.
  - simpl in H. apply andb_true_iff in H as [Hc%negb_true_iff H].
    rewrite str_app_cons. simpl. rewrite Hc, IH; done.
Qed.

Lemma cut_byte_None b s : no_byte b s = true -> cut_byte b s = None.
Proof.
  unfold no_byte. induction s as [|c s IH]; [done|]. cbn [str_forall cut_byte].
  intros [Hc%negb_true_iff Hs]%andb_true_iff. by rewrite Hc, IH.
Qed.

Lemma cut_byte_Some b s l r :
  cut_byte b s = Some (l, r) -> s = l +:+ String b r /\ no_byte b l = true.
Proof.
  unfold no_byte. revert l r. induction s as [|c s IH]; intros l r; simpl; [done|].
  destruct (Ascii.eqb_spec c b) as [->|Hne]; [by intros [= <- <-]|].
  destruct (cut_byte b s) as [[l' r']|]; [|done]. intros [= <- <-].
  destruct (IH l' r' eq_refl) as [-> H]. simpl.
  apply Ascii.eqb_neq in Hne. by rewrite Hne, H.
Qed.

Lemma split_byte_not_nil b s : split_byte b s <> [].
Proof.
  destruct s as [|c s]; simpl; [done|].
  destruct (Ascii.eqb c b); [done|]. by destruct (split_byte b s).
Qed.

Lemma split_byte_none b s : no_byte b s = true -> split_byte b s = [s].
Proof.
  unfold no_byte. induction s as [|c s IH]; simpl; [done|].
  intros [Hc%negb_true_iff H]%andb_true_iff. rewrite Hc, IH; done.
Qed.

Lemma split_byte_app b w s :
  no_byte b w = true -> split_byte b (w +:+ String b s) = w :: split_byte b s.
Proof.
  unfold no_byte. induction w as [|c w IH]; intros H.
  - rewrite str_app_nil_l. simpl. by rewrite Ascii.eqb_refl.
  - simpl in H. apply andb_true_iff in H as [Hc%negb_true_iff H].
    rewrite str_app_cons. simpl. by rewrite Hc, IH.
Qed.

Lemma split_byte_Forall b s : Forall (fun w => no_byte b w = true) (split_byte b s).
Proof.
  induction s as [|c s IH]; simpl; [by repeat constructor|].
  destruct (Ascii.eqb_spec c b) as [->|Hne]; [by constructor|].
  apply Ascii.eqb_neq in Hne.
  destruct (split_byte b s) as [|w ws]; inversion_clear IH; constructor; try done;
    unfold no_byte in *; simpl; by rewrite Hne.
Qed.

(** Joining what a split produced gives the string back, and splitting what was
    joined gives the parts back when none holds the separator. *)
Lemma join_split_byte b s : join_byte b (split_byte b s) = s.
Proof.
  induction s as [|c s IH]; [done|]. simpl.
  pose proof (split_byte_not_nil b s) as Hn.
  destruct (Ascii.eqb_spec c b) as [->|].
  - destruct (split_byte b s) as [|w ws] eqn:E; [done|].
    change (join_byte b ("" :: w :: ws)) with ("" +:+ String b (join_byte b (w :: ws))).
    by rewrite str_app_nil_l, IH.
  - destruct (split_byte b s) as [|w [|w' ws]] eqn:E; simpl in *; try done.
    + by rewrite IH.
    + by rewrite str_app_cons, IH.
Qed.

Lemma split_join_byte b ws :
  ws <> [] -> Forall (fun w => no_byte b w = true) ws -> split_byte b (join_byte b ws) = ws.
Proof.
  induction ws as [|w ws IH]; [done|]. intros _ Hall.
  inversion_clear Hall as [|? ? Hw Hws]. destruct ws as [|w' ws].
  - simpl. by apply split_byte_none.
  - change (join_byte b (w :: w' :: ws)) with (w +:+ String b (join_byte b (w' :: ws))).
    rewrite split_byte_app by done. by rewrite IH.
Qed.

(** ** Lemmas: spaces *)

(** The bytes an encoded space is made of. *)
Definition spaceish (c : ascii) : bool := space1 c || (128 <=? byte_of c)%Z.

Lemma space_width_bytes s n :
  space_width s = n -> (n <= String.length s)%nat /\
  str_forall spaceish (str_take n s) = true.
Proof.
  intros <-. destruct s as [|a [|b [|c s]]]; simpl; repeat case_match; simpl;
    try (split; [lia|done]); split; try lia;
    unfold spaceish, space2, space3, space1 in *; bool_crush;
    rewrite ?andb_true_r, ?andb_true_iff, ?orb_true_iff, ?Z.leb_le;
    repeat match goal with
    | H : (_ || _)%bool = true |- _ => apply orb_true_iff in H as [?|?]
    end; bool_crush; try (by left); lia || (repeat split; right; lia) || auto.
Qed.

Lemma trim_left_space_skip k s : trim_left_space_from k s = trim_left_space (str_drop k s).
Proof.
  unfold trim_left_space. revert k. induction s as [|c s IH]; intros [|k]; try done.
  exact (IH k).
Qed.

Lemma trim_left_space_unfold s :
  trim_left_space s =
  match space_width s with O => s | n => trim_left_space (str_drop n s) end.
Proof.
  destruct s as [|c s]; [done|]. unfold trim_left_space at 1.
  change (trim_left_space_from 0 (String c s)) with
    (match space_width (String c s) with O => String c s | S k => trim_left_space_from k s end).
  destruct (space_width _) as [|k]; [done|]. exact (trim_left_space_skip k s).
Qed.

Lemma trim_left_space_fix s : space_width s = 0%nat -> trim_left_space s = s.
Proof. rewrite trim_left_space_unfold. by intros ->. Qed.

Lemma space_width_trim_left s : space_width (trim_left_space s) = 0%nat.
Proof.
  remember (String.length s) as n eqn:Hn. revert s Hn.
  induction (lt_wf n) as [n _ IH]; intros s ->.
  rewrite trim_left_space_unfold. destruct (space_width s) as [|k] eqn:E; [done|].
  destruct (space_width_bytes s (S k) E) as [Hle _].
  eapply IH; [|done]. rewrite str_drop_length. lia.
Qed.

Lemma trim_left_space_idem s : trim_left_space (trim_left_space s) = trim_left_space s.
Proof. apply trim_left_space_fix, space_width_trim_left. Qed.

Lemma all_space_bytes s : all_space s = true -> str_forall spaceish s = true.
Proof.
  unfold all_space. rewrite String.eqb_eq.
  remember (String.length s) as n eqn:Hn. revert s Hn.
  induction (lt_wf n) as [n _ IH]; intros s ->.
  rewrite trim_left_space_unfold. destruct (space_width s) as [|k] eqn:E; [by intros ->|].
  destruct (space_width_bytes s (S k) E) as [Hle Hb]. intros H.
  rewrite <- (str_take_drop (S k) s), str_forall_app, Hb, andb_true_l.
  eapply IH; [|done|done]. rewrite str_drop_length. lia.
Qed.

Lemma not_all_space_mid u c w : spaceish c = false -> all_space (u +:+ String c w) = false.
Proof.
  intros Hc. destruct (all_space _) eqn:E; [|done].
  apply all_space_bytes in E. rewrite str_forall_app in E. simpl in E.
  rewrite Hc, andb_false_r in E. done.
Qed.

(** A byte that belongs to no space stops the trimming from the right. *)
Lemma trim_right_space_app u c w :
  spaceish c = false ->
  trim_right_space (u +:+ String c w) = u +:+ String c (trim_right_space w).
Proof.
  intros Hc. induction u as [|d u IH].
  - pose proof (not_all_space_mid "" c w Hc) as H.
    rewrite str_app_nil_l in *. cbn [trim_right_space]. by rewrite H.
  - rewrite !str_app_cons. cbn [trim_right_space]. rewrite IH.
    pose proof (not_all_space_mid (String d u) c w Hc) as H. rewrite str_app_cons in H.
    by rewrite H.
Qed.

Lemma all_space_trim_right s : all_space s = true -> trim_right_space s = "".
Proof. destruct s; [done|]. simpl. by intros ->. Qed.

Lemma trim_right_space_nonempty s : all_space s = false -> trim_right_space s <> "".
Proof. destruct s; [done|]. simpl. by intros ->. Qed.

(** Trimming from the right does not disturb the front of what it keeps. *)
Lemma space_width_trim_right s :
  space_width s = 0%nat -> space_width (trim_right_space s) = 0%nat.
Proof.
  destruct s as [|a s1]; [done|]. intros H. cbn [trim_right_space].
  destruct (all_space (String a s1)) eqn:E; [done|]. clear E.
  destruct s1 as [|b s2]; [done|]. cbn [trim_right_space].
  destruct (all_space (String b s2)) eqn:E.
  - simpl in *. by destruct (space1 a).
  - clear E. destruct s2 as [|c s3]; [done|]. cbn [trim_right_space].
    destruct (all_space (String c s3)); simpl in *; by repeat case_match.
Qed.

Lemma space_width_app s v k : space_width s = S k -> space_width (s +:+ v) = S k.
Proof.
  destruct s as [|a [|b [|c s]]]; [done|..]; rewrite ?str_app_cons, ?str_app_nil_l; simpl;
    destruct (space1 a); try done; try by destruct (space2 a b).
Qed.

Lemma all_space_unfold s :
  all_space s = match space_width s with
                | O => String.eqb s ""
                | n => all_space (str_drop n s)
                end.
Proof. unfold all_space. rewrite trim_left_space_unfold. by destruct (space_width s). Qed.

Lemma str_drop_app_le n u v :
  (n <= String.length u)%nat -> str_drop n (u +:+ v) = str_drop n u +:+ v.
Proof.
  revert u. induction n as [|n IH]; intros u H; [done|].
  destruct u as [|c u]; simpl in H; [lia|].
  rewrite str_app_cons. simpl. apply IH. lia.
Qed.

Lemma all_space_app u v : all_space u = true -> all_space (u +:+ v) = all_space v.
Proof.
  remember (String.length u) as n eqn:Hn. revert u Hn.
  induction (lt_wf n) as [n _ IH]; intros u ->.
  rewrite (all_space_unfold u). destruct (space_width u) as [|k] eqn:E.
  - by intros ->%String.eqb_eq.
  - intros H. destruct (space_width_bytes u (S k) E) as [Hle _].
    rewrite all_space_unfold, (space_width_app u v k E), str_drop_app_le by done.
    eapply IH; [|done|done]. rewrite str_drop_length. lia.
Qed.

Lemma trim_right_space_split s :
  exists sp, s = trim_right_space s +:+ sp /\ all_space sp = true.
Proof.
  induction s as [|c s IH]; [by exists ""|]. cbn [trim_right_space].
  destruct (all_space (String c s)) eqn:E; [by exists (String c s)|].
  destruct IH as (sp & Hs & Hsp). exists sp. rewrite str_app_cons. by rewrite <- Hs.
Qed.

Lemma trim_right_space_idem s : trim_right_space (trim_right_space s) = trim_right_space s.
Proof.
  induction s as [|c s IH]; [done|]. cbn [trim_right_space].
  destruct (all_space (String c s)) eqn:E; [done|]. cbn [trim_right_space].
  rewrite IH. destruct (all_space (String c (trim_right_space s))) eqn:E2; [|done].
  destruct (trim_right_space_split s) as (sp & Hs & Hsp).
  apply (all_space_app _ sp) in E2. rewrite str_app_cons, <- Hs in E2. congruence.
Qed.

(** [TrimSpace] is idempotent: what it returns starts and ends with no space. *)
Lemma TrimSpace_idem s : TrimSpace (TrimSpace s) = TrimSpace s.
Proof.
  unfold TrimSpace. rewrite (trim_left_space_fix (trim_right_space _)).
  - apply trim_right_space_idem.
  - apply space_width_trim_right, space_width_trim_left.
Qed.

Definition trimmed (s : string) : bool := String.eqb (TrimSpace s) s.

Lemma trimmed_ends s : trimmed s = true ->
  trim_left_space s = s /\ trim_right_space s = s.
Proof.
  unfold trimmed. intros H%String.eqb_eq.
  assert (Hl : trim_left_space s = s).
  { apply trim_left_space_fix. rewrite <- H. apply space_width_trim_right, space_width_trim_left. }
  split; [done|]. unfold TrimSpace in H. by rewrite Hl in H.
Qed.

Lemma TrimSpace_trimmed s : trimmed (TrimSpace s) = true.
Proof. unfold trimmed. by rewrite TrimSpace_idem, String.eqb_refl. Qed.

(** Leading ASCII spaces do not matter to [TrimSpace]. *)
Lemma trim_left_space_cons c s : space1 c = true -> trim_left_space (String c s) = trim_left_space s.
Proof.
  intros Hc. rewrite trim_left_space_unfold. simpl. by rewrite Hc.
Qed.

Lemma TrimSpace_cons c s : space1 c = true -> TrimSpace (String c s) = TrimSpace s.
Proof. intros Hc. unfold TrimSpace. by rewrite trim_left_space_cons. Qed.

Lemma all_space_cons c s : space1 c = true -> all_space (String c s) = all_space s.
Proof. intros Hc. unfold all_space. by rewrite trim_left_space_cons. Qed.

Lemma trim_right_space_cons c s :
  space1 c = true -> s <> "" -> trim_right_space s = s ->
  trim_right_space (String c s) = String c s.
Proof.
  intros Hc Hne Hs. cbn [trim_right_space]. rewrite all_space_cons by done.
  destruct (all_space s) eqn:E; [|by rewrite Hs].
  apply all_space_trim_right in E. congruence.
Qed.

(** A string whose first byte belongs to no space keeps its front. *)
Lemma space_width_plain c s : spaceish c = false -> space_width (String c s) = 0%nat.
Proof.
  intros H. destruct (space_width (String c s)) as [|k] eqn:E; [done|].
  destruct (space_width_bytes _ _ E) as [_ Hb]. simpl in Hb. by rewrite H in Hb.
Qed.

Lemma all_space_snoc s c : space1 c = true -> all_space (s +:+ byte_string c) = all_space s.
Proof.
  intros Hc. destruct (all_space s) eqn:E.
  - rewrite all_space_app by done. unfold byte_string. by rewrite all_space_cons.
  - remember (String.length s) as n eqn:Hn. revert s Hn E.
    induction (lt_wf n) as [n _ IH]; intros s -> E.
    assert (Hw : space_width (s +:+ byte_string c) = space_width s).
    { destruct s as [|a [|b [|d s]]]; [done|..];
        unfold byte_string; rewrite ?str_app_cons, ?str_app_nil_l; simpl;
        destruct (space1 a); try done; try destruct (space2 a b); try done;
        unfold space1, space2, space3, in_byte_range in *; bool_crush;
        repeat case_match; try done; exfalso;
        repeat match goal with
        | H : (_ || _)%bool = true |- _ => apply orb_true_iff in H as [?|?]
        end; bool_crush; try lia; change (byte_of " "%char) with 32%Z in *; lia. }
    rewrite all_space_unfold, Hw. rewrite all_space_unfold in E.
    destruct (space_width s) as [|k] eqn:Ek; [by destruct s|].
    destruct (space_width_bytes s (S k) Ek) as [Hle _].
    rewrite str_drop_app_le by done.
    eapply IH; [|done|done]. rewrite str_drop_length. lia.
Qed.

Lemma trim_right_space_snoc s c :
  space1 c = true -> trim_right_space (s +:+ byte_string c) = trim_right_space s.
Proof.
  intros Hc. induction s as [|d s IH].
  - rewrite str_app_nil_l. cbn [trim_right_space byte_string].
    by rewrite (all_space_cons c "" Hc).
  - rewrite str_app_cons. cbn [trim_right_space].
    pose proof (all_space_snoc (String d s) c Hc) as H. rewrite str_app_cons in H.
    by rewrite H, IH.
Qed.

(** An ASCII space completes no encoded space begun before it. *)
Lemma space_width_before_space s c w :
  space1 c = true -> s <> "" -> space_width s = 0%nat -> space_width (s +:+ String c w) = 0%nat.
Proof.
  intros Hc Hne. destruct s as [|a [|b [|d s]]]; [done|..];
    rewrite ?str_app_cons, ?str_app_nil_l; simpl;
    destruct (space1 a); try done; try destruct (space2 a b); try done; intros Hw;
    unfold space1, space2, space3, in_byte_range in *; repeat case_match; try done; exfalso;
    bool_crush;
    repeat match goal with
    | H : (_ || _)%bool = true |- _ => apply orb_true_iff in H as [?|?]
    end; bool_crush; try lia; change (byte_of " "%char) with 32%Z in *; lia.
Qed.

Lemma trimmed_width s : trimmed s = true -> space_width s = 0%nat.
Proof. intros [H _]%trimmed_ends. rewrite <- H. apply space_width_trim_left. Qed.

Lemma TrimSpace_snoc s c :
  space1 c = true -> trimmed s = true -> TrimSpace (s +:+ byte_string c) = s.
Proof.
  intros Hc Ht. destruct (trimmed_ends s Ht) as [Hl Hr]. unfold TrimSpace.
  destruct s as [|a s1].
  - rewrite str_app_nil_l. unfold byte_string. by rewrite trim_left_space_cons.
  - rewrite trim_left_space_fix; [by rewrite trim_right_space_snoc|].
    apply space_width_before_space; [done..|by apply trimmed_width].
Qed.

(** ** Lemmas: trimming a byte and replacing *)

Lemma trim_right_byte_app b u v :
  trim_right_byte b v <> "" -> trim_right_byte b (u +:+ v) = u +:+ trim_right_byte b v.
Proof.
  intros Hv. induction u as [|c u IH]; [done|]. rewrite !str_app_cons. simpl. rewrite IH.
  destruct u as [|d u]; [|done]. rewrite str_app_nil_l. by destruct (trim_right_byte b v).
Qed.

Lemma trim_left_byte_fix b c s : Ascii.eqb c b = false -> trim_left_byte b (String c s) = String c s.
Proof. simpl. by intros ->. Qed.

(** A non-empty string that neither starts nor ends with [b]. *)
Definition unquoted (b : ascii) (s : string) : bool := String.eqb (Trim s b) s.

Lemma trim_left_byte_length b s : (String.length (trim_left_byte b s) <= String.length s)%nat.
Proof. induction s as [|c s IH]; simpl; [done|]. destruct (Ascii.eqb c b); simpl; lia. Qed.

Lemma trim_right_byte_length b s : (String.length (trim_right_byte b s) <= String.length s)%nat.
Proof.
  induction s as [|c s IH]; simpl; [done|].
  destruct (trim_right_byte b s); [destruct (Ascii.eqb c b)|]; simpl in *; lia.
Qed.

Lemma unquoted_ends b s : unquoted b s = true ->
  trim_left_byte b s = s /\ trim_right_byte b s = s.
Proof.
  unfold unquoted, Trim. intros H%String.eqb_eq.
  assert (Hl : trim_left_byte b s = s).
  { destruct s as [|c s]; [done|]. simpl in *. destruct (Ascii.eqb c b); [|done].
    apply (f_equal String.length) in H. simpl in H.
    pose proof (trim_right_byte_length b (trim_left_byte b s)).
    pose proof (trim_left_byte_length b s). lia. }
  split; [done|]. by rewrite Hl in H.
Qed.

Lemma Trim_app b u m v :
  u <> "" -> v <> "" -> unquoted b u = true -> unquoted b v = true ->
  Trim (u +:+ m +:+ v) b = u +:+ m +:+ v.
Proof.
  intros Hu Hv [Hul _]%unquoted_ends [_ Hvr]%unquoted_ends. unfold Trim.
  assert (Hl : trim_left_byte b (u +:+ m +:+ v) = u +:+ m +:+ v).
  { destruct u as [|c u]; [done|]. rewrite str_app_cons. apply trim_left_byte_fix.
    simpl in Hul. destruct (Ascii.eqb c b); [|done].
    apply (f_equal String.length) in Hul. simpl in Hul.
    pose proof (trim_left_byte_length b u). lia. }
  rewrite Hl, <- str_app_assoc, trim_right_byte_app by congruence.
  by rewrite Hvr.
Qed.

Lemma ReplaceAll_absent s old new :
  Index s old = None -> ReplaceAll s old new = s.
Proof.
  unfold ReplaceAll. induction s as [|c s IH]; simpl; [done|].
  destruct (HasPrefix (String c s) old); [done|].
  destruct (Index s old); [done|]. intros _. by rewrite IH.
Qed.

(** A two-byte pattern does not straddle a byte it does not hold. *)
Lemma Index_pair_app a b u c w :
  c <> a -> c <> b ->
  Index u (String a (byte_string b)) = None -> Index w (String a (byte_string b)) = None ->
  Index (u +:+ String c w) (String a (byte_string b)) = None.
Proof.
  intros Ha Hb. apply Ascii.eqb_neq in Ha, Hb. unfold byte_string.
  induction u as [|d u IH]; intros Hu Hw.
  - rewrite str_app_nil_l. simpl. rewrite Ha. simpl. by rewrite Hw.
  - rewrite str_app_cons. cbn [Index] in *.
    assert (Hp : HasPrefix (String d (u +:+ String c w)) (String a (String b "")) =
                 HasPrefix (String d u) (String a (String b ""))).
    { simpl. destruct u as [|e u]; [rewrite str_app_nil_l|rewrite str_app_cons]; simpl;
        by rewrite ?Hb. }
    rewrite Hp. destruct (HasPrefix _ _); [done|].
    destruct (Index u (String a (String b ""))); [done|]. by rewrite IH.
Qed.

(** ** Lemmas: fields *)

Definition wordy (s : string) : bool := str_forall (fun c => negb (spaceish c)) s.

Lemma fields_word w u s :
  wordy u = true -> fields_from 0 w (u +:+ s) = fields_from 0 (w +:+ u) s.
Proof.
  unfold wordy. revert w. induction u as [|c u IH]; intros w H.
  - by rewrite str_app_nil_l, str_app_nil_r.
  - simpl in H. apply andb_true_iff in H as [Hc%negb_true_iff H].
    rewrite str_app_cons. cbn [fields_from]. rewrite (space_width_plain c) by done.
    rewrite IH by done. unfold byte_string. by rewrite str_app_assoc, str_app_cons.
Qed.

Lemma fields_space w c s : space1 c = true ->
  fields_from 0 w (String c s) = end_word w (fields_from 0 "" s).
Proof. intros Hc. cbn [fields_from space_width]. by rewrite Hc. Qed.

(** Words joined with one space are the fields of the line. *)
Lemma Fields_join ws :
  Forall (fun w => wordy w = true /\ w <> "") ws -> Fields (join_byte " "%char ws) = ws.
Proof.
  unfold Fields. induction ws as [|w ws IH]; [done|].
  intros Hall. inversion_clear Hall as [|? ? [Hw Hne] Hws].
  assert (Hend : forall rest, end_word w rest = w :: rest).
  { intros rest. unfold end_word. apply String.eqb_neq in Hne. by rewrite Hne. }
  destruct ws as [|w' ws].
  - cbn [join_byte]. rewrite <- (str_app_nil_r w) at 1.
    rewrite fields_word, str_app_nil_l by done. cbn [fields_from]. apply Hend.
  - change (join_byte " " (w :: w' :: ws)) with (w +:+ String " " (join_byte " " (w' :: ws))).
    rewrite fields_word, str_app_nil_l, fields_space by done. by rewrite IH, Hend.
Qed.

(** The same with the line feed a file ends in. *)
Lemma Fields_join_line ws c :
  space1 c = true -> Forall (fun w => wordy w = true /\ w <> "") ws ->
  Fields (join_byte " "%char ws +:+ byte_string c) = ws.
Proof.
  unfold Fields. intros Hc. induction ws as [|w ws IH].
  - intros _. exact (fields_space "" c "" Hc).
  - intros Hall. inversion_clear Hall as [|? ? [Hw Hne] Hws].
    assert (Hend : forall rest, end_word w rest = w :: rest).
    { intros rest. unfold end_word. apply String.eqb_neq in Hne. by rewrite Hne. }
    destruct ws as [|w' ws].
    + change (join_byte " " [w] +:+ byte_string c) with (w +:+ String c "").
      rewrite fields_word, str_app_nil_l, fields_space by done. apply Hend.
    + change (join_byte " " (w :: w' :: ws)) with (w +:+ String " " (join_byte " " (w' :: ws))).
      rewrite str_app_assoc, fields_word, str_app_nil_l, str_app_cons, fields_space by done.
      by rewrite IH, Hend.
Qed.

(** ** Lemmas: numbers *)

Definition digit_char (d : Z) : ascii := ascii_of_nat (Z.to_nat (48 + d)).

Lemma digit_cases d : (0 <= d < 10)%Z ->
  d = 0%Z \/ d = 1%Z \/ d = 2%Z \/ d = 3%Z \/ d = 4%Z \/ d = 5%Z \/ d = 6%Z \/ d = 7%Z \/ d = 8%Z \/ d = 9%Z.
Proof. lia. Qed.

Lemma digit_of_char d : (0 <= d < 10)%Z -> digit_of (digit_char d) = Some d.
Proof. intros H. destruct (digit_cases d H) as [->|[->|[->|[->|[->|[->|[->|[->|[->| ->]]]]]]]]]; done. Qed.

(** Digits are neither signs nor spaces. *)
Lemma digit_char_plain d : (0 <= d < 10)%Z ->
  spaceish (digit_char d) = false /\ digit_char d <> "+"%char /\ digit_char d <> "-"%char.
Proof. intros H. destruct (digit_cases d H) as [->|[->|[->|[->|[->|[->|[->|[->|[->| ->]]]]]]]]]; done. Qed.

Lemma parse_itoa f n acc :
  (0 <= n <= max_uint64)%Z -> (n < 10 ^ Z.of_nat f)%Z ->
  parse_uint_loop 0 (itoa_from f n acc) = parse_uint_loop n acc.
Proof.
  revert n acc. induction f as [|f IH]; intros n acc Hn Hf.
  { change (10 ^ Z.of_nat 0)%Z with 1%Z in Hf. replace n with 0%Z by lia. done. }
  assert (Hcut : ((2 ^ 64 - 1) / 10 = 1844674407370955161)%Z) by done.
  cbn [itoa_from]. fold (digit_char (n mod 10)).
  pose proof (Z.mod_pos_bound n 10 ltac:(lia)) as Hm.
  pose proof (Z.div_mod n 10 ltac:(lia)) as Hd.
  destruct (Z.ltb_spec n 10) as [Hlt|Hge].
  - rewrite Z.mod_small by lia. cbn [parse_uint_loop]. rewrite digit_of_char by lia.
    unfold max_uint64 in *. rewrite Hcut.
    destruct (Z.leb_spec (1844674407370955161 + 1) 0); [lia|].
    destruct (Z.ltb_spec (2 ^ 64 - 1) (0 * 10 + n)); [lia|]. by replace (0 * 10 + n)%Z with n by lia.
  - rewrite IH; [|split; [lia|]|].
    + cbn [parse_uint_loop]. rewrite digit_of_char by done. unfold max_uint64 in *.
      rewrite Hcut.
      destruct (Z.leb_spec (1844674407370955161 + 1) (n / 10)); [lia|].
      replace (n / 10 * 10 + n mod 10)%Z with n by lia.
      destruct (Z.ltb_spec (2 ^ 64 - 1) n); [lia|done].
    + lia.
    + rewrite Nat2Z.inj_succ, Z.pow_succ_r in Hf by lia. lia.
Qed.

Lemma itoa_from_head f n acc :
  (0 <= n)%Z -> exists d t, itoa_from (S f) n acc = String (digit_char d) t /\ (0 <= d < 10)%Z.
Proof.
  revert n acc. induction f as [|f IH]; intros n acc Hn; cbn [itoa_from];
    fold (digit_char (n mod 10)); pose proof (Z.mod_pos_bound n 10 ltac:(lia)).
  - destruct (n <? 10)%Z; eauto.
  - destruct (n <? 10)%Z; [eauto|]. apply IH, Z.div_pos; lia.
Qed.

Lemma itoa_from_plain f n acc :
  (0 <= n)%Z -> wordy acc = true -> wordy (itoa_from f n acc) = true.
Proof.
  revert n acc. induction f as [|f IH]; intros n acc Hn Hacc; cbn [itoa_from]; [done|].
  fold (digit_char (n mod 10)).
  assert (Hw : wordy (String (digit_char (n mod 10)) acc) = true).
  { cbn. destruct (digit_char_plain (n mod 10)) as [-> _]; [|done].
    apply Z.mod_pos_bound. lia. }
  destruct (n <? 10)%Z; [done|]. apply IH; [|done]. apply Z.div_pos; lia.
Qed.

Lemma Itoa_nonneg n : (0 <= n)%Z -> Itoa n = itoa_from 20 n "".
Proof. intros H. unfold Itoa. destruct (Z.ltb_spec n 0); [lia|done]. Qed.

Lemma Itoa_word n : (0 <= n)%Z -> wordy (Itoa n) = true /\ Itoa n <> "".
Proof.
  intros H. rewrite Itoa_nonneg by done. split; [by apply itoa_from_plain|].
  by destruct (itoa_from_head 19 n "" H) as (d & t & -> & _).
Qed.

Lemma ParseUint_Itoa n : is_uint64 n -> ParseUint (Itoa n) = (n, None).
Proof.
  intros [H0 H1]. unfold ParseUint. destruct (Itoa_word n H0) as [_ Hne].
  apply String.eqb_neq in Hne. rewrite Hne, Itoa_nonneg, parse_itoa by (unfold max_uint64; lia). done.
Qed.

Lemma Atoi_Itoa n : (0 <= n < 2 ^ 63)%Z -> Atoi (Itoa n) = (n, None).
Proof.
  intros H. pose proof (ParseUint_Itoa n ltac:(unfold is_uint64; lia)) as Hp.
  unfold Atoi, ParseInt. rewrite Itoa_nonneg in * by lia.
  destruct (itoa_from_head 19 n "") as (d & t & E & Hd); [lia|]. rewrite E in *.
  destruct (digit_char_plain d Hd) as (_ & Hp1 & Hp2).
  apply Ascii.eqb_neq in Hp1, Hp2. rewrite Hp1, Hp2, Hp. cbn [negb andb].
  by destruct (Z.leb_spec (2 ^ 63) n); [lia|].
Qed.

Lemma Itoa_inj n m : (0 <= n < 2 ^ 63)%Z -> (0 <= m < 2 ^ 63)%Z -> Itoa n = Itoa m -> n = m.
Proof. intros Hn Hm E. apply (f_equal (fun s => (Atoi s).1)) in E. by rewrite !Atoi_Itoa in E. Qed.

Lemma wordy_trimmed s : wordy s = true -> trimmed s = true.
Proof.
  intros H. apply String.eqb_eq. unfold TrimSpace.
  assert (Hl : trim_left_space s = s).
  { apply trim_left_space_fix. destruct s as [|c s]; [done|]. apply space_width_plain.
    cbn in H. by bool_crush. }
  rewrite Hl. clear Hl. induction s as [|c s IH]; [done|].
  cbn in H. apply andb_true_iff in H as [Hc%negb_true_iff H].
  pose proof (trim_right_space_app "" c s Hc) as E. rewrite !str_app_nil_l in E. by rewrite E, IH.
Qed.
