(* ===== verification/GoPath.v ===== *)
(** * Go's [path/filepath] on Unix: [IsAbs], [Clean], [Dir], [Base]

    [Clean] works on the elements of the path: it drops empty elements and ["."],
    and lets [".."] remove the element before it. An absolute clean path is
    ["/"] followed by its elements joined with ["/"] ([abs_path]); the ancestors
    the trust check walks are the paths of the proper prefixes of that list. *)

From S2P Require Import Prelude GoStrings.

Definition SLASH : ascii := "/"%char.

Definition IsAbs (path : string) : bool := HasPrefix path "/".

(** One element of the path, against the elements kept so far (last first). *)
Definition clean_step (rooted : bool) (kept : list string) (elem : string) : list string :=
  if String.eqb elem "" || String.eqb elem "." then kept
  else if String.eqb elem ".." then
    match kept with
    | [] => if rooted then [] else [".."]
    | e :: kept' => if String.eqb e ".." then ".." :: kept else kept'
    end
  else elem :: kept.

Definition clean_elems (rooted : bool) (elems : list string) : list string :=
  rev (fold_left (clean_step rooted) elems []).

Definition abs_path (elems : list string) : string := "/" +:+ join_byte SLASH elems.

Definition Clean (path : string) : string :=
  if String.eqb path "" then "."
  else if IsAbs path then abs_path (clean_elems true (split_byte SLASH path))
  else match clean_elems false (split_byte SLASH path) with
       | [] => "."
       | elems => join_byte SLASH elems
       end.

(** [path[:i+1]] for the last separator [i] of the path. *)
Definition up_to_last_slash (path : string) : string :=
  match LastIndexByte path SLASH with
  | None => ""
  | Some i => str_take (S i) path
  end.

Definition Dir (path : string) : string := Clean (up_to_last_slash path).

Definition Base (path : string) : string :=
  if String.eqb path "" then "."
  else
    let p := trim_right_byte SLASH path in
    let b := match LastIndexByte p SLASH with None => p | Some i => str_drop (S i) p end in
    if String.eqb b "" then "/" else b.

(** ** Elements of a clean path *)

(** What an element of a clean absolute path looks like. *)
Definition plain_elem (e : string) : bool :=
  negb (String.eqb e "") && negb (String.eqb e ".") && negb (String.eqb e "..") &&
  no_byte SLASH e.

Definition plain_elems (es : list string) : Prop := Forall (fun e => plain_elem e = true) es.

Lemma clean_step_plain kept e :
  no_byte SLASH e = true -> plain_elems kept -> plain_elems (clean_step true kept e).
Proof.
  intros Hs Hk. unfold clean_step.
  destruct (String.eqb_spec e ""); [done|]. destruct (String.eqb_spec e "."); [done|]. simpl.
  destruct (String.eqb_spec e "..").
  - destruct Hk as [|k ks Hk Hks]; [constructor|].
    destruct (String.eqb_spec k "..") as [->|]; [|done]. by vm_compute in Hk.
  - constructor; [|done]. unfold plain_elem. rewrite Hs.
    by rewrite !(proj2 (String.eqb_neq e _)) by done.
Qed.

Lemma clean_fold_plain es kept :
  Forall (fun w => no_byte SLASH w = true) es -> plain_elems kept ->
  plain_elems (fold_left (clean_step true) es kept).
Proof.
  revert kept. induction es as [|e es IH]; intros kept Hes Hk; simpl; [done|].
  inversion_clear Hes. apply IH; [done|]. by apply clean_step_plain.
Qed.

Lemma clean_elems_plain es :
  Forall (fun w => no_byte SLASH w = true) es -> plain_elems (clean_elems true es).
Proof. intros H. apply Forall_rev, clean_fold_plain; [done|constructor]. Qed.

Lemma clean_step_keep rooted kept e :
  plain_elem e = true -> clean_step rooted kept e = e :: kept.
Proof.
  unfold plain_elem, clean_step. intros H.
  apply andb_true_iff in H as [[[H1 H2]%andb_true_iff H3]%andb_true_iff _].
  apply negb_true_iff in H1, H2, H3. by rewrite H1, H2, H3.
Qed.

Lemma clean_step_empty rooted kept : clean_step rooted kept "" = kept.
Proof. reflexivity. Qed.

Lemma clean_fold_keep rooted es kept :
  plain_elems es -> fold_left (clean_step rooted) es kept = rev es ++ kept.
Proof.
  revert kept. induction es as [|e es IH]; intros kept H; simpl; [done|].
  inversion_clear H. rewrite clean_step_keep by done. rewrite IH by done.
  by rewrite <- app_assoc.
Qed.

Lemma clean_elems_keep rooted es : plain_elems es -> clean_elems rooted es = es.
Proof.
  intros H. unfold clean_elems. rewrite clean_fold_keep by done.
  by rewrite app_nil_r, rev_involutive.
Qed.

Lemma plain_no_slash es : plain_elems es -> Forall (fun w => no_byte SLASH w = true) es.
Proof.
  intros H. eapply Forall_impl; [exact H|]. simpl. intros e He.
  unfold plain_elem in He. by apply andb_true_iff in He as [_ ?].
Qed.

(** ** Clean *)

Lemma IsAbs_abs_path es : IsAbs (abs_path es) = true.
Proof. apply HasPrefix_app. Qed.

Lemma split_abs_path es :
  plain_elems es -> split_byte SLASH (abs_path es) = "" :: match es with [] => [""] | _ => es end.
Proof.
  intros H. unfold abs_path. rewrite str_app_cons, str_app_nil_l. cbn [split_byte].
  rewrite Ascii.eqb_refl. f_equal. destruct es as [|e es]; [done|].
  apply split_join_byte; [done|by apply plain_no_slash].
Qed.

(** A clean absolute path is left as it is. *)
Lemma Clean_abs_path es : plain_elems es -> Clean (abs_path es) = abs_path es.
Proof.
  intros H. unfold Clean. rewrite IsAbs_abs_path, split_abs_path by done.
  unfold abs_path at 1. rewrite str_app_cons. cbn [String.eqb].
  unfold clean_elems. cbn [fold_left]. change (clean_step true [] "") with (@nil string).
  destruct es as [|e es]; [done|]. fold (clean_elems true (e :: es)).
  by rewrite clean_elems_keep.
Qed.

(** The elements of the cleaned form of an absolute path. *)
Definition abs_elems (path : string) : list string := clean_elems true (split_byte SLASH path).

Lemma abs_elems_plain path : plain_elems (abs_elems path).
Proof. apply clean_elems_plain, split_byte_Forall. Qed.

Lemma IsAbs_not_empty path : IsAbs path = true -> String.eqb path "" = false.
Proof. by destruct path. Qed.

Lemma Clean_abs path : IsAbs path = true -> Clean path = abs_path (abs_elems path).
Proof. intros H. unfold Clean. by rewrite (IsAbs_not_empty path H), H. Qed.

(** Cleaning twice is cleaning once. *)
Lemma Clean_idem_abs path : IsAbs path = true -> Clean (Clean path) = Clean path.
Proof. intros H. rewrite (Clean_abs path H). apply Clean_abs_path, abs_elems_plain. Qed.

Lemma IsAbs_Clean path : IsAbs path = true -> IsAbs (Clean path) = true.
Proof. intros H. rewrite Clean_abs by done. apply IsAbs_abs_path. Qed.

(** ** Dir *)

Lemma no_byte_LastIndexByte b s : no_byte b s = true -> LastIndexByte s b = None.
Proof.
  unfold no_byte. induction s as [|c s IH]; simpl; [done|].
  intros [Hc%negb_true_iff H]%andb_true_iff. by rewrite IH, Hc.
Qed.

Lemma join_byte_snoc b es e :
  es <> [] -> join_byte b (es ++ [e]) = join_byte b es +:+ String b e.
Proof.
  induction es as [|w ws IH]; [done|]. intros _. destruct ws as [|w' ws]; [done|].
  change (w +:+ String b (join_byte b ((w' :: ws) ++ [e])) =
          (w +:+ String b (join_byte b (w' :: ws))) +:+ String b e).
  rewrite IH by done. by rewrite str_app_assoc, str_app_cons.
Qed.

Lemma str_take_S_app p c s : str_take (S (String.length p)) (p +:+ String c s) = p +:+ byte_string c.
Proof.
  induction p as [|d p IH]; [by rewrite !str_app_nil_l|].
  rewrite !str_app_cons. cbn [String.length]. cbn [str_take] in *. by rewrite IH.
Qed.

Lemma up_to_last_slash_app p e :
  no_byte SLASH e = true -> up_to_last_slash (p +:+ String SLASH e) = p +:+ "/".
Proof.
  intros H. unfold up_to_last_slash. rewrite LastIndexByte_app by exact H.
  apply str_take_S_app.
Qed.

Lemma split_byte_trailing b es :
  es <> [] -> Forall (fun w => no_byte b w = true) es ->
  split_byte b (join_byte b es +:+ byte_string b) = es ++ [""].
Proof.
  induction es as [|w ws IH]; [done|]. intros _ Hall. inversion_clear Hall as [|? ? Hw Hws].
  destruct ws as [|w' ws].
  - simpl. unfold byte_string. by rewrite split_byte_app.
  - change (join_byte b (w :: w' :: ws)) with (w +:+ String b (join_byte b (w' :: ws))).
    rewrite str_app_assoc, str_app_cons, split_byte_app by done. by rewrite IH.
Qed.

(** The directory of a clean absolute path drops its last element. *)
Lemma Dir_abs_path es e :
  plain_elems (es ++ [e]) -> Dir (abs_path (es ++ [e])) = abs_path es.
Proof.
  intros [Hes He]%Forall_app. inversion_clear He as [|? ? Hp _].
  assert (Hn : no_byte SLASH e = true) by (unfold plain_elem in Hp; by apply andb_true_iff in Hp as [_ ?]).
  unfold Dir, abs_path. destruct es as [|e0 es0].
  - change (Clean (up_to_last_slash ("" +:+ String SLASH e)) = "/").
    by rewrite up_to_last_slash_app.
  - set (es := e0 :: es0) in *. rewrite join_byte_snoc by done.
    rewrite <- str_app_assoc, up_to_last_slash_app by done.
    rewrite str_app_assoc. unfold Clean.
    assert (Habs : IsAbs ("/" +:+ join_byte SLASH es +:+ "/") = true) by apply HasPrefix_app.
    rewrite Habs, str_app_cons, str_app_nil_l. cbn [String.eqb].
    unfold abs_path. rewrite str_app_cons, str_app_nil_l. do 2 f_equal.
    cbn [split_byte]. rewrite Ascii.eqb_refl.
    change "/" with (byte_string SLASH).
    rewrite (split_byte_trailing SLASH es) by (done || by apply plain_no_slash).
    unfold clean_elems. cbn [fold_left]. change (clean_step true [] "") with (@nil string).
    rewrite fold_left_app, (clean_fold_keep true es []) by done. cbn [fold_left].
    rewrite clean_step_empty, app_nil_r. apply rev_involutive.
Qed.

Lemma Dir_root : Dir "/" = "/".
Proof. reflexivity. Qed.

Lemma abs_path_inj es es' :
  plain_elems es -> plain_elems es' -> abs_path es = abs_path es' -> es = es'.
Proof.
  intros H H' E. apply (f_equal (split_byte SLASH)) in E.
  rewrite !split_abs_path in E by done. injection E as E.
  destruct es, es'; try done; destruct H, H'; naive_solver.
Qed.
