(* ===== verification/Regexp.v ===== *)
(** * Regular expressions (package regexp, as discover.go uses it)

    Regular expressions over bytes, their language, and a matcher by derivatives
    proved to decide it. No rune of more than one byte occurs in the patterns of
    the library, and [.] refuses only a line feed, which no longer rune contains,
    so matching bytes and matching runes agree. *)

From S2P Require Import Prelude GoStrings.

Inductive regex :=
  | Nothing
  | Epsilon
  | Class_ (P : ascii -> bool)
  | Seq (r1 r2 : regex)
  | Alt (r1 r2 : regex)
  | Star (r : regex).

Inductive matches : regex -> string -> Prop :=
  | MEpsilon : matches Epsilon ""
  | MClass P c : P c = true -> matches (Class_ P) (byte_string c)
  | MSeq r1 r2 s1 s2 : matches r1 s1 -> matches r2 s2 -> matches (Seq r1 r2) (s1 +:+ s2)
  | MAltL r1 r2 s : matches r1 s -> matches (Alt r1 r2) s
  | MAltR r1 r2 s : matches r2 s -> matches (Alt r1 r2) s
  | MStarNil r : matches (Star r) ""
  | MStarCons r s1 s2 : matches r s1 -> matches (Star r) s2 -> matches (Star r) (s1 +:+ s2).

(** ** The matcher *)

Fixpoint nullable (r : regex) : bool :=
  match r with
  | Nothing | Class_ _ => false
  | Epsilon | Star _ => true
  | Seq r1 r2 => nullable r1 && nullable r2
  | Alt r1 r2 => nullable r1 || nullable r2
  end.

Fixpoint deriv (c : ascii) (r : regex) : regex :=
  match r with
  | Nothing | Epsilon => Nothing
  | Class_ P => if P c then Epsilon else Nothing
  | Seq r1 r2 =>
      if nullable r1 then Alt (Seq (deriv c r1) r2) (deriv c r2) else Seq (deriv c r1) r2
  | Alt r1 r2 => Alt (deriv c r1) (deriv c r2)
  | Star r => Seq (deriv c r) (Star r)
  end.

(** [^r$] matched against the whole of [s]. *)
Fixpoint full_match (r : regex) (s : string) : bool :=
  match s with
  | "" => nullable r
  | String c s' => full_match (deriv c r) s'
  end.

(** ** Pattern notation *)

Fixpoint Lit (w : string) : regex :=
  match w with
  | "" => Epsilon
  | String c w' => Seq (Class_ (Ascii.eqb c)) (Lit w')
  end.

Definition Opt (r : regex) : regex := Alt r Epsilon.

(** [.], without the [s] flag. *)
Definition AnyChar : regex := Class_ (fun c => negb (Ascii.eqb c LF)).

Definition Digit : regex := Class_ (in_byte_range 48 57).

(** ** The matcher decides the language *)

Lemma nullable_spec r : nullable r = true <-> matches r "".
Proof.
  split.
  - induction r; cbn; intros H; try discriminate; try (by constructor).
    + apply andb_true_iff in H as [H1 H2]. rewrite <- (str_app_nil_l ""). constructor; auto.
    + apply orb_true_iff in H as [H|H]; [by apply MAltL, IHr1|by apply MAltR, IHr2].
  - intros H. remember "" as s eqn:Es. induction H; cbn; try done.
    + apply (f_equal String.length) in Es. rewrite str_length_app in Es. cbn in Es.
      rewrite IHmatches1, IHmatches2; [done|destruct s2|destruct s1]; cbn in *; (done || lia).
    + by rewrite IHmatches.
    + rewrite IHmatches by done. by rewrite orb_true_r.
Qed.

Lemma star_cons_inv r c s :
  matches (Star r) (String c s) ->
  exists s1 s2, s = s1 +:+ s2 /\ matches r (String c s1) /\ matches (Star r) s2.
Proof.
  intros H. remember (Star r) as r' eqn:Er. remember (String c s) as s' eqn:Es.
  revert Er Es. induction H as [|?|? ? ? ? ? ? ? ?|? ? ? ?|? ? ? ?|?|r' s1 s2 H1 IH1 H2 IH2];
    intros Er Es; try done.
  injection Er as ->. destruct s1 as [|c' s1]; [by apply IH2|].
  rewrite str_app_cons in Es. injection Es as -> <-. by exists s1, s2.
Qed.

Lemma deriv_spec c r s : matches (deriv c r) s <-> matches r (String c s).
Proof.
  revert s. induction r as [| |P|r1 IH1 r2 IH2|r1 IH1 r2 IH2|r IH]; intros s; cbn [deriv].
  - split; inversion 1.
  - split; inversion 1.
  - destruct (P c) eqn:EP; split; intros H; inversion H; subst; try congruence; by constructor.
  - assert (Hseq : matches (Seq (deriv c r1) r2) s -> matches (Seq r1 r2) (String c s)).
    { inversion 1; subst. rewrite <- str_app_cons. constructor; [by apply IH1|done]. }
    assert (Hinv : matches (Seq r1 r2) (String c s) ->
      matches (Seq (deriv c r1) r2) s \/ (matches r1 "" /\ matches (deriv c r2) s)).
    { inversion 1 as [| |? ? s1 s2 H1 H2 E1 E2| | | |]; subst. destruct s1 as [|c' s1].
      - right. rewrite str_app_nil_l in E2. subst. split; [done|]. by apply IH2.
      - left. rewrite str_app_cons in E2. injection E2 as -> <-. constructor; [by apply IH1|done]. }
    destruct (nullable r1) eqn:En.
    + split.
      * inversion 1 as [| | |? ? ? H1|? ? ? H1| |]; subst; [by apply Hseq|].
        rewrite <- (str_app_nil_l (String c s)). constructor; [by apply nullable_spec|by apply IH2].
      * intros [H|[_ H]]%Hinv; [by apply MAltL|by apply MAltR].
    + split; [done|]. intros [H|[H _]]%Hinv; [done|]. apply nullable_spec in H. congruence.
  - split; inversion 1; subst; (by apply MAltL, IH1) || (by apply MAltR, IH2).
  - split.
    + inversion 1; subst. rewrite <- str_app_cons. constructor; [by apply IH|done].
    + intros (s1 & s2 & -> & H1 & H2)%star_cons_inv. constructor; [by apply IH|done].
Qed.

Lemma full_match_spec r s : full_match r s = true <-> matches r s.
Proof.
  revert r. induction s as [|c s IH]; intros r; cbn [full_match]; [apply nullable_spec|].
  rewrite IH. apply deriv_spec.
Qed.

(** ** Languages of the building blocks *)

Lemma matches_Seq r1 r2 s :
  matches (Seq r1 r2) s <-> exists s1 s2, s = s1 +:+ s2 /\ matches r1 s1 /\ matches r2 s2.
Proof.
  split; [inversion 1; subst; eauto|]. intros (s1 & s2 & -> & ? & ?). by constructor.
Qed.

Lemma matches_Lit w s : matches (Lit w) s <-> s = w.
Proof.
  revert s. induction w as [|c w IH]; intros s; cbn [Lit].
  - split; [by inversion 1|intros ->; constructor].
  - rewrite matches_Seq. split.
    + intros (s1 & s2 & -> & H1 & ->%IH). inversion H1 as [|P c' Hc| | | | |]; subst.
      by apply Ascii.eqb_eq in Hc as ->.
    + intros ->. exists (byte_string c), w. split; [done|]. split; [|by apply IH].
      constructor. apply Ascii.eqb_refl.
Qed.

Lemma matches_star_class P s : matches (Star (Class_ P)) s <-> str_forall P s = true.
Proof.
  split.
  - intros H. remember (Star (Class_ P)) as r eqn:Er. induction H; simplify_eq; [done|].
    rewrite str_forall_app. inversion H; subst. cbn. rewrite IHmatches2 by done.
    by rewrite andb_true_r, andb_true_r.
  - induction s as [|c s IH]; cbn; [constructor|]. intros [Hc Hs]%andb_true_iff.
    change (String c s) with (byte_string c +:+ s). constructor; [by constructor|auto].
Qed.

Lemma matches_any s : matches (Star AnyChar) s <-> no_byte LF s = true.
Proof. apply matches_star_class. Qed.

Lemma matches_Opt_digit s : matches (Opt Digit) s -> no_byte LF s = true.
Proof.
  inversion 1 as [| | |? ? ? H1|? ? ? H1| |]; subst; inversion H1; subst; [|done].
  cbn. destruct (Ascii.eqb_spec c LF) as [->|]; [|done]. discriminate.
Qed.
