(* ===== verification/Captured.v ===== *)
(** * A captured report (testdata/php-fpm-tt.txt)

    The lines php-fpm wrote for a configuration with two pools, as they are, and
    what they say: the settings of each section, an unset one as the empty
    string. The parser's theorems are applied to them. *)

From S2P Require Import Prelude.

Definition captured_lines : list string := [
  "[12-Aug-2026 23:03:47] NOTICE: [global]";
  "[12-Aug-2026 23:03:47] NOTICE: 	pid = undefined";
  "[12-Aug-2026 23:03:47] NOTICE: 	error_log = /tmp/fx/error.log";
  "[12-Aug-2026 23:03:47] NOTICE: 	syslog.ident = php-fpm";
  "[12-Aug-2026 23:03:47] NOTICE: 	syslog.facility = 24";
  "[12-Aug-2026 23:03:47] NOTICE: 	log_buffering = yes";
  "[12-Aug-2026 23:03:47] NOTICE: 	log_level = unknown value";
  "[12-Aug-2026 23:03:47] NOTICE: 	log_limit = 1024";
  "[12-Aug-2026 23:03:47] NOTICE: 	emergency_restart_interval = 0s";
  "[12-Aug-2026 23:03:47] NOTICE: 	emergency_restart_threshold = 0";
  "[12-Aug-2026 23:03:47] NOTICE: 	process_control_timeout = 0s";
  "[12-Aug-2026 23:03:47] NOTICE: 	process.max = 0";
  "[12-Aug-2026 23:03:47] NOTICE: 	process.priority = undefined";
  "[12-Aug-2026 23:03:47] NOTICE: 	daemonize = no";
  "[12-Aug-2026 23:03:47] NOTICE: 	rlimit_files = 0";
  "[12-Aug-2026 23:03:47] NOTICE: 	rlimit_core = 0";
  "[12-Aug-2026 23:03:47] NOTICE: 	events.mechanism = kqueue";
  "[12-Aug-2026 23:03:47] NOTICE:  ";
  "[12-Aug-2026 23:03:47] NOTICE: [www]";
  "[12-Aug-2026 23:03:47] NOTICE: 	prefix = undefined";
  "[12-Aug-2026 23:03:47] NOTICE: 	user = undefined";
  "[12-Aug-2026 23:03:47] NOTICE: 	group = undefined";
  "[12-Aug-2026 23:03:47] NOTICE: 	listen = /tmp/fx/www.sock";
  "[12-Aug-2026 23:03:47] NOTICE: 	listen.backlog = -1";
  "[12-Aug-2026 23:03:47] NOTICE: 	listen.owner = undefined";
  "[12-Aug-2026 23:03:47] NOTICE: 	listen.group = undefined";
  "[12-Aug-2026 23:03:47] NOTICE: 	listen.mode = undefined";
  "[12-Aug-2026 23:03:47] NOTICE: 	listen.allowed_clients = undefined";
  "[12-Aug-2026 23:03:47] NOTICE: 	process.priority = undefined";
  "[12-Aug-2026 23:03:47] NOTICE: 	process.dumpable = no";
  "[12-Aug-2026 23:03:47] NOTICE: 	pm = dynamic";
  "[12-Aug-2026 23:03:47] NOTICE: 	pm.max_children = 5";
  "[12-Aug-2026 23:03:47] NOTICE: 	pm.start_servers = 2";
  "[12-Aug-2026 23:03:47] NOTICE: 	pm.min_spare_servers = 1";
  "[12-Aug-2026 23:03:47] NOTICE: 	pm.max_spare_servers = 3";
  "[12-Aug-2026 23:03:47] NOTICE: 	pm.max_spawn_rate = 32";
  "[12-Aug-2026 23:03:47] NOTICE: 	pm.process_idle_timeout = 10";
  "[12-Aug-2026 23:03:47] NOTICE: 	pm.max_requests = 500";
  "[12-Aug-2026 23:03:47] NOTICE: 	pm.status_path = /status";
  "[12-Aug-2026 23:03:47] NOTICE: 	pm.status_listen = undefined";
  "[12-Aug-2026 23:03:47] NOTICE: 	ping.path = undefined";
  "[12-Aug-2026 23:03:47] NOTICE: 	ping.response = undefined";
  "[12-Aug-2026 23:03:47] NOTICE: 	access.log = undefined";
  "[12-Aug-2026 23:03:47] NOTICE: 	access.format = undefined";
  "[12-Aug-2026 23:03:47] NOTICE: 	slowlog = undefined";
  "[12-Aug-2026 23:03:47] NOTICE: 	request_slowlog_timeout = 0s";
  "[12-Aug-2026 23:03:47] NOTICE: 	request_slowlog_trace_depth = 20";
  "[12-Aug-2026 23:03:47] NOTICE: 	request_terminate_timeout = 120s";
  "[12-Aug-2026 23:03:47] NOTICE: 	request_terminate_timeout_track_finished = no";
  "[12-Aug-2026 23:03:47] NOTICE: 	rlimit_files = 0";
  "[12-Aug-2026 23:03:47] NOTICE: 	rlimit_core = 0";
  "[12-Aug-2026 23:03:47] NOTICE: 	chroot = undefined";
  "[12-Aug-2026 23:03:47] NOTICE: 	chdir = undefined";
  "[12-Aug-2026 23:03:47] NOTICE: 	catch_workers_output = no";
  "[12-Aug-2026 23:03:47] NOTICE: 	decorate_workers_output = yes";
  "[12-Aug-2026 23:03:47] NOTICE: 	clear_env = yes";
  "[12-Aug-2026 23:03:47] NOTICE: 	security.limit_extensions = .php .phar";
  "[12-Aug-2026 23:03:47] NOTICE: 	env[DB_PASSWORD] = secret-should-not-be-exported";
  "[12-Aug-2026 23:03:47] NOTICE:  ";
  "[12-Aug-2026 23:03:47] NOTICE: [api]";
  "[12-Aug-2026 23:03:47] NOTICE: 	prefix = undefined";
  "[12-Aug-2026 23:03:47] NOTICE: 	user = undefined";
  "[12-Aug-2026 23:03:47] NOTICE: 	group = undefined";
  "[12-Aug-2026 23:03:47] NOTICE: 	listen = /tmp/fx/api.sock";
  "[12-Aug-2026 23:03:47] NOTICE: 	listen.backlog = -1";
  "[12-Aug-2026 23:03:47] NOTICE: 	listen.owner = undefined";
  "[12-Aug-2026 23:03:47] NOTICE: 	listen.group = undefined";
  "[12-Aug-2026 23:03:47] NOTICE: 	listen.mode = undefined";
  "[12-Aug-2026 23:03:47] NOTICE: 	listen.allowed_clients = undefined";
  "[12-Aug-2026 23:03:47] NOTICE: 	process.priority = undefined";
  "[12-Aug-2026 23:03:47] NOTICE: 	process.dumpable = no";
  "[12-Aug-2026 23:03:47] NOTICE: 	pm = static";
  "[12-Aug-2026 23:03:47] NOTICE: 	pm.max_children = 3";
  "[12-Aug-2026 23:03:47] NOTICE: 	pm.start_servers = 0";
  "[12-Aug-2026 23:03:47] NOTICE: 	pm.min_spare_servers = 0";
  "[12-Aug-2026 23:03:47] NOTICE: 	pm.max_spare_servers = 0";
  "[12-Aug-2026 23:03:47] NOTICE: 	pm.max_spawn_rate = 32";
  "[12-Aug-2026 23:03:47] NOTICE: 	pm.process_idle_timeout = 10";
  "[12-Aug-2026 23:03:47] NOTICE: 	pm.max_requests = 0";
  "[12-Aug-2026 23:03:47] NOTICE: 	pm.status_path = /status";
  "[12-Aug-2026 23:03:47] NOTICE: 	pm.status_listen = undefined";
  "[12-Aug-2026 23:03:47] NOTICE: 	ping.path = undefined";
  "[12-Aug-2026 23:03:47] NOTICE: 	ping.response = undefined";
  "[12-Aug-2026 23:03:47] NOTICE: 	access.log = undefined";
  "[12-Aug-2026 23:03:47] NOTICE: 	access.format = undefined";
  "[12-Aug-2026 23:03:47] NOTICE: 	slowlog = undefined";
  "[12-Aug-2026 23:03:47] NOTICE: 	request_slowlog_timeout = 0s";
  "[12-Aug-2026 23:03:47] NOTICE: 	request_slowlog_trace_depth = 20";
  "[12-Aug-2026 23:03:47] NOTICE: 	request_terminate_timeout = 0s";
  "[12-Aug-2026 23:03:47] NOTICE: 	request_terminate_timeout_track_finished = no";
  "[12-Aug-2026 23:03:47] NOTICE: 	rlimit_files = 0";
  "[12-Aug-2026 23:03:47] NOTICE: 	rlimit_core = 0";
  "[12-Aug-2026 23:03:47] NOTICE: 	chroot = undefined";
  "[12-Aug-2026 23:03:47] NOTICE: 	chdir = undefined";
  "[12-Aug-2026 23:03:47] NOTICE: 	catch_workers_output = no";
  "[12-Aug-2026 23:03:47] NOTICE: 	decorate_workers_output = yes";
  "[12-Aug-2026 23:03:47] NOTICE: 	clear_env = yes";
  "[12-Aug-2026 23:03:47] NOTICE: 	security.limit_extensions = .php .phar";
  "[12-Aug-2026 23:03:47] NOTICE:  ";
  "[12-Aug-2026 23:03:47] NOTICE: configuration file /tmp/fx/pool.conf test is successful"].

Definition captured_globals : list (string * string) := [
  ("pid", ""); ("error_log", "/tmp/fx/error.log"); ("syslog.ident", "php-fpm");
  ("syslog.facility", "24"); ("log_buffering", "yes"); ("log_level", "unknown value");
  ("log_limit", "1024"); ("emergency_restart_interval", "0s");
  ("emergency_restart_threshold", "0"); ("process_control_timeout", "0s"); ("process.max", "0");
  ("process.priority", ""); ("daemonize", "no"); ("rlimit_files", "0"); ("rlimit_core", "0");
  ("events.mechanism", "kqueue")].

Definition captured_pools : list (string * list (string * string)) := [
  ("www", [
    ("prefix", ""); ("user", ""); ("group", ""); ("listen", "/tmp/fx/www.sock");
    ("listen.backlog", "-1"); ("listen.owner", ""); ("listen.group", ""); ("listen.mode", "");
    ("listen.allowed_clients", ""); ("process.priority", ""); ("process.dumpable", "no");
    ("pm", "dynamic"); ("pm.max_children", "5"); ("pm.start_servers", "2");
    ("pm.min_spare_servers", "1"); ("pm.max_spare_servers", "3"); ("pm.max_spawn_rate", "32");
    ("pm.process_idle_timeout", "10"); ("pm.max_requests", "500"); ("pm.status_path", "/status");
    ("pm.status_listen", ""); ("ping.path", ""); ("ping.response", ""); ("access.log", "");
    ("access.format", ""); ("slowlog", ""); ("request_slowlog_timeout", "0s");
    ("request_slowlog_trace_depth", "20"); ("request_terminate_timeout", "120s");
    ("request_terminate_timeout_track_finished", "no"); ("rlimit_files", "0");
    ("rlimit_core", "0"); ("chroot", ""); ("chdir", ""); ("catch_workers_output", "no");
    ("decorate_workers_output", "yes"); ("clear_env", "yes");
    ("security.limit_extensions", ".php .phar");
    ("env[DB_PASSWORD]", "secret-should-not-be-exported")]);
  ("api", [
    ("prefix", ""); ("user", ""); ("group", ""); ("listen", "/tmp/fx/api.sock");
    ("listen.backlog", "-1"); ("listen.owner", ""); ("listen.group", ""); ("listen.mode", "");
    ("listen.allowed_clients", ""); ("process.priority", ""); ("process.dumpable", "no");
    ("pm", "static"); ("pm.max_children", "3"); ("pm.start_servers", "0");
    ("pm.min_spare_servers", "0"); ("pm.max_spare_servers", "0"); ("pm.max_spawn_rate", "32");
    ("pm.process_idle_timeout", "10"); ("pm.max_requests", "0"); ("pm.status_path", "/status");
    ("pm.status_listen", ""); ("ping.path", ""); ("ping.response", ""); ("access.log", "");
    ("access.format", ""); ("slowlog", ""); ("request_slowlog_timeout", "0s");
    ("request_slowlog_trace_depth", "20"); ("request_terminate_timeout", "0s");
    ("request_terminate_timeout_track_finished", "no"); ("rlimit_files", "0");
    ("rlimit_core", "0"); ("chroot", ""); ("chdir", ""); ("catch_workers_output", "no");
    ("decorate_workers_output", "yes"); ("clear_env", "yes");
    ("security.limit_extensions", ".php .phar")])].

Definition captured_stamp : string := "12-Aug-2026 23:03:47".
Definition captured_path : string := "/tmp/fx/pool.conf".
