(* ===== verification/Config.v ===== *)
(** * The parser of [php-fpm -tt] (config.go: parseFPMConfigOutput)

    The report is scanned line by line; [parse_line] is the loop body, on the
    current section and the configuration built so far. *)

From S2P Require Import Prelude GoStrings Captured.

(** [EffectiveConfig]: the global settings, and one map per pool. *)
Record EffectiveConfig := mkConfig {
  Global : gmap string string;
  Pools : gmap string (gmap string string)
}.

#[export] Instance EffectiveConfig_eq_dec : EqDecision EffectiveConfig.
Proof. solve_decision. Defined.

(** ** bufio.Scanner with ScanLines *)

Definition MaxScanTokenSize : Z := 65536.

Inductive scan_error := ErrTooLong.

Definition drop_cr (line : string) : string := TrimSuffix line (byte_string CR).

(** The lines of the input; an empty last line (the input ended with a newline,
    or is empty) is no token. *)
Fixpoint drop_last_empty (ws : list string) : list string :=
  match ws with
  | [] => []
  | [w] => if String.eqb w "" then [] else [w]
  | w :: ws' => w :: drop_last_empty ws'
  end.

Definition raw_lines (input : string) : list string := drop_last_empty (split_byte LF input).

Definition line_fits (line : string) : bool :=
  (Z.of_nat (String.length line) <? MaxScanTokenSize)%Z.

(** The tokens, or the error of the first line the buffer cannot hold. *)
Definition scan_lines (input : string) : result scan_error (list string) :=
  if forallb line_fits (raw_lines input) then Ok (map drop_cr (raw_lines input))
  else Err ErrTooLong.

(** ** One line *)

Definition notice_mark : string := "] NOTICE:".

(** Everything the loop does to a line before it looks at it. *)
Definition clean_line (text : string) : string :=
  let line := TrimSpace text in
  let line := match Index line notice_mark with
              | Some idx => TrimSpace (str_drop (idx + String.length notice_mark) line)
              | None => line
              end in
  let line := ReplaceAll line "\t" "" in
  let line := ReplaceAll line (byte_string TAB) "" in
  TrimSpace (Trim line QUOTE).

Definition add_pool (section : string) (pools : gmap string (gmap string string)) :
    gmap string (gmap string string) :=
  match pools !! section with Some _ => pools | None => <[section := ∅]> pools end.

Definition set_pool_value (section key val : string) (pools : gmap string (gmap string string)) :
    gmap string (gmap string string) :=
  let pools := add_pool section pools in
  <[section := <[key := val]> (default ∅ (pools !! section))]> pools.

Record parser := mkParser { currentSection : string; fpmconfig : EffectiveConfig }.

Definition parse_setting (st : parser) (before after : string) : parser :=
  let key := Trim (TrimSpace before) QUOTE in
  let val := Trim (TrimSpace after) QUOTE in
  let val := if String.eqb val "undefined" then "" else val in
  let cfg := fpmconfig st in
  if negb (String.eqb (currentSection st) "global")
  then mkParser (currentSection st)
         (mkConfig (Global cfg) (set_pool_value (currentSection st) key val (Pools cfg)))
  else mkParser (currentSection st) (mkConfig (<[key := val]> (Global cfg)) (Pools cfg)).

Definition parse_section (st : parser) (line : string) : parser :=
  let section := TrimSuffix (TrimPrefix line "[") "]" in
  let cfg := fpmconfig st in
  if String.eqb section "global" then mkParser "global" cfg
  else mkParser section (mkConfig (Global cfg) (add_pool section (Pools cfg))).

Definition parse_line (st : parser) (text : string) : parser :=
  let line := clean_line text in
  if String.eqb line "" || HasPrefix line ";" then st
  else if HasPrefix line "[" && HasSuffix line "]" then parse_section st line
  else match cut_byte "="%char line with
       | Some (before, after) => parse_setting st before after
       | None => st
       end.

Definition empty_config : EffectiveConfig := mkConfig ∅ ∅.

Definition parseFPMConfigOutput (output : string) : result scan_error EffectiveConfig :=
  match scan_lines output with
  | Err e => Err e
  | Ok lines => Ok (fpmconfig (fold_left parse_line lines (mkParser "global" empty_config)))
  end.

(** ** The report php-fpm prints

    What [php-fpm -tt] writes for a configuration: one [NOTICE] line per setting,
    indented with a tab, under a line naming the section, an unset string shown as
    [undefined]; a blank line after each section; and a last line saying that the
    file was tested. Each line carries a time stamp of its own. *)

Definition notice (stamp body : string) : string := "[" +:+ stamp +:+ "] NOTICE: " +:+ body.

Definition show_value (v : string) : string := if String.eqb v "" then "undefined" else v.

Definition setting_body (kv : string * string) : string :=
  String TAB (kv.1 +:+ " = " +:+ show_value kv.2).

Definition section_body (name : string) : string := "[" +:+ name +:+ "]".

Definition closing_body (path : string) : string :=
  "configuration file " +:+ path +:+ " test is successful".

Definition block_bodies (name : string) (kvs : list (string * string)) : list string :=
  section_body name :: map setting_body kvs ++ [" "].

Definition report_bodies (globals : list (string * string))
    (pools : list (string * list (string * string))) (path : string) : list string :=
  block_bodies "global" globals ++ concat (map (fun p => block_bodies p.1 p.2) pools) ++
  [closing_body path].

Fixpoint terminate_lines (ws : list string) : string :=
  match ws with
  | [] => ""
  | w :: ws' => w +:+ String LF (terminate_lines ws')
  end.

(** The bodies of a configuration's report, in the order maps are listed, and the
    report under the given stamps. *)
Definition config_bodies (path : string) (cfg : EffectiveConfig) : list string :=
  report_bodies (map_to_list (Global cfg))
    (map (fun p => (p.1, map_to_list p.2)) (map_to_list (Pools cfg))) path.

Definition render (stamps : list string) (path : string) (cfg : EffectiveConfig) : string :=
  terminate_lines (zip_with notice stamps (config_bodies path cfg)).

(** ** Configurations php-fpm can print

    The text of a key, a value or a name survives the parser's cleaning when it
    has no line break, tab or literal [\t], no space or quote at its ends, and
    (keys) no ["="] and no leading ["["] or [";"]. An ["="] in the path of the
    configuration file makes a setting of the last line. *)

Definition text_ok (s : string) : bool :=
  no_byte LF s && no_byte TAB s && bool_decide (Index s "\t" = None).

Definition edges_ok (s : string) : bool := trimmed s && unquoted QUOTE s.

Definition key_ok (k : string) : bool :=
  negb (String.eqb k "") && text_ok k && edges_ok k && no_byte "="%char k &&
  negb (HasPrefix k "[") && negb (HasPrefix k ";").

Definition value_ok (v : string) : bool :=
  negb (String.eqb v "undefined") && text_ok v && edges_ok v.

Definition section_ok (name : string) : bool :=
  negb (String.eqb name "global") && text_ok name.

Definition stamp_ok (stamp : string) : bool := no_byte "]"%char stamp && no_byte LF stamp.

Definition path_ok (path : string) : bool := text_ok path && no_byte "="%char path.

Definition settings_ok (kvs : list (string * string)) : Prop :=
  Forall (fun kv => key_ok kv.1 = true /\ value_ok kv.2 = true) kvs.

Definition pool_ok (p : string * list (string * string)) : Prop :=
  section_ok p.1 = true /\ settings_ok p.2.

(** [line] is a line of the report that says [body], at whatever time. *)
Definition says (line body : string) : Prop :=
  exists stamp, stamp_ok stamp = true /\ line_fits line = true /\ line = notice stamp body.

(** ** Cleaning a printed line *)

Section Cleaning.
Variable stamp : string.
Hypothesis Hstamp : stamp_ok stamp = true.

Lemma stamp_no_bracket : no_byte "]"%char ("[" +:+ stamp) = true.
Proof using Hstamp.
  unfold stamp_ok in Hstamp. apply andb_true_iff in Hstamp as [H _].
  rewrite str_app_cons, str_app_nil_l. exact H.
Qed.

(** What is left of a line once the time stamp and the mark are cut off. *)
Definition clean_body (body : string) : string :=
  TrimSpace (Trim (ReplaceAll (ReplaceAll (TrimSpace (trim_right_space (String " " body))) "\t" "")
    (byte_string TAB) "") QUOTE).

Lemma clean_notice body : clean_line (notice stamp body) = clean_body body.
Proof using Hstamp.
  unfold clean_line. set (rest := trim_right_space (String " " body)).
  assert (Ht : TrimSpace (notice stamp body) = ("[" +:+ stamp) +:+ notice_mark +:+ rest).
  { unfold TrimSpace, notice. rewrite trim_left_space_fix.
    - change ("[" +:+ stamp +:+ "] NOTICE: " +:+ body) with
        ("[" +:+ stamp +:+ "] NOTICE" +:+ String ":" (String " " body)).
      rewrite <- !str_app_assoc, trim_right_space_app by done. fold rest.
      unfold notice_mark. change "] NOTICE:" with ("] NOTICE" +:+ ":").
      by rewrite !str_app_assoc.
    - rewrite str_app_cons. by apply space_width_plain. }
  rewrite Ht. change (notice_mark +:+ rest) with (String "]"%char (" NOTICE:" +:+ rest)) at 1.
  change notice_mark with (String "]"%char " NOTICE:") at 1.
  rewrite Index_first by exact stamp_no_bracket.
  rewrite <- str_length_app, <- str_app_assoc, str_drop_app. done.
Qed.

Lemma text_ok_none s : text_ok s = true ->
  Index s "\t" = None /\ no_byte TAB s = true /\ no_byte LF s = true.
Proof.
  unfold text_ok. intros [[H1 H2]%andb_true_iff H3%bool_decide_eq_true]%andb_true_iff. done.
Qed.

(** The replacements leave text without tabs alone. *)
Lemma replace_text s : text_ok s = true ->
  ReplaceAll (ReplaceAll s "\t" "") (byte_string TAB) "" = s.
Proof.
  intros (H1 & H2 & _)%text_ok_none. rewrite (ReplaceAll_absent s) by done.
  apply ReplaceAll_absent, Index_absent, H2.
Qed.

Lemma text_ok_app u c v :
  text_ok u = true -> text_ok v = true -> c <> BACKSLASH -> c <> "t"%char ->
  no_byte LF (byte_string c) = true -> no_byte TAB (byte_string c) = true ->
  text_ok (u +:+ String c v) = true.
Proof.
  intros (Hu1 & Hu2 & Hu3)%text_ok_none (Hv1 & Hv2 & Hv3)%text_ok_none Hc1 Hc2 Hc3 Hc4.
  unfold text_ok, no_byte in *. rewrite !str_forall_app.
  cbn [str_forall byte_string] in *. rewrite !andb_true_r in Hc3, Hc4.
  rewrite Hu2, Hu3, Hv2, Hv3, Hc3, Hc4. cbn [andb]. rewrite bool_decide_eq_true.
  by apply Index_pair_app.
Qed.
End Cleaning.

Lemma key_ok_inv k : key_ok k = true ->
  k <> "" /\ text_ok k = true /\ trimmed k = true /\ unquoted QUOTE k = true /\
  no_byte "="%char k = true /\ HasPrefix k "[" = false /\ HasPrefix k ";" = false.
Proof.
  unfold key_ok, edges_ok. intros H.
  apply andb_true_iff in H as [[[[[H1 H2]%andb_true_iff [H3 H4]%andb_true_iff]%andb_true_iff
    H5]%andb_true_iff H6]%andb_true_iff H7].
  apply negb_true_iff in H1, H6, H7. apply String.eqb_neq in H1. done.
Qed.

Lemma value_ok_inv v : value_ok v = true ->
  v <> "undefined" /\ text_ok v = true /\ trimmed v = true /\ unquoted QUOTE v = true.
Proof.
  unfold value_ok, edges_ok. intros H.
  apply andb_true_iff in H as [[H1%negb_true_iff H2]%andb_true_iff [H3 H4]%andb_true_iff].
  by apply String.eqb_neq in H1.
Qed.

(** What a value is shown as has the same clean edges, and is never empty. *)
Lemma show_value_ok v : value_ok v = true ->
  show_value v <> "" /\ text_ok (show_value v) = true /\ trimmed (show_value v) = true /\
  unquoted QUOTE (show_value v) = true /\
  (if String.eqb (show_value v) "undefined" then "" else show_value v) = v.
Proof.
  intros (Hu & H1 & H2 & H3)%value_ok_inv. unfold show_value.
  destruct (String.eqb_spec v "") as [->|Hne]; [by vm_compute|].
  apply String.eqb_neq in Hu. by rewrite Hu.
Qed.

(** [key = value] as the parser sees it once the line is clean. *)
Definition setting_text (k v : string) : string := k +:+ String " " (String "=" (String " " v)).

Lemma setting_text_eq k v : k +:+ " = " +:+ v = setting_text k v.
Proof. done. Qed.

Lemma setting_trim_right u v :
  v <> "" -> trimmed v = true ->
  trim_right_space (u +:+ setting_text "" v) = u +:+ setting_text "" v.
Proof.
  intros Hne [_ Hr]%trimmed_ends. unfold setting_text. rewrite str_app_nil_l.
  change (u +:+ String " " (String "=" (String " " v))) with
    (u +:+ byte_string " " +:+ String "=" (String " " v)).
  rewrite <- str_app_assoc, trim_right_space_app by done.
  by rewrite trim_right_space_cons.
Qed.

Lemma setting_TrimSpace k v :
  k <> "" -> trimmed k = true -> v <> "" -> trimmed v = true ->
  TrimSpace (setting_text k v) = setting_text k v.
Proof.
  intros Hk Htk Hv Htv. unfold TrimSpace. rewrite trim_left_space_fix.
  - by apply (setting_trim_right k v).
  - unfold setting_text. apply space_width_before_space; [done..|by apply trimmed_width].
Qed.

Lemma setting_text_ok k v :
  text_ok k = true -> text_ok v = true -> text_ok (setting_text k v) = true.
Proof.
  intros Hk Hv. unfold setting_text. apply text_ok_app; try done.
  apply (text_ok_app "" "="); try done. by apply (text_ok_app "" " ").
Qed.

Lemma setting_Trim k v :
  k <> "" -> v <> "" -> unquoted QUOTE k = true -> unquoted QUOTE v = true ->
  Trim (setting_text k v) QUOTE = setting_text k v.
Proof. intros. rewrite <- setting_text_eq. by apply Trim_app. Qed.

(** A body without trailing space only loses its tabs and quotes. *)
Lemma clean_body_plain body :
  trim_right_space (String " " body) = String " " body ->
  clean_body body =
  TrimSpace (Trim (ReplaceAll (ReplaceAll (TrimSpace body) "\t" "") (byte_string TAB) "") QUOTE).
Proof. intros Hb. unfold clean_body. by rewrite Hb, TrimSpace_cons. Qed.

(** A printed setting comes out of the cleaning as [key = value]. *)
Lemma clean_setting k v :
  key_ok k = true -> value_ok v = true ->
  clean_body (setting_body (k, v)) = setting_text k (show_value v).
Proof.
  intros (Hk & Htk & Hek & Huk & _)%key_ok_inv (Hv & Htv & Hev & Huv & _)%show_value_ok.
  unfold setting_body. cbn [fst snd]. rewrite setting_text_eq.
  rewrite clean_body_plain.
  - rewrite TrimSpace_cons, setting_TrimSpace, replace_text by auto using setting_text_ok.
    rewrite setting_Trim, setting_TrimSpace by done. done.
  - exact (setting_trim_right (String " " (String TAB k)) (show_value v) Hv Hev).
Qed.

Lemma no_byte_app b u v : no_byte b (u +:+ v) = no_byte b u && no_byte b v.
Proof. apply str_forall_app. Qed.

(** The loop body on a printed setting stores the pair, unset values as empty. *)
Lemma parse_line_setting stamp st k v :
  stamp_ok stamp = true -> key_ok k = true -> value_ok v = true ->
  parse_line st (notice stamp (setting_body (k, v))) =
  if String.eqb (currentSection st) "global"
  then mkParser (currentSection st)
         (mkConfig (<[k := v]> (Global (fpmconfig st))) (Pools (fpmconfig st)))
  else mkParser (currentSection st)
         (mkConfig (Global (fpmconfig st))
            (set_pool_value (currentSection st) k v (Pools (fpmconfig st)))).
Proof.
  intros Hs Hk Hv. unfold parse_line. rewrite clean_notice, clean_setting by done.
  apply key_ok_inv in Hk as (Hk & _ & Htk & Huk & Heq & Hb & Hc).
  apply show_value_ok in Hv as (Hv & _ & Htv & Huv & Hshow).
  assert (Hne : String.eqb (setting_text k (show_value v)) "" = false) by by destruct k.
  assert (Hpre : forall p, HasPrefix k (String p "") = false ->
            HasPrefix (setting_text k (show_value v)) (String p "") = false).
  { intros p Hp. destruct k as [|c k]; [done|]. unfold setting_text.
    rewrite str_app_cons. simpl in *. by destruct (Ascii.eqb c p). }
  rewrite Hne, (Hpre ";"%char Hc), (Hpre "["%char Hb). cbn [orb andb].
  unfold setting_text.
  change (k +:+ String " " (String "=" (String " " (show_value v)))) with
    (k +:+ byte_string " " +:+ String "=" (String " " (show_value v))).
  rewrite <- str_app_assoc, cut_byte_first by (by rewrite no_byte_app, Heq).
  unfold parse_setting. rewrite TrimSpace_snoc by done.
  apply String.eqb_eq in Htv, Huk, Huv. rewrite TrimSpace_cons, Htv, Huk, Huv, Hshow by done.
  by destruct (String.eqb (currentSection st) "global").
Qed.

(** The line that opens a section. *)
Lemma clean_section name : text_ok name = true -> clean_body (section_body name) = "[" +:+ name +:+ "]".
Proof.
  intros Ht. set (line := "[" +:+ name +:+ "]").
  assert (Hr : forall u, trim_right_space (u +:+ line) = u +:+ line).
  { intros u. unfold line. rewrite <- !str_app_assoc. by rewrite trim_right_space_app. }
  assert (HT : TrimSpace line = line).
  { unfold TrimSpace. rewrite trim_left_space_fix; [exact (Hr "")|].
    unfold line. rewrite str_app_cons. by apply space_width_plain. }
  assert (Hok : text_ok line = true).
  { unfold line. rewrite str_app_cons, str_app_nil_l. apply (text_ok_app "" "["); try done.
    by apply (text_ok_app name "]" ""). }
  unfold section_body. fold line. rewrite clean_body_plain by exact (Hr " ").
  rewrite HT, replace_text by done.
  assert (HQ : Trim line QUOTE = line) by (by apply Trim_app).
  by rewrite HQ.
Qed.

Lemma parse_line_section stamp st name :
  stamp_ok stamp = true -> text_ok name = true ->
  parse_line st (notice stamp (section_body name)) =
  if String.eqb name "global" then mkParser "global" (fpmconfig st)
  else mkParser name (mkConfig (Global (fpmconfig st)) (add_pool name (Pools (fpmconfig st)))).
Proof.
  intros Hs Ht. unfold parse_line. rewrite clean_notice, clean_section by done.
  assert (Hsuf : HasSuffix ("[" +:+ name +:+ "]") "]" = true).
  { rewrite <- str_app_assoc. apply HasSuffix_app. }
  rewrite HasPrefix_app, Hsuf. cbn [andb]. rewrite str_app_cons. cbn [String.eqb HasPrefix].
  rewrite str_app_nil_l. change (Ascii.eqb "[" ";") with false. cbn [orb andb].
  unfold parse_section. change (String "[" (name +:+ "]")) with ("[" +:+ (name +:+ "]")).
  by rewrite TrimPrefix_app, TrimSuffix_app.
Qed.

(** The blank line between sections. *)
Lemma parse_line_blank stamp st : stamp_ok stamp = true -> parse_line st (notice stamp " ") = st.
Proof. intros Hs. unfold parse_line. by rewrite clean_notice. Qed.

(** The closing line, about a path without an equals sign. *)
Lemma closing_trim_right u path :
  trim_right_space (u +:+ closing_body path) = u +:+ closing_body path.
Proof.
  unfold closing_body. change " test is successful" with (" test is successfu" +:+ String "l" "").
  rewrite <- !str_app_assoc. by rewrite trim_right_space_app.
Qed.

Lemma closing_ok path : path_ok path = true ->
  text_ok (closing_body path) = true /\ no_byte "="%char (closing_body path) = true.
Proof.
  unfold path_ok. intros [Ht He]%andb_true_iff. split.
  - apply (text_ok_app "configuration file" " "); [done| |done..].
    by apply (text_ok_app path " " "test is successful").
  - unfold closing_body. by rewrite !no_byte_app, He.
Qed.

Lemma parse_line_closing stamp st path :
  stamp_ok stamp = true -> path_ok path = true ->
  parse_line st (notice stamp (closing_body path)) = st.
Proof.
  intros Hs (Ht & He)%closing_ok. set (line := closing_body path) in *.
  assert (Hhead : exists rest, line = String "c" rest) by (by eexists).
  assert (HT : TrimSpace line = line).
  { unfold TrimSpace. rewrite trim_left_space_fix; [exact (closing_trim_right "" path)|].
    destruct Hhead as [rest ->]. by apply space_width_plain. }
  assert (HQ : Trim line QUOTE = line).
  { unfold line, closing_body. change (" test is successful") with (" test is successfu" +:+ "l").
    rewrite <- str_app_assoc. by apply (Trim_app QUOTE "configuration file "). }
  unfold parse_line. rewrite clean_notice, clean_body_plain by (done || exact (closing_trim_right " " path)).
  fold line. rewrite HT, replace_text, HQ, HT by done.
  assert (Hcut : cut_byte "="%char line = None) by (by apply cut_byte_None).
  rewrite Hcut. by destruct Hhead as [rest ->].
Qed.

(** ** Scanning a printed report *)

Lemma byte_string_inj_r u t a b : u +:+ byte_string a = t +:+ byte_string b -> a = b.
Proof.
  unfold byte_string. revert t. induction u as [|c u IH]; intros [|d t];
    rewrite ?str_app_nil_l, ?str_app_cons.
  - by intros [= ->].
  - intros [= _ E]. apply (f_equal String.length) in E. rewrite str_length_app in E. simpl in E. lia.
  - intros [= _ E]. apply (f_equal String.length) in E. rewrite str_length_app in E. simpl in E. lia.
  - intros [= _ E]. by apply (IH t).
Qed.

Lemma trim_right_space_length s : (String.length (trim_right_space s) <= String.length s)%nat.
Proof.
  destruct (trim_right_space_split s) as (sp & Hs & _).
  rewrite Hs at 2. rewrite str_length_app. lia.
Qed.

Lemma trimmed_drop_cr s : trim_right_space s = s -> drop_cr s = s.
Proof.
  intros Ht. unfold drop_cr, TrimSuffix.
  destruct (HasSuffix s (byte_string CR)) eqn:E; [exfalso|done].
  apply HasSuffix_spec in E as [t ->]. rewrite trim_right_space_snoc in Ht by done.
  pose proof (trim_right_space_length t) as Hl. apply (f_equal String.length) in Ht.
  rewrite str_length_app in Ht. simpl in Ht. lia.
Qed.

(** A line the report may hold: it survives the scanner. *)
Definition scannable (line : string) : Prop :=
  line <> "" /\ no_byte LF line = true /\ line_fits line = true /\ drop_cr line = line.

Lemma split_terminated ws :
  Forall (fun w => no_byte LF w = true) ws ->
  split_byte LF (terminate_lines ws) = ws ++ [""].
Proof.
  induction 1 as [|w ws Hw _ IH]; [done|]. cbn [terminate_lines].
  by rewrite split_byte_app, IH.
Qed.

Lemma drop_last_empty_snoc ws : drop_last_empty (ws ++ [""]) = ws.
Proof.
  induction ws as [|w ws IH]; [done|].
  destruct ws as [|w' ws]; [done|]. change (w :: drop_last_empty ((w' :: ws) ++ [""]) = w :: w' :: ws).
  by rewrite IH.
Qed.

Lemma scan_terminated ws : Forall scannable ws -> scan_lines (terminate_lines ws) = Ok ws.
Proof.
  intros H. unfold scan_lines, raw_lines.
  rewrite split_terminated, drop_last_empty_snoc by (eapply Forall_impl; [exact H|]; by intros ? (? & ? & ?)).
  assert (Hf : forallb line_fits ws = true).
  { induction H as [|w ws (_ & _ & Hw & _) _ IH]; [done|]. simpl. by rewrite Hw. }
  rewrite Hf. f_equal. clear Hf. induction H as [|w ws (_ & _ & _ & Hw) _ IH]; [done|].
  simpl. by rewrite Hw, IH.
Qed.

Lemma no_lf_notice stamp body :
  stamp_ok stamp = true -> no_byte LF body = true -> no_byte LF (notice stamp body) = true.
Proof.
  unfold stamp_ok, notice. intros [_ Hs]%andb_true_iff Hb.
  by rewrite !no_byte_app, Hs, Hb.
Qed.

Lemma notice_trim_right stamp body :
  trim_right_space (String " " body) = String " " body ->
  trim_right_space (notice stamp body) = notice stamp body.
Proof.
  intros Hb. unfold notice.
  change ("] NOTICE: " +:+ body) with ("] NOTICE" +:+ String ":" (String " " body)).
  rewrite <- !str_app_assoc, trim_right_space_app by done. by rewrite Hb.
Qed.

(** A body whose line survives the scanner. *)
Definition good_body (body : string) : Prop :=
  no_byte LF body = true /\ forall stamp, drop_cr (notice stamp body) = notice stamp body.

Lemma good_trimmed body :
  no_byte LF body = true -> trim_right_space (String " " body) = String " " body -> good_body body.
Proof. intros Hlf Hb. split; [done|]. intros stamp. by apply trimmed_drop_cr, notice_trim_right. Qed.

Lemma good_setting kv : key_ok kv.1 = true -> value_ok kv.2 = true -> good_body (setting_body kv).
Proof.
  destruct kv as [k v]. cbn [fst snd]. intros (_ & Hk & _)%key_ok_inv Hv.
  apply show_value_ok in Hv as (Hv & Htv & Hev & _ & _).
  unfold setting_body. cbn [fst snd]. rewrite setting_text_eq. apply good_trimmed.
  - destruct (text_ok_none _ (setting_text_ok _ _ Hk Htv)) as (_ & _ & H). exact H.
  - exact (setting_trim_right (String " " (String TAB k)) _ Hv Hev).
Qed.

Lemma good_section name : text_ok name = true -> good_body (section_body name).
Proof.
  intros (_ & _ & Hn)%text_ok_none. apply good_trimmed.
  - unfold section_body. by rewrite !no_byte_app, Hn.
  - change (trim_right_space ((" [" +:+ name) +:+ String "]" "") = (" [" +:+ name) +:+ String "]" "").
    by rewrite trim_right_space_app.
Qed.

Lemma good_blank : good_body " ".
Proof.
  split; [done|]. intros stamp.
  unfold drop_cr, TrimSuffix. destruct (HasSuffix _ _) eqn:E; [exfalso|done].
  apply HasSuffix_spec in E as [t E]. unfold notice in E.
  rewrite <- !str_app_assoc in E. by apply byte_string_inj_r in E.
Qed.

Lemma good_closing path : path_ok path = true -> good_body (closing_body path).
Proof.
  intros [(_ & _ & Hlf)%text_ok_none _]%closing_ok.
  apply good_trimmed; [done|exact (closing_trim_right " " path)].
Qed.

Lemma says_scannable lines bodies :
  Forall2 says lines bodies -> Forall good_body bodies -> Forall scannable lines.
Proof.
  induction 1 as [|line body lines bodies (stamp & Hs & Hf & ->) _ IH]; [constructor|].
  intros [[Hlf Hcr] Hg]%Forall_cons. constructor; [|by apply IH].
  split_and!; [done|by apply no_lf_notice|done|done].
Qed.

(** The parser does not look at the stamps. *)
Lemma says_parse lines bodies st :
  Forall2 says lines bodies ->
  fold_left parse_line lines st = fold_left parse_line (map (notice "") bodies) st.
Proof.
  intros H. revert st. induction H as [|line body lines bodies (stamp & Hs & _ & ->) _ IH]; [done|].
  intros st. cbn [map fold_left]. rewrite IH. unfold parse_line. by rewrite !clean_notice.
Qed.

Lemma says_zip stamps bodies :
  length stamps = length bodies -> Forall (fun s => stamp_ok s = true) stamps ->
  Forall (fun line => line_fits line = true) (zip_with notice stamps bodies) ->
  Forall2 says (zip_with notice stamps bodies) bodies.
Proof.
  revert bodies. induction stamps as [|s stamps IH]; intros [|b bodies]; try done.
  cbn [zip_with length]. intros [= Hlen] [Hs Hss]%Forall_cons [Hf Hfs]%Forall_cons.
  constructor; [by exists s|by apply IH].
Qed.

(** ** The configuration a report describes *)

Definition insert_all (kvs : list (string * string)) (m : gmap string string) : gmap string string :=
  fold_left (fun m kv => <[kv.1 := kv.2]> m) kvs m.

(** A repeated section adds to the pool it names; a repeated key replaces. *)
Definition add_block (pools : gmap string (gmap string string))
    (p : string * list (string * string)) : gmap string (gmap string string) :=
  <[p.1 := insert_all p.2 (default ∅ (pools !! p.1))]> pools.

Definition described (globals : list (string * string))
    (pools : list (string * list (string * string))) : EffectiveConfig :=
  mkConfig (insert_all globals ∅) (fold_left add_block pools ∅).

(** The lines of a block under an empty stamp, which is as good as any. *)
Definition block_lines (name : string) (kvs : list (string * string)) : list string :=
  map (notice "") (block_bodies name kvs).

Lemma block_lines_eq name kvs :
  block_lines name kvs =
  notice "" (section_body name) :: map (fun kv => notice "" (setting_body kv)) kvs ++ [notice "" " "].
Proof. unfold block_lines, block_bodies. cbn [map]. by rewrite map_app, map_map. Qed.

Lemma parse_globals kvs cfg :
  settings_ok kvs ->
  fold_left parse_line (map (fun kv => notice "" (setting_body kv)) kvs) (mkParser "global" cfg) =
  mkParser "global" (mkConfig (insert_all kvs (Global cfg)) (Pools cfg)).
Proof.
  intros H. revert cfg. induction H as [|[k v] kvs (Hk & Hv) _ IH]; intros cfg;
    [by destruct cfg|]. cbn [map fold_left].
  rewrite parse_line_setting by done. cbn [currentSection]. rewrite String.eqb_refl.
  by rewrite IH.
Qed.

Lemma parse_pool_settings name kvs cfg m :
  name <> "global" -> settings_ok kvs -> Pools cfg !! name = Some m ->
  fold_left parse_line (map (fun kv => notice "" (setting_body kv)) kvs) (mkParser name cfg) =
  mkParser name (mkConfig (Global cfg) (<[name := insert_all kvs m]> (Pools cfg))).
Proof.
  intros Hname H. revert cfg m. induction H as [|[k v] kvs (Hk & Hv) _ IH]; intros cfg m Hm.
  - destruct cfg as [g ps]. cbn in *. by rewrite insert_id.
  - cbn [map fold_left]. rewrite parse_line_setting by done. cbn [currentSection fpmconfig].
    rewrite (proj2 (String.eqb_neq _ _) Hname).
    unfold set_pool_value, add_pool. rewrite Hm. cbn [default]. rewrite Hm.
    rewrite (IH _ (<[k:=v]> m)) by (cbn; apply lookup_insert_eq). cbn [Global Pools].
    by rewrite insert_insert_eq.
Qed.

Lemma parse_block_global kvs cfg s :
  settings_ok kvs ->
  fold_left parse_line (block_lines "global" kvs) (mkParser s cfg) =
  mkParser "global" (mkConfig (insert_all kvs (Global cfg)) (Pools cfg)).
Proof.
  intros H. rewrite block_lines_eq. cbn [fold_left]. rewrite parse_line_section by done.
  rewrite String.eqb_refl. cbn [fpmconfig]. rewrite fold_left_app, parse_globals by done. cbn [fold_left].
  by rewrite parse_line_blank.
Qed.

Lemma parse_block_pool p cfg s :
  pool_ok p ->
  fold_left parse_line (block_lines p.1 p.2) (mkParser s cfg) =
  mkParser p.1 (mkConfig (Global cfg) (add_block (Pools cfg) p)).
Proof.
  destruct p as [name kvs]. intros (Hsec & Hkvs). cbn [fst snd] in *.
  unfold section_ok in Hsec. apply andb_true_iff in Hsec as [Hn%negb_true_iff Ht].
  rewrite block_lines_eq. cbn [fold_left]. rewrite parse_line_section, Hn by done.
  cbn [fpmconfig]. rewrite fold_left_app.
  rewrite (parse_pool_settings name kvs _ (default ∅ (Pools cfg !! name))).
  - cbn [fold_left Global Pools]. rewrite parse_line_blank by done.
    unfold add_block, add_pool. cbn [fst snd].
    destruct (Pools cfg !! name); cbn [default]; [done|]. by rewrite insert_insert_eq.
  - by apply String.eqb_neq.
  - done.
  - cbn. unfold add_pool. destruct (Pools cfg !! name) eqn:E; [done|]. apply lookup_insert_eq.
Qed.

Lemma parse_blocks ps cfg s :
  Forall (pool_ok) ps ->
  fpmconfig (fold_left parse_line (concat (map (fun p => block_lines p.1 p.2) ps))
    (mkParser s cfg)) = mkConfig (Global cfg) (fold_left add_block ps (Pools cfg)).
Proof.
  intros H. revert cfg s. induction H as [|p ps Hp _ IH]; intros cfg s; [by destruct cfg|].
  cbn [map concat fold_left]. rewrite fold_left_app, parse_block_pool by done. by rewrite IH.
Qed.

Lemma good_block name kvs :
  text_ok name = true -> settings_ok kvs -> Forall good_body (block_bodies name kvs).
Proof.
  intros Ht H. constructor; [by apply good_section|].
  apply Forall_app. split; [|by constructor; [apply good_blank|]].
  apply Forall_map. eapply Forall_impl; [exact H|]. intros kv (? & ?). by apply good_setting.
Qed.

Lemma good_report globals ps path :
  settings_ok globals -> Forall pool_ok ps -> path_ok path = true ->
  Forall good_body (report_bodies globals ps path).
Proof.
  intros Hgs Hps Hp. apply Forall_app. split; [by apply good_block|].
  apply Forall_app. split; [|by constructor; [apply good_closing|]].
  induction Hps as [|[name kvs] ps (Hs & Hkvs) _ IH]; [constructor|].
  cbn [map concat]. apply Forall_app. split; [|done]. cbn [fst snd] in *.
  unfold section_ok in Hs. apply andb_true_iff in Hs as [_ Hs]. by apply good_block.
Qed.

(** Any report of these settings, whatever its lines are stamped with. *)
Lemma parse_lines globals ps path lines :
  settings_ok globals -> Forall pool_ok ps -> path_ok path = true ->
  Forall2 says lines (report_bodies globals ps path) ->
  parseFPMConfigOutput (terminate_lines lines) = Ok (described globals ps).
Proof.
  intros Hgs Hps Hp Hl. unfold parseFPMConfigOutput.
  rewrite scan_terminated by (by eapply says_scannable, good_report).
  rewrite (says_parse _ _ _ Hl). unfold report_bodies. rewrite !map_app, !fold_left_app.
  change (map (notice "") (block_bodies "global" globals)) with (block_lines "global" globals).
  rewrite parse_block_global by done. cbn [map fold_left]. rewrite parse_line_closing by done.
  rewrite concat_map, map_map.
  change (fun p => map (notice "") (block_bodies p.1 p.2)) with
    (fun p : string * list (string * string) => block_lines p.1 p.2).
  by rewrite parse_blocks.
Qed.

(** ** Listing a map and reading it back *)

Lemma insert_all_to_map kvs m : insert_all kvs m = list_to_map (rev kvs) ∪ m.
Proof.
  revert m. induction kvs as [|[k v] kvs IH]; intros m; simpl.
  - by rewrite (left_id_L ∅ (∪)).
  - unfold insert_all in *. rewrite IH. cbn [fst snd].
    rewrite list_to_map_app, <- (assoc_L (∪)). f_equal.
    rewrite list_to_map_cons, list_to_map_nil, insert_empty. apply insert_union_singleton_l.
Qed.

Lemma list_to_map_rev {A} (l : list (string * A)) :
  NoDup l.*1 -> list_to_map (M := gmap string A) (rev l) = list_to_map l.
Proof.
  intros H. apply list_to_map_proper; [|apply Permutation_sym, Permutation_rev].
  by rewrite <- (Permutation_rev l).
Qed.

Lemma insert_all_map_to_list m : insert_all (map_to_list m) ∅ = m.
Proof.
  rewrite insert_all_to_map, (right_id_L ∅ (∪)), list_to_map_rev by apply NoDup_fst_map_to_list.
  apply list_to_map_to_list.
Qed.

Lemma add_blocks_distinct (ps : list (string * gmap string string)) pools :
  NoDup ps.*1 -> (forall name, name ∈ ps.*1 -> pools !! name = None) ->
  fold_left add_block (map (fun p => (p.1, map_to_list p.2)) ps) pools =
  list_to_map ps ∪ pools.
Proof.
  revert pools. induction ps as [|[name m] ps IH]; intros pools Hnd Hfresh; simpl.
  - by rewrite (left_id_L ∅ (∪)).
  - cbn in Hnd. apply NoDup_cons in Hnd as [Hn Hnd].
    unfold add_block at 2. cbn [fst snd].
    rewrite (Hfresh name) by (cbn; set_solver). cbn [default]. rewrite insert_all_map_to_list.
    rewrite IH; [|done|].
    + rewrite <- insert_union_l, insert_union_r; [done|].
      by apply not_elem_of_list_to_map_1.
    + intros name' Hname'. rewrite lookup_insert_ne by (intros ->; done).
      apply Hfresh, elem_of_cons. by right.
Qed.

(** ** Theorems *)

(** C23. The parser on the report php-fpm writes of given settings, whatever the
    times on its lines and whatever file it is about: it returns exactly the globals and each pool's
    settings, a repeated section adding to its pool and a repeated key replacing
    the earlier value, an unset value as the empty string. The texts must be such
    that a line can carry them: no line break, tab or literal [\t], no quote or
    space at the ends of a key or value; no equals sign in a key or in the path of
    the file; a key is not empty and opens neither a section nor a comment, a
    value is not the word [undefined], a pool is not called [global]; and no line
    is longer than the scanner's buffer. *)
Theorem parse_report globals ps path lines :
  settings_ok globals -> Forall pool_ok ps -> path_ok path = true ->
  Forall2 says lines (report_bodies globals ps path) ->
  parseFPMConfigOutput (terminate_lines lines) = Ok (described globals ps).
Proof. apply parse_lines. Qed.

(** What a configuration has to satisfy to be printable. *)
Definition printable (stamps : list string) (path : string) (cfg : EffectiveConfig) : Prop :=
  length stamps = length (config_bodies path cfg) /\
  Forall (fun s => stamp_ok s = true) stamps /\
  Forall (fun line => line_fits line = true) (zip_with notice stamps (config_bodies path cfg)) /\
  path_ok path = true /\
  settings_ok (map_to_list (Global cfg)) /\
  Forall (fun p => pool_ok (p.1, map_to_list p.2)) (map_to_list (Pools cfg)).

#[export] Instance printable_dec stamps path cfg : Decision (printable stamps path cfg).
Proof. unfold printable, pool_ok, settings_ok. apply _. Defined.

#[export] Instance report_ok_dec globals ps :
  Decision (settings_ok globals /\ Forall pool_ok ps).
Proof. unfold pool_ok, settings_ok. apply _. Defined.

(** C7. Round trip: the report php-fpm prints of a printable configuration, its
    closing line included, reads back as that configuration, whatever the times on
    its lines. *)
Theorem parse_render stamps path cfg :
  printable stamps path cfg -> parseFPMConfigOutput (render stamps path cfg) = Ok cfg.
Proof.
  intros (Hlen & Hs & Hf & Hp & Hgs & Hps). unfold render.
  rewrite (parse_lines _ _ _ _ Hgs (proj2 (Forall_map _ _ _) Hps) Hp) by (by apply says_zip).
  unfold described. rewrite insert_all_map_to_list, add_blocks_distinct;
    [|apply NoDup_fst_map_to_list|done].
  rewrite (right_id_L ∅ (∪)), list_to_map_to_list. by destruct cfg.
Qed.

(** ** Instances *)

Definition sample_config : EffectiveConfig :=
  mkConfig
    (<["daemonize" := "no"]> (<["pid" := ""]> (<["error_log" := "/tmp/fx/error.log"]> ∅)))
    (<["www" := <["listen" := "/tmp/fx/www.sock"]> (<["pm.max_children" := "5"]>
        (<["env[DB_PASSWORD]" := "a=b c"]> (<["user" := ""]> ∅)))]>
     (<["api" := <["listen" := "9000"]> ∅]> ∅)).

(** The clock ticks while the report is written. *)
Definition sample_stamps : list string :=
  replicate 9 captured_stamp ++ replicate 6 "12-Aug-2026 23:03:48".

Definition sample_report : string := render sample_stamps captured_path sample_config.

Lemma parse_render_witness :
  printable sample_stamps captured_path sample_config /\
  parseFPMConfigOutput sample_report = Ok sample_config.
Proof.
  assert (H : printable sample_stamps captured_path sample_config).
  { apply (bool_decide_eq_true_1 _). vm_compute. reflexivity. }
  split; [exact H|apply (parse_render _ _ _ H)].
Defined.

(** The report in the repository's test data, down to the last line. *)
Lemma captured_says :
  Forall2 says captured_lines (report_bodies captured_globals captured_pools captured_path).
Proof.
  assert (E : captured_lines = zip_with notice (replicate 100 captured_stamp)
    (report_bodies captured_globals captured_pools captured_path)) by (vm_compute; reflexivity).
  rewrite E. apply says_zip; [vm_compute; reflexivity| |];
    apply (bool_decide_eq_true_1 _); vm_compute; reflexivity.
Qed.

Lemma parse_report_witness :
  parseFPMConfigOutput (terminate_lines captured_lines) =
    Ok (described captured_globals captured_pools) /\
  Pools (described captured_globals captured_pools) !! "api" ≫= (.!! "pm.max_children") = Some "3".
Proof.
  assert (H : settings_ok captured_globals /\ Forall pool_ok captured_pools).
  { apply (bool_decide_eq_true_1 _). vm_compute. reflexivity. }
  destruct H as [Hg Hp]. split; [|vm_compute; reflexivity].
  apply (parse_report captured_globals captured_pools captured_path captured_lines);
    [done|done|vm_compute; reflexivity|exact captured_says].
Defined.

(** A path with an equals sign turns the closing line into a setting of the last
    pool. *)
Example closing_line_setting :
  let text := terminate_lines (zip_with notice (replicate 15 captured_stamp)
    (config_bodies "/etc/a=b.conf" sample_config)) in
  exists cfg, parseFPMConfigOutput text = Ok cfg /\ cfg <> sample_config /\
    exists pool, Pools cfg !! pool ≫= (.!! "configuration file /etc/a") = Some "b.conf test is successful".
Proof.
  eexists. split; [vm_compute; reflexivity|]. split; [by vm_compute|].
  first [exists "www"; vm_compute; reflexivity | exists "api"; vm_compute; reflexivity].
Qed.

(** Lines without a stamp, a comment, and a value with an equals sign. *)
Example parse_other_lines :
  parseFPMConfigOutput (terminate_lines
    ["[12-Aug-2026 23:03:47] NOTICE: [global]";
     "[12-Aug-2026 23:03:47] NOTICE: 	pid = undefined";
     "; comment"; "[www]"; " pm.max_children = 5"; "env[A] = x=y"; "php_value[b]"]) =
  Ok (mkConfig (<["pid" := ""]> ∅)
        (<["www" := <["pm.max_children" := "5"]> (<["env[A]" := "x=y"]> ∅)]> ∅)).
Proof. vm_compute. reflexivity. Qed.
