(* ===== verification/Host.v ===== *)
(** * The host: what the library reads from and does to the operating system

    Every read of the operating system happens at its own instant. A program of
    type [M A] runs against a [Host], the sequence of states the operating system
    goes through, one per instant; each system call sees the state of the instant
    it is made at and moves on to the next, so nothing is assumed to hold still
    between two reads. The calls that act on the world (signals, programs run,
    log lines) are kept in a trace. *)

From S2P Require Import Prelude Config.
Open Scope go_scope.

(** ** Operating system state *)

Definition os_error : Type := string.

(** [os.FileMode] bits. *)
Definition ModeSymlink : Z := 2 ^ 27.
Definition ModeSticky : Z := 2 ^ 20.
Definition ModeDir : Z := 2 ^ 31.
(** [ModeDir | ModeSymlink | ModeNamedPipe | ModeSocket | ModeDevice |
    ModeCharDevice | ModeIrregular]. *)
Definition ModeType : Z := 2 ^ 31 + 2 ^ 27 + 2 ^ 25 + 2 ^ 24 + 2 ^ 26 + 2 ^ 21 + 2 ^ 19.
Definition ModePerm : Z := 511.

(** [fs.FileInfo]: the mode, and the owner when [Sys()] is a [*syscall.Stat_t]. *)
Record file_info := mkInfo { fi_mode : Z; fi_uid : option Z }.

Inductive lstat_result :=
  | LstatNotExist
  | LstatError (e : os_error)
  | LstatInfo (fi : file_info).

(** What running a program to its end gave: it could not be started, or it wrote
    these chunks to the pipe and [Wait] reported this. *)
Inductive exec_result :=
  | NotStarted (e : os_error)
  | Ran (chunks : list string) (wait_error : option os_error).

(** The state of the operating system at one instant. Pids of the process table
    are what gopsutil's [int32] handles name. *)
Record OS := mkOS {
  time_now : Z;
  getuid : Z;
  lstat : string -> lstat_result;
  stat : string -> result os_error unit;
  read_file : string -> result os_error string;
  processes : result os_error (list Z);
  new_process : Z -> result os_error unit;
  proc_name : Z -> result os_error string;
  proc_cmdline : Z -> result os_error string;
  proc_exe : Z -> result os_error string;
  proc_ppid : Z -> result os_error Z;
  proc_rss : Z -> option Z;
  proc_create_time : Z -> result os_error Z;
  find_process : Z -> result os_error unit;
  signal : Z -> Z -> result os_error unit;
  run_program : string -> list string -> exec_result;
  create_temp : string -> string -> result os_error string;
  write_string : string -> string -> result os_error unit;
  chmod : string -> Z -> result os_error unit;
  close_file : string -> result os_error unit;
  remove : string -> result os_error unit
}.

Inductive platform := Linux | OtherOS.

#[export] Instance platform_eq_dec : EqDecision platform.
Proof. solve_decision. Defined.

(** A host: its platform, its state at every instant, and the order in which a
    map is ranged over at every instant, which Go leaves open. *)
Class Host := {
  goos : platform;
  host_at : nat -> OS;
  range_order : forall {V : Type}, nat -> gmap string V -> list (string * V);
  range_order_perm : forall V t (m : gmap string V), range_order t m ≡ₚ map_to_list m
}.

(** ** Contexts *)

Inductive ctx_error := Canceled | DeadlineExceeded.

(** A context: what [ctx.Err()] answers at each instant. *)
Definition context : Type := nat -> option ctx_error.

Definition Background : context := fun _ => None.

Definition WithDeadline `{Host} (ctx : context) (deadline : Z) : context :=
  fun t => match ctx t with
           | Some e => Some e
           | None => if (deadline <=? time_now (host_at t))%Z then Some DeadlineExceeded else None
           end.

(** ** Effects *)

Inductive level := LevelDebug | LevelInfo | LevelWarn.

Inductive event :=
  | EvSignal (pid sig : Z)
  | EvExec (binary : string) (args : list string)
  | EvLog (l : level) (msg : string)
  | EvSleep
  | EvCreate (path : string)
  | EvWrite (path content : string)
  | EvChmod (path : string) (mode : Z)
  | EvRemove (path : string)
  | EvRequest (address script : string).

(** The parse cache of config.go: [fpmConfigCache] and [fpmConfigEpoch]. *)
Record config_cache := mkCache { cached : gmap string EffectiveConfig; epoch : Z }.

(** Where a run is: the instant of its next system call, what it did so far, and
    the package's state. *)
Record world := mkWorld { tick : nat; trace : list event; cache : config_cache }.

Definition M (A : Type) : Type := world -> A * world.

Definition ret {A} (a : A) : M A := fun w => (a, w).
Definition bind {A B} (m : M A) (f : A -> M B) : M B :=
  fun w => let '(a, w') := m w in f a w'.

Notation "'let!' x ':=' m 'in' k" :=
  (bind m (fun x => k))
  (at level 10, x pattern, m at level 100, k at level 200) : go_scope.

(** [x, err := m; if err != nil { return err }]. *)
Definition bind_ok {E A B} (m : M (result E A)) (f : A -> M (result E B)) : M (result E B) :=
  bind m (fun r => match r with Ok a => f a | Err e => ret (Err e) end).

Notation "'try!' x ':=' m 'in' k" :=
  (bind_ok m (fun x => k))
  (at level 10, x pattern, m at level 100, k at level 200) : go_scope.

Section Calls.
Context `{Host}.

(** A system call that only reads. *)
Definition observe {A} (f : OS -> A) : M A :=
  fun w => (f (host_at (tick w)), mkWorld (S (tick w)) (trace w) (cache w)).

Definition emit (e : event) : M unit :=
  fun w => (tt, mkWorld (tick w) (trace w ++ [e]) (cache w)).

Definition ctx_Err (ctx : context) : M (option ctx_error) :=
  fun w => (ctx (tick w), mkWorld (S (tick w)) (trace w) (cache w)).

Definition range {V} (m : gmap string V) : M (list (string * V)) :=
  fun w => (range_order (tick w) m, mkWorld (S (tick w)) (trace w) (cache w)).

Definition get_cache : M config_cache := fun w => (cache w, w).

Definition put_cache (c : config_cache) : M unit :=
  fun w => (tt, mkWorld (tick w) (trace w) c).

(** [proc.Signal(sig)] on the process [os.FindProcess] names. *)
Definition send_signal (pid sig : Z) : M (result os_error unit) :=
  let! r := observe (fun os => signal os pid sig) in
  match r with
  | Ok _ => let! _ := emit (EvSignal pid sig) in ret r
  | Err _ => ret r
  end.

(** [select { case <-ctx.Done(): ... case <-time.After(50ms): }]. *)
Definition sleep_or_done (ctx : context) : M (option ctx_error) :=
  let! _ := emit EvSleep in ctx_Err ctx.
End Calls.

(** ** Loggers (target.go: logOrDiscard) *)

Inductive logger := Slog | DiscardHandler.

Definition logOrDiscard (l : option logger) : logger :=
  match l with None => DiscardHandler | Some l => l end.

Definition log (l : logger) (lv : level) (msg : string) : M unit :=
  match l with Slog => emit (EvLog lv msg) | DiscardHandler => ret tt end.

(** ** Running a program, step by step *)

Lemma bind_run {A B} (m : M A) (f : A -> M B) w b w'' :
  bind m f w = (b, w'') <-> exists a w', m w = (a, w') /\ f a w' = (b, w'').
Proof.
  unfold bind. destruct (m w) as [a w'] eqn:E. split; [by eauto|].
  intros (a' & w1 & [= <- <-] & Hf). done.
Qed.

Lemma bind_eq {A B} (m : M A) (f : A -> M B) w a w' :
  m w = (a, w') -> bind m f w = f a w'.
Proof. unfold bind. by intros ->. Qed.

Lemma bind_ok_run {E A B} (m : M (result E A)) (f : A -> M (result E B)) w b w'' :
  bind_ok m f w = (Ok b, w'') <-> exists a w', m w = (Ok a, w') /\ f a w' = (Ok b, w'').
Proof.
  unfold bind_ok. rewrite bind_run. split.
  - intros (r & w' & Hm & Hf). destruct r as [a|e]; [eauto|]. by injection Hf.
  - intros (a & w' & Hm & Hf). exists (Ok a), w'. done.
Qed.

(** Decomposes a run of a composed program into the runs of its parts. *)
Ltac inv_run :=
  repeat match goal with
  | H : bind_ok _ _ _ = (Ok _, _) |- _ =>
      let a := fresh "a" in let w := fresh "w" in let H1 := fresh "Hm" in let H2 := fresh "Hf" in
      apply bind_ok_run in H as (a & w & H1 & H2)
  | H : bind _ _ _ = (_, _) |- _ =>
      let a := fresh "a" in let w := fresh "w" in let H1 := fresh "Hm" in let H2 := fresh "Hf" in
      apply bind_run in H as (a & w & H1 & H2)
  | H : ret _ _ = (_, _) |- _ => unfold ret in H; injection H as; subst
  | H : observe _ _ = (_, _) |- _ => unfold observe in H; injection H as; subst
  | H : emit _ _ = (_, _) |- _ => unfold emit in H; injection H as; subst
  | H : ctx_Err _ _ = (_, _) |- _ => unfold ctx_Err in H; injection H as; subst
  | H : get_cache _ = (_, _) |- _ => unfold get_cache in H; injection H as; subst
  | H : put_cache _ _ = (_, _) |- _ => unfold put_cache in H; injection H as; subst
  end; simplify_eq/=.

(** ** What a run may do

    [quiet P m]: whatever the host answers, [m] only adds events satisfying [P]
    to the trace. Most of the library only looks and logs. *)

Definition quiet (P : event -> Prop) {A} (m : M A) : Prop :=
  forall w a w', m w = (a, w') -> exists evs, trace w' = trace w ++ evs /\ Forall P evs.

Section Quiet.
Context `{Host} (P : event -> Prop).

Lemma quiet_ret {A} (a : A) : quiet P (ret a).
Proof. intros w b w' [= <- <-]. exists []. by rewrite app_nil_r. Qed.

Lemma quiet_bind {A B} (m : M A) (f : A -> M B) :
  quiet P m -> (forall a, quiet P (f a)) -> quiet P (bind m f).
Proof.
  intros Hm Hf w b w'' (a & w' & E1 & E2)%bind_run.
  destruct (Hm _ _ _ E1) as (e1 & Ht1 & H1). destruct (Hf _ _ _ _ E2) as (e2 & Ht2 & H2).
  exists (e1 ++ e2). rewrite Ht2, Ht1, (assoc_L (++)). split; [done|by apply Forall_app].
Qed.

Lemma quiet_bind_ok {E A B} (m : M (result E A)) (f : A -> M (result E B)) :
  quiet P m -> (forall a, quiet P (f a)) -> quiet P (bind_ok m f).
Proof.
  intros Hm Hf. apply quiet_bind; [done|]. intros [a|e]; [apply Hf|apply quiet_ret].
Qed.

Lemma quiet_observe {A} (f : OS -> A) : quiet P (observe f).
Proof. intros w b w' [= <- <-]. exists []. by rewrite app_nil_r. Qed.

Lemma quiet_ctx_Err ctx : quiet P (ctx_Err ctx).
Proof. intros w b w' [= <- <-]. exists []. by rewrite app_nil_r. Qed.

Lemma quiet_range {V} (m : gmap string V) : quiet P (range m).
Proof. intros w b w' [= <- <-]. exists []. by rewrite app_nil_r. Qed.

Lemma quiet_get_cache : quiet P get_cache.
Proof. intros w b w' [= <- <-]. exists []. by rewrite app_nil_r. Qed.

Lemma quiet_put_cache c : quiet P (put_cache c).
Proof. intros w b w' [= <- <-]. exists []. by rewrite app_nil_r. Qed.

Lemma quiet_emit e : P e -> quiet P (emit e).
Proof. intros He w b w' [= <- <-]. exists [e]. split; [done|by constructor]. Qed.

Lemma quiet_log l lv msg : (forall lv msg, P (EvLog lv msg)) -> quiet P (log l lv msg).
Proof. intros Hl. destruct l; [by apply quiet_emit|apply quiet_ret]. Qed.
End Quiet.

Lemma quiet_weaken {A} (P Q : event -> Prop) (m : M A) :
  (forall e, P e -> Q e) -> quiet P m -> quiet Q m.
Proof.
  intros HPQ Hm w a w' E. destruct (Hm _ _ _ E) as (evs & Ht & He).
  exists evs. split; [done|]. by eapply Forall_impl.
Qed.

Create HintDb quiet.
#[export] Hint Resolve quiet_ret quiet_bind quiet_bind_ok quiet_observe quiet_ctx_Err
  quiet_range quiet_get_cache quiet_put_cache quiet_emit quiet_log : quiet.

(** Events that neither touch a process nor run a program. *)
Definition harmless (e : event) : Prop :=
  match e with EvLog _ _ | EvSleep => True | _ => False end.

(** ** Time only moves forward *)

Definition forward {A} (m : M A) : Prop := forall w a w', m w = (a, w') -> (tick w <= tick w')%nat.

Section Forward.
Context `{Host}.

Lemma forward_ret {A} (a : A) : forward (ret a).
Proof. by intros w b w' [= <- <-]. Qed.

Lemma forward_bind {A B} (m : M A) (f : A -> M B) :
  forward m -> (forall a, forward (f a)) -> forward (bind m f).
Proof.
  intros Hm Hf w b w'' (a & w' & E1 & E2)%bind_run.
  etransitivity; [exact (Hm _ _ _ E1)|exact (Hf _ _ _ _ E2)].
Qed.

Lemma forward_bind_ok {E A B} (m : M (result E A)) (f : A -> M (result E B)) :
  forward m -> (forall a, forward (f a)) -> forward (bind_ok m f).
Proof. intros Hm Hf. apply forward_bind; [done|]. intros [a|e]; [apply Hf|apply forward_ret]. Qed.

Lemma forward_observe {A} (f : OS -> A) : forward (observe f).
Proof. intros w b w' [= <- <-]. cbn. lia. Qed.

Lemma forward_ctx_Err ctx : forward (ctx_Err ctx).
Proof. intros w b w' [= <- <-]. cbn. lia. Qed.

Lemma forward_range {V} (m : gmap string V) : forward (range m).
Proof. intros w b w' [= <- <-]. cbn. lia. Qed.

Lemma forward_get_cache : forward get_cache.
Proof. by intros w b w' [= <- <-]. Qed.

Lemma forward_put_cache c : forward (put_cache c).
Proof. by intros w b w' [= <- <-]. Qed.

Lemma forward_emit e : forward (emit e).
Proof. by intros w b w' [= <- <-]. Qed.

Lemma forward_log l lv msg : forward (log l lv msg).
Proof. destruct l; [apply forward_emit|apply forward_ret]. Qed.
End Forward.

Create HintDb forward.
#[export] Hint Resolve forward_ret forward_bind forward_bind_ok forward_observe forward_ctx_Err
  forward_range forward_get_cache forward_put_cache forward_emit forward_log : forward.

(** ** Leaving the cache alone *)

Definition keeps_cache {A} (m : M A) : Prop := forall w a w', m w = (a, w') -> cache w' = cache w.

Section KeepsCache.
Context `{Host}.

Lemma keeps_cache_ret {A} (a : A) : keeps_cache (ret a).
Proof. by intros w b w' [= <- <-]. Qed.

Lemma keeps_cache_bind {A B} (m : M A) (f : A -> M B) :
  keeps_cache m -> (forall a, keeps_cache (f a)) -> keeps_cache (bind m f).
Proof.
  intros Hm Hf w b w'' (a & w' & E1 & E2)%bind_run.
  rewrite (Hf _ _ _ _ E2). exact (Hm _ _ _ E1).
Qed.

Lemma keeps_cache_bind_ok {E A B} (m : M (result E A)) (f : A -> M (result E B)) :
  keeps_cache m -> (forall a, keeps_cache (f a)) -> keeps_cache (bind_ok m f).
Proof.
  intros Hm Hf. apply keeps_cache_bind; [done|]. intros [a|e]; [apply Hf|apply keeps_cache_ret].
Qed.

Lemma keeps_cache_observe {A} (f : OS -> A) : keeps_cache (observe f).
Proof. by intros w b w' [= <- <-]. Qed.

Lemma keeps_cache_ctx_Err ctx : keeps_cache (ctx_Err ctx).
Proof. by intros w b w' [= <- <-]. Qed.

Lemma keeps_cache_range {V} (m : gmap string V) : keeps_cache (range m).
Proof. by intros w b w' [= <- <-]. Qed.

Lemma keeps_cache_emit e : keeps_cache (emit e).
Proof. by intros w b w' [= <- <-]. Qed.

Lemma keeps_cache_log l lv msg : keeps_cache (log l lv msg).
Proof. destruct l; [apply keeps_cache_emit|apply keeps_cache_ret]. Qed.
End KeepsCache.

Create HintDb keeps_cache.
#[export] Hint Resolve keeps_cache_ret keeps_cache_bind keeps_cache_bind_ok keeps_cache_observe
  keeps_cache_ctx_Err keeps_cache_range keeps_cache_emit keeps_cache_log : keeps_cache.

(** ** On a host that stands still

    The answer of a program that reads neither the cache nor the clock of a
    context is the same whenever it is asked. *)

Definition insensitive {A} (m : M A) : Prop := forall w w', (m w).1 = (m w').1.

Definition stands_still `{Host} : Prop := forall t, host_at t = host_at 0.

Section Steady.
Context `{Host} (Hsteady : stands_still).

Lemma insensitive_ret {A} (a : A) : insensitive (ret a).
Proof. by intros w w'. Qed.

Lemma insensitive_bind {A B} (m : M A) (f : A -> M B) :
  insensitive m -> (forall a, insensitive (f a)) -> insensitive (bind m f).
Proof.
  intros Hm Hf w w'. unfold bind. pose proof (Hm w w') as E.
  destruct (m w) as [a w1], (m w') as [a' w1']. cbn in E. subst a'. apply Hf.
Qed.

Lemma insensitive_bind_ok {E A B} (m : M (result E A)) (f : A -> M (result E B)) :
  insensitive m -> (forall a, insensitive (f a)) -> insensitive (bind_ok m f).
Proof.
  intros Hm Hf. apply insensitive_bind; [done|]. intros [a|e]; [apply Hf|apply insensitive_ret].
Qed.

Lemma insensitive_observe {A} (f : OS -> A) : insensitive (observe f).
Proof using Hsteady. intros w w'. cbn. by rewrite (Hsteady (tick w)), (Hsteady (tick w')). Qed.

Lemma insensitive_emit e : insensitive (emit e).
Proof. by intros w w'. Qed.

Lemma insensitive_log l lv msg : insensitive (log l lv msg).
Proof. destruct l; [apply insensitive_emit|apply insensitive_ret]. Qed.
End Steady.

Create HintDb insensitive.
#[export] Hint Resolve insensitive_ret insensitive_bind insensitive_bind_ok insensitive_observe
  insensitive_emit insensitive_log : insensitive.

(** Walks through a program, leaving the pieces the hints do not cover. *)
Ltac frame_steps :=
  repeat first
    [ progress intros
    | solve [auto with quiet forward keeps_cache insensitive]
    | match goal with
      | |- quiet _ (bind _ _) => apply quiet_bind
      | |- forward (bind _ _) => apply forward_bind
      | |- keeps_cache (bind _ _) => apply keeps_cache_bind
      | |- insensitive (bind _ _) => apply insensitive_bind
      | |- quiet _ (bind_ok _ _) => apply quiet_bind_ok
      | |- forward (bind_ok _ _) => apply forward_bind_ok
      | |- keeps_cache (bind_ok _ _) => apply keeps_cache_bind_ok
      | |- insensitive (bind_ok _ _) => apply insensitive_bind_ok
      end
    | case_match ].
