(* ===== verification/Samples.v ===== *)
(** * Concrete hosts

    A [machine] lists what one operating system state holds; [os_of] makes it an
    [OS]. [steady] is a host that stays as it is and [phases] one that changes at
    given instants; the instances of the theorems are run against them. *)

From S2P Require Import Prelude Config Host.

Record proc_entry := mkProc {
  pe_pid : Z; pe_ppid : Z; pe_name : string; pe_cmdline : string; pe_exe : string; pe_rss : Z
}.

Record machine := mkMachine {
  m_now : Z;
  m_uid : Z;
  m_paths : list (string * file_info);
  m_files : list (string * string);
  m_procs : list proc_entry;
  m_unreachable : list Z;
  m_exec : string -> list string -> exec_result
}.

Definition assoc_string {A} (l : list (string * A)) (k : string) : option A :=
  snd <$> List.find (fun p => String.eqb p.1 k) l.

Definition find_proc (m : machine) (pid : Z) : option proc_entry :=
  List.find (fun p => Z.eqb (pe_pid p) pid) (m_procs m).

Definition or_error {A} (o : option A) : result os_error A :=
  match o with Some a => Ok a | None => Err "not found" end.

Definition os_of (m : machine) : OS := {|
  time_now := m_now m;
  getuid := m_uid m;
  lstat := fun p => match assoc_string (m_paths m) p with
                    | Some fi => LstatInfo fi | None => LstatNotExist end;
  stat := fun p => match assoc_string (m_paths m) p with
                   | Some _ => Ok tt | None => Err "not found" end;
  read_file := fun p => or_error (assoc_string (m_files m) p);
  processes := Ok (map pe_pid (m_procs m));
  new_process := fun pid => or_error ((fun _ => tt) <$> find_proc m pid);
  proc_name := fun pid => or_error (pe_name <$> find_proc m pid);
  proc_cmdline := fun pid => or_error (pe_cmdline <$> find_proc m pid);
  proc_exe := fun pid => or_error (pe_exe <$> find_proc m pid);
  proc_ppid := fun pid => or_error (pe_ppid <$> find_proc m pid);
  proc_rss := fun pid => pe_rss <$> find_proc m pid;
  proc_create_time := fun pid => or_error ((fun _ => 1%Z) <$> find_proc m pid);
  find_process := fun _ => Ok tt;
  signal := fun pid _ => if existsb (Z.eqb pid) (m_unreachable m) then Err "EPERM"
                         else or_error ((fun _ => tt) <$> find_proc m pid);
  run_program := m_exec m;
  create_temp := fun _ _ => Ok "/tmp/cbox-phpfpm-opcache-1.php";
  write_string := fun _ _ => Ok tt;
  chmod := fun _ _ => Ok tt;
  close_file := fun _ => Ok tt;
  remove := fun _ => Ok tt
|}.

Definition host_of (at_tick : nat -> machine) : Host := {|
  goos := Linux;
  host_at := fun t => os_of (at_tick t);
  range_order := fun V _ m => map_to_list m;
  range_order_perm := fun V _ m => reflexivity (map_to_list m)
|}.

Definition steady (m : machine) : Host := host_of (fun _ => m).

(** [m] before the instant [t], [m'] from then on. *)
Definition phases (t : nat) (m m' : machine) : Host :=
  host_of (fun i => if (i <? t)%nat then m else m').

Definition no_exec : string -> list string -> exec_result := fun _ _ => NotStarted "no such program".

Definition start : world := mkWorld 0 [] (mkCache ∅ 0).

(** A directory and a file of root's, and the directories of a stock install. *)
Definition root_dir : file_info := mkInfo (ModeDir + 493) (Some 0%Z).
Definition root_file : file_info := mkInfo 493 (Some 0%Z).

Definition stock_paths : list (string * file_info) :=
  [("/", root_dir); ("/usr", root_dir); ("/usr/sbin", root_dir);
   ("/usr/sbin/php-fpm", root_file); ("/etc", root_dir); ("/etc/php-fpm.conf", root_file)].

Definition fpm_proc (pid : Z) : proc_entry :=
  mkProc pid 1 "php-fpm" "php-fpm: master process (/etc/php-fpm.conf)" "/usr/sbin/php-fpm" 4096.

(** A root-run machine with one php-fpm master. *)
Definition stock : machine :=
  mkMachine 0 0 stock_paths [] [fpm_proc 7] [] no_exec.
