(* ===== verification/Trust.v ===== *)
(** * Trust checks on paths (trust.go)

    [trustedPath] decides whether a path found in the process table, or handed in
    by a caller, may be executed or read. The walk up the directories is a loop
    with fuel; [trustedPath_terminates] shows the fuel is enough. *)

From S2P Require Import Prelude GoStrings GoPath Config Host Samples.

Inductive trust_error :=
  | NotAbsolute (path : string)
  | PathMissing (path : string)
  | CannotStat (path : string) (e : os_error)
  | IsSymlink (path : string)
  | NotRegular (path : string)
  | NoOwner (path : string)
  | ForeignOwner (path : string) (uid me : Z)
  | WritableByOthers (path : string) (perm : Z)
  | AncestorForeign (path dir : string) (uid : Z)
  | AncestorWritable (path dir : string) (perm : Z)
  | AncestorWorldWritable (path dir : string) (perm : Z)
  | WalkOutOfFuel.

(** [errors.Is(err, ErrPathMissing)]. *)
Definition is_path_missing (e : trust_error) : bool :=
  match e with PathMissing _ => true | _ => false end.

Definition mode_symlink (fi : file_info) : bool := negb (Z.land (fi_mode fi) ModeSymlink =? 0)%Z.
Definition mode_regular (fi : file_info) : bool := (Z.land (fi_mode fi) ModeType =? 0)%Z.
Definition mode_sticky (fi : file_info) : bool := negb (Z.land (fi_mode fi) ModeSticky =? 0)%Z.
Definition mode_perm (fi : file_info) : Z := Z.land (fi_mode fi) ModePerm.

(** The bits [0o022] and [0o002] of the permissions. *)
Definition group_or_other_writable (fi : file_info) : bool := negb (Z.land (mode_perm fi) 18 =? 0)%Z.
Definition world_writable (fi : file_info) : bool := negb (Z.land (mode_perm fi) 2 =? 0)%Z.

(** ** One directory of the walk *)

Definition check_dir (strict : bool) (path dir : string) (r : lstat_result) : result trust_error unit :=
  match r with
  | LstatNotExist => Err (PathMissing dir)
  | LstatError e => Err (CannotStat dir e)
  | LstatInfo fi =>
      match fi_uid fi with
      | None => Err (NoOwner dir)
      | Some uid =>
          if strict then
            if negb (uid =? 0)%Z then Err (AncestorForeign path dir uid)
            else if group_or_other_writable fi && negb (mode_sticky fi)
                 then Err (AncestorWritable path dir (mode_perm fi))
                 else Ok tt
          else if world_writable fi && negb (mode_sticky fi)
               then Err (AncestorWorldWritable path dir (mode_perm fi))
               else Ok tt
      end
  end.

(** ** The file itself *)

Definition check_file (me : Z) (path : string) (fi : file_info) : result trust_error unit :=
  if mode_symlink fi then Err (IsSymlink path)
  else if negb (mode_regular fi) then Err (NotRegular path)
  else match fi_uid fi with
       | None => Err (NoOwner path)
       | Some uid =>
           if negb (uid =? 0)%Z && negb (to_uint64 uid =? to_uint64 me)%Z
           then Err (ForeignOwner path uid me)
           else if group_or_other_writable fi then Err (WritableByOthers path (mode_perm fi))
           else Ok tt
       end.

Section Trust.
Context `{Host}.

(** The [for] loop of [trustedAncestors]. *)
Fixpoint ancestors_loop (fuel : nat) (strict : bool) (path dir : string) :
    M (result trust_error unit) :=
  match fuel with
  | O => ret (Err WalkOutOfFuel)
  | S f =>
      let! r := observe (fun os => lstat os dir) in
      match check_dir strict path dir r with
      | Err e => ret (Err e)
      | Ok _ =>
          let parent := Dir dir in
          if String.eqb parent dir then ret (Ok tt)
          else ancestors_loop f strict path parent
      end
  end.

Definition trustedAncestors (path : string) : M (result trust_error unit) :=
  let! uid := observe getuid in
  let strict := (uid =? 0)%Z in
  let dir := Dir (Clean path) in
  ancestors_loop (S (String.length path)) strict path dir.

Definition trustedPath (path : string) : M (result trust_error unit) :=
  if negb (IsAbs path) then ret (Err (NotAbsolute path))
  else
    try! _ := trustedAncestors path in
    let! r := observe (fun os => lstat os path) in
    match r with
    | LstatNotExist => ret (Err (PathMissing path))
    | LstatError e => ret (Err (CannotStat path e))
    | LstatInfo fi =>
        if mode_symlink fi then ret (Err (IsSymlink path))
        else if negb (mode_regular fi) then ret (Err (NotRegular path))
        else match fi_uid fi with
             | None => ret (Err (NoOwner path))
             | Some _ => let! me := observe getuid in ret (check_file me path fi)
             end
    end.
End Trust.

(** ** The directories a path passes through *)

(** From the directory holding the path up to the root. *)
Definition ancestors (path : string) : list string :=
  let es := abs_elems path in
  map (fun k => abs_path (take k es)) (rev (seq 0 (Nat.max 1 (length es)))).

(** Checking a list of directories in order, each at the next instant. *)
Fixpoint walk_from `{Host} (t : nat) (strict : bool) (path : string) (dirs : list string) :
    result trust_error unit * nat :=
  match dirs with
  | [] => (Ok tt, t)
  | dir :: dirs' =>
      match check_dir strict path dir (lstat (host_at t) dir) with
      | Err e => (Err e, S t)
      | Ok _ => walk_from (S t) strict path dirs'
      end
  end.

Lemma plain_elems_take k es : plain_elems es -> plain_elems (take k es).
Proof. apply Forall_take. Qed.

Lemma Dir_abs_take k es :
  plain_elems es -> (k < length es)%nat ->
  Dir (abs_path (take (S k) es)) = abs_path (take k es).
Proof.
  intros H Hk. destruct (lookup_lt_is_Some_2 es k Hk) as [e He].
  rewrite (take_S_r es k e He). apply Dir_abs_path.
  rewrite <- (take_S_r es k e He). by apply plain_elems_take.
Qed.

Lemma abs_path_take_ne k es :
  plain_elems es -> (k < length es)%nat ->
  String.eqb (abs_path (take k es)) (abs_path (take (S k) es)) = false.
Proof.
  intros H Hk. apply String.eqb_neq. intros E.
  apply abs_path_inj in E; try by apply plain_elems_take.
  apply (f_equal length) in E. rewrite !length_take in E. lia.
Qed.

Section TrustProofs.
Context `{Host}.

(** The loop checks the directories from the [k]-th up to the root. *)
Lemma ancestors_loop_walk fuel strict path es k w :
  plain_elems es -> (k <= length es)%nat -> (k < fuel)%nat ->
  let dirs := map (fun k => abs_path (take k es)) (rev (seq 0 (S k))) in
  ancestors_loop fuel strict path (abs_path (take k es)) w =
  ((walk_from (tick w) strict path dirs).1,
   mkWorld (walk_from (tick w) strict path dirs).2 (trace w) (cache w)).
Proof.
  intros Hes. revert fuel w. induction k as [|k IH]; intros [|fuel] w Hk Hf; try lia.
  - rewrite take_0. cbn [seq rev map app ancestors_loop walk_from]. rewrite take_0.
    unfold bind at 1, observe at 1.
    destruct (check_dir strict path (abs_path []) _); [|done].
    by rewrite (Dir_root : Dir (abs_path []) = abs_path []), String.eqb_refl.
  - rewrite seq_S, rev_app_distr. cbn [rev app map plus ancestors_loop].
    unfold bind at 1, observe at 1. cbn [walk_from].
    destruct (check_dir strict path _ _) as [[]|e]; [|done].
    rewrite Dir_abs_take, abs_path_take_ne by (done || lia).
    rewrite IH by lia. done.
Qed.

Lemma join_byte_length b es :
  Forall (fun e => e <> "") es -> (length es <= S (String.length (join_byte b es)))%nat.
Proof.
  induction 1 as [|e es He _ IH]; [simpl; lia|]. destruct es as [|e' es]; [simpl; lia|].
  change (join_byte b (e :: e' :: es)) with (e +:+ String b (join_byte b (e' :: es))).
  rewrite str_length_app. cbn [String.length length] in *. lia.
Qed.

Lemma split_byte_length b s : (length (split_byte b s) <= S (String.length s))%nat.
Proof.
  induction s as [|c s IH]; [simpl; lia|]. cbn [split_byte String.length].
  destruct (Ascii.eqb c b); [simpl; lia|]. destruct (split_byte b s); simpl in *; lia.
Qed.

Lemma clean_fold_length rooted es kept :
  (length (fold_left (clean_step rooted) es kept) <= length es + length kept)%nat.
Proof.
  revert kept. induction es as [|e es IH]; intros kept; simpl; [lia|].
  etransitivity; [apply IH|]. unfold clean_step.
  repeat case_match; simpl; lia.
Qed.

Lemma abs_elems_length path : (length (abs_elems path) <= S (String.length path))%nat.
Proof.
  unfold abs_elems, clean_elems. rewrite length_rev.
  etransitivity; [apply clean_fold_length|]. pose proof (split_byte_length SLASH path).
  simpl. lia.
Qed.

Lemma ancestors_first path :
  IsAbs path = true ->
  Dir (Clean path) = abs_path (take (Nat.max 1 (length (abs_elems path)) - 1) (abs_elems path)).
Proof.
  intros Ha. rewrite Clean_abs by done. pose proof (abs_elems_plain path) as Hp.
  destruct (abs_elems path) as [|e es] eqn:E; [done|].
  set (all := e :: es) in *. replace (abs_path all) with (abs_path (take (S (length all - 1)) all)).
  - replace (Nat.max 1 (length all) - 1)%nat with (length all - 1)%nat by (cbn; lia).
    apply Dir_abs_take; [done|]. cbn; lia.
  - f_equal. apply take_ge. cbn; lia.
Qed.

(** The walk of [trustedAncestors], as a list of directories checked in turn. *)
Lemma trustedAncestors_walk path w :
  IsAbs path = true ->
  let strict := (getuid (host_at (tick w)) =? 0)%Z in
  let r := walk_from (S (tick w)) strict path (ancestors path) in
  trustedAncestors path w = (r.1, mkWorld r.2 (trace w) (cache w)).
Proof.
  intros Ha. unfold trustedAncestors, bind, observe. cbn [fst snd].
  rewrite ancestors_first by done.
  set (n := Nat.max 1 (length (abs_elems path))).
  assert (Hn : (1 <= n)%nat) by (unfold n; lia).
  rewrite (ancestors_loop_walk _ _ _ (abs_elems path)).
  - cbn [tick trace cache]. unfold ancestors. fold n.
    by replace (S (n - 1)) with n by lia.
  - apply abs_elems_plain.
  - unfold n. lia.
  - pose proof (abs_elems_length path). unfold n. lia.
Qed.
End TrustProofs.

(** ** What a trusted path is *)

(** A directory nobody else can swap entries of: owned by root and, unless
    sticky, writable by its owner alone (strict, as root); not world-writable
    unless sticky otherwise. *)
Definition dir_safe (strict : bool) (uid : Z) (fi : file_info) : Prop :=
  if strict then uid = 0%Z /\ (group_or_other_writable fi = true -> mode_sticky fi = true)
  else world_writable fi = true -> mode_sticky fi = true.

(** A regular file of root's or ours that nobody else can write. *)
Definition file_safe (me uid : Z) (fi : file_info) : Prop :=
  mode_symlink fi = false /\ mode_regular fi = true /\
  (uid = 0%Z \/ to_uint64 uid = to_uint64 me) /\ group_or_other_writable fi = false.

Definition sees_dir (strict : bool) (r : lstat_result) : Prop :=
  exists fi uid, r = LstatInfo fi /\ fi_uid fi = Some uid /\ dir_safe strict uid fi.

Definition sees_file (me : Z) (r : lstat_result) : Prop :=
  exists fi uid, r = LstatInfo fi /\ fi_uid fi = Some uid /\ file_safe me uid fi.

Lemma check_dir_Ok strict path dir r :
  check_dir strict path dir r = Ok tt <-> sees_dir strict r.
Proof.
  unfold sees_dir, dir_safe, check_dir. split.
  - intros Hc. destruct r as [|e|fi]; [done..|].
    destruct (fi_uid fi) as [uid|] eqn:Eu; [|done]. exists fi, uid. split; [done|]. split; [done|].
    destruct strict.
    + destruct (Z.eqb_spec uid 0); [|done]. split; [done|]. intros Hg. rewrite Hg in Hc.
      by destruct (mode_sticky fi).
    + intros Hg. rewrite Hg in Hc. by destruct (mode_sticky fi).
  - intros (fi & uid & -> & -> & Hs). destruct strict.
    + destruct Hs as [-> Hs]. cbn [Z.eqb negb].
      destruct (group_or_other_writable fi); [|done]. by rewrite Hs.
    + destruct (world_writable fi); [|done]. by rewrite Hs.
Qed.

Lemma check_file_Ok me path fi :
  check_file me path fi = Ok tt <-> exists uid, fi_uid fi = Some uid /\ file_safe me uid fi.
Proof.
  unfold check_file, file_safe. split.
  - intros Hc. destruct (mode_symlink fi); [done|]. destruct (mode_regular fi); [|done].
    cbn [negb] in Hc. destruct (fi_uid fi) as [uid|]; [|done]. exists uid. split; [done|].
    destruct (Z.eqb_spec uid 0), (Z.eqb_spec (to_uint64 uid) (to_uint64 me)),
      (group_or_other_writable fi); cbn in Hc; auto; done.
  - intros (uid & -> & -> & -> & Hu & ->). cbn [negb].
    destruct (Z.eqb_spec uid 0), (Z.eqb_spec (to_uint64 uid) (to_uint64 me)); cbn; try done.
    by destruct Hu.
Qed.

Section TrustTheorems.
Context `{Host}.

Lemma walk_from_Ok t strict path dirs t' :
  walk_from t strict path dirs = (Ok tt, t') <->
  t' = (t + length dirs)%nat /\
  forall i dir, dirs !! i = Some dir -> sees_dir strict (lstat (host_at (t + i)) dir).
Proof.
  revert t. induction dirs as [|d dirs IH]; intros t; cbn [walk_from length].
  - rewrite Nat.add_0_r. split; [by intros [= ->]|by intros [-> _]].
  - destruct (check_dir strict path d _) as [[]|e] eqn:E.
    + rewrite IH. apply check_dir_Ok in E. split.
      * intros [-> Hd]. split; [lia|]. intros [|i] dir Hi; cbn in Hi.
        { simplify_eq. by rewrite Nat.add_0_r. }
        rewrite <- Nat.add_succ_comm. by apply Hd.
      * intros [-> Hd]. split; [lia|]. intros i dir Hi. rewrite Nat.add_succ_comm.
        by apply (Hd (S i)).
    + split; [done|]. intros [_ Hd]. specialize (Hd 0%nat d eq_refl).
      rewrite Nat.add_0_r in Hd. apply (check_dir_Ok _ path d) in Hd. congruence.
Qed.

(** The instant of the last read of the walk is the one before this. *)
Definition file_tick (path : string) (w : world) : nat := S (tick w) + length (ancestors path).

(** C6. [trustedPath] accepts exactly the absolute paths whose every ancestor,
    read in turn from the containing directory up to the root, is safe, and
    which is itself, read after them, a safe file. Each clause is about the
    instant the read was made at. *)
Theorem trustedPath_iff path w :
  (trustedPath path w).1 = Ok tt <->
  IsAbs path = true /\
  (forall i dir, ancestors path !! i = Some dir ->
     sees_dir (getuid (host_at (tick w)) =? 0)%Z (lstat (host_at (S (tick w) + i)) dir)) /\
  sees_file (getuid (host_at (S (file_tick path w)))) (lstat (host_at (file_tick path w)) path).
Proof.
  unfold trustedPath. destruct (IsAbs path) eqn:Ha; cbn [negb]; [|by split; [|intros (? & _)]].
  unfold bind_ok, bind at 1. rewrite trustedAncestors_walk by done.
  destruct (walk_from _ _ _ _) as [r t'] eqn:Ew. cbn [fst snd].
  destruct r as [[]|e].
  - apply walk_from_Ok in Ew as [-> Hd]. unfold file_tick.
    unfold bind at 1, observe at 1. cbn [tick trace cache].
    set (t := (S (tick w) + length (ancestors path))%nat).
    split.
    + intros E. split; [done|]. split; [done|].
      destruct (lstat (host_at t) path) as [|e|fi] eqn:El; [done..|].
      destruct (mode_symlink fi) eqn:Es; [done|]. destruct (mode_regular fi) eqn:Er; [|done].
      destruct (fi_uid fi) as [u|] eqn:Eu; [|done]. cbn in E.
      apply check_file_Ok in E as (uid & Hu & Hs). exists fi, uid. done.
    + intros (_ & _ & fi & uid & El & Hu & Hs). rewrite El.
      destruct Hs as (Hs1 & Hs2 & Hs3 & Hs4). rewrite Hs1, Hs2, Hu. cbn.
      apply check_file_Ok. exists uid. done.
  - split; [done|]. intros (_ & Hd & _).
    assert (Hw : walk_from (S (tick w)) (getuid (host_at (tick w)) =? 0)%Z path (ancestors path) =
            (Ok tt, (S (tick w) + length (ancestors path))%nat)) by (by apply walk_from_Ok).
    congruence.
Qed.

Lemma walk_from_missing t strict path dirs p :
  (walk_from t strict path dirs).1 = Err (PathMissing p) ->
  exists t', (t <= t')%nat /\ lstat (host_at t') p = LstatNotExist.
Proof.
  revert t. induction dirs as [|d dirs IH]; intros t; cbn [walk_from]; [done|].
  destruct (check_dir strict path d _) as [[]|e] eqn:E.
  - intros (t' & ? & ?)%IH. exists t'. split; [lia|done].
  - cbn. intros [= ->]. exists t. split; [lia|]. unfold check_dir in E.
    repeat case_match; simplify_eq; done.
Qed.

Lemma walk_from_no_fuel t strict path dirs :
  (walk_from t strict path dirs).1 <> Err WalkOutOfFuel.
Proof.
  revert t. induction dirs as [|d dirs IH]; intros t; cbn [walk_from]; [done|].
  destruct (check_dir strict path d _) as [[]|e] eqn:E; [apply IH|].
  unfold check_dir in E. repeat case_match; naive_solver.
Qed.

(** The error [trustedPath] gives, or its absence, in terms of the walk. *)
Lemma trustedPath_result path w :
  IsAbs path = true ->
  (trustedPath path w).1 =
  match (walk_from (S (tick w)) (getuid (host_at (tick w)) =? 0)%Z path (ancestors path)).1 with
  | Err e => Err e
  | Ok _ =>
      match lstat (host_at (file_tick path w)) path with
      | LstatNotExist => Err (PathMissing path)
      | LstatError e => Err (CannotStat path e)
      | LstatInfo fi => check_file (getuid (host_at (S (file_tick path w)))) path fi
      end
  end.
Proof.
  intros Ha. unfold trustedPath. rewrite Ha. cbn [negb].
  unfold bind_ok, bind at 1. rewrite trustedAncestors_walk by done.
  destruct (walk_from _ _ _ _) as [[[]|e] t'] eqn:Ew; cbn [fst snd]; [|done].
  apply walk_from_Ok in Ew as [-> _]. unfold bind at 1, observe at 1, file_tick.
  cbn [tick trace cache].
  destruct (lstat _ path) as [|e|fi]; [done..|]. unfold check_file.
  destruct (mode_symlink fi); [done|]. destruct (mode_regular fi); [|done]. cbn [negb].
  destruct (fi_uid fi); done.
Qed.

(** C34. The walk up the directories ends: for every path and whatever the host
    answers, [trustedPath] returns an answer of the code's, never the model's
    out-of-fuel value. *)
Theorem trustedPath_terminates path w : (trustedPath path w).1 <> Err WalkOutOfFuel.
Proof.
  destruct (IsAbs path) eqn:Ha; [|by unfold trustedPath; rewrite Ha].
  rewrite trustedPath_result by done.
  pose proof (walk_from_no_fuel (S (tick w)) (getuid (host_at (tick w)) =? 0)%Z path
    (ancestors path)) as Hw.
  destruct (walk_from _ _ _ _) as [[[]|e] t']; cbn [fst] in *; [|done].
  destruct (lstat _ path); [done..|]. unfold check_file. repeat case_match; done.
Qed.

(** A path is reported missing only when it, or a directory above it, really
    was absent when it was read: a path that exists and fails the checks is
    never passed off as a leftover. *)
Theorem trustedPath_missing path w p :
  (trustedPath path w).1 = Err (PathMissing p) ->
  IsAbs path = true /\ exists t, (tick w < t)%nat /\ lstat (host_at t) p = LstatNotExist.
Proof.
  destruct (IsAbs path) eqn:Ha; [|by unfold trustedPath; rewrite Ha].
  rewrite trustedPath_result by done. intros E. split; [done|].
  destruct (walk_from _ _ _ _) as [[[]|e] t'] eqn:Ew; cbn [fst] in E.
  - destruct (lstat _ path) eqn:El; simplify_eq.
    + exists (file_tick p w). split; [unfold file_tick; lia|done].
    + exfalso. unfold check_file in E. repeat case_match; done.
  - simplify_eq. destruct (walk_from_missing (S (tick w)) (getuid (host_at (tick w)) =? 0)%Z
      path (ancestors path) p) as (t1 & ? & ?); [by rewrite Ew|]. exists t1. split; [lia|done].
Qed.

(** The directories checked are those of the lexically cleaned path: two
    spellings with the same clean form pass or fail the ancestor check together,
    so a component that [".."] removes is never examined, although the kernel
    walks through it. *)
Theorem trustedAncestors_lexical path path' w :
  IsAbs path = true -> IsAbs path' = true -> Clean path = Clean path' ->
  is_ok (trustedAncestors path w).1 = is_ok (trustedAncestors path' w).1.
Proof.
  intros Ha Ha' HC. rewrite !trustedAncestors_walk by done. cbn [fst].
  rewrite !Clean_abs in HC by done.
  apply abs_path_inj in HC; [|apply abs_elems_plain..].
  unfold ancestors. rewrite <- HC. clear.
  generalize (map (fun k => abs_path (take k (abs_elems path)))
    (rev (seq 0 (Nat.max 1 (length (abs_elems path)))))) as dirs.
  intros dirs. generalize (S (tick w)) as t.
  induction dirs as [|d dirs IH]; intros t; cbn [walk_from]; [done|].
  destruct (check_dir _ path d _) as [[]|e] eqn:E, (check_dir _ path' d _) as [[]|e'] eqn:E';
    try done.
  - apply check_dir_Ok in E. apply (proj2 (check_dir_Ok _ path' d _)) in E. congruence.
  - apply check_dir_Ok in E'. apply (proj2 (check_dir_Ok _ path d _)) in E'. congruence.
Qed.

(** The check touches no process and runs nothing. *)
Lemma ancestors_loop_quiet P fuel strict path dir : quiet P (ancestors_loop fuel strict path dir).
Proof.
  revert dir. induction fuel as [|f IH]; intros dir; cbn [ancestors_loop]; [auto with quiet|].
  apply quiet_bind; [auto with quiet|]. intros r.
  destruct (check_dir _ _ _ _); [|auto with quiet]. by case_match; auto with quiet.
Qed.

Lemma trustedPath_quiet P path : quiet P (trustedPath path).
Proof.
  unfold trustedPath, trustedAncestors. destruct (IsAbs path); cbn [negb]; [|auto with quiet].
  apply quiet_bind_ok; [apply quiet_bind; [auto with quiet|intros; apply ancestors_loop_quiet]|].
  intros _. apply quiet_bind; [auto with quiet|]. intros [|e|fi]; try auto with quiet.
  repeat case_match; auto with quiet.
Qed.

Lemma trustedPath_forward path : forward (trustedPath path).
Proof.
  assert (Hloop : forall fuel strict dir, forward (ancestors_loop fuel strict path dir)).
  { induction fuel as [|f IH]; intros strict dir; cbn [ancestors_loop]; [auto with forward|].
    apply forward_bind; [auto with forward|]. intros r.
    destruct (check_dir _ _ _ _); [|auto with forward]. by case_match; auto with forward. }
  unfold trustedPath, trustedAncestors. destruct (IsAbs path); cbn [negb]; [|auto with forward].
  apply forward_bind_ok; [auto with forward|].
  intros _. apply forward_bind; [auto with forward|]. intros [|e|fi]; try auto with forward.
  repeat case_match; auto with forward.
Qed.

Lemma trustedPath_insensitive path : stands_still -> insensitive (trustedPath path).
Proof.
  intros Hs.
  assert (Hloop : forall fuel strict dir, insensitive (ancestors_loop fuel strict path dir)).
  { induction fuel as [|f IH]; intros strict dir; cbn [ancestors_loop]; [auto with insensitive|].
    apply insensitive_bind; [auto with insensitive|]. intros r.
    destruct (check_dir _ _ _ _); [|auto with insensitive]. by case_match; auto with insensitive. }
  unfold trustedPath, trustedAncestors.
  destruct (IsAbs path); cbn [negb]; [|auto with insensitive].
  apply insensitive_bind_ok; [auto with insensitive|].
  intros _. apply insensitive_bind; [auto with insensitive|].
  intros [|e|fi]; try auto with insensitive.
  repeat case_match; auto with insensitive.
Qed.

Lemma trustedPath_keeps_cache path : keeps_cache (trustedPath path).
Proof.
  assert (Hloop : forall fuel strict dir, keeps_cache (ancestors_loop fuel strict path dir)).
  { induction fuel as [|f IH]; intros strict dir; cbn [ancestors_loop]; [auto with keeps_cache|].
    apply keeps_cache_bind; [auto with keeps_cache|]. intros r.
    destruct (check_dir _ _ _ _); [|auto with keeps_cache]. by case_match; auto with keeps_cache. }
  unfold trustedPath, trustedAncestors.
  destruct (IsAbs path); cbn [negb]; [|auto with keeps_cache].
  apply keeps_cache_bind_ok; [auto with keeps_cache|].
  intros _. apply keeps_cache_bind; [auto with keeps_cache|].
  intros [|e|fi]; try auto with keeps_cache.
  repeat case_match; auto with keeps_cache.
Qed.

Lemma trustedPath_abs path w w' : trustedPath path w = (Ok tt, w') -> IsAbs path = true.
Proof. unfold trustedPath. by destruct (IsAbs path). Qed.
End TrustTheorems.

#[export] Hint Resolve trustedPath_quiet : quiet.
#[export] Hint Resolve trustedPath_keeps_cache : keeps_cache.
#[export] Hint Resolve trustedPath_forward : forward.
#[export] Hint Resolve trustedPath_insensitive : insensitive.

(** ** Instances *)

Definition trust_machine (uid : Z) (paths : list (string * file_info)) : machine :=
  mkMachine 0 uid paths [] [] [] no_exec.

Example stock_binary_trusted :
  (trustedPath (H := steady stock) "/usr/sbin/php-fpm" start).1 = Ok tt.
Proof. vm_compute. reflexivity. Qed.

(** A world-writable directory is refused, unless it is sticky. *)
Example writable_dir_refused :
  (trustedPath (H := steady (trust_machine 1000
     [("/", root_dir); ("/tmp", mkInfo (ModeDir + 511) (Some 0%Z));
      ("/tmp/php-fpm", mkInfo 493 (Some 1000%Z))])) "/tmp/php-fpm" start).1 =
  Err (AncestorWorldWritable "/tmp/php-fpm" "/tmp" 511).
Proof. vm_compute. reflexivity. Qed.

Example sticky_dir_accepted :
  (trustedPath (H := steady (trust_machine 1000
     [("/", root_dir); ("/tmp", mkInfo (ModeDir + ModeSticky + 511) (Some 0%Z));
      ("/tmp/php-fpm", mkInfo 493 (Some 1000%Z))])) "/tmp/php-fpm" start).1 = Ok tt.
Proof. vm_compute. reflexivity. Qed.

(** The walk does not see the component [..] takes back. *)
Example dotdot_not_walked :
  ancestors "/srv/link/../bin/php-fpm" = ["/srv/bin"; "/srv"; "/"].
Proof. vm_compute. reflexivity. Qed.

Lemma trustedPath_missing_witness :
  (trustedPath (H := steady (trust_machine 0 [("/", root_dir)])) "/opt/php/fpm.conf" start).1 =
    Err (PathMissing "/opt/php") /\
  IsAbs "/opt/php/fpm.conf" = true /\
  exists t, (0 < t)%nat /\
    lstat (@host_at (steady (trust_machine 0 [("/", root_dir)])) t) "/opt/php" = LstatNotExist.
Proof.
  assert (E : (trustedPath (H := steady (trust_machine 0 [("/", root_dir)]))
                "/opt/php/fpm.conf" start).1 = Err (PathMissing "/opt/php")) by (vm_compute; reflexivity).
  split; [exact E|]. exact (trustedPath_missing (H := steady (trust_machine 0 [("/", root_dir)])) _ _ _ E).
Defined.

Lemma trustedAncestors_lexical_witness :
  is_ok (trustedAncestors (H := steady stock) "/usr/../usr/sbin//php-fpm" start).1 =
  is_ok (trustedAncestors (H := steady stock) "/usr/sbin/php-fpm" start).1.
Proof. apply (trustedAncestors_lexical (H := steady stock)); vm_compute; reflexivity. Defined.
