(* ===== verification/Run.v ===== *)
(** * Running php-fpm with a bounded capture (run.go, config.go: limitedWriter)

    [limitedWriter] is the writer os/exec copies a child's output into; [io_copy]
    is that copy, chunk by chunk; [runBounded] gates the run on the trust check. *)

From S2P Require Import Prelude GoStrings GoPath Config Host Samples Trust.

(** ** limitedWriter *)

Record limitedWriter := mkWriter { captured_text : string; remaining : Z; truncated : bool }.

Definition str_len (s : string) : Z := Z.of_nat (String.length s).

(** [Write]: the writer after it, and the count it returns. *)
Definition Write (l : limitedWriter) (p : string) : limitedWriter * Z :=
  if (remaining l <=? 0)%Z then (mkWriter (captured_text l) (remaining l) true, str_len p)
  else
    let '(p, tr) :=
      if (remaining l <? str_len p)%Z
      then (str_take (Z.to_nat (remaining l)) p, true) else (p, truncated l) in
    let n := str_len p in
    (mkWriter (captured_text l +:+ p) (remaining l - n) tr, n).

(** [io.Copy]: a write that reports fewer bytes than it was given ends the copy
    with [io.ErrShortWrite]; the flag says whether that happened. *)
Fixpoint io_copy (l : limitedWriter) (chunks : list string) : limitedWriter * bool :=
  match chunks with
  | [] => (l, false)
  | c :: chunks' =>
      let '(l', n) := Write l c in
      if (n =? str_len c)%Z then io_copy l' chunks' else (l', true)
  end.

Definition new_writer (limit : Z) : limitedWriter := mkWriter "" limit false.

(** ** cmd.Run *)

Inductive run_error :=
  | StartError (e : os_error)
  | WaitError (e : os_error)
  | ErrShortWrite.

(** An error of [Wait] is reported before one of the copy. *)
Definition run_outcome (limit : Z) (chunks : list string) (wait : option os_error) :
    limitedWriter * option run_error :=
  let '(l, short) := io_copy (new_writer limit) chunks in
  (l, match wait with
      | Some e => Some (WaitError e)
      | None => if short then Some ErrShortWrite else None
      end).

Definition cmd_run `{Host} (limit : Z) (binary : string) (args : list string) :
    M (limitedWriter * option run_error) :=
  let! r := observe (fun os => run_program os binary args) in
  match r with
  | NotStarted e => ret (new_writer limit, Some (StartError e))
  | Ran chunks wait =>
      let! _ := emit (EvExec binary args) in
      ret (run_outcome limit chunks wait)
  end.

Definition maxCapturedOutput : Z := 4 * 2 ^ 20.

Inductive bounded_error :=
  | RefusedToRun (binary : string) (e : trust_error)
  | RunError (e : run_error).

(** The output captured, and the error, which may come together. *)
Definition runBounded `{Host} (binary : string) (args : list string) :
    M (string * option bounded_error) :=
  let! t := trustedPath binary in
  match t with
  | Err e => ret ("", Some (RefusedToRun binary e))
  | Ok _ =>
      let! r := cmd_run maxCapturedOutput binary args in
      ret (captured_text r.1, RunError <$> r.2)
  end.

(** ** What is captured *)

Fixpoint str_concat (ws : list string) : string :=
  match ws with [] => "" | w :: ws' => w +:+ str_concat ws' end.

Lemma str_concat_app us vs : str_concat (us ++ vs) = str_concat us +:+ str_concat vs.
Proof. induction us as [|u us IH]; [done|]. cbn [app str_concat]. by rewrite IH, str_app_assoc. Qed.

Lemma str_len_app s t : str_len (s +:+ t) = (str_len s + str_len t)%Z.
Proof. unfold str_len. rewrite str_length_app. lia. Qed.

Lemma str_len_nonneg s : (0 <= str_len s)%Z.
Proof. unfold str_len. lia. Qed.

Lemma str_take_length n s : String.length (str_take n s) = Nat.min n (String.length s).
Proof. revert s. induction n as [|n IH]; intros [|c s]; simpl; auto. Qed.

Lemma str_take_all n s : (String.length s <= n)%nat -> str_take n s = s.
Proof.
  revert s. induction n as [|n IH]; intros [|c s]; simpl; intros H; try done; [lia|].
  rewrite IH; [done|lia].
Qed.

Lemma str_take_app_le n s t : (n <= String.length s)%nat -> str_take n (s +:+ t) = str_take n s.
Proof.
  revert s. induction n as [|n IH]; intros [|c s]; cbn [String.length]; intros H; try done; [lia|].
  rewrite str_app_cons. simpl. rewrite IH; [done|lia].
Qed.

Lemma str_take_app_ge n s t :
  (String.length s <= n)%nat -> str_take n (s +:+ t) = s +:+ str_take (n - String.length s) t.
Proof.
  revert s. induction n as [|n IH]; intros [|c s]; cbn [String.length]; intros H; try done; [lia|].
  rewrite !str_app_cons. simpl. rewrite IH; [done|lia].
Qed.

(** One write inside the limit. *)
Lemma Write_fits l p :
  (0 < remaining l)%Z -> (str_len p <= remaining l)%Z ->
  Write l p = (mkWriter (captured_text l +:+ p) (remaining l - str_len p) (truncated l), str_len p).
Proof.
  intros H1 H2. unfold Write.
  destruct (Z.leb_spec (remaining l) 0); [lia|].
  by destruct (Z.ltb_spec (remaining l) (str_len p)); [lia|].
Qed.

(** One write across it. *)
Lemma Write_straddles l p :
  (0 < remaining l < str_len p)%Z ->
  Write l p = (mkWriter (captured_text l +:+ str_take (Z.to_nat (remaining l)) p) 0 true, remaining l).
Proof.
  intros [H1 H2]. unfold Write.
  destruct (Z.leb_spec (remaining l) 0); [lia|].
  destruct (Z.ltb_spec (remaining l) (str_len p)); [|lia].
  assert (Hn : str_len (str_take (Z.to_nat (remaining l)) p) = remaining l).
  { unfold str_len in *. rewrite str_take_length. lia. }
  by rewrite Hn, Z.sub_diag.
Qed.

(** One write past it. *)
Lemma Write_full l p :
  (remaining l <= 0)%Z -> Write l p = (mkWriter (captured_text l) (remaining l) true, str_len p).
Proof. intros H. unfold Write. by destruct (Z.leb_spec (remaining l) 0); [|lia]. Qed.

Lemma io_copy_full l chunks :
  (remaining l <= 0)%Z ->
  io_copy l chunks =
  (mkWriter (captured_text l) (remaining l) (truncated l || negb (bool_decide (chunks = []))), false).
Proof.
  revert l. induction chunks as [|c chunks IH]; intros l H; cbn [io_copy].
  - rewrite orb_false_r. by destruct l.
  - rewrite Write_full, Z.eqb_refl by done. rewrite IH by done. cbn. by rewrite orb_true_r.
Qed.

(** The state of the copy after any number of chunks: the first [limit] bytes of
    what was written, and whether more than that was. *)
Lemma io_copy_spec l chunks :
  (0 <= remaining l)%Z -> Forall (fun c => c <> "") chunks ->
  (io_copy l chunks).1 =
  mkWriter (captured_text l +:+ str_take (Z.to_nat (remaining l)) (str_concat chunks))
    (Z.max 0 (remaining l - str_len (str_concat chunks)))
    (truncated l || (remaining l <? str_len (str_concat chunks))%Z).
Proof.
  intros Hr Hne. revert l Hr. induction Hne as [|c chunks Hc Hne IH]; intros l Hr; cbn [io_copy].
  - cbn. destruct (Z.ltb_spec (remaining l) (str_len "")) as [Hl|_].
    + unfold str_len in Hl. simpl in Hl. lia.
    + rewrite orb_false_r. destruct (Z.to_nat _); rewrite str_app_nil_r;
        unfold str_len; cbn [String.length];
        rewrite Z.sub_0_r, Z.max_r by lia; by destruct l.
  - cbn [str_concat]. rewrite str_len_app.
    pose proof (str_len_nonneg (str_concat chunks)) as Hpos.
    destruct (decide (remaining l = 0%Z)) as [H0|H0].
    + rewrite Write_full, Z.eqb_refl, io_copy_full by (cbn; lia). cbn.
      assert (Hcl : (0 < str_len c)%Z) by (destruct c; [done|unfold str_len; simpl; lia]).
      rewrite H0. change (Z.to_nat 0) with 0%nat. cbn [str_take]. rewrite str_app_nil_r.
      rewrite Z.max_l by lia. destruct (Z.ltb_spec 0 (str_len c + str_len (str_concat chunks))); [|lia].
      by rewrite orb_true_r.
    + destruct (Z.le_gt_cases (str_len c) (remaining l)) as [Hfit|Hover].
      * rewrite Write_fits, Z.eqb_refl by lia. rewrite IH by (cbn; lia). cbn [captured_text remaining truncated].
        rewrite str_app_assoc, str_take_app_ge by (unfold str_len in *; lia).
        f_equal; [|lia|f_equal; lia].
        do 3 f_equal. unfold str_len. lia.
      * rewrite Write_straddles by lia.
        destruct (Z.eqb_spec (remaining l) (str_len c)); [lia|]. cbn.
        rewrite str_take_app_le by (unfold str_len in *; lia).
        rewrite Z.max_l by lia.
        destruct (Z.ltb_spec (remaining l) (str_len c + str_len (str_concat chunks))); [|lia].
        by rewrite orb_true_r.
Qed.

(** C22. Whatever the sizes of the chunks a child's output arrives in, the capture
    is exactly its first [limit] bytes, and the writer remembers it was cut if
    and only if there was more. *)
Theorem capture_exact limit chunks :
  (0 <= limit)%Z -> Forall (fun c => c <> "") chunks ->
  let l := (io_copy (new_writer limit) chunks).1 in
  captured_text l = str_take (Z.to_nat limit) (str_concat chunks) /\
  (truncated l = true <-> (limit < str_len (str_concat chunks))%Z).
Proof.
  intros Hl Hne. rewrite io_copy_spec by done. cbn [captured_text truncated new_writer remaining].
  rewrite str_app_nil_l. split; [done|]. cbn [orb]. apply Z.ltb_lt.
Qed.

(** A chunk lies across the limit. *)
Definition straddled (limit : Z) (chunks : list string) : Prop :=
  exists before c after, chunks = before ++ c :: after /\
    (str_len (str_concat before) < limit < str_len (str_concat before) + str_len c)%Z.

Lemma io_copy_short limit chunks :
  (0 <= limit)%Z -> (io_copy (new_writer limit) chunks).2 = true <-> straddled limit chunks.
Proof.
  intros Hlim. unfold straddled.
  assert (Hgen : forall l, (0 <= remaining l)%Z ->
    (io_copy l chunks).2 = true <->
    exists before c after, chunks = before ++ c :: after /\
      (str_len (str_concat before) < remaining l < str_len (str_concat before) + str_len c)%Z).
  { induction chunks as [|c chunks IH]; intros l Hr; cbn [io_copy].
    - split; [done|]. by intros ([|] & ? & ? & ? & _).
    - destruct (decide (remaining l = 0%Z)) as [H0|H0].
      + rewrite Write_full, Z.eqb_refl, io_copy_full by (cbn; lia). split; [done|].
        intros (b & ? & ? & _ & ?). pose proof (str_len_nonneg (str_concat b)). lia.
      + destruct (Z.le_gt_cases (str_len c) (remaining l)) as [Hfit|Hover].
        * rewrite Write_fits, Z.eqb_refl by lia. rewrite IH by (cbn; lia). cbn [remaining]. split.
          { intros (b & d & a & -> & ?). exists (c :: b), d, a. split; [done|].
            cbn [str_concat]. rewrite str_len_app. lia. }
          intros ([|c' b] & d & a & E & ?); cbn in E; injection E as -> ->.
          { cbn in *. unfold str_len in *. cbn in *. lia. }
          exists b, d, a. split; [done|]. cbn [str_concat] in *. rewrite str_len_app in *. lia.
        * rewrite Write_straddles by lia.
          destruct (Z.eqb_spec (remaining l) (str_len c)); [lia|]. split; [|done].
          intros _. exists [], c, chunks. split; [done|]. change (str_len (str_concat [])) with 0%Z. lia. }
  by rewrite Hgen.
Qed.

(** C40. A chunk that straddles the limit is reported short, so the copy, and with
    it [cmd.Run], fails with [io.ErrShortWrite]; a capture that reaches the limit
    between two chunks does not. *)
Theorem short_write_iff limit chunks :
  (0 <= limit)%Z ->
  (io_copy (new_writer limit) chunks).2 = true <->
  exists before c after, chunks = before ++ c :: after /\
    (str_len (str_concat before) < limit < str_len (str_concat before) + str_len c)%Z.
Proof. apply io_copy_short. Qed.

Lemma runBounded_run `{Host} binary args w r w' :
  runBounded binary args w = (r, w') ->
  (exists e, (trustedPath binary w).1 = Err e /\ r = ("", Some (RefusedToRun binary e)) /\
     w' = (trustedPath binary w).2) \/
  (exists w1 lr, trustedPath binary w = (Ok tt, w1) /\
     cmd_run maxCapturedOutput binary args w1 = (lr, w') /\
     r = (captured_text lr.1, RunError <$> lr.2)).
Proof.
  unfold runBounded. intros (t & w1 & Ht & E)%bind_run. rewrite Ht. destruct t as [[]|e].
  - right. apply bind_run in E as (lr & w2 & Hr & [= <- <-]). eauto.
  - left. injection E as <- <-. eauto.
Qed.

(** C18. [runBounded] runs a binary only behind the trust check: when the check
    refuses, the refusal is returned and nothing runs; when it accepts, at most
    that binary with those arguments runs, once. *)
Theorem runBounded_gate `{Host} binary args w :
  match (trustedPath binary w).1 with
  | Err e => (runBounded binary args w).1 = ("", Some (RefusedToRun binary e)) /\
             trace (runBounded binary args w).2 = trace w
  | Ok _ => exists evs, trace (runBounded binary args w).2 = trace w ++ evs /\
              (evs = [] \/ evs = [EvExec binary args])
  end.
Proof.
  destruct (trustedPath binary w) as [r w1] eqn:E. unfold runBounded.
  rewrite !(bind_eq _ _ _ _ _ E).
  assert (Ht : trace w1 = trace w).
  { destruct (trustedPath_quiet (fun _ => False) binary w r w1 E) as (evs & -> & Hevs).
    destruct Hevs as [|? ? [] _]. by rewrite app_nil_r. }
  cbn [fst snd]. destruct r as [[]|e]; [|by split; [|exact Ht]].
  unfold bind, cmd_run, observe. cbn.
  destruct (run_program _ _ _) as [e|chunks wait]; cbn.
  - exists []. rewrite app_nil_r. auto.
  - exists [EvExec binary args]. rewrite Ht. auto.
Qed.

(** ** Instances *)

Lemma capture_exact_witness :
  let l := (io_copy (new_writer 16) ["0123456789"; "0123456789"; "ab"]).1 in
  captured_text l = "0123456789012345" /\ truncated l = true.
Proof.
  destruct (capture_exact 16 ["0123456789"; "0123456789"; "ab"]) as [H1 H2].
  - lia.
  - repeat constructor; discriminate.
  - split; [exact H1|]. apply H2. vm_compute. reflexivity.
Defined.

Lemma short_write_iff_witness :
  (io_copy (new_writer 16) ["0123456789"; "0123456789"]).2 = true.
Proof.
  apply (short_write_iff 16); [lia|].
  exists ["0123456789"], "0123456789", []. split; [reflexivity|vm_compute; split; reflexivity].
Defined.
