(* ===== verification/ConfigClone.v ===== *)
(** * Copies of a cached configuration (config.go: EffectiveConfig.clone)

    The cache hands every caller its own copy. Whether a caller's edits can reach
    the cached object is a question about aliasing, so here a configuration is a
    graph of Go maps in a store, and [clone] allocates. *)

From S2P Require Import Prelude Config Host Samples.
Open Scope go_scope.

Definition loc : Type := nat.

(** What a location holds: a [map[string]string], a [map[string]map[string]string],
    or an [EffectiveConfig] struct. *)
Inductive object :=
  | StringMap (m : gmap string string)
  | PoolMap (m : gmap string loc)
  | ConfigObject (global pools : loc).

Definition store : Type := gmap loc object.

Definition alloc (h : store) (o : object) : loc * store :=
  let l := fresh (dom h) in (l, <[l := o]> h).

(** ** clone *)

(** [for k, v := range m { out[k] = v }] into a fresh map. *)
Definition copied {V} (kvs : list (string * V)) : gmap string V :=
  fold_left (fun out kv => <[kv.1 := kv.2]> out) kvs ∅.

Section Clone.
Context `{Host} (t : nat).

(** The loop over the pools: each pool map is copied into one of its own. *)
Fixpoint clone_pools (h : store) (pools : list (string * loc)) (out : gmap string loc) :
    option (store * gmap string loc) :=
  match pools with
  | [] => Some (h, out)
  | (name, l) :: pools' =>
      match h !! l with
      | Some (StringMap m) =>
          let '(l', h') := alloc h (StringMap (copied (range_order t m))) in
          clone_pools h' pools' (<[name := l']> out)
      | _ => None
      end
  end.

(** [None] of a pointer is [nil]; the outer [None] is a graph that is not a
    configuration, which Go's types exclude. *)
Definition clone (h : store) (c : option loc) : option (store * option loc) :=
  match c with
  | None => Some (h, None)
  | Some c =>
      match h !! c with
      | Some (ConfigObject g p) =>
          match h !! g, h !! p with
          | Some (StringMap global), Some (PoolMap pools) =>
              let '(g', h) := alloc h (StringMap (copied (range_order t global))) in
              match clone_pools h (range_order t pools) ∅ with
              | Some (h, out) =>
                  let '(p', h) := alloc h (PoolMap out) in
                  let '(c', h) := alloc h (ConfigObject g' p') in
                  Some (h, Some c')
              | None => None
              end
          | _, _ => None
          end
      | _ => None
      end
  end.
End Clone.

(** ** Reading the graph *)

Definition holds_map (h : store) (l : loc) (m : gmap string string) : Prop :=
  h !! l = Some (StringMap m).

(** The pointer [c] stands for the configuration [cfg]. *)
Definition views (h : store) (c : loc) (cfg : EffectiveConfig) : Prop :=
  exists g p pools,
    h !! c = Some (ConfigObject g p) /\ holds_map h g (Global cfg) /\
    h !! p = Some (PoolMap pools) /\
    forall name, option_Forall2 (holds_map h) (pools !! name) (Pools cfg !! name).

(** The locations a configuration is made of. *)
Definition part_of (h : store) (c l : loc) : Prop :=
  exists g p pools, h !! c = Some (ConfigObject g p) /\ h !! p = Some (PoolMap pools) /\
    (l = c \/ l = g \/ l = p \/ exists name, pools !! name = Some l).

Definition write_all (edits : list (loc * object)) (h : store) : store :=
  fold_left (fun h e => <[e.1 := e.2]> h) edits h.

(** ** Lemmas *)

Lemma copied_range `{Host} {V} t (m : gmap string V) : copied (range_order t m) = m.
Proof.
  pose proof (range_order_perm V t m) as Hp. unfold copied.
  assert (Hgen : forall l (out : gmap string V),
    fold_left (fun out kv => <[kv.1 := kv.2]> out) l out = list_to_map (rev l) ∪ out).
  { induction l as [|[k v] l IH]; intros out; cbn [fold_left rev].
    - by rewrite list_to_map_nil, (left_id_L ∅ (∪)).
    - rewrite IH. cbn [fst snd].
      rewrite list_to_map_app, <- (assoc_L (∪)). f_equal.
      rewrite list_to_map_cons, list_to_map_nil, insert_empty. apply insert_union_singleton_l. }
  rewrite Hgen, (right_id_L ∅ (∪)).
  rewrite (list_to_map_proper (rev (range_order t m)) (map_to_list m)).
  - apply list_to_map_to_list.
  - rewrite rev_alt, rev_append_rev, app_nil_r, <- Permutation_rev, Hp. apply NoDup_fst_map_to_list.
  - by rewrite <- Permutation_rev.
Qed.

Lemma alloc_spec h o l h' :
  alloc h o = (l, h') -> (l ∉ dom h) /\ h' = <[l := o]> h /\ h ⊆ h' /\ h' !! l = Some o.
Proof.
  unfold alloc. intros [= <- <-]. pose proof (is_fresh (dom h)) as Hf.
  split; [done|]. split; [done|]. split; [|apply lookup_insert_eq].
  apply insert_subseteq. by apply not_elem_of_dom.
Qed.

Lemma views_mono h h' c cfg : h ⊆ h' -> views h c cfg -> views h' c cfg.
Proof.
  intros Hs (g & p & pools & Hc & Hg & Hp & Hps). exists g, p, pools.
  split_and!; [by eapply lookup_weaken..|]. intros name.
  destruct (Hps name) as [l m Hl|]; constructor. by eapply lookup_weaken.
Qed.

(** A configuration is read at its own locations only. *)
Lemma views_local h h' c cfg :
  (forall l, part_of h c l -> h' !! l = h !! l) -> views h c cfg -> views h' c cfg.
Proof.
  intros Heq (g & p & pools & Hc & Hg & Hp & Hps).
  assert (Hpart : forall l, (l = c \/ l = g \/ l = p \/ exists name, pools !! name = Some l) ->
    h' !! l = h !! l).
  { intros l Hl. apply Heq. by exists g, p, pools. }
  exists g, p, pools. unfold holds_map in *. rewrite !Hpart by auto.
  split_and!; [done..|]. intros name. specialize (Hps name). revert Hps.
  destruct (pools !! name) as [l|] eqn:E, (Pools cfg !! name) as [m|]; inversion 1; subst;
    constructor; rewrite Hpart; eauto.
Qed.

Lemma write_all_subseteq edits h h' :
  h ⊆ h' -> Forall (fun e => e.1 ∉ dom h) edits -> h ⊆ write_all edits h'.
Proof.
  intros Hs He. revert h' Hs. induction He as [|[l o] edits Hl He IH]; intros h' Hs; cbn; [done|].
  apply IH. by apply insert_subseteq_r; [apply not_elem_of_dom|].
Qed.

Lemma write_all_lookup edits h l :
  Forall (fun e => e.1 <> l) edits -> write_all edits h !! l = h !! l.
Proof.
  intros He. revert h. induction He as [|[l' o] edits Hl He IH]; intros h; cbn; [done|].
  rewrite IH. by apply lookup_insert_ne.
Qed.

Section Pools.
Context `{Host} (t : nat) (h0 : store).

(** [out] copies, into locations outside [h0], the maps of [pools]. *)
Definition copies (h : store) (pools out : gmap string loc) : Prop :=
  forall name, option_Forall2 (fun l l' => (l' ∉ dom h0) /\ exists m, holds_map h0 l m /\ holds_map h l' m)
    (pools !! name) (out !! name).

Lemma copies_mono h h' pools out : h ⊆ h' -> copies h pools out -> copies h' pools out.
Proof.
  intros Hs Hc name. destruct (Hc name) as [l l' (? & m & ? & ?)|]; constructor.
  split; [done|]. exists m. split; [done|]. by eapply lookup_weaken.
Qed.

Lemma clone_pools_spec pools h done out :
  h0 ⊆ h -> copies h done out -> NoDup pools.*1 ->
  (forall name l, (name, l) ∈ pools -> done !! name = None /\ exists m, holds_map h0 l m) ->
  exists h' out', clone_pools t h pools out = Some (h', out') /\ h ⊆ h' /\
    copies h' (list_to_map pools ∪ done) out'.
Proof.
  revert h done out. induction pools as [|[name l] pools IH]; intros h done out Hs Hc Hnd Hp.
  - exists h, out. rewrite list_to_map_nil, (left_id_L ∅ (∪)). done.
  - cbn [clone_pools]. cbn in Hnd. apply NoDup_cons in Hnd as [Hn Hnd].
    destruct (Hp name l) as (Hd & m & Hm); [left|].
    rewrite (lookup_weaken h0 h l _ Hm Hs : h !! l = _), copied_range.
    destruct (alloc h (StringMap m)) as [l' h1] eqn:Ea.
    apply alloc_spec in Ea as (Hl' & _ & Hs1 & Hl1).
    assert (Hl0 : l' ∉ dom h0) by (intros Hin; apply Hl'; by apply (subseteq_dom _ _ Hs)).
    destruct (IH h1 (<[name := l]> done) (<[name := l']> out)) as (h' & out' & Hrun & Hs' & Hc').
    + by transitivity h.
    + intros name'. destruct (decide (name = name')) as [<-|Hne].
      * rewrite !lookup_insert_eq. constructor. split; [done|]. by exists m.
      * rewrite !lookup_insert_ne by done. by apply (copies_mono h h1).
    + done.
    + intros name' l0 Hin. destruct (Hp name' l0) as [Hd' Hm']; [by right|].
      rewrite lookup_insert_ne; [done|]. intros <-. apply Hn.
      apply list_elem_of_fmap. by exists (name, l0).
    + exists h', out'. split; [done|]. split; [by transitivity h1|].
      rewrite list_to_map_cons, <- insert_union_l, insert_union_r; [done|].
      by apply not_elem_of_list_to_map_1.
Qed.
End Pools.

(** ** The contract *)

(** C19. A clone is the same configuration in storage of its own: whatever the
    caller writes to it, or to anything allocated since, the cached object still
    stands for what it stood for; and whatever happens to the cached object, the
    clone still does. *)
Theorem clone_isolated `{Host} t h c cfg :
  views h c cfg ->
  exists h' c', clone t h (Some c) = Some (h', Some c') /\
    views h' c' cfg /\ views h' c cfg /\
    (forall l, part_of h' c' l -> l ∉ dom h) /\
    (forall edits, Forall (fun e => e.1 ∉ dom h) edits -> views (write_all edits h') c cfg) /\
    (forall edits, Forall (fun e => e.1 ∈ dom h) edits -> views (write_all edits h') c' cfg).
Proof.
  intros Hv. pose proof Hv as (g & p & pools & Hc & Hg & Hp & Hps).
  cbn [clone]. unfold holds_map in Hg. rewrite Hc, Hg, Hp, copied_range.
  destruct (alloc h _) as [g' h1] eqn:Eg. apply alloc_spec in Eg as (Hg' & _ & Hs1 & Hl1).
  assert (Hpm : forall name l, (name, l) ∈ range_order t pools ->
    (∅ : gmap string loc) !! name = None /\ exists m, holds_map h l m).
  { intros name l Hin. split; [apply lookup_empty|].
    rewrite range_order_perm, elem_of_map_to_list in Hin.
    specialize (Hps name). rewrite Hin in Hps. inversion Hps; subst. eauto. }
  destruct (clone_pools_spec t h (range_order t pools) h1 ∅ ∅) as (h2 & out & -> & Hs2 & Hout);
    [done|intros ?; rewrite lookup_empty; constructor
    |rewrite range_order_perm; apply NoDup_fst_map_to_list|done|].
  rewrite (right_id_L ∅ (∪)), (list_to_map_proper _ (map_to_list pools)), list_to_map_to_list in Hout;
    [|rewrite range_order_perm; apply NoDup_fst_map_to_list|apply range_order_perm].
  destruct (alloc h2 _) as [p' h3] eqn:Ep. apply alloc_spec in Ep as (Hp' & _ & Hs3 & Hl3).
  destruct (alloc h3 _) as [c' h4] eqn:Ec. apply alloc_spec in Ec as (Hc' & _ & Hs4 & Hl4).
  assert (Hs : h ⊆ h4) by (by transitivity h1; [|transitivity h2; [|transitivity h3]]).
  assert (Hv' : views h4 c' cfg).
  { exists g', p', out. split; [done|]. split; [|split].
    - eapply lookup_weaken; [exact Hl1|]. by transitivity h2; [|transitivity h3].
    - by eapply lookup_weaken.
    - intros name. specialize (Hps name). specialize (Hout name). revert Hps Hout.
      destruct (pools !! name) as [l|], (Pools cfg !! name) as [m0|], (out !! name) as [l'|];
        inversion 1 as [? ? Hm0|]; inversion 1 as [? ? (Hf & m & Hm & Hm')|]; subst; constructor.
      unfold holds_map in *. replace m0 with m by congruence.
      eapply lookup_weaken; [exact Hm'|]. by transitivity h3. }
  assert (Hfp : forall l, part_of h4 c' l -> l ∉ dom h).
  { intros l (g1 & p1 & out1 & E1 & E2 & Hl). rewrite Hl4 in E1. injection E1 as <- <-.
    pose proof (lookup_weaken _ _ _ _ Hl3 Hs4 : h4 !! p' = _) as Ho.
    assert (out1 = out) as -> by congruence.
    assert (Hmono : forall h1 l, h ⊆ h1 -> l ∉ dom h1 -> l ∉ dom h).
    { intros h5 l5 Hs5 Hn Hin. apply Hn. by apply (subseteq_dom _ _ Hs5). }
    destruct Hl as [->|[->|[->|[name Hl]]]]; [apply (Hmono h3)| |apply (Hmono h2)|]; try done.
    - by transitivity h1; [|transitivity h2].
    - by transitivity h1.
    - specialize (Hout name). rewrite Hl in Hout.
      by inversion Hout as [? ? [Hn _]|]; subst. }
  exists h4, c'. split_and!; [done|done|by eapply views_mono|done| |].
  - intros edits He. eapply views_mono; [|exact Hv]. by apply write_all_subseteq.
  - intros edits He. eapply views_local; [|exact Hv']. intros l Hl. apply write_all_lookup.
    eapply Forall_impl; [exact He|]. intros e He1 <-. by apply (Hfp e.1).
Qed.

(** ** Instances *)

Definition www_settings : gmap string string := <["listen" := "/run/www.sock"]> ∅.

Definition sample_store : store :=
  <[0%nat := ConfigObject 1 2]> (<[1%nat := StringMap ∅]>
    (<[2%nat := PoolMap (<["www" := 3%nat]> ∅)]> (<[3%nat := StringMap www_settings]> ∅))).

Definition sample_view : EffectiveConfig := mkConfig ∅ (<["www" := www_settings]> ∅).

Lemma sample_views : views sample_store 0%nat sample_view.
Proof.
  exists 1%nat, 2%nat, (<["www" := 3%nat]> ∅). split; [done|]. split; [done|]. split; [done|].
  intros name. cbn [Pools sample_view]. destruct (decide (name = "www")) as [->|Hne].
  - rewrite !lookup_insert_eq. by constructor.
  - rewrite !lookup_insert_ne, !lookup_empty by done. constructor.
Qed.

(** A caller empties the [www] map of its copy; the cached one keeps it. *)
Lemma clone_isolated_witness :
  exists h' c', clone (H := steady stock) 0 sample_store (Some 0%nat) = Some (h', Some c') /\
    views (write_all [(4%nat, StringMap ∅)] h') 0%nat sample_view.
Proof.
  destruct (clone_isolated (H := steady stock) 0 sample_store 0%nat sample_view sample_views)
    as (h' & c' & Hrun & _ & _ & _ & Hsafe & _).
  exists h', c'. split; [exact Hrun|]. apply Hsafe.
  constructor; [|constructor]. apply (bool_decide_eq_true_1 _). vm_compute. reflexivity.
Defined.
