(* ===== verification/ConfigCache.v ===== *)
(** * The parse cache (config.go: cacheKey, ParseConfigContext, InvalidateConfigCache)

    First the operations as the code composes them, then the same critical
    sections as a system of concurrent parses and invalidations
    ([CacheSystem]), where the epoch earns its keep. *)

From S2P Require Import Prelude GoStrings GoPath Config Host Samples Trust Run.
Open Scope go_scope.

(** ** Keys *)

Definition cacheKey (binary configPath : string) : string :=
  Clean binary +:+ "::" +:+ Clean configPath.

(** ** The critical sections *)

(** Under the lock before the fork: the cached parse, and the epoch. *)
Definition cache_lookup (key : string) (c : config_cache) : option EffectiveConfig * Z :=
  (cached c !! key, epoch c).

(** Under the lock after it: stored unless the epoch moved. *)
Definition cache_store (key : string) (epoch0 : Z) (cfg : EffectiveConfig) (c : config_cache) :
    config_cache :=
  if (epoch c =? epoch0)%Z then mkCache (<[key := cfg]> (cached c)) (epoch c) else c.

(** [InvalidateConfigCache] under the lock; the epoch is a [uint64]. *)
Definition cache_invalidate (binary configPath : string) (c : config_cache) : config_cache :=
  if String.eqb binary "" && String.eqb configPath ""
  then mkCache ∅ (to_uint64 (epoch c + 1))
  else mkCache (delete (cacheKey binary configPath) (cached c)) (to_uint64 (epoch c + 1)).

(** ** The operations *)

Inductive parse_error :=
  | BinaryNotAbsolute (binary : string)
  | ParseDidNotFinish (e : ctx_error)
  | ParseRunFailed (e : run_error) (output : string)
  | ParseOutputTooLong
  | ParseScanFailed (e : scan_error).

Definition maxParseOutput : Z := 4 * 2 ^ 20.

Definition DefaultParseTimeout : Z := 30 * 10 ^ 9.

(** What is made of a finished [php-fpm -tt]: the writer it was captured in, the
    error of [cmd.Run] and the state of the context when it failed. *)
Definition parse_captured_output (l : limitedWriter) (err : option run_error)
    (ctxErr : option ctx_error) : result parse_error EffectiveConfig :=
  match err with
  | Some e =>
      match ctxErr with
      | Some ce => Err (ParseDidNotFinish ce)
      | None => Err (ParseRunFailed e (captured_text l))
      end
  | None =>
      if truncated l then Err ParseOutputTooLong
      else map_err ParseScanFailed (parseFPMConfigOutput (captured_text l))
  end.

Section Operations.
Context `{Host}.

Definition InvalidateConfigCache (binary configPath : string) : M unit :=
  let! c := get_cache in
  put_cache (cache_invalidate binary configPath c).

Definition ParseConfigContext (ctx : context) (binary configPath : string) :
    M (result parse_error EffectiveConfig) :=
  if negb (IsAbs binary) then ret (Err (BinaryNotAbsolute binary))
  else
    let key := cacheKey binary configPath in
    let! c := get_cache in
    match cache_lookup key c with
    | (Some cfg, _) => ret (Ok cfg)
    | (None, epoch0) =>
        let! r := cmd_run maxParseOutput binary ["-tt"; "--fpm-config"; configPath] in
        let! ctxErr := match r.2 with Some _ => ctx_Err ctx | None => ret None end in
        match parse_captured_output r.1 r.2 ctxErr with
        | Err e => ret (Err e)
        | Ok cfg =>
            let! c := get_cache in
            let! _ := put_cache (cache_store key epoch0 cfg c) in
            ret (Ok cfg)
        end
    end.

Definition ParseConfig (binary configPath : string) : M (result parse_error EffectiveConfig) :=
  let! now := observe time_now in
  ParseConfigContext (WithDeadline Background (now + DefaultParseTimeout)) binary configPath.
End Operations.

(** ** What a parse may do *)

Section Frame.
Context `{Host}.

(** A run of a program adds at most its own event, and leaves the cache alone. *)
Lemma cmd_run_frame limit binary args w r w' :
  cmd_run limit binary args w = (r, w') ->
  cache w' = cache w /\ (tick w <= tick w')%nat /\
  (trace w' = trace w \/ trace w' = trace w ++ [EvExec binary args]).
Proof.
  unfold cmd_run, bind, observe, emit, ret. destruct (run_program _ _ _); intros [= <- <-]; cbn; auto.
Qed.

Lemma ctx_unless_ok_frame (ctx : context) (e : option run_error) w r w' :
  match e with Some _ => ctx_Err ctx | None => ret None end w = (r, w') ->
  cache w' = cache w /\ (tick w <= tick w')%nat /\ trace w' = trace w.
Proof. unfold ctx_Err, ret. destruct e; intros [= <- <-]; cbn; auto. Qed.

(** A parse runs at most the program it was given, and touches the cache at its
    own key only, and there only when it succeeds. *)
Lemma ParseConfigContext_frame ctx binary configPath w r w' :
  ParseConfigContext ctx binary configPath w = (r, w') ->
  (tick w <= tick w')%nat /\
  (trace w' = trace w \/
   trace w' = trace w ++ [EvExec binary ["-tt"; "--fpm-config"; configPath]]) /\
  (forall key, key <> cacheKey binary configPath -> cached (cache w') !! key = cached (cache w) !! key) /\
  (is_ok r = false -> cache w' = cache w) /\ epoch (cache w') = epoch (cache w).
Proof.
  unfold ParseConfigContext. destruct (IsAbs binary); cbn [negb]; [|intros [= <- <-]; auto].
  intros (c & w1 & [= <- <-] & E)%bind_run. unfold cache_lookup in E.
  destruct (cached (cache w) !! cacheKey binary configPath) as [cfg|];
    [injection E as <- <-; auto|].
  apply bind_run in E as (lr & w1 & H1%cmd_run_frame & E).
  apply bind_run in E as (ce & w2 & H2%ctx_unless_ok_frame & E).
  destruct H1 as (Hc1 & Ht1 & Htr1), H2 as (Hc2 & Ht2 & Htr2).
  assert (Hcw : cache w2 = cache w) by congruence.
  rewrite <- Htr2, <- Hcw in *.
  destruct (parse_captured_output _ _ _) as [cfg|e].
  - unfold bind, get_cache, put_cache, ret, cache_store in E. injection E as <- <-.
    cbn. rewrite Hcw. split; [lia|]. split; [done|]. split; [|split; [done|by case_match]].
    intros key Hk. case_match; [|done]. cbn. by rewrite lookup_insert_ne.
  - injection E as <- <-. split; [lia|]. rewrite Hcw. auto.
Qed.

Lemma cached_run ctx binary configPath w cfg :
  IsAbs binary = true -> cached (cache w) !! cacheKey binary configPath = Some cfg ->
  ParseConfigContext ctx binary configPath w = (Ok cfg, w).
Proof.
  intros Ha Hc. unfold ParseConfigContext. rewrite Ha. cbn [negb].
  rewrite (bind_eq _ _ _ (cache w) w) by done. unfold cache_lookup. by rewrite Hc.
Qed.

Lemma ParseConfigContext_forward ctx binary configPath : forward (ParseConfigContext ctx binary configPath).
Proof. intros w r w' E. by apply ParseConfigContext_frame in E as [? _]. Qed.
End Frame.

#[export] Hint Resolve ParseConfigContext_forward : forward.

(** ** What a parse does *)

Section ParseTheorems.
Context `{Host}.

(** C21. An output larger than the capture never becomes a configuration: the
    parse fails and the cache keeps what it had, however the output was cut
    into chunks. *)
Theorem truncated_parse_fails ctx binary configPath w chunks wait :
  cached (cache w) !! cacheKey binary configPath = None ->
  run_program (host_at (tick w)) binary ["-tt"; "--fpm-config"; configPath] = Ran chunks wait ->
  Forall (fun c => c <> "") chunks -> (maxParseOutput < str_len (str_concat chunks))%Z ->
  (exists e, (ParseConfigContext ctx binary configPath w).1 = Err e) /\
  cache (ParseConfigContext ctx binary configPath w).2 = cache w.
Proof.
  intros Hmiss Hrun Hne Hbig.
  destruct (ParseConfigContext ctx binary configPath w) as [r w'] eqn:E. cbn [fst snd].
  unfold ParseConfigContext in E. destruct (IsAbs binary); cbn [negb] in E;
    [|injection E as <- <-; eauto].
  apply bind_run in E as (c & w1 & [= <- <-] & E).
  unfold cache_lookup in E. rewrite Hmiss in E.
  apply bind_run in E as (lr & w1 & Hl & E). apply bind_run in E as (ce & w2 & Hce & E).
  unfold cmd_run, bind, observe, emit, ret in Hl. rewrite Hrun in Hl. injection Hl as <- <-.
  assert (Htr : truncated (run_outcome maxParseOutput chunks wait).1 = true).
  { unfold run_outcome. destruct (io_copy _ _) as [l short] eqn:El. cbn [fst].
    change l with (l, short).1. rewrite <- El, io_copy_spec by done.
    cbn [truncated new_writer remaining orb]. by apply Z.ltb_lt. }
  assert (Hw : cache w2 = cache w).
  { destruct (run_outcome _ _ _).2; unfold ctx_Err, ret in Hce; injection Hce as <- <-; done. }
  unfold parse_captured_output in E. rewrite Htr in E.
  destruct (run_outcome _ _ _).2; [destruct ce|]; unfold ret in E; injection E as <- <-; eauto.
Qed.

(** A parse that finds the key cached answers from the cache: it runs
    nothing, reads nothing of the host and changes nothing. *)
Theorem cached_parse ctx binary configPath w cfg :
  IsAbs binary = true -> cached (cache w) !! cacheKey binary configPath = Some cfg ->
  ParseConfigContext ctx binary configPath w = (Ok cfg, w).
Proof.
  apply cached_run.
Qed.

(** C20. Parsing, caching and invalidating: a successful parse is what the next
    parse of any spelling of the same binary and path returns, until an
    invalidation of any such spelling, after which the key is parsed afresh. *)
Theorem parse_then_cached ctx ctx' b b' p p' w cfg w' :
  IsAbs b = true -> IsAbs b' = true -> Clean b = Clean b' -> Clean p = Clean p' ->
  ParseConfigContext ctx b p w = (Ok cfg, w') ->
  ParseConfigContext ctx' b' p' w' = (Ok cfg, w') /\
  cached (cache (InvalidateConfigCache b' p' w').2) !! cacheKey b p = None.
Proof.
  intros Ha Ha' Hb Hp Hrun.
  assert (Hkey : cacheKey b' p' = cacheKey b p) by (unfold cacheKey; congruence).
  assert (Hc : cached (cache w') !! cacheKey b p = Some cfg).
  { unfold ParseConfigContext in Hrun. rewrite Ha in Hrun. cbn [negb] in Hrun.
    apply bind_run in Hrun as (c & w1 & [= <- <-] & Hrun). unfold cache_lookup in Hrun.
    destruct (cached (cache w) !! cacheKey b p) as [cfg0|] eqn:E.
    - injection Hrun as [= ->]. by subst w'.
    - apply bind_run in Hrun as (r & w1 & Hr & Hrun).
      apply bind_run in Hrun as (ce & w2 & Hce & Hrun).
      assert (Hw : cache w2 = cache w).
      { assert (Hw1 : cache w1 = cache w).
        { unfold cmd_run, bind, observe, emit, ret in Hr.
          destruct (run_program _ _ _); by injection Hr as <- <-. }
        rewrite <- Hw1. destruct r.2; unfold ctx_Err, ret in Hce; by injection Hce as <- <-. }
      destruct (parse_captured_output _ _ _) as [cfg'|e]; [|done].
      unfold bind, get_cache, put_cache, ret in Hrun. simplify_eq/=.
      unfold cache_store. rewrite Hw, Z.eqb_refl. cbn. apply lookup_insert_eq. }
  split.
  - apply cached_run; [done|]. by rewrite Hkey.
  - unfold InvalidateConfigCache, bind, get_cache, put_cache, cache_invalidate. cbn.
    case_match; cbn; [done|]. rewrite Hkey. apply lookup_delete_eq.
Qed.
End ParseTheorems.

(** ** Keys name files, up to a colon *)

Lemma cut_byte_app_colon b p :
  no_byte ":"%char b = true -> cut_byte ":"%char (b +:+ "::" +:+ p) = Some (b, ":" +:+ p).
Proof. intros H. exact (cut_byte_first ":"%char b (":" +:+ p) H). Qed.

(** Two requests share a cache entry exactly when they name the same binary
    and configuration up to cleaning, provided no colon occurs in the binaries'
    paths. *)
Theorem cacheKey_inj b b' p p' :
  no_byte ":"%char (Clean b) = true -> no_byte ":"%char (Clean b') = true ->
  cacheKey b p = cacheKey b' p' <-> Clean b = Clean b' /\ Clean p = Clean p'.
Proof.
  intros Hb Hb'. unfold cacheKey. split; [|by intros [-> ->]].
  intros E. pose proof (cut_byte_app_colon _ (Clean p) Hb) as H.
  rewrite E, (cut_byte_app_colon _ _ Hb') in H.
  split; [congruence|]. apply (str_app_inj_l ":"). congruence.
Qed.

(** With a colon they need not: two different pairs, one key. *)
Example cacheKey_collision : cacheKey "/a" "/b::/c" = cacheKey "/a::/b" "/c".
Proof. vm_compute. reflexivity. Qed.

Section Unchecked.
Context `{Host}.

(** Unlike [runBounded], a parse that misses the cache runs the binary it
    was given with no trust check in front: any absolute path is executed. *)
Theorem parse_runs_unchecked ctx binary configPath w chunks wait :
  IsAbs binary = true -> cached (cache w) !! cacheKey binary configPath = None ->
  run_program (host_at (tick w)) binary ["-tt"; "--fpm-config"; configPath] = Ran chunks wait ->
  trace (ParseConfigContext ctx binary configPath w).2 =
  trace w ++ [EvExec binary ["-tt"; "--fpm-config"; configPath]].
Proof.
  intros Ha Hmiss Hrun.
  destruct (ParseConfigContext ctx binary configPath w) as [r w'] eqn:E. cbn [fst snd].
  unfold ParseConfigContext in E. rewrite Ha in E. cbn [negb] in E.
  apply bind_run in E as (c & w1 & [= <- <-] & E).
  unfold cache_lookup in E. rewrite Hmiss in E.
  apply bind_run in E as (lr & w1 & Hl & E). apply bind_run in E as (ce & w2 & Hce & E).
  unfold cmd_run, bind, observe, emit, ret in Hl. rewrite Hrun in Hl. injection Hl as <- <-.
  assert (Hw : trace w2 = trace w ++ [EvExec binary ["-tt"; "--fpm-config"; configPath]]).
  { destruct (run_outcome _ _ _).2; unfold ctx_Err, ret in Hce; injection Hce as <- <-; done. }
  rewrite <- Hw. destruct (parse_captured_output _ _ _) as [cfg|e];
    unfold bind, get_cache, put_cache, ret in E; by injection E as <- <-.
Qed.
End Unchecked.

(** ** Instances *)

(** A machine whose php-fpm prints these chunks, and the same one with a binary a
    user may replace. *)
Definition printing (chunks : list string) : machine :=
  mkMachine 0 0 stock_paths [] [] [] (fun _ _ => Ran chunks None).

Definition printing_untrusted (chunks : list string) : machine :=
  mkMachine 0 0 (("/opt/php-fpm", mkInfo 511 (Some 1000%Z)) :: stock_paths) [] [] []
    (fun _ _ => Ran chunks None).

Definition key_of_stock : string := cacheKey "/usr/sbin/php-fpm" "/etc/php-fpm.conf".

Lemma str_len_replicate n s :
  str_len (str_concat (replicate n s)) = (Z.of_nat n * str_len s)%Z.
Proof. induction n as [|n IH]; [done|]. cbn [replicate str_concat]. rewrite str_len_app, IH. lia. Qed.

Definition endless : list string := replicate (Z.to_nat 70000) (terminate_lines (replicate 8 "[www]  ")).

Lemma endless_len : str_len (str_concat endless) = 4480000%Z.
Proof. unfold endless. rewrite str_len_replicate, Z2Nat.id by lia. reflexivity. Qed.

Lemma endless_nonempty : Forall (fun c => c <> "") endless.
Proof. unfold endless. apply Forall_replicate. discriminate. Qed.

Lemma truncated_parse_fails_witness :
  exists e, (ParseConfigContext (H := steady (printing endless)) Background
               "/usr/sbin/php-fpm" "/etc/php-fpm.conf" start).1 = Err e.
Proof.
  apply (truncated_parse_fails (H := steady (printing endless)) Background
           "/usr/sbin/php-fpm" "/etc/php-fpm.conf" start endless None).
  - reflexivity.
  - reflexivity.
  - exact endless_nonempty.
  - rewrite endless_len. reflexivity.
Defined.

Definition warm : world := mkWorld 0 [] (mkCache (<[key_of_stock := sample_config]> ∅) 0).

Lemma cached_parse_witness :
  ParseConfigContext (H := steady stock) Background "/usr/sbin/../sbin/php-fpm" "/etc/php-fpm.conf" warm =
  (Ok sample_config, warm).
Proof.
  apply cached_parse; [reflexivity|vm_compute; reflexivity].
Defined.

(** The sample configuration is printed once; the second parse, of another
    spelling, does not run php-fpm again. *)
Definition after_parse : world :=
  (ParseConfigContext (H := steady (printing [sample_report])) Background
     "/usr/sbin/php-fpm" "/etc/php-fpm.conf" start).2.

Lemma parse_then_cached_witness :
  ParseConfigContext (H := steady (printing [sample_report])) Background
    "/usr/sbin//php-fpm" "/etc/../etc/php-fpm.conf" after_parse = (Ok sample_config, after_parse) /\
  length (trace after_parse) = 1.
Proof.
  split; [|vm_compute; reflexivity].
  apply (parse_then_cached (H := steady (printing [sample_report]))
    Background Background "/usr/sbin/php-fpm" "/usr/sbin//php-fpm"
    "/etc/php-fpm.conf" "/etc/../etc/php-fpm.conf" start); vm_compute; reflexivity.
Defined.

Lemma cacheKey_inj_witness :
  cacheKey "/usr/sbin/php-fpm" "/etc/a.conf" <> cacheKey "/usr/sbin/php-fpm" "/etc/b.conf".
Proof.
  intros E. apply cacheKey_inj in E; [|vm_compute; reflexivity..].
  destruct E as [_ E]. vm_compute in E. discriminate E.
Defined.

(** The binary the trust check refuses is run by the parse. *)
Lemma parse_runs_unchecked_witness :
  is_ok (trustedPath (H := steady (printing_untrusted ["[global]"])) "/opt/php-fpm" start).1 = false /\
  trace (ParseConfigContext (H := steady (printing_untrusted ["[global]"])) Background
           "/opt/php-fpm" "/etc/php-fpm.conf" start).2 =
  [EvExec "/opt/php-fpm" ["-tt"; "--fpm-config"; "/etc/php-fpm.conf"]].
Proof.
  split; [vm_compute; reflexivity|].
  apply (parse_runs_unchecked (H := steady (printing_untrusted ["[global]"])) Background
    "/opt/php-fpm" "/etc/php-fpm.conf" start ["[global]"] None); reflexivity.
Defined.

(** ** Concurrent parses and invalidations

    [disk] is the configuration each key would parse to now (two requests whose
    keys collide, see [cacheKey_collision], are one here); [Change] is an
    operator editing it. A parse reads the epoch, runs php-fpm, and stores; any
    step of any other goroutine may come between. [dirty] holds the keys changed
    since they were last invalidated, and [invalidations] counts all
    invalidations: the code keeps only its low 64 bits. *)

Module CacheSystem.

Inductive job :=
  | Forked (key : string) (epoch0 : Z) (at_count : nat)
  | Parsed (key : string) (epoch0 : Z) (at_count : nat) (cfg : EffectiveConfig).

Record state := mkState {
  shared : config_cache;
  jobs : list job;
  disk : string -> EffectiveConfig;
  dirty : string -> bool;
  invalidations : nat
}.

Definition set_fun {A} (f : string -> A) (k : string) (a : A) : string -> A :=
  fun k' => if String.eqb k' k then a else f k'.

Definition invalidates (binary configPath key : string) : bool :=
  (String.eqb binary "" && String.eqb configPath "") ||
  String.eqb key (cacheKey binary configPath).

Inductive label :=
  | Hit (key : string) (cfg : EffectiveConfig)
  | Fork (key : string)
  | Exec (key : string)
  | GiveUp (key : string)
  | Store (key : string) (cfg : EffectiveConfig)
  | Invalidate (binary configPath : string)
  | Change (key : string).

Inductive step : state -> label -> state -> Prop :=
  | StepHit s key cfg :
      (cache_lookup key (shared s)).1 = Some cfg ->
      step s (Hit key cfg) s
  | StepFork s key epoch0 :
      cache_lookup key (shared s) = (None, epoch0) ->
      step s (Fork key)
        (mkState (shared s) (Forked key epoch0 (invalidations s) :: jobs s)
           (disk s) (dirty s) (invalidations s))
  | StepExec s before after key epoch0 n :
      jobs s = before ++ Forked key epoch0 n :: after ->
      step s (Exec key)
        (mkState (shared s) (before ++ Parsed key epoch0 n (disk s key) :: after)
           (disk s) (dirty s) (invalidations s))
  | StepGiveUp s before after key epoch0 n :
      jobs s = before ++ Forked key epoch0 n :: after ->
      step s (GiveUp key)
        (mkState (shared s) (before ++ after) (disk s) (dirty s) (invalidations s))
  | StepStore s before after key epoch0 n cfg :
      jobs s = before ++ Parsed key epoch0 n cfg :: after ->
      step s (Store key cfg)
        (mkState (cache_store key epoch0 cfg (shared s)) (before ++ after)
           (disk s) (dirty s) (invalidations s))
  | StepInvalidate s binary configPath :
      step s (Invalidate binary configPath)
        (mkState (cache_invalidate binary configPath (shared s)) (jobs s) (disk s)
           (fun key => if invalidates binary configPath key then false else dirty s key)
           (S (invalidations s)))
  | StepChange s key cfg :
      step s (Change key)
        (mkState (shared s) (jobs s) (set_fun (disk s) key cfg) (set_fun (dirty s) key true)
           (invalidations s)).

(** A process starts with an empty cache. *)
Definition initial (d : string -> EffectiveConfig) : state :=
  mkState (mkCache ∅ 0) [] d (fun _ => false) 0.

Inductive reachable (d : string -> EffectiveConfig) : state -> Prop :=
  | reach_init : reachable d (initial d)
  | reach_step s l s' : reachable d s -> step s l s' -> reachable d s'.

(** ** The invariant *)

Definition job_ok (s : state) (j : job) : Prop :=
  match j with
  | Forked key e n => e = to_uint64 (Z.of_nat n) /\ (n <= invalidations s)%nat
  | Parsed key e n cfg =>
      e = to_uint64 (Z.of_nat n) /\ (n <= invalidations s)%nat /\
      (n = invalidations s -> dirty s key = false -> cfg = disk s key)
  end.

Record inv (s : state) : Prop := mkInv {
  inv_epoch : epoch (shared s) = to_uint64 (Z.of_nat (invalidations s));
  inv_jobs : Forall (job_ok s) (jobs s);
  inv_cache : forall key cfg, cached (shared s) !! key = Some cfg ->
                dirty s key = false -> cfg = disk s key
}.

Lemma cache_inv_initial d : inv (initial d).
Proof. split; cbn; [done|constructor|done]. Qed.

Lemma to_uint64_step n : to_uint64 (to_uint64 (Z.of_nat n) + 1) = to_uint64 (Z.of_nat (S n)).
Proof.
  unfold to_uint64, wrap_unsigned. rewrite Zplus_mod_idemp_l. f_equal. lia.
Qed.

Lemma to_uint64_nat_inj n m :
  (Z.of_nat n < 2 ^ 64)%Z -> (Z.of_nat m < 2 ^ 64)%Z ->
  to_uint64 (Z.of_nat n) = to_uint64 (Z.of_nat m) -> n = m.
Proof. intros Hn Hm. rewrite !to_uint64_id by (unfold is_uint64; lia). lia. Qed.

Lemma set_fun_eq {A} (f : string -> A) k a : set_fun f k a k = a.
Proof. unfold set_fun. by rewrite String.eqb_refl. Qed.

Lemma set_fun_ne {A} (f : string -> A) k k' a : k' <> k -> set_fun f k a k' = f k'.
Proof. unfold set_fun. intros H. by apply String.eqb_neq in H as ->. Qed.

Lemma cache_invalidate_lookup b p c key cfg :
  cached (cache_invalidate b p c) !! key = Some cfg ->
  invalidates b p key = false /\ cached c !! key = Some cfg.
Proof.
  unfold cache_invalidate, invalidates.
  destruct (String.eqb b "" && String.eqb p ""); cbn; [by rewrite lookup_empty|].
  destruct (String.eqb_spec key (cacheKey b p)) as [->|Hne]; [by rewrite lookup_delete_eq|].
  by rewrite lookup_delete_ne.
Qed.

Lemma Forall_middle {A} (P : A -> Prop) l x r : Forall P (l ++ x :: r) -> P x /\ Forall P (l ++ r).
Proof. rewrite !Forall_app, Forall_cons. tauto. Qed.

(** Every step keeps it, as long as the epoch has not wrapped. *)
Lemma cache_step_inv s l s' :
  (Z.of_nat (invalidations s) < 2 ^ 64)%Z -> inv s -> step s l s' -> inv s'.
Proof.
  intros Hbound [He Hj Hc] Hstep. destruct Hstep as
    [s key cfg Hl|s key e0 Hl|s before after key e0 n Hs|s before after key e0 n Hs
    |s before after key e0 n cfg Hs|s b p|s key cfg].
  - by split.
  - injection Hl as _ <-. split; cbn; [done| |done]. constructor; [|exact Hj]. by split; [|].
  - rewrite Hs in Hj. split; cbn; [done| |done].
    apply Forall_app in Hj as [Hb [[Hn Hle] Ha]%Forall_cons]. apply Forall_app. split; [done|].
    by constructor.
  - rewrite Hs in Hj. split; cbn; [done| |done]. by apply Forall_middle in Hj as [_ ?].
  - rewrite Hs in Hj. apply Forall_middle in Hj as [(Hn & Hle & Hcfg) Hrest].
    split; cbn.
    + unfold cache_store. by case_match.
    + done.
    + intros key' cfg'. unfold cache_store.
      destruct (Z.eqb_spec (epoch (shared s)) e0) as [Heq|_]; [|by apply Hc].
      cbn. rewrite He, Hn in Heq. apply to_uint64_nat_inj in Heq; [|done|lia].
      destruct (decide (key = key')) as [<-|Hne].
      * rewrite lookup_insert_eq. intros [= <-] Hd. by apply Hcfg.
      * rewrite lookup_insert_ne by done. apply Hc.
  - split; cbn.
    + rewrite <- to_uint64_step, <- He. unfold cache_invalidate. by case_match.
    + eapply Forall_impl; [exact Hj|]. intros [key e n|key e n cfg]; cbn.
      * intros [-> ?]. split; [done|lia].
      * intros (-> & ? & ?). split; [done|]. split; [lia|]. intros ->. lia.
    + intros key cfg [Hi Hl]%cache_invalidate_lookup. rewrite Hi. by apply Hc.
  - split; cbn; [done| |].
    + eapply Forall_impl; [exact Hj|]. intros [key' e n|key' e n cfg']; cbn; [done|].
      intros (-> & ? & Hcfg). split; [done|]. split; [done|]. intros Hn.
      destruct (decide (key' = key)) as [->|Hne]; [by rewrite set_fun_eq|].
      rewrite !set_fun_ne by done. by apply Hcfg.
    + intros key' cfg' Hl. destruct (decide (key' = key)) as [->|Hne]; [by rewrite set_fun_eq|].
      rewrite !set_fun_ne by done. by apply Hc.
Qed.

Lemma step_invalidations s l s' : step s l s' -> (invalidations s <= invalidations s')%nat.
Proof. destruct 1; cbn; lia. Qed.

Lemma cache_reachable_inv d s :
  reachable d s -> (Z.of_nat (invalidations s) < 2 ^ 64)%Z -> inv s.
Proof.
  induction 1 as [|s l s' _ IH Hstep]; intros Hb; [apply cache_inv_initial|].
  pose proof (step_invalidations _ _ _ Hstep). eapply cache_step_inv; [|apply IH|exact Hstep]; lia.
Qed.

(** C8. No stale answers: in any interleaving of parses, invalidations and edits
    (with fewer than 2^64 invalidations), a cache hit on a key that was not edited
    since its last invalidation returns the configuration as it is now, even when
    a parse that began before the edit finishes after the invalidation. *)
Theorem hit_is_current d s key cfg s' :
  reachable d s -> (Z.of_nat (invalidations s) < 2 ^ 64)%Z ->
  dirty s key = false -> step s (Hit key cfg) s' -> cfg = disk s key.
Proof.
  intros Hr Hb Hd Hstep. inversion Hstep as [? ? ? Hl| | | | | |]; subst.
  eapply inv_cache; [by apply (cache_reachable_inv d)|exact Hl|done].
Qed.

(** An edit, an invalidation and a slow parse, in the order that used to leave the
    old configuration in the cache. *)
Definition d0 : string -> EffectiveConfig := fun _ => empty_config.
Definition new_config : EffectiveConfig := mkConfig (<["pid" := "/run/fpm.pid"]> ∅) ∅.

Definition k0 : string := cacheKey "/usr/sbin/php-fpm" "/etc/php-fpm.conf".

Definition after_race : state :=
  mkState (mkCache (<[k0 := new_config]> ∅) 1) [] (set_fun d0 k0 new_config)
    (fun key => if invalidates "/usr/sbin/php-fpm" "/etc/php-fpm.conf" key then false
                else set_fun (fun _ => false) k0 true key) 1.

Lemma reach_to d s l t s' : reachable d s -> step s l t -> t = s' -> reachable d s'.
Proof. intros Hr Hs <-. by apply (reach_step _ s l). Qed.

Lemma after_race_reachable : reachable d0 after_race.
Proof.
  assert (H1 : reachable d0 (mkState (mkCache ∅ 0) [Forked k0 0 0] d0 (fun _ => false) 0)).
  { exact (reach_step _ _ _ _ (reach_init d0) (StepFork (initial d0) k0 0 eq_refl)). }
  assert (H2 : reachable d0
    (mkState (mkCache ∅ 0) [Parsed k0 0 0 empty_config] d0 (fun _ => false) 0)).
  { apply (reach_to _ _ _ _ _ H1 ltac:(eapply (StepExec _ [] [] k0 0 0); reflexivity)). reflexivity. }
  assert (H3 : reachable d0
    (mkState (mkCache ∅ 0) [Parsed k0 0 0 empty_config] (set_fun d0 k0 new_config)
       (set_fun (fun _ => false) k0 true) 0)).
  { exact (reach_step _ _ _ _ H2 (StepChange _ k0 new_config)). }
  assert (H4 : reachable d0
    (mkState (mkCache ∅ 1) [Parsed k0 0 0 empty_config] (disk after_race) (dirty after_race) 1)).
  { exact (reach_step _ _ _ _ H3 (StepInvalidate _ "/usr/sbin/php-fpm" "/etc/php-fpm.conf")). }
  assert (H5 : reachable d0
    (mkState (mkCache ∅ 1) [] (disk after_race) (dirty after_race) 1)).
  { apply (reach_to _ _ _ _ _ H4 ltac:(eapply (StepStore _ [] [] k0 0 0 empty_config); reflexivity)). reflexivity. }
  assert (H6 : reachable d0
    (mkState (mkCache ∅ 1) [Forked k0 1 1] (disk after_race) (dirty after_race) 1)).
  { apply (reach_to _ _ _ _ _ H5 ltac:(eapply (StepFork _ k0 1); reflexivity)). reflexivity. }
  assert (H7 : reachable d0
    (mkState (mkCache ∅ 1) [Parsed k0 1 1 new_config] (disk after_race) (dirty after_race) 1)).
  { apply (reach_to _ _ _ _ _ H6 ltac:(eapply (StepExec _ [] [] k0 1 1); reflexivity)). reflexivity. }
  apply (reach_to _ _ _ _ _ H7 ltac:(eapply (StepStore _ [] [] k0 1 1 new_config); reflexivity)). reflexivity.
Qed.

Lemma hit_is_current_witness :
  step after_race (Hit k0 new_config) after_race /\ new_config = disk after_race k0.
Proof.
  assert (Hs : step after_race (Hit k0 new_config) after_race) by by apply StepHit.
  split; [exact Hs|].
  apply (hit_is_current d0 after_race k0 new_config after_race);
    [exact after_race_reachable|vm_compute; reflexivity|vm_compute; reflexivity|exact Hs].
Defined.

End CacheSystem.
