(* ===== verification/Discover.v ===== *)
(** * Discovery of masters and pools (discover.go)

    [masterIdentity] decides from the process table what is a php-fpm master;
    [DiscoverMasters] lists them; [discoverContext] parses each one's
    configuration and splits its pools into those with a status page and those
    without. *)

From S2P Require Import Prelude GoStrings GoPath Regexp Config Host Samples Trust Run ConfigCache.
Open Scope go_scope.

(** ** Data *)

Record Discovered := mkDiscovered {
  d_Name : string; d_ConfigPath : string; d_StatusPath : string; d_Binary : string;
  d_Socket : string; d_StatusSocket : string; d_MaxChildren : Z; d_ProcessManager : string;
  d_Workload : string; d_PID : Z
}.

Record Master := mkMaster { m_PID : Z; m_Binary : string; m_ConfigPath : string }.

Record Unstatused := mkUnstatused {
  u_Name : string; u_ConfigPath : string; u_Binary : string; u_PID : Z; u_Socket : string
}.

#[export] Instance Discovered_eq_dec : EqDecision Discovered.
Proof. solve_decision. Defined.
#[export] Instance Master_eq_dec : EqDecision Master.
Proof. solve_decision. Defined.
#[export] Instance Unstatused_eq_dec : EqDecision Unstatused.
Proof. solve_decision. Defined.

(** [^php[0-9]{0,2}.*fpm.*$] *)
Definition fpmNamePattern : regex :=
  Seq (Lit "php") (Seq (Opt Digit) (Seq (Opt Digit)
    (Seq (Star AnyChar) (Seq (Lit "fpm") (Star AnyChar))))).

(** ** Reading a command line and a listen address *)

Definition extractConfigFromMaster (cmdline : string) : string :=
  match Index cmdline "(", Index cmdline ")" with
  | Some start, Some end_ =>
      if (start <? end_)%nat then str_take (end_ - (start + 1)) (str_drop (start + 1) cmdline)
      else ""
  | _, _ => ""
  end.

(** The address [parseSocket] returns; the one case it logs is the last. *)
Definition socket_address (socket : string) : string :=
  if String.eqb socket "" then ""
  else if HasPrefix socket "/" then "unix://" +:+ socket
  else if Contains socket ":" then "tcp://" +:+ socket
  else match (Atoi socket).2 with
       | None => "tcp://127.0.0.1:" +:+ socket
       | Some _ => ""
       end.

Definition parseSocket (socket : string) (l : option logger) : M string :=
  let l := logOrDiscard l in
  if String.eqb socket "" then ret ""
  else if HasPrefix socket "/" then ret ("unix://" +:+ socket)
  else if Contains socket ":" then ret ("tcp://" +:+ socket)
  else match (Atoi socket).2 with
       | None => ret ("tcp://127.0.0.1:" +:+ socket)
       | Some _ => let! _ := log l LevelWarn "Cannot make sense of a listen address" in ret ""
       end.

Definition logSkip (l : logger) (err : trust_error) (msg : string) : M unit :=
  if is_path_missing err
  then log l LevelDebug (msg +:+ " (the path no longer exists; the process is a leftover)")
  else log l LevelWarn msg.

(** [m[key]] of a [map[string]string]. *)
Definition get (m : gmap string string) (key : string) : string := default "" (m !! key).

(** ** Masters *)

Inductive list_error := FailedToListProcesses (e : os_error).

Section Operations.
Context `{Host}.

Definition masterIdentity (pid : Z) (l : logger) : M (option (string * string)) :=
  let! name := observe (fun os => proc_name os pid) in
  match name with
  | Err _ => ret None
  | Ok name =>
      if negb (full_match fpmNamePattern (Base name)) then ret None
      else
        let! cmdline := observe (fun os => proc_cmdline os pid) in
        match cmdline with
        | Err _ => ret None
        | Ok cmdlineStr =>
            if negb (Contains cmdlineStr "master process") then ret None
            else
              let config := extractConfigFromMaster cmdlineStr in
              if String.eqb config "" then ret None
              else
                let! exe := observe (fun os => proc_exe os pid) in
                match exe with
                | Err _ =>
                    let! _ := log l LevelDebug "Cannot determine binary path" in ret None
                | Ok exe =>
                    let! t := trustedPath exe in
                    match t with
                    | Err e =>
                        let! _ := logSkip l e "Refusing to run discovered PHP-FPM binary" in
                        ret None
                    | Ok _ =>
                        let! t := trustedPath config in
                        match t with
                        | Err e =>
                            let! _ := logSkip l e "Refusing to read discovered PHP-FPM config" in
                            ret None
                        | Ok _ => ret (Some (exe, config))
                        end
                    end
                end
        end
  end.

Fixpoint collect_masters (procs : list Z) (l : logger) (masters : list Master) : M (list Master) :=
  match procs with
  | [] => ret masters
  | p :: procs' =>
      let! id := masterIdentity p l in
      match id with
      | None => collect_masters procs' l masters
      | Some (exe, config) => collect_masters procs' l (masters ++ [mkMaster p exe config])
      end
  end.

Definition DiscoverMasters (l : option logger) : M (result list_error (list Master)) :=
  let l := logOrDiscard l in
  let! procs := observe processes in
  match procs with
  | Err e => ret (Err (FailedToListProcesses e))
  | Ok procs => let! masters := collect_masters procs l [] in ret (Ok masters)
  end.

(** ** Pools *)

(** What a scan has gathered: [found] and [unstatused]. *)
Definition gathered : Type := list Discovered * list Unstatused.

(** The body of the loop over the pools of one master. *)
Definition discover_pool (exe config : string) (pid : Z) (global : gmap string string)
    (l : logger) (pool : string * gmap string string) (acc : gathered) : M gathered :=
  let '(poolName, poolConfig) := pool in
  let! socket := parseSocket (get poolConfig "listen") (Some l) in
  if String.eqb socket "" then ret acc
  else
    let maxChildren := (Atoi (TrimSpace (get poolConfig "pm.max_children"))).1 in
    let processManager := TrimSpace (get poolConfig "pm") in
    let workload := TrimSpace (get poolConfig "env[FPM_TUNE_WORKLOAD]") in
    let! statusSocket := parseSocket (get poolConfig "pm.status_listen") (Some l) in
    let statusSocket := if String.eqb statusSocket "" then socket else statusSocket in
    let status := get poolConfig "pm.status_path" in
    let status := if String.eqb status "" then get global "pm.status_path" else status in
    if String.eqb status "" then
      let! _ := log l LevelDebug "Found a php-fpm pool with no status path" in
      ret (acc.1, acc.2 ++ [mkUnstatused poolName config exe pid socket])
    else
      let d := mkDiscovered poolName config status exe socket statusSocket maxChildren
                 processManager workload pid in
      let! _ := log l LevelDebug "Discovered php-fpm pool" in
      ret (acc.1 ++ [d], acc.2).

Fixpoint discover_pools (exe config : string) (pid : Z) (global : gmap string string)
    (l : logger) (pools : list (string * gmap string string)) (acc : gathered) : M gathered :=
  match pools with
  | [] => ret acc
  | pool :: pools' =>
      let! acc := discover_pool exe config pid global l pool acc in
      discover_pools exe config pid global l pools' acc
  end.

(** The loop over the processes. *)
Fixpoint discover_processes (ctx : context) (procs : list Z) (l : logger) (acc : gathered) :
    M gathered :=
  match procs with
  | [] => ret acc
  | p :: procs' =>
      let! id := masterIdentity p l in
      match id with
      | None => discover_processes ctx procs' l acc
      | Some (exe, config) =>
          let! parsed := ParseConfigContext ctx exe config in
          match parsed with
          | Err _ =>
              let! _ := log l LevelWarn
                "Skipping a php-fpm master whose configuration could not be parsed" in
              discover_processes ctx procs' l acc
          | Ok parsed =>
              let! pools := range (Pools parsed) in
              let! acc := discover_pools exe config p (Global parsed) l pools acc in
              discover_processes ctx procs' l acc
          end
      end
  end.

Definition discoverContext (ctx : context) (l : option logger) :
    M (gathered * option list_error) :=
  let l := logOrDiscard l in
  let! procs := observe processes in
  match procs with
  | Err e => ret (([], []), Some (FailedToListProcesses e))
  | Ok procs => let! acc := discover_processes ctx procs l ([], []) in ret (acc, None)
  end.

Definition DiscoverContext (ctx : context) (l : option logger) :
    M (list Discovered * option list_error) :=
  let! r := discoverContext ctx l in ret (r.1.1, r.2).

Definition UnstatusedPools (ctx : context) (l : option logger) :
    M (list Unstatused * option list_error) :=
  let! r := discoverContext ctx l in ret (r.1.2, r.2).

Definition Discover (l : option logger) : M (list Discovered * option list_error) :=
  let! now := observe time_now in
  DiscoverContext (WithDeadline Background (now + DefaultParseTimeout)) l.
End Operations.

(** ** Names and command lines *)

Lemma Contains_no_byte b s sub u v :
  s = u +:+ sub +:+ v -> no_byte b s = true -> no_byte b u = true /\ no_byte b v = true.
Proof. intros ->. unfold no_byte. rewrite !str_forall_app. intros H. bool_crush. done. Qed.

(** C28. The process name test, as a property of the name rather than of a
    pattern: it starts with [php], holds [fpm] after that, and has no line feed.
    The two optional digits of the pattern add nothing. *)
Theorem fpmNamePattern_spec s :
  full_match fpmNamePattern s = true <->
  exists t, s = "php" +:+ t /\ Contains t "fpm" = true /\ no_byte LF t = true.
Proof.
  rewrite full_match_spec. unfold fpmNamePattern. split.
  - intros (? & t1 & -> & ->%matches_Lit & H1)%matches_Seq.
    apply matches_Seq in H1 as (d1 & t2 & -> & Hd1%matches_Opt_digit & H2).
    apply matches_Seq in H2 as (d2 & t3 & -> & Hd2%matches_Opt_digit & H3).
    apply matches_Seq in H3 as (u & t4 & -> & Hu%matches_any & H4).
    apply matches_Seq in H4 as (? & v & -> & ->%matches_Lit & Hv%matches_any).
    eexists. split; [reflexivity|]. split.
    + apply Contains_spec. exists (d1 +:+ d2 +:+ u), v. by rewrite !str_app_assoc.
    + unfold no_byte in *. rewrite !str_forall_app. by rewrite Hd1, Hd2, Hu, Hv.
  - intros (t & -> & (u & v & E)%Contains_spec & Hlf).
    destruct (Contains_no_byte _ _ _ _ _ E Hlf) as [Hu Hv]. subst t.
    assert (Ho : matches (Opt Digit) "") by (apply MAltR; constructor).
    apply matches_Seq. eexists _, _. split; [reflexivity|]. split; [by apply matches_Lit|].
    apply matches_Seq. exists "", (u +:+ "fpm" +:+ v). split; [done|]. split; [done|].
    apply matches_Seq. exists "", (u +:+ "fpm" +:+ v). split; [done|]. split; [done|].
    apply matches_Seq. exists u, ("fpm" +:+ v). split; [done|]. split; [by apply matches_any|].
    apply matches_Seq. exists "fpm", v. split; [done|].
    split; [by apply matches_Lit|by apply matches_any].
Qed.

(** C29. The path in a master's title comes back, whatever follows the title, as
    long as the path itself holds no closing parenthesis. *)
Theorem extract_title pre path post :
  no_byte "(" pre = true -> no_byte ")" pre = true -> no_byte ")" path = true ->
  extractConfigFromMaster (pre +:+ "(" +:+ path +:+ ")" +:+ post) = path.
Proof.
  intros H1 H2 H3. unfold extractConfigFromMaster.
  change (pre +:+ "(" +:+ path +:+ ")" +:+ post) with
    (pre +:+ String "(" (path +:+ String ")" post)).
  change (Index ?s "(") with (Index s (byte_string "(")).
  change (Index ?s ")") with (Index s (byte_string ")")).
  rewrite !Index_byte, (IndexByte_first pre "(" (path +:+ String ")" post) H1).
  assert (E : pre +:+ String "(" (path +:+ String ")" post) =
    (pre +:+ byte_string "(" +:+ path) +:+ String ")" post).
  { rewrite !str_app_assoc. reflexivity. }
  rewrite E at 1. rewrite IndexByte_first
    by (unfold no_byte in *; rewrite !str_forall_app, H2, H3; done).
  rewrite !str_length_app. cbn [byte_string String.length].
  destruct (Nat.ltb_spec (String.length pre) (String.length pre + (1 + String.length path))); [|lia].
  replace (pre +:+ String "(" (path +:+ String ")" post)) with
    ((pre +:+ byte_string "(") +:+ path +:+ String ")" post) by (rewrite !str_app_assoc; reflexivity).
  replace (String.length pre + 1)%nat with (String.length (pre +:+ byte_string "("))
    by (rewrite str_length_app; done).
  rewrite str_drop_app, str_length_app. cbn [byte_string String.length].
  replace (String.length pre + (1 + String.length path) - (String.length pre + 1))%nat
    with (String.length path) by lia. apply str_take_app.
Qed.

(** ** Listen addresses *)

Lemma parseSocket_run socket l w :
  exists w', parseSocket socket l w = (socket_address socket, w').
Proof.
  unfold parseSocket, socket_address.
  destruct (String.eqb socket ""), (HasPrefix socket "/"), (Contains socket ":"),
    ((Atoi socket).2); try by eexists.
  unfold bind. destruct (log _ _ _ w) as [? w1]. by eexists.
Qed.

(** ** Pools *)

Section Pools.
Context (exe config : string) (pid : Z) (global : gmap string string).

Definition pool_socket (pc : gmap string string) : string := socket_address (get pc "listen").

(** The pool's own status path, or the global one. *)
Definition pool_status (pc : gmap string string) : string :=
  if String.eqb (get pc "pm.status_path") "" then get global "pm.status_path"
  else get pc "pm.status_path".

Definition has_socket (pool : string * gmap string string) : bool :=
  negb (String.eqb (pool_socket pool.2) "").

(** The entry of a pool with a status page. *)
Definition entry_of (pool : string * gmap string string) : Discovered :=
  let pc := pool.2 in
  let status_listen := socket_address (get pc "pm.status_listen") in
  {| d_Name := pool.1; d_ConfigPath := config; d_StatusPath := pool_status pc; d_Binary := exe;
     d_Socket := pool_socket pc;
     d_StatusSocket := if String.eqb status_listen "" then pool_socket pc else status_listen;
     d_MaxChildren := (Atoi (TrimSpace (get pc "pm.max_children"))).1;
     d_ProcessManager := TrimSpace (get pc "pm");
     d_Workload := TrimSpace (get pc "env[FPM_TUNE_WORKLOAD]"); d_PID := pid |}.

Definition unstatused_of (pool : string * gmap string string) : Unstatused :=
  mkUnstatused pool.1 config exe pid (pool_socket pool.2).

Definition found_pool (pool : string * gmap string string) : option Discovered :=
  if has_socket pool && negb (String.eqb (pool_status pool.2) "") then Some (entry_of pool) else None.

Definition unstatused_pool (pool : string * gmap string string) : option Unstatused :=
  if has_socket pool && String.eqb (pool_status pool.2) "" then Some (unstatused_of pool) else None.

Lemma discover_pool_run l pool acc w :
  exists w', discover_pool exe config pid global l pool acc w =
    ((acc.1 ++ option_list (found_pool pool), acc.2 ++ option_list (unstatused_pool pool)), w').
Proof.
  destruct pool as [name pc], acc as [f u]. unfold discover_pool, found_pool, unstatused_pool.
  unfold has_socket, pool_status, entry_of, unstatused_of. cbn [fst snd].
  destruct (parseSocket_run (get pc "listen") (Some l) w) as [w1 E1].
  rewrite (bind_eq _ _ _ _ _ E1). fold (pool_socket pc).
  destruct (String.eqb (pool_socket pc) "") eqn:Es.
  { exists w1. cbn [negb andb option_list]. by rewrite !app_nil_r. }
  destruct (parseSocket_run (get pc "pm.status_listen") (Some l) w1) as [w2 E2].
  rewrite (bind_eq _ _ _ _ _ E2). cbn [negb andb].
  destruct (String.eqb (if String.eqb (get pc "pm.status_path") "" then _ else _) "");
    unfold bind; destruct (log _ _ _ w2) as [? w3]; exists w3;
    cbn [negb option_list fst snd]; by rewrite app_nil_r.
Qed.

Lemma discover_pools_run l pools acc w :
  exists w', discover_pools exe config pid global l pools acc w =
    ((acc.1 ++ omap found_pool pools, acc.2 ++ omap unstatused_pool pools), w').
Proof.
  revert acc w. induction pools as [|pool pools IH]; intros acc w; cbn [discover_pools].
  - exists w. destruct acc. by rewrite !app_nil_r.
  - destruct (discover_pool_run l pool acc w) as [w1 E1]. rewrite (bind_eq _ _ _ _ _ E1).
    destruct (IH (acc.1 ++ option_list (found_pool pool), acc.2 ++ option_list (unstatused_pool pool)) w1)
      as [w2 E2]. exists w2. rewrite E2. cbn [fst snd].
    by rewrite !omap_step, <- !(assoc_L (++)).
Qed.

Lemma partition_names pools :
  map d_Name (omap found_pool pools) ++ map u_Name (omap unstatused_pool pools) ≡ₚ
  map fst (List.filter has_socket pools).
Proof.
  induction pools as [|pool pools IH]; [done|]. rewrite !omap_step. cbn [List.filter].
  unfold found_pool at 1, unstatused_pool at 1. destruct (has_socket pool); cbn [andb]; [|done].
  destruct (String.eqb (pool_status pool.2) ""); cbn; rewrite <- IH; [|done].
  by rewrite <- Permutation_middle.
Qed.

Lemma found_pool_Some pool d :
  found_pool pool = Some d <->
  has_socket pool = true /\ pool_status pool.2 <> "" /\ d = entry_of pool.
Proof.
  unfold found_pool. destruct (has_socket pool), (String.eqb_spec (pool_status pool.2) "");
    cbn; split; try done; try (by intros (? & ? & ?)); [by intros [= <-]|by intros (_ & _ & ->)].
Qed.

Lemma unstatused_pool_Some pool u :
  unstatused_pool pool = Some u <->
  has_socket pool = true /\ pool_status pool.2 = "" /\ u = unstatused_of pool.
Proof.
  unfold unstatused_pool. destruct (has_socket pool), (String.eqb_spec (pool_status pool.2) "");
    cbn; split; try done; try (by intros (? & ? & ?)); [by intros [= <-]|by intros (_ & _ & ->)].
Qed.
End Pools.

Lemma NoDup_filter_fst {A} (P : string * A -> bool) (l : list (string * A)) :
  NoDup l.*1 -> NoDup (map fst (List.filter P l)).
Proof.
  induction l as [|[k a] l IH]; cbn; [done|]. intros [Hk Hl]%NoDup_cons.
  destruct (P (k, a)); [|auto]. cbn. apply NoDup_cons. split; [|auto].
  intros [[k' a'] [-> Hin]]%list_elem_of_fmap. apply Hk. apply list_elem_of_fmap.
  exists (k', a'). split; [done|]. apply list_elem_of_In in Hin. apply filter_In in Hin as [Hin _].
  by apply list_elem_of_In.
Qed.

(** C16. The pools of one master, ranged over in any order: every pool with a
    listen address is reported exactly once, as found when it or the globals name
    a status path and as unstatused otherwise, and nothing else is reported. *)
Theorem pools_partition `{Host} exe config pid (cfg : EffectiveConfig) l acc w :
  exists found unstatused w',
    (let! pools := range (Pools cfg) in
     discover_pools exe config pid (Global cfg) l pools acc) w =
    ((acc.1 ++ found, acc.2 ++ unstatused), w') /\
    (forall d, d ∈ found <-> exists pc, Pools cfg !! d_Name d = Some pc /\ pool_socket pc <> "" /\
       pool_status (Global cfg) pc <> "" /\ d = entry_of exe config pid (Global cfg) (d_Name d, pc)) /\
    (forall u, u ∈ unstatused <-> exists pc, Pools cfg !! u_Name u = Some pc /\ pool_socket pc <> "" /\
       pool_status (Global cfg) pc = "" /\ u = unstatused_of exe config pid (u_Name u, pc)) /\
    NoDup (map d_Name found ++ map u_Name unstatused).
Proof.
  set (order := range_order (tick w) (Pools cfg)).
  assert (Ho : order ≡ₚ map_to_list (Pools cfg)) by apply range_order_perm.
  destruct (discover_pools_run exe config pid (Global cfg) l order acc
    (mkWorld (S (tick w)) (trace w) (cache w))) as [w' E].
  exists (omap (found_pool exe config pid (Global cfg)) order),
    (omap (unstatused_pool exe config pid (Global cfg)) order), w'.
  split; [exact E|]. split; [|split].
  - intros d. rewrite Ho, list_elem_of_omap. setoid_rewrite found_pool_Some. split.
    + intros ([name pc] & Hin%elem_of_map_to_list & Hs & Hst & ->). exists pc.
      unfold has_socket in Hs. apply negb_true_iff, String.eqb_neq in Hs. done.
    + intros (pc & Hin & Hs & Hst & ->). exists (d_Name d, pc). cbn [entry_of d_Name fst snd].
      rewrite elem_of_map_to_list. split; [done|]. split; [|done].
      unfold has_socket. by apply negb_true_iff, String.eqb_neq.
  - intros u. rewrite Ho, list_elem_of_omap. setoid_rewrite unstatused_pool_Some. split.
    + intros ([name pc] & Hin%elem_of_map_to_list & Hs & Hst & ->). exists pc.
      unfold has_socket in Hs. apply negb_true_iff, String.eqb_neq in Hs. done.
    + intros (pc & Hin & Hs & Hst & ->). exists (u_Name u, pc). cbn [unstatused_of u_Name fst snd].
      rewrite elem_of_map_to_list. split; [done|]. split; [|done].
      unfold has_socket. by apply negb_true_iff, String.eqb_neq.
  - rewrite partition_names. apply NoDup_filter_fst. rewrite Ho. apply NoDup_fst_map_to_list.
Qed.

(** ** What discovery does to the host *)

Section Gating.
Context `{Host}.

Lemma logSkip_quiet P l e msg : (forall lv msg, P (EvLog lv msg)) -> quiet P (logSkip l e msg).
Proof. intros HP. unfold logSkip. case_match; auto with quiet. Qed.

Lemma logSkip_forward l e msg : forward (logSkip l e msg).
Proof. unfold logSkip. case_match; auto with forward. Qed.

Lemma masterIdentity_quiet P p l :
  (forall lv msg, P (EvLog lv msg)) -> quiet P (masterIdentity p l).
Proof.
  intros HP. pose proof (logSkip_quiet P) as Hskip. unfold masterIdentity. frame_steps.
Qed.

Lemma masterIdentity_forward p l : forward (masterIdentity p l).
Proof.
  pose proof logSkip_forward as Hskip. unfold masterIdentity. frame_steps.
Qed.

(** Everything that was read, and when, of a process that was accepted. *)
Lemma masterIdentity_inv p l w b c w' :
  masterIdentity p l w = (Some (b, c), w') ->
  exists name cmd w1,
    proc_name (host_at (tick w)) p = Ok name /\ full_match fpmNamePattern (Base name) = true /\
    proc_cmdline (host_at (S (tick w))) p = Ok cmd /\ Contains cmd "master process" = true /\
    c = extractConfigFromMaster cmd /\ c <> "" /\ proc_exe (host_at (S (S (tick w)))) p = Ok b /\
    trustedPath b (mkWorld (S (S (S (tick w)))) (trace w) (cache w)) = (Ok tt, w1) /\
    trustedPath c w1 = (Ok tt, w').
Proof.
  unfold masterIdentity. intros (name & w1 & [= <- <-] & E)%bind_run.
  destruct (proc_name _ p) as [name|]; [|done].
  destruct (full_match _ _) eqn:En; cbn [negb] in E; [|done].
  apply bind_run in E as (cmd & w1 & [= <- <-] & E). cbn [tick trace cache] in E.
  destruct (proc_cmdline _ p) as [cmd|]; [|done].
  destruct (Contains cmd _) eqn:Em; cbn [negb] in E; [|done].
  destruct (String.eqb_spec (extractConfigFromMaster cmd) "") as [|Hc]; [done|].
  apply bind_run in E as (exe & w1 & [= <- <-] & E). cbn [tick trace cache] in E.
  destruct (proc_exe _ p) as [exe|]; [|by apply bind_run in E as (? & ? & _ & ?)].
  apply bind_run in E as (t1 & w2 & E1 & E).
  destruct t1 as [[]|]; [|by apply bind_run in E as (? & ? & _ & ?)].
  apply bind_run in E as (t2 & w3 & E2 & E).
  destruct t2 as [[]|]; [|by apply bind_run in E as (? & ? & _ & ?)].
  injection E as <- <- <-. exists name, cmd, w2. done.
Qed.

(** Both paths of an accepted master passed the trust check, the binary first. *)
Lemma masterIdentity_trusted p l w b c w' :
  masterIdentity p l w = (Some (b, c), w') ->
  exists w1, trustedPath b w1 = (Ok tt, (trustedPath b w1).2) /\
    trustedPath c (trustedPath b w1).2 = (Ok tt, w') /\ (tick w <= tick w1)%nat /\ c <> "".
Proof.
  intros (name & cmd & w2 & _ & _ & _ & _ & _ & Hc & _ & Hb & Hc2)%masterIdentity_inv.
  eexists. rewrite Hb. split; [done|]. split; [done|]. split; [cbn; lia|done].
Qed.

(** An event of a scan that began at [t0]: a log line, or the run of a binary
    on a configuration that both passed the trust check since. *)
Definition gated (t0 : nat) (e : event) : Prop :=
  match e with
  | EvExec binary args => exists config w1 w2,
      args = ["-tt"; "--fpm-config"; config] /\ (t0 <= tick w1)%nat /\
      trustedPath binary w1 = (Ok tt, w2) /\ is_ok (trustedPath config w2).1 = true
  | EvLog _ _ => True
  | _ => False
  end.

Lemma gated_earlier t0 t1 e : (t0 <= t1)%nat -> gated t1 e -> gated t0 e.
Proof.
  intros Ht. destruct e; cbn; try done. intros (c & w1 & w2 & ? & ? & ? & ?).
  exists c, w1, w2. split; [done|]. split; [lia|done].
Qed.

Lemma discover_pools_quiet exe config pid global l pools acc t0 :
  quiet (gated t0) (discover_pools exe config pid global l pools acc).
Proof.
  assert (Hl : forall lv msg, gated t0 (EvLog lv msg)) by done.
  assert (Hsock : forall s, quiet (gated t0) (parseSocket s (Some l))).
  { intros s. unfold parseSocket. repeat case_match; auto with quiet. }
  revert acc. induction pools as [|[name pc] pools IH]; intros acc; cbn [discover_pools];
    [auto with quiet|]. apply quiet_bind; [|intros; apply IH]. unfold discover_pool. frame_steps.
Qed.

Lemma discover_pools_forward exe config pid global l pools acc :
  forward (discover_pools exe config pid global l pools acc).
Proof.
  assert (Hsock : forall s, forward (parseSocket s (Some l))).
  { intros s. unfold parseSocket. repeat case_match; auto with forward. }
  revert acc. induction pools as [|[name pc] pools IH]; intros acc; cbn [discover_pools];
    [auto with forward|]. apply forward_bind; [|intros; apply IH]. unfold discover_pool. frame_steps.
Qed.

(** [m] from [w] only adds gated events. *)
Definition adds_gated (w w' : world) : Prop :=
  (tick w <= tick w')%nat /\ exists evs, trace w' = trace w ++ evs /\ Forall (gated (tick w)) evs.

Lemma adds_gated_trans w1 w2 w3 : adds_gated w1 w2 -> adds_gated w2 w3 -> adds_gated w1 w3.
Proof.
  intros (H1 & e1 & T1 & G1) (H2 & e2 & T2 & G2). split; [lia|].
  exists (e1 ++ e2). rewrite T2, T1, (assoc_L (++)). split; [done|]. apply Forall_app. split; [done|].
  eapply Forall_impl; [exact G2|]. intros e. by apply gated_earlier.
Qed.

Lemma adds_gated_quiet {A} (m : M A) w a w' :
  quiet (gated (tick w)) m -> forward m -> m w = (a, w') -> adds_gated w w'.
Proof. intros Hq Hf E. split; [by apply (Hf w a)|by apply (Hq w a)]. Qed.

Lemma adds_gated_identity p l w r w' : masterIdentity p l w = (r, w') -> adds_gated w w'.
Proof.
  apply adds_gated_quiet; [by apply masterIdentity_quiet|apply masterIdentity_forward].
Qed.

(** A parse of a master just identified. *)
Lemma adds_gated_parse p l ctx w b c w1 r w2 :
  masterIdentity p l w = (Some (b, c), w1) -> ParseConfigContext ctx b c w1 = (r, w2) ->
  adds_gated w w2.
Proof.
  intros Hid Hp. pose proof (adds_gated_identity _ _ _ _ _ Hid) as [Ht (evs & Htr & Hg)].
  apply ParseConfigContext_frame in Hp as (Ht2 & Htr2 & _).
  apply masterIdentity_trusted in Hid as (v & Hb & Hc & Hv & _).
  split; [lia|]. destruct Htr2 as [->| ->]; [by exists evs|].
  exists (evs ++ [EvExec b ["-tt"; "--fpm-config"; c]]). rewrite Htr, (assoc_L (++)).
  split; [done|]. apply Forall_app. split; [done|]. constructor; [|constructor].
  exists c, v, (trustedPath b v).2. split_and!; [done|done|done|by rewrite Hc].
Qed.

Lemma discover_processes_gated ctx procs l acc w r w' :
  discover_processes ctx procs l acc w = (r, w') -> adds_gated w w'.
Proof.
  revert acc w. induction procs as [|p procs IH]; intros acc w E; cbn [discover_processes] in E.
  { injection E as <- <-. split; [done|]. exists []. by rewrite app_nil_r. }
  apply bind_run in E as (id & w1 & Hid & E).
  destruct id as [[b c]|];
    [|eapply adds_gated_trans; [by eapply adds_gated_identity|by eapply IH]].
  apply bind_run in E as (parsed & w2 & Hp & E).
  eapply adds_gated_trans; [by eapply adds_gated_parse|]. clear Hid Hp.
  destruct parsed as [cfg|e].
  - apply bind_run in E as (o & w3 & Ho & E). apply bind_run in E as (acc' & w4 & Ha & E).
    eapply adds_gated_trans; [eapply adds_gated_quiet, Ho; auto with quiet forward|].
    eapply adds_gated_trans; [|by eapply IH].
    eapply adds_gated_quiet, Ha; [apply discover_pools_quiet|apply discover_pools_forward].
  - apply bind_run in E as ([] & w3 & Hl & E). eapply adds_gated_trans; [|by eapply IH].
    eapply adds_gated_quiet, Hl; [by apply quiet_log|auto with forward].
Qed.

(** C15. Discovery signals nothing and writes nothing, and every program it runs is a binary that
    passed the trust check during this very scan, told to test a configuration
    file that passed it too, whatever the process table claims. *)
Theorem discover_gated ctx l w r w' :
  discoverContext ctx l w = (r, w') ->
  exists evs, trace w' = trace w ++ evs /\ Forall (gated (tick w)) evs.
Proof.
  unfold discoverContext. intros (procs & w1 & Hp & E)%bind_run.
  enough (adds_gated w w') as [_ ?] by done.
  eapply adds_gated_trans; [eapply adds_gated_quiet, Hp; auto with quiet forward|].
  destruct procs as [procs|e].
  - apply bind_run in E as (acc & w2 & Hd & [= <- <-]). by eapply discover_processes_gated.
  - injection E as <- <-. split; [done|]. exists []. by rewrite app_nil_r.
Qed.

(** [DiscoverMasters] runs and signals nothing at all. *)
Theorem DiscoverMasters_harmless l : quiet harmless (DiscoverMasters l).
Proof.
  unfold DiscoverMasters. apply quiet_bind; [auto with quiet|]. intros [procs|e]; [|auto with quiet].
  apply quiet_bind; [|auto with quiet]. generalize (@nil Master) as acc.
  induction procs as [|p procs IH]; intros acc; cbn [collect_masters]; [auto with quiet|].
  apply quiet_bind; [by apply masterIdentity_quiet|]. intros [[b c]|]; apply IH.
Qed.
End Gating.

(** ** Scans of a host that stands still *)

Lemma insensitive_run {A} (m : M A) w a w' : insensitive m -> m w = (a, w') -> a = (m start).1.
Proof. intros Hm E. rewrite (Hm start w). by rewrite E. Qed.

Section Steady.
Context `{Host} (l : logger).

(** What [masterIdentity] says of a process. *)
Definition identity_of (p : Z) : option (string * string) := (masterIdentity p l start).1.

Definition master_of (p : Z) : option Master :=
  (fun bc => mkMaster p bc.1 bc.2) <$> identity_of p.

(** The pools a master serving [cfg] contributes. *)
Definition found_of (m : Master) (cfg : EffectiveConfig) : list Discovered :=
  omap (found_pool (m_Binary m) (m_ConfigPath m) (m_PID m) (Global cfg)) (map_to_list (Pools cfg)).

Definition unstatused_from (m : Master) (cfg : EffectiveConfig) : list Unstatused :=
  omap (unstatused_pool (m_Binary m) (m_ConfigPath m) (m_PID m) (Global cfg))
    (map_to_list (Pools cfg)).

Lemma masters_step p procs :
  omap master_of (p :: procs) =
  match identity_of p with
  | Some (b, c) => mkMaster p b c :: omap master_of procs
  | None => omap master_of procs
  end.
Proof. rewrite omap_step. unfold master_of at 1. by destruct (identity_of p) as [[b c]|]. Qed.

Lemma masterIdentity_insensitive p : stands_still -> insensitive (masterIdentity p l).
Proof.
  intros Hs. unfold masterIdentity, logSkip. frame_steps.
Qed.

Context (Hs : stands_still).

Lemma identity_run p w id w' : masterIdentity p l w = (id, w') -> id = identity_of p.
Proof using Hs. apply insensitive_run. by apply masterIdentity_insensitive. Qed.

Lemma collect_masters_run procs ms w :
  (collect_masters procs l ms w).1 = ms ++ omap master_of procs.
Proof using Hs.
  revert ms w. induction procs as [|p procs IH]; intros ms w; cbn [collect_masters];
    [by rewrite app_nil_r|].
  destruct (masterIdentity p l w) as [id w1] eqn:E. rewrite (bind_eq _ _ _ _ _ E).
  apply identity_run in E as ->. rewrite masters_step.
  destruct (identity_of p) as [[b c]|]; rewrite IH; [|done]. by rewrite <- (assoc_L (++)).
Qed.

Lemma discover_pools_config exe config p cfg acc w r w' :
  (let! pools := range (Pools cfg) in
   discover_pools exe config p (Global cfg) l pools acc) w = (r, w') ->
  r.1 ≡ₚ acc.1 ++ found_of (mkMaster p exe config) cfg /\
  r.2 ≡ₚ acc.2 ++ unstatused_from (mkMaster p exe config) cfg.
Proof.
  intros (o & w1 & [= <- <-] & E)%bind_run. unfold found_of, unstatused_from.
  destruct (discover_pools_run exe config p (Global cfg) l (range_order (tick w) (Pools cfg)) acc
    (mkWorld (S (tick w)) (trace w) (cache w))) as [w2 E2].
  rewrite E2 in E. injection E as <- _. cbn [fst snd m_PID m_Binary m_ConfigPath].
  by rewrite range_order_perm.
Qed.
End Steady.

Lemma masters_listed `{Host} lo w :
  stands_still ->
  (DiscoverMasters lo w).1 =
  match processes (host_at 0) with
  | Ok procs => Ok (omap (master_of (logOrDiscard lo)) procs)
  | Err e => Err (FailedToListProcesses e)
  end.
Proof.
  intros Hs. unfold DiscoverMasters, bind at 1, observe. rewrite Hs.
  destruct (processes _) as [procs|e]; [|done].
  pose proof (collect_masters_run (logOrDiscard lo) Hs procs [] (mkWorld (S (tick w)) (trace w) (cache w))) as E.
  unfold bind. destruct (collect_masters _ _ _ _) as [ms w1]. cbn in *. by rewrite E.
Qed.

(** C38. On a host that stands still, [DiscoverMasters] lists, in the order of the
    process table, exactly the processes [masterIdentity] accepts, and fails only
    when the table cannot be read. *)
Theorem DiscoverMasters_lists `{Host} lo w :
  stands_still ->
  (DiscoverMasters lo w).1 =
  match processes (host_at 0) with
  | Ok procs => Ok (omap (master_of (logOrDiscard lo)) procs)
  | Err e => Err (FailedToListProcesses e)
  end.
Proof. apply masters_listed. Qed.

(** Nothing but a parse touches the cache. *)
Section CacheFrame.
Context `{Host}.

Lemma masterIdentity_keeps_cache p l : keeps_cache (masterIdentity p l).
Proof.
  unfold masterIdentity, logSkip. frame_steps.
Qed.

Lemma discover_pools_keeps_cache exe config p global l pools acc :
  keeps_cache (discover_pools exe config p global l pools acc).
Proof.
  assert (Hsock : forall s, keeps_cache (parseSocket s (Some l))).
  { intros s. unfold parseSocket. repeat case_match; auto with keeps_cache. }
  revert acc. induction pools as [|[name pc] pools IH]; intros acc; cbn [discover_pools];
    [auto with keeps_cache|]. apply keeps_cache_bind; [|intros; apply IH]. unfold discover_pool. frame_steps.
Qed.

Lemma masterIdentity_abs p l w b c w' : masterIdentity p l w = (Some (b, c), w') -> IsAbs b = true.
Proof. intros (w1 & Hb & _)%masterIdentity_trusted. by eapply trustedPath_abs. Qed.
End CacheFrame.

Lemma discoverContext_run `{Host} ctx lo w procs :
  stands_still -> processes (host_at 0) = Ok procs ->
  (discoverContext ctx lo w).1 =
  ((discover_processes ctx procs (logOrDiscard lo) ([], [])
     (mkWorld (S (tick w)) (trace w) (cache w))).1, None).
Proof.
  intros Hs Hp. unfold discoverContext. rewrite (bind_eq _ _ w (processes (host_at (tick w))) (mkWorld (S (tick w)) (trace w) (cache w)))
    by done. rewrite Hs, Hp.
  unfold bind. by destruct (discover_processes _ _ _ _ _).
Qed.

Section WarmScan.
Context `{Host} (Hs : stands_still) (l : logger) (cfg_of : Master -> EffectiveConfig).

(** Every master's configuration is in the cache. *)
Definition warm_for (c : config_cache) (ms : list Master) : Prop :=
  Forall (fun m => cached c !! cacheKey (m_Binary m) (m_ConfigPath m) = Some (cfg_of m)) ms.

Lemma warm_processes ctx procs acc w :
  warm_for (cache w) (omap (master_of l) procs) ->
  let r := (discover_processes ctx procs l acc w).1 in
  r.1 ≡ₚ acc.1 ++ (omap (master_of l) procs ≫= fun m => found_of m (cfg_of m)) /\
  r.2 ≡ₚ acc.2 ++ (omap (master_of l) procs ≫= fun m => unstatused_from m (cfg_of m)).
Proof using Hs.
  revert acc w. induction procs as [|p procs IH]; intros acc w Hw; cbn [discover_processes].
  { cbn. by rewrite !app_nil_r. }
  destruct (masterIdentity p l w) as [id w1] eqn:Eid. rewrite (bind_eq _ _ _ _ _ Eid).
  pose proof (masterIdentity_keeps_cache _ _ _ _ _ Eid) as Hc1.
  pose proof (identity_run l Hs _ _ _ _ Eid) as Eq.
  rewrite masters_step, <- Eq in Hw |- *.
  destruct id as [[b c]|]; [|apply IH; by rewrite Hc1]. cbn [mbind list_bind].
  apply Forall_cons in Hw as [Hm Hw]. cbn in Hm.
  rewrite (bind_eq _ _ _ (Ok (cfg_of (mkMaster p b c))) w1)
    by (apply cached_run; [by eapply masterIdentity_abs|by rewrite Hc1]).
  match goal with |- context [(bind (range ?m) ?f) w1] =>
    destruct ((let! pools := range m in
      discover_pools b c p (Global (cfg_of (mkMaster p b c))) l pools acc) w1) as [acc2 w2] eqn:Ea end.
  pose proof Ea as [H1 H2]%discover_pools_config.
  apply bind_run in Ea as (o & w3 & Eo & Ep). rewrite (bind_eq _ _ _ _ _ Eo), (bind_eq _ _ _ _ _ Ep).
  destruct (IH acc2 w2) as [I1 I2].
  { pose proof (discover_pools_keeps_cache _ _ _ _ _ _ _ _ _ _ Ep) as Hc2.
    injection Eo as _ <-. cbn in Hc2. by rewrite Hc2, Hc1. }
  rewrite I1, I2, H1, H2. by rewrite !(assoc_L (++)).
Qed.
End WarmScan.

(** C14. When every master's configuration is cached, a scan of a host that stands
    still reports all pools of all masters that have a listen address and nothing
    else, each under the master that [DiscoverMasters] lists for it. *)
Theorem warm_scan `{Host} ctx lo cfg_of w procs :
  stands_still -> processes (host_at 0) = Ok procs ->
  let ms := omap (master_of (logOrDiscard lo)) procs in
  warm_for cfg_of (cache w) ms ->
  let r := (discoverContext ctx lo w).1 in
  r.2 = None /\
  r.1.1 ≡ₚ (ms ≫= fun m => found_of m (cfg_of m)) /\
  r.1.2 ≡ₚ (ms ≫= fun m => unstatused_from m (cfg_of m)).
Proof.
  intros Hs Hp ms Hw. rewrite (discoverContext_run _ _ _ procs) by done. split; [done|].
  exact (warm_processes Hs (logOrDiscard lo) cfg_of ctx procs ([], [])
    (mkWorld (S (tick w)) (trace w) (cache w)) Hw).
Qed.

Section Unparsable.
Context `{Host} (Hs : stands_still) (l : logger) (m : Master).

Let key : string := cacheKey (m_Binary m) (m_ConfigPath m).

(** Nothing has been parsed under the master's key, and no spelling of it among
    the masters [ms] can be. *)
Definition cannot_parse (ctx : context) (ms : list Master) : Prop :=
  forall m' w, m' ∈ ms -> cacheKey (m_Binary m') (m_ConfigPath m') = key ->
    cached (cache w) !! key = None ->
    is_ok (ParseConfigContext ctx (m_Binary m') (m_ConfigPath m') w).1 = false.

Definition not_from (r : gathered) : Prop :=
  (forall d, d ∈ r.1 -> cacheKey (d_Binary d) (d_ConfigPath d) <> key) /\
  (forall u, u ∈ r.2 -> cacheKey (u_Binary u) (u_ConfigPath u) <> key).

Lemma unparsable_processes ctx procs acc w :
  cannot_parse ctx (omap (master_of l) procs) -> cached (cache w) !! key = None ->
  not_from acc -> not_from (discover_processes ctx procs l acc w).1.
Proof using Hs.
  revert acc w. induction procs as [|p procs IH]; intros acc w Hp Hw Hacc;
    cbn [discover_processes]; [done|].
  destruct (masterIdentity p l w) as [id w1] eqn:Eid. rewrite (bind_eq _ _ _ _ _ Eid).
  pose proof (masterIdentity_keeps_cache _ _ _ _ _ Eid) as Hc1.
  pose proof (identity_run l Hs _ _ _ _ Eid) as Eq.
  rewrite masters_step, <- Eq in Hp.
  destruct id as [[b c]|]; [|apply IH; by rewrite ?Hc1].
  destruct (ParseConfigContext ctx b c w1) as [r w2] eqn:Ep. rewrite (bind_eq _ _ _ _ _ Ep).
  assert (Hp' : cannot_parse ctx (omap (master_of l) procs)).
  { intros m' v Hin. apply Hp. by right. }
  pose proof (ParseConfigContext_frame _ _ _ _ _ _ Ep) as (_ & _ & Hother & Herr & _).
  destruct r as [cfg|e].
  - assert (Hne : cacheKey b c <> key).
    { intros Ek. specialize (Hp (mkMaster p b c) w1 (list_elem_of_here _ _) Ek).
      rewrite Hc1 in Hp. specialize (Hp Hw). cbn in Hp. by rewrite Ep in Hp. }
    match goal with |- context [(bind (range ?ps) ?f) w2] =>
      destruct ((let! pools := range ps in
        discover_pools b c p (Global cfg) l pools acc) w2) as [acc2 w3] eqn:Ea end.
    pose proof Ea as [H1 H2]%discover_pools_config.
    apply bind_run in Ea as (o & w4 & Eo & Ea).
    rewrite (bind_eq _ _ _ _ _ Eo), (bind_eq _ _ _ _ _ Ea).
    apply IH; [done| |].
    + pose proof (discover_pools_keeps_cache _ _ _ _ _ _ _ _ _ _ Ea) as ->.
      injection Eo as _ <-. cbn. rewrite Hother by done. by rewrite Hc1.
    + destruct Hacc as [Hf Hu]. split.
      * intros d. rewrite H1, elem_of_app. intros [Hd|Hd]; [by apply Hf|].
        apply list_elem_of_omap in Hd as (pool & _ & (_ & _ & ->)%found_pool_Some). done.
      * intros u. rewrite H2, elem_of_app. intros [Hd|Hd]; [by apply Hu|].
        apply list_elem_of_omap in Hd as (pool & _ & (_ & _ & ->)%unstatused_pool_Some). done.
  - destruct (log l LevelWarn
      "Skipping a php-fpm master whose configuration could not be parsed" w2) as [[] w3] eqn:El.
    rewrite (bind_eq _ _ _ _ _ El).
    apply IH; [done| |done]. rewrite (keeps_cache_log _ _ _ _ _ _ El), Herr by done.
    by rewrite Hc1.
Qed.
End Unparsable.

(** C17. On a host that stands still, a master whose configuration no longer parses,
    and is not cached, disappears from the pools, none of which a scan reports, and stays in the list of [DiscoverMasters]: the
    caller that wants to repair it can still find it. *)
Theorem unparsable_master_kept `{Host} ctx lo w procs m :
  stands_still -> processes (host_at 0) = Ok procs ->
  let ms := omap (master_of (logOrDiscard lo)) procs in
  m ∈ ms -> cannot_parse m ctx ms -> cached (cache w) !! cacheKey (m_Binary m) (m_ConfigPath m) = None ->
  (exists l, (DiscoverMasters lo w).1 = Ok l /\ m ∈ l) /\
  (forall d, d ∈ (discoverContext ctx lo w).1.1.1 ->
     cacheKey (d_Binary d) (d_ConfigPath d) <> cacheKey (m_Binary m) (m_ConfigPath m)) /\
  (forall u, u ∈ (discoverContext ctx lo w).1.1.2 ->
     cacheKey (u_Binary u) (u_ConfigPath u) <> cacheKey (m_Binary m) (m_ConfigPath m)).
Proof.
  intros Hs Hp ms Hm Hbad Hw. split.
  - exists ms. split; [|done]. pose proof (masters_listed lo w Hs) as E. by rewrite Hp in E.
  - rewrite (discoverContext_run _ _ _ procs) by done.
    refine (unparsable_processes Hs (logOrDiscard lo) m ctx procs ([], [])
      (mkWorld (S (tick w)) (trace w) (cache w)) Hbad Hw _).
    split; by intros ? ?%not_elem_of_nil.
Qed.

(** ** Instances *)

Lemma steady_still m : @stands_still (steady m).
Proof. by intros t. Qed.

Definition stock_master : Master := mkMaster 7 "/usr/sbin/php-fpm" "/etc/php-fpm.conf".

Lemma stock_masters : omap (master_of (H := steady stock) DiscardHandler) [7%Z] = [stock_master].
Proof. vm_compute. reflexivity. Qed.

Lemma extract_title_witness :
  extractConfigFromMaster "php-fpm: master process (/etc/php-fpm(8).conf)" = "/etc/php-fpm(8" /\
  extractConfigFromMaster "php-fpm: master process (/etc/php/8.3/fpm/php-fpm.conf) (x)" =
  "/etc/php/8.3/fpm/php-fpm.conf".
Proof.
  split; [vm_compute; reflexivity|].
  apply (extract_title "php-fpm: master process " "/etc/php/8.3/fpm/php-fpm.conf" " (x)");
    vm_compute; reflexivity.
Defined.

(** A cold scan of a machine whose php-fpm prints the sample configuration. *)
Definition printing_master (chunks : list string) : machine :=
  mkMachine 0 0 stock_paths [] [fpm_proc 7] [] (fun _ _ => Ran chunks None).

Lemma discover_gated_witness :
  let H := steady (printing_master [sample_report]) in
  trace (discoverContext (H := H) Background None start).2 =
    [EvExec "/usr/sbin/php-fpm" ["-tt"; "--fpm-config"; "/etc/php-fpm.conf"]] /\
  exists evs, trace (discoverContext (H := H) Background None start).2 = trace start ++ evs /\
    Forall (gated (H := H) 0) evs.
Proof.
  intros H. split; [vm_compute; reflexivity|].
  exact (discover_gated (H := H) Background None start _ _ (surjective_pairing _)).
Defined.

Lemma DiscoverMasters_lists_witness :
  (DiscoverMasters (H := steady stock) None start).1 = Ok [stock_master].
Proof.
  rewrite (DiscoverMasters_lists (H := steady stock) None start (steady_still stock)).
  vm_compute. reflexivity.
Defined.

Lemma warm_scan_witness :
  let r := (discoverContext (H := steady stock) Background None warm).1 in
  r.1.2 ≡ₚ [mkUnstatused "www" "/etc/php-fpm.conf" "/usr/sbin/php-fpm" 7 "unix:///tmp/fx/www.sock";
            mkUnstatused "api" "/etc/php-fpm.conf" "/usr/sbin/php-fpm" 7 "tcp://127.0.0.1:9000"].
Proof.
  destruct (warm_scan (H := steady stock) Background None (fun _ => sample_config) warm [7%Z]
    (steady_still stock) eq_refl) as (_ & _ & Hu).
  - rewrite (stock_masters : omap (master_of (H := steady stock) (logOrDiscard None)) [7%Z] = _).
    constructor; [vm_compute; reflexivity|constructor].
  - cbn [fst snd] in *. rewrite Hu. 
    rewrite (stock_masters : omap (master_of (H := steady stock) (logOrDiscard None)) [7%Z] = _).
    vm_compute. reflexivity.
Defined.

Lemma parse_not_started b c w :
  cached (cache w) !! cacheKey b c = None ->
  is_ok (ParseConfigContext (H := steady stock) Background b c w).1 = false.
Proof.
  intros Hw. unfold ParseConfigContext. destruct (IsAbs b); [|done]. cbn [negb].
  rewrite (bind_eq _ _ _ (cache w) w) by done. unfold cache_lookup. rewrite Hw. reflexivity.
Qed.

Lemma unparsable_master_kept_witness :
  exists l, (DiscoverMasters (H := steady stock) None start).1 = Ok l /\ stock_master ∈ l.
Proof.
  apply (unparsable_master_kept (H := steady stock) Background None start [7%Z] stock_master
    (steady_still stock) eq_refl).
  - rewrite (stock_masters : omap (master_of (H := steady stock) (logOrDiscard None)) [7%Z] = _).
    left.
  - rewrite (stock_masters : omap (master_of (H := steady stock) (logOrDiscard None)) [7%Z] = _).
    intros m' w ->%list_elem_of_singleton _ Hw.
    by apply parse_not_started.
  - reflexivity.
Defined.
