(* ===== verification/ProcStat.v ===== *)
(** * Reading /proc/<pid>/stat (start_linux.go, start_other.go, zombie_linux.go, zombie_other.go)

    When a process started and whether it is a zombie, from the text the kernel
    prints, whatever the name of the executable does to it. *)

From S2P Require Import Prelude GoStrings Config Host.
Open Scope go_scope.

(** [data[i]] *)
Definition byte_at (s : string) (i : nat) : option ascii := String.get i s.

Definition startTimeOffset : nat := 19.

(** What [processStartedAt] makes of the file. *)
Definition start_of_stat (data : string) : Z :=
  match LastIndexByte data ")"%char with
  | None => 0
  | Some i =>
      if (String.length data <=? i + 2)%nat then 0
      else
        match Fields (str_drop (i + 2) data) !! startTimeOffset with
        | None => 0
        | Some field =>
            match ParseUint field with
            | (ticks, None) => ticks
            | (_, Some _) => 0
            end
        end
  end%Z.

(** What [isZombie] makes of it. *)
Definition zombie_of_stat (data : string) : bool :=
  match LastIndexByte data ")"%char with
  | None => false
  | Some i =>
      if (String.length data <=? i + 2)%nat then false
      else bool_decide (byte_at data (i + 2) = Some "Z"%char)
  end.

Definition stat_path (pid : Z) : string := "/proc/" +:+ Itoa pid +:+ "/stat".

Section Operations.
Context `{Host}.

Definition processStartedAt (pid : Z) : M Z :=
  match goos with
  | Linux =>
      let! data := observe (fun os => read_file os (stat_path pid)) in
      match data with
      | Err _ => ret 0%Z
      | Ok data => ret (start_of_stat data)
      end
  | OtherOS =>
      let! p := observe (fun os => new_process os (to_int32 pid)) in
      match p with
      | Err _ => ret 0%Z
      | Ok _ =>
          let! created := observe (fun os => proc_create_time os (to_int32 pid)) in
          match created with
          | Err _ => ret 0%Z
          | Ok created => ret (if (created <=? 0)%Z then 0%Z else to_uint64 created)
          end
      end
  end.

Definition isZombie (pid : Z) : M bool :=
  match goos with
  | Linux =>
      let! data := observe (fun os => read_file os (stat_path pid)) in
      match data with
      | Err _ => ret false
      | Ok data => ret (zombie_of_stat data)
      end
  | OtherOS => ret false
  end.
End Operations.

(** ** The text of the file *)

(** [pid (comm) state ppid ...], one line; [fields] start with the state. *)
Definition stat_line (pid : Z) (comm : string) (fields : list string) : string :=
  (Itoa pid +:+ " (" +:+ comm) +:+ String ")" (String " " (join_byte " " fields +:+ byte_string LF)).

(** The kernel's fields: words, none of them with a parenthesis. *)
Definition stat_field (w : string) : bool :=
  wordy w && negb (String.eqb w "") && no_byte ")" w.

Lemma join_no_byte b c ws :
  Ascii.eqb b c = false -> Forall (fun w => no_byte c w = true) ws -> no_byte c (join_byte b ws) = true.
Proof.
  intros Hbc. induction 1 as [|w ws Hw _ IH]; [done|]. destruct ws as [|w' ws]; [done|].
  change (join_byte b (w :: w' :: ws)) with (w +:+ String b (join_byte b (w' :: ws))).
  unfold no_byte in *. rewrite str_forall_app, Hw. cbn [str_forall]. by rewrite Hbc, IH.
Qed.

Lemma stat_fields_words fields :
  Forall (fun w => stat_field w = true) fields ->
  Forall (fun w => wordy w = true /\ w <> "") fields /\ Forall (fun w => no_byte ")" w = true) fields.
Proof.
  intros H. split; (eapply Forall_impl; [exact H|]); intros w Hw; unfold stat_field in Hw; by bool_crush.
Qed.

(** The last parenthesis is the one that closes the name. *)
Lemma stat_line_paren pid comm fields :
  Forall (fun w => stat_field w = true) fields ->
  LastIndexByte (stat_line pid comm fields) ")" =
  Some (String.length (Itoa pid +:+ " (" +:+ comm)).
Proof.
  intros [_ H]%stat_fields_words. unfold stat_line. apply LastIndexByte_app.
  cbn [no_byte str_forall]. unfold no_byte in *. cbn [str_forall]. rewrite str_forall_app.
  pose proof (join_no_byte " " ")" fields eq_refl H) as Hj. unfold no_byte in Hj. by rewrite Hj.
Qed.

Lemma stat_line_rest pid comm fields :
  str_drop (String.length (Itoa pid +:+ " (" +:+ comm) + 2) (stat_line pid comm fields) =
  join_byte " " fields +:+ byte_string LF.
Proof.
  unfold stat_line. generalize (Itoa pid +:+ " (" +:+ comm) as pre. intros pre.
  replace (pre +:+ String ")" (String " " (join_byte " " fields +:+ byte_string LF))) with
    ((pre +:+ ") ") +:+ join_byte " " fields +:+ byte_string LF) by (by rewrite str_app_assoc).
  replace (String.length pre + 2)%nat with (String.length (pre +:+ ") ")) by (by rewrite str_length_app).
  apply str_drop_app.
Qed.

Lemma stat_line_long pid comm fields :
  (String.length (stat_line pid comm fields) <=? String.length (Itoa pid +:+ " (" +:+ comm) + 2)%nat = false.
Proof.
  apply Nat.leb_gt. unfold stat_line. generalize (Itoa pid +:+ " (" +:+ comm) as pre. intros pre.
  rewrite str_length_app. cbn [String.length]. rewrite str_length_app. cbn [byte_string String.length].
  lia.
Qed.

(** C30. The start time is the 22nd field of the line, whatever spaces and
    parentheses the name of the executable holds. *)
Theorem start_of_stat_line pid comm fields ticks :
  Forall (fun w => stat_field w = true) fields ->
  fields !! startTimeOffset = Some (Itoa ticks) -> is_uint64 ticks ->
  start_of_stat (stat_line pid comm fields) = ticks.
Proof.
  intros Hf Hn Ht. unfold start_of_stat.
  rewrite stat_line_paren, stat_line_long, stat_line_rest by done.
  rewrite Fields_join_line by (done || by apply stat_fields_words).
  by rewrite Hn, ParseUint_Itoa.
Qed.

(** A process is called a zombie exactly when the state the kernel prints
    begins with [Z], whatever the name of the executable holds. *)
Theorem zombie_of_stat_line pid comm state fields :
  Forall (fun w => stat_field w = true) (state :: fields) ->
  zombie_of_stat (stat_line pid comm (state :: fields)) = HasPrefix state "Z".
Proof.
  intros Hf. unfold zombie_of_stat. rewrite stat_line_paren, stat_line_long by done.
  unfold byte_at, stat_line. generalize (Itoa pid +:+ " (" +:+ comm) as pre. intros pre.
  assert (Hget : forall u v k, String.get (String.length u + k) (u +:+ v) = String.get k v).
  { clear. intros u v k. induction u as [|c u IH]; [done|]. by rewrite str_app_cons. }
  rewrite Hget. change (String.get 2 (String ")" (String " " ?x))) with (String.get 0 x).
  assert (Hne : state <> "").
  { inversion_clear Hf as [|? ? Hs _]. unfold stat_field in Hs. by bool_crush. }
  destruct state as [|c state]; [done|].
  assert (E : String.get 0 (join_byte " " (String c state :: fields) +:+ byte_string LF) = Some c).
  { destruct fields; reflexivity. }
  rewrite E. cbn [HasPrefix]. destruct (Ascii.eqb_spec c "Z"%char) as [->|Hc].
  - rewrite bool_decide_eq_true_2 by done. by destruct state.
  - rewrite bool_decide_eq_false_2; [done|congruence].
Qed.

(** ** Instances *)

(** A name made to look like the end of the name field. *)
Definition evil_fields : list string :=
  ["S"; "1"; "7"; "7"; "0"; "-1"; "4194560"; "100"; "0"; "0"; "0"; "1"; "2"; "0"; "0"; "20"; "0";
   "1"; "0"; "123456"; "10000"].

Lemma start_of_stat_line_witness :
  start_of_stat (stat_line 7 "php) Z 1 (fpm" evil_fields) = 123456%Z.
Proof.
  apply start_of_stat_line; [|reflexivity|unfold is_uint64; lia].
  apply (bool_decide_eq_true_1 _). vm_compute. reflexivity.
Defined.

Lemma zombie_of_stat_line_witness :
  zombie_of_stat (stat_line 7 "php) Z 1 (fpm" evil_fields) = false.
Proof.
  refine (zombie_of_stat_line 7 "php) Z 1 (fpm" "S" _ _).
  apply (bool_decide_eq_true_1 _). vm_compute. reflexivity.
Defined.
