(* ===== verification/Control.v ===== *)
(** * Validating and reloading masters (control.go)

    [verifyMaster] decides whether a pid may be signalled, [reload] signals it,
    and [ReloadAndWait] watches what comes back. Its [for] loop has fuel; when
    it is enough is the subject of [ReloadAndWait_returns] and
    [ReloadAndWait_livelock]. *)

From S2P Require Import Prelude GoStrings GoPath Regexp Config Host Samples Trust Run ConfigCache.
From S2P Require Import Discover ProcStat.
Open Scope go_scope.

(** ** Validate *)

Inductive validate_error :=
  | NoBinary
  | ValidateNotAbsolute (binary : string)
  | CheckDidNotFinish (e : ctx_error)
  | Rejected (e : bounded_error) (output : string).

(** ** Errors of the control operations *)

Inductive master_error :=
  | PidNotPositive (pid : Z)
  | NoProcess (pid : Z) (e : os_error)
  | NotTrustedMaster (pid : Z)
  | OtherMaster (pid : Z) (found want : string).

Inductive reload_error :=
  | NotAMaster (e : master_error)
  | CannotFind (pid : Z) (e : os_error)
  | CannotSignal (pid : Z) (e : os_error).

Inductive pidfile_error :=
  | CannotRead (file : string) (e : os_error)
  | NotAPid (file : string) (e : num_error)
  | NamesNoMaster (file : string) (pid : Z) (e : master_error).

Inductive wait_error :=
  | ReloadFailed (e : reload_error)
  | CtxDone (e : ctx_error)
  | DidNotSurvive (pid : Z) (e : master_error)
  | NoSuccessor (pid : Z).

Record ReloadTarget := mkTarget { PID : Z; PIDFile : string; ConfigPath : string }.

Section Operations.
Context `{Host}.

Definition Validate (ctx : context) (binary configPath : string) : M (option validate_error) :=
  if String.eqb binary "" then ret (Some NoBinary)
  else if negb (IsAbs binary) then ret (Some (ValidateNotAbsolute binary))
  else
    let args := "-t" :: (if String.eqb configPath "" then [] else ["--fpm-config"; configPath]) in
    let! r := runBounded binary args in
    match r.2 with
    | None => ret None
    | Some err =>
        let! ctxErr := ctx_Err ctx in
        match ctxErr with
        | Some e => ret (Some (CheckDidNotFinish e))
        | None => ret (Some (Rejected err (TrimSpace r.1)))
        end
    end.

(** [SIGUSR2] on Linux, and on the BSDs and macOS. *)
Definition SIGUSR2 : Z := match goos with Linux => 12 | OtherOS => 31 end.

Definition verifyMaster (pid : Z) (configPath : string) : M (result master_error unit) :=
  if (pid <=? 0)%Z then ret (Err (PidNotPositive pid))
  else
    let! proc := observe (fun os => new_process os (to_int32 pid)) in
    match proc with
    | Err e => ret (Err (NoProcess pid e))
    | Ok _ =>
        let! id := masterIdentity (to_int32 pid) (logOrDiscard None) in
        match id with
        | None => ret (Err (NotTrustedMaster pid))
        | Some (_, found) =>
            if String.eqb configPath "" then ret (Ok tt)
            else if negb (String.eqb (Clean found) (Clean configPath))
                 then ret (Err (OtherMaster pid found configPath))
                 else ret (Ok tt)
        end
    end.

Definition VerifyMaster (pid : Z) : M (result master_error unit) := verifyMaster pid "".

Definition reload (pid : Z) (configPath : string) : M (result reload_error unit) :=
  let! v := verifyMaster pid configPath in
  match v with
  | Err e => ret (Err (NotAMaster e))
  | Ok _ =>
      let! proc := observe (fun os => find_process os pid) in
      match proc with
      | Err e => ret (Err (CannotFind pid e))
      | Ok _ =>
          let! s := send_signal pid SIGUSR2 in
          match s with
          | Err e => ret (Err (CannotSignal pid e))
          | Ok _ => ret (Ok tt)
          end
      end
  end.

Definition Reload (pid : Z) : M (result reload_error unit) := reload pid "".

Definition ReloadMaster (pid : Z) (configPath : string) : M (result reload_error unit) :=
  reload pid configPath.

Definition MasterPID (pidFile : string) : M (result pidfile_error Z) :=
  let! data := observe (fun os => read_file os pidFile) in
  match data with
  | Err e => ret (Err (CannotRead pidFile e))
  | Ok data =>
      match Atoi (TrimSpace data) with
      | (_, Some e) => ret (Err (NotAPid pidFile e))
      | (pid, None) =>
          let! v := VerifyMaster pid in
          match v with
          | Err e => ret (Err (NamesNoMaster pidFile pid e))
          | Ok _ => ret (Ok pid)
          end
      end
  end.

Definition sameProcess (pid started : Z) : M bool :=
  if (started =? 0)%Z then ret true
  else let! s := processStartedAt pid in ret (s =? started)%Z.

(** Signal 0 asks whether a process can be signalled and delivers nothing, so
    it is a read of the host and not an event. *)
Definition processAlive (pid : Z) : M bool :=
  let! proc := observe (fun os => find_process os pid) in
  match proc with
  | Err _ => ret false
  | Ok _ =>
      let! s := observe (fun os => signal os pid 0) in
      match s with
      | Err _ => ret false
      | Ok _ => let! z := isZombie pid in ret (negb z)
      end
  end.

(** The pid file's master, when it is another one than the target's. *)
Definition pidfile_successor (target : ReloadTarget) : M (option Z) :=
  if String.eqb (PIDFile target) "" then ret None
  else
    let! r := MasterPID (PIDFile target) in
    match r with
    | Err _ => ret None
    | Ok pid =>
        if (pid =? PID target)%Z then ret None
        else
          let! v := verifyMaster pid (ConfigPath target) in
          match v with Ok _ => ret (Some pid) | Err _ => ret None end
    end.

(** The first of the masters that serves the target's configuration. *)
Definition matching_master (target : ReloadTarget) (m : Master) : bool :=
  String.eqb (Clean (m_ConfigPath m)) (Clean (ConfigPath target)) &&
  (0 <? m_PID m)%Z && negb (m_PID m =? PID target)%Z.

Definition successor (target : ReloadTarget) (l : logger) : M (option Z) :=
  let! fromFile := pidfile_successor target in
  match fromFile with
  | Some pid => ret (Some pid)
  | None =>
      if String.eqb (ConfigPath target) "" then ret None
      else
        let! found := DiscoverMasters (Some l) in
        match found with
        | Err _ => ret None
        | Ok found => ret (m_PID <$> List.find (matching_master target) found)
        end
  end.

Definition time_after (deadline : Z) : M bool :=
  let! now := observe time_now in ret (deadline <? now)%Z.

(** The [for] loop of [ReloadAndWait]; [None] when the fuel is spent. *)
Fixpoint wait_loop (fuel : nat) (ctx : context) (target : ReloadTarget) (started deadline : Z)
    (l : logger) : M (option (result wait_error Z)) :=
  match fuel with
  | O => ret None
  | S f =>
      let pause :=
        let! e := sleep_or_done ctx in
        match e with
        | Some e => ret (Some (Err (CtxDone e)))
        | None => wait_loop f ctx target started deadline l
        end in
      let! e := ctx_Err ctx in
      match e with
      | Some e => ret (Some (Err (CtxDone e)))
      | None =>
          let! alive := processAlive (PID target) in
          let! same := if alive then sameProcess (PID target) started else ret false in
          if same then
            let! over := time_after deadline in
            if over then
              let! v := verifyMaster (PID target) (ConfigPath target) in
              match v with
              | Err e => ret (Some (Err (DidNotSurvive (PID target) e)))
              | Ok _ => ret (Some (Ok (PID target)))
              end
            else pause
          else
            let! next := successor target l in
            match next with
            | Some pid =>
                let! _ := log l LevelInfo
                  "The master came back under a new pid, as a daemonized reload does" in
                let! started := processStartedAt pid in
                wait_loop f ctx (mkTarget pid (PIDFile target) (ConfigPath target)) started deadline l
            | None =>
                let! over := time_after deadline in
                if over then ret (Some (Err (NoSuccessor (PID target)))) else pause
            end
      end
  end.

Definition ReloadAndWait (fuel : nat) (ctx : context) (target : ReloadTarget) (settle : Z)
    (l : option logger) : M (option (result wait_error Z)) :=
  let l := logOrDiscard l in
  let! r := ReloadMaster (PID target) (ConfigPath target) in
  match r with
  | Err e => ret (Some (Err (ReloadFailed e)))
  | Ok _ =>
      let! _ := log l LevelDebug "Reloaded php-fpm master" in
      let! started := processStartedAt (PID target) in
      let! now := observe time_now in
      wait_loop fuel ctx target started (now + settle)%Z l
  end.
End Operations.

(** ** Silence *)

(** A program that does nothing a trace would show. *)
Definition silent {A} (m : M A) : Prop := quiet (fun _ => False) m.

Lemma silent_trace {A} (m : M A) w a w' : silent m -> m w = (a, w') -> trace w' = trace w.
Proof.
  intros Hm E. destruct (Hm _ _ _ E) as (evs & -> & Hevs).
  destruct Hevs as [|? ? [] _]. by rewrite app_nil_r.
Qed.

Section Silent.
Context `{Host}.

Lemma log_discarded P lv msg : quiet P (log DiscardHandler lv msg).
Proof. apply quiet_ret. Qed.

Lemma masterIdentity_silent P p : quiet P (masterIdentity p DiscardHandler).
Proof.
  pose proof (log_discarded P) as Hl. unfold masterIdentity, logSkip. frame_steps.
Qed.

Lemma verifyMaster_silent P pid cp : quiet P (verifyMaster pid cp).
Proof.
  pose proof (masterIdentity_silent P) as Hm. unfold verifyMaster. cbn [logOrDiscard]. frame_steps.
Qed.

Lemma verifyMaster_forward pid cp : forward (verifyMaster pid cp).
Proof.
  pose proof masterIdentity_forward as Hm. unfold verifyMaster. frame_steps.
Qed.

Lemma processStartedAt_silent P pid : quiet P (processStartedAt pid).
Proof.
  unfold processStartedAt. frame_steps.
Qed.

Lemma processStartedAt_forward pid : forward (processStartedAt pid).
Proof.
  unfold processStartedAt. frame_steps.
Qed.

Lemma isZombie_silent P pid : quiet P (isZombie pid).
Proof.
  unfold isZombie. frame_steps.
Qed.

Lemma isZombie_forward pid : forward (isZombie pid).
Proof.
  unfold isZombie. frame_steps.
Qed.
End Silent.

#[export] Hint Resolve verifyMaster_silent processStartedAt_silent isZombie_silent : quiet.
#[export] Hint Resolve verifyMaster_forward processStartedAt_forward isZombie_forward : forward.

Section Frames.
Context `{Host}.

Lemma MasterPID_silent P file : quiet P (MasterPID file).
Proof.
  unfold MasterPID, VerifyMaster. frame_steps.
Qed.

Lemma MasterPID_forward file : forward (MasterPID file).
Proof.
  unfold MasterPID, VerifyMaster. frame_steps.
Qed.

Lemma processAlive_silent P pid : quiet P (processAlive pid).
Proof.
  unfold processAlive. frame_steps.
Qed.

Lemma processAlive_forward pid : forward (processAlive pid).
Proof.
  unfold processAlive. frame_steps.
Qed.

Lemma sameProcess_silent P pid started : quiet P (sameProcess pid started).
Proof. unfold sameProcess. case_match; auto with quiet. Qed.

Lemma sameProcess_forward pid started : forward (sameProcess pid started).
Proof. unfold sameProcess. case_match; auto with forward. Qed.

Lemma time_after_silent P d : quiet P (time_after d).
Proof. unfold time_after. auto with quiet. Qed.

Lemma time_after_forward d : forward (time_after d).
Proof. unfold time_after. auto with forward. Qed.

Lemma pidfile_successor_silent P t : quiet P (pidfile_successor t).
Proof.
  pose proof (MasterPID_silent P) as Hm. unfold pidfile_successor. frame_steps.
Qed.

Lemma pidfile_successor_forward t : forward (pidfile_successor t).
Proof.
  pose proof MasterPID_forward as Hm. unfold pidfile_successor. frame_steps.
Qed.

Lemma DiscoverMasters_logs P l : (forall lv msg, P (EvLog lv msg)) -> quiet P (DiscoverMasters l).
Proof.
  intros HP. unfold DiscoverMasters. apply quiet_bind; [auto with quiet|].
  intros [procs|e]; [|auto with quiet].
  apply quiet_bind; [|auto with quiet]. generalize (@nil Master) as acc.
  induction procs as [|p procs IH]; intros acc; cbn [collect_masters]; [auto with quiet|].
  apply quiet_bind; [by apply masterIdentity_quiet|]. intros [[b c]|]; apply IH.
Qed.

Lemma DiscoverMasters_forward l : forward (DiscoverMasters l).
Proof.
  unfold DiscoverMasters. apply forward_bind; [auto with forward|].
  intros [procs|e]; [|auto with forward].
  apply forward_bind; [|auto with forward]. generalize (@nil Master) as acc.
  induction procs as [|p procs IH]; intros acc; cbn [collect_masters]; [auto with forward|].
  apply forward_bind; [by apply masterIdentity_forward|]. intros [[b c]|]; apply IH.
Qed.

Lemma successor_logs P t l : (forall lv msg, P (EvLog lv msg)) -> quiet P (successor t l).
Proof.
  intros HP. pose proof (DiscoverMasters_logs P) as Hd.
  pose proof (pidfile_successor_silent P) as Hp. unfold successor. frame_steps.
Qed.

Lemma successor_forward t l : forward (successor t l).
Proof.
  pose proof DiscoverMasters_forward as Hd.
  pose proof pidfile_successor_forward as Hp. unfold successor. frame_steps.
Qed.
End Frames.

#[export] Hint Resolve MasterPID_silent processAlive_silent sameProcess_silent time_after_silent
  successor_logs : quiet.
#[export] Hint Resolve MasterPID_forward processAlive_forward sameProcess_forward time_after_forward
  successor_forward : forward.

(** ** Who may be signalled *)

Section Verify.
Context `{Host}.

Lemma verifyMaster_Ok pid cp w w' :
  verifyMaster pid cp w = (Ok tt, w') <->
  (0 < pid)%Z /\ new_process (host_at (tick w)) (to_int32 pid) = Ok tt /\
  exists b c, masterIdentity (to_int32 pid) DiscardHandler
      (mkWorld (S (tick w)) (trace w) (cache w)) = (Some (b, c), w') /\
    (cp = "" \/ Clean c = Clean cp).
Proof.
  unfold verifyMaster. destruct (Z.leb_spec pid 0); [split; [done|intros [? _]; lia]|].
  unfold bind at 1, observe. destruct (new_process _ _) as [[]|e]; [|by split; [|intros (_ & ? & _)]].
  unfold bind. cbn [logOrDiscard].
  destruct (masterIdentity _ _ _) as [[[b c]|] w1]; [|by split; [|intros (_ & _ & ? & ? & ? & _)]].
  destruct (String.eqb_spec cp "") as [->|Hcp].
  - split; [intros [= <-]; eauto 10|]. by intros (_ & _ & ? & ? & [= <- <- ->] & _).
  - destruct (String.eqb_spec (Clean c) (Clean cp)) as [Heq|Hne]; cbn [negb].
    + split; [intros [= <-]; eauto 10|]. by intros (_ & _ & ? & ? & [= <- <- ->] & _).
    + split; [done|]. by intros (_ & _ & ? & ? & [= <- <- ->] & [?|?]).
Qed.

(** C1. A pid that passes [verifyMaster] is, as the process table had it at
    those instants, a positive pid of a process whose name looks like php-fpm's
    and whose title is a master's, whose executable and configuration passed
    the trust check one after the other, and which serves the configuration
    asked for, compared as a cleaned path. *)
Theorem verifyMaster_sound pid cp w w' :
  verifyMaster pid cp w = (Ok tt, w') ->
  let p := to_int32 pid in
  (0 < pid)%Z /\
  exists name cmd b w1 w2,
    proc_name (host_at (S (tick w))) p = Ok name /\ full_match fpmNamePattern (Base name) = true /\
    proc_cmdline (host_at (S (S (tick w)))) p = Ok cmd /\ Contains cmd "master process" = true /\
    proc_exe (host_at (S (S (S (tick w))))) p = Ok b /\
    trustedPath b w1 = (Ok tt, w2) /\ trustedPath (extractConfigFromMaster cmd) w2 = (Ok tt, w') /\
    (cp = "" \/ Clean (extractConfigFromMaster cmd) = Clean cp).
Proof.
  intros (Hp & _ & b & c & Hid & Hcp)%verifyMaster_Ok p. split; [done|].
  apply masterIdentity_inv in Hid as (name & cmd & w1 & H1 & H2 & H3 & H4 & -> & _ & H5 & H6 & H7).
  cbn [tick trace cache] in *. by eexists name, cmd, b, _, w1.
Qed.

(** C33. Among positive pids, which process is looked at, and so whether the pid is
    accepted, depends on the low 32 bits only: two positive numbers that agree on
    them are accepted or refused alike, after the same reads, although it is the
    whole number that is signalled. *)
Theorem verifyMaster_wraps pid pid' cp w :
  (0 < pid)%Z -> (0 < pid')%Z -> (pid mod 2 ^ 32 = pid' mod 2 ^ 32)%Z ->
  is_ok (verifyMaster pid' cp w).1 = is_ok (verifyMaster pid cp w).1 /\
  (verifyMaster pid' cp w).2 = (verifyMaster pid cp w).2.
Proof.
  intros H1 H2 Hm. pose proof (to_int32_mod pid pid' Hm) as E. unfold verifyMaster.
  destruct (Z.leb_spec pid 0); [lia|]. destruct (Z.leb_spec pid' 0); [lia|].
  rewrite E. unfold bind, observe.
  destruct (new_process _ _) as [[]|]; [|done].
  destruct (masterIdentity _ _ _) as [[[b c]|] w1]; [|done]. by repeat case_match.
Qed.

Lemma reload_run pid cp w r w' :
  reload pid cp w = (r, w') ->
  match r with
  | Ok _ => exists w1, verifyMaster pid cp w = (Ok tt, w1) /\ (tick w1 <= tick w')%nat /\
              trace w' = trace w ++ [EvSignal pid SIGUSR2]
  | Err _ => trace w' = trace w /\ (tick w <= tick w')%nat
  end.
Proof.
  unfold reload. intros (v & w1 & Hv & E)%bind_run.
  pose proof (silent_trace _ _ _ _ (verifyMaster_silent _ pid cp) Hv) as Ht1.
  pose proof (verifyMaster_forward _ _ _ _ _ Hv) as Hf1.
  destruct v as [[]|e]; [|by injection E as <- <-].
  apply bind_run in E as (f & w2 & [= <- <-] & E). cbn [tick trace cache] in E.
  destruct (find_process _ pid) as [[]|e]; [|injection E as <- <-; cbn; split; [done|lia]].
  unfold send_signal, bind, observe, emit, ret in E. cbn [tick trace cache] in E.
  destruct (signal _ pid SIGUSR2) as [[]|e]; injection E as <- <-; cbn.
  - exists w1. rewrite Ht1. split; [done|]. split; [lia|done].
  - split; [done|lia].
Qed.

(** C5. [Reload] and [ReloadMaster] signal nothing but the pid they were given,
    with nothing but SIGUSR2, exactly once, and only when [verifyMaster] had just
    accepted that pid for that configuration; they succeed exactly when the
    signal went out. *)
Theorem reload_gated pid cp w :
  let '(r, w') := ReloadMaster pid cp w in
  match r with
  | Ok _ => is_ok (verifyMaster pid cp w).1 = true /\
            trace w' = trace w ++ [EvSignal pid SIGUSR2]
  | Err _ => trace w' = trace w
  end.
Proof.
  destruct (ReloadMaster pid cp w) as [r w'] eqn:E. apply reload_run in E.
  destruct r as [[]|e]; [|by destruct E]. by destruct E as (w1 & -> & _ & ?).
Qed.
End Verify.

(** ** Validation *)

Definition validate_args (configPath : string) : list string :=
  "-t" :: (if String.eqb configPath "" then [] else ["--fpm-config"; configPath]).

(** C31. [Validate] accepts a configuration exactly when the binary is an absolute
    path that passed the trust check, php-fpm ran to the end without an error, and
    no chunk its report came in lies across the 4 MiB the capture holds; then one
    php-fpm was run, and nothing else happened. A report that is longer and
    reaches the limit between two chunks is accepted, its capture cut. *)
Theorem Validate_accepts `{Host} ctx binary configPath w w' :
  Validate ctx binary configPath w = (None, w') <->
  IsAbs binary = true /\
  exists w1 chunks, trustedPath binary w = (Ok tt, w1) /\
    run_program (host_at (tick w1)) binary (validate_args configPath) = Ran chunks None /\
    ~ straddled (4 * 2 ^ 20) chunks /\
    w' = mkWorld (S (tick w1)) (trace w ++ [EvExec binary (validate_args configPath)]) (cache w1).
Proof.
  unfold Validate. fold (validate_args configPath).
  destruct (String.eqb_spec binary "") as [->|_]; [by split; [|intros [? _]]|].
  destruct (IsAbs binary); cbn [negb]; [|by split; [|intros [? _]]].
  assert (Htr : forall w1, trustedPath binary w = (Ok tt, w1) -> trace w1 = trace w).
  { intros w1. apply silent_trace, trustedPath_quiet. }
  split.
  - intros (r & w1 & Hr%runBounded_run & E)%bind_run. split; [done|].
    assert (Hnone : r.2 = None /\ w1 = w').
    { destruct r.2; [|by injection E]. apply bind_run in E as (ce & w2 & _ & E). by destruct ce. }
    destruct Hnone as [Hnone <-]. clear E.
    destruct Hr as [(e & _ & -> & _)|(v & lr & Hv & Hrun & ->)]; [done|].
    exists v. unfold cmd_run, bind, observe, emit, ret in Hrun.
    destruct (run_program _ _ _) as [e|chunks wait]; [by injection Hrun as <- <-|].
    injection Hrun as <- <-. unfold run_outcome in Hnone.
    destruct (io_copy _ chunks) as [lw short] eqn:Ec. cbn in Hnone.
    destruct wait, short; try done. exists chunks. rewrite <- (Htr v) by done. split_and!; try done.
    intros Hs%io_copy_short; [|done]. change (4 * 2 ^ 20)%Z with maxCapturedOutput in Hs. by rewrite Ec in Hs.
  - intros (_ & v & chunks & Hv & Hrun & Hs & ->).
    assert (Hcopy : (io_copy (new_writer maxCapturedOutput) chunks).2 = false).
    { apply not_true_is_false. by intros H1%io_copy_short. } unfold runBounded.
    unfold bind at 1 2. rewrite Hv. unfold cmd_run, bind, observe, emit, ret. cbn [tick trace cache].
    rewrite Hrun. unfold run_outcome. destruct (io_copy _ chunks) as [lw short]. cbn in *.
    rewrite Hcopy. cbn. by rewrite (Htr v).
Qed.

(** ** The pid file *)

(** The pid file: a file holding a pid in decimal and a line feed names that
    process, and whether it is accepted is [VerifyMaster]'s answer. *)
Theorem MasterPID_reads `{Host} file pid w :
  read_file (host_at (tick w)) file = Ok (Itoa pid +:+ byte_string LF) -> (0 < pid < 2 ^ 63)%Z ->
  (MasterPID file w).1 =
  match (VerifyMaster pid (mkWorld (S (tick w)) (trace w) (cache w))).1 with
  | Ok _ => Ok pid
  | Err e => Err (NamesNoMaster file pid e)
  end.
Proof.
  intros Hf Hp. unfold MasterPID, bind at 1, observe. rewrite Hf.
  rewrite TrimSpace_snoc, Atoi_Itoa by (done || lia || (apply wordy_trimmed, Itoa_word; lia)).
  unfold bind. by destruct (VerifyMaster _ _) as [[[]|e] w1].
Qed.

(** ** What waiting reports *)

Section Waiting.
Context `{Host} (ctx : context) (pidFile configPath : string) (deadline : Z) (l : logger).

Let target (pid : Z) : ReloadTarget := mkTarget pid pidFile configPath.

(** A pid that came out of [successor] while the loop ran from the instant [t0]. *)
Definition adopted (t0 : nat) (pid : Z) : Prop :=
  exists old w1, (t0 <= tick w1)%nat /\ (successor (target old) l w1).1 = Some pid.

Definition past_deadline (t0 t1 : nat) : Prop :=
  exists t, (t0 <= t < t1)%nat /\ (deadline < time_now (host_at t))%Z.

(** What each answer of the loop says of the run from [t0] that gave it. *)
Definition outcome (t0 : nat) (r : result wait_error Z) (w' : world) : Prop :=
  match r with
  | Ok pid => exists w1, past_deadline t0 (tick w1) /\ verifyMaster pid configPath w1 = (Ok tt, w')
  | Err (DidNotSurvive pid e) =>
      exists w1, past_deadline t0 (tick w1) /\ verifyMaster pid configPath w1 = (Err e, w')
  | Err (NoSuccessor pid) =>
      past_deadline t0 (tick w') /\
      exists w1, (t0 <= tick w1)%nat /\ (successor (target pid) l w1).1 = None
  | Err (CtxDone e) => exists t, (t0 <= t)%nat /\ ctx t = Some e
  | Err (ReloadFailed _) => False
  end.

(** The pid an answer names. *)
Definition names (r : result wait_error Z) : option Z :=
  match r with
  | Ok pid | Err (DidNotSurvive pid _) | Err (NoSuccessor pid) => Some pid
  | _ => None
  end.

Lemma past_deadline_earlier t0 t1 t2 : (t0 <= t1)%nat -> past_deadline t1 t2 -> past_deadline t0 t2.
Proof. intros Ht (t & ? & ?). exists t. split; [lia|done]. Qed.

Lemma outcome_earlier t0 t1 r w' : (t0 <= t1)%nat -> outcome t1 r w' -> outcome t0 r w'.
Proof.
  intros Ht. destruct r as [pid|[e|e|pid e|pid]]; cbn; try done.
  - intros (w1 & Hd & ?). exists w1. split; [by eapply past_deadline_earlier|done].
  - intros (t & ? & ?). exists t. split; [lia|done].
  - intros (w1 & Hd & ?). exists w1. split; [by eapply past_deadline_earlier|done].
  - intros (Hd & w1 & ? & ?). split; [by eapply past_deadline_earlier|]. exists w1. split; [lia|done].
Qed.

Lemma adopted_earlier t0 t1 pid : (t0 <= t1)%nat -> adopted t1 pid -> adopted t0 pid.
Proof. intros Ht (old & w1 & ? & ?). exists old, w1. split; [lia|done]. Qed.

Lemma time_after_true w w' :
  time_after deadline w = (true, w') -> past_deadline (tick w) (tick w') /\ (tick w < tick w')%nat.
Proof.
  unfold time_after, bind, observe, ret. intros E. injection E as Hlt <-. apply Z.ltb_lt in Hlt.
  cbn. split; [|lia]. exists (tick w). split; [lia|done].
Qed.

Lemma wait_loop_outcome fuel pid started w r w' :
  wait_loop fuel ctx (target pid) started deadline l w = (Some r, w') ->
  outcome (tick w) r w' /\
  (forall p, names r = Some p -> p = pid \/ adopted (tick w) p).
Proof.
  revert pid started w. induction fuel as [|f IH]; intros pid started w E; cbn [wait_loop] in E;
    [done|].
  assert (Hpause : forall w1, (tick w <= tick w1)%nat ->
    (let! e := sleep_or_done ctx in
     match e with
     | Some e => ret (Some (Err (CtxDone e)))
     | None => wait_loop f ctx (target pid) started deadline l
     end) w1 = (Some r, w') ->
    outcome (tick w) r w' /\ (forall p, names r = Some p -> p = pid \/ adopted (tick w) p)).
  { intros w1 Hw1 (e & w2 & Es & E2)%bind_run. unfold sleep_or_done, bind, emit, ctx_Err in Es.
    injection Es as <- <-. cbn [tick] in E2. destruct (ctx (tick w1)) as [e|] eqn:Ec.
    - injection E2 as <- <-. split; [|done]. exists (tick w1). split; [lia|done].
    - apply IH in E2 as [Ho Hn]. cbn [tick] in *.
      split; [eapply outcome_earlier; [|exact Ho]; lia|].
      intros p [->|Ha]%Hn; [by left|right]. eapply adopted_earlier; [|exact Ha]. lia. }
  apply bind_run in E as (e & w1 & [= <- <-] & E).
  destruct (ctx (tick w)) as [e|] eqn:Ec.
  { injection E as <- <-. split; [|done]. by exists (tick w). }
  apply bind_run in E as (alive & w2 & Ha%processAlive_forward & E). cbn [tick] in Ha.
  apply bind_run in E as (same & w3 & Hsm & E).
  assert (Hf3 : (tick w2 <= tick w3)%nat).
  { destruct alive; [by apply (sameProcess_forward _ _ _ _ _ Hsm)|by injection Hsm as <- <-]. }
  destruct same.
  - apply bind_run in E as (over & w4 & Hov & E).
    pose proof (time_after_forward _ _ _ _ Hov) as Hf4.
    destruct over; [|eapply Hpause; [|exact E]; lia].
    apply time_after_true in Hov as [Hd Hlt].
    apply bind_run in E as (v & w5 & Hv & E).
    assert (Hd' : past_deadline (tick w) (tick w4)) by (eapply past_deadline_earlier; [|exact Hd]; lia).
    destruct v as [[]|e]; injection E as <- <-; cbn; (split; [by exists w4|]);
      intros p [= <-]; by left.
  - apply bind_run in E as (next & w4 & Hs & E).
    pose proof (successor_forward _ _ _ _ _ Hs) as Hf4.
    destruct next as [p'|].
    + apply bind_run in E as (u & w5 & Hl%forward_log & E).
      apply bind_run in E as (st & w6 & Hst%processStartedAt_forward & E).
      apply IH in E as [Ho Hn]. split; [eapply outcome_earlier; [|exact Ho]; lia|].
      intros p [->|Hp]%Hn; right; [|eapply adopted_earlier; [|exact Hp]; lia].
      exists pid, w3. split; [lia|by rewrite Hs].
    + apply bind_run in E as (over & w5 & Hov & E).
      pose proof (time_after_forward _ _ _ _ Hov) as Hf5.
      destruct over; [|eapply Hpause; [|exact E]; lia]. injection E as <- <-.
      apply time_after_true in Hov as [Hd Hlt]. split.
      * cbn. split; [eapply past_deadline_earlier; [|exact Hd]; lia|].
        exists w3. split; [lia|by rewrite Hs].
      * intros p [= <-]. by left.
Qed.

(** The loop only looks, logs and sleeps. *)
Lemma wait_loop_harmless fuel pid started :
  quiet harmless (wait_loop fuel ctx (target pid) started deadline l).
Proof.
  assert (Hl : forall lv msg, harmless (EvLog lv msg)) by done.
  assert (Hs : quiet harmless (sleep_or_done ctx)).
  { unfold sleep_or_done. apply quiet_bind; [by apply quiet_emit|auto with quiet]. }
  revert pid started. induction fuel as [|f IH]; intros pid started; cbn [wait_loop].
  - auto with quiet.
  - frame_steps; apply IH.
Qed.
End Waiting.

Definition is_harmless (e : event) : bool :=
  match e with EvLog _ _ | EvSleep => true | _ => false end.

Lemma harmless_filtered evs : Forall harmless evs -> List.filter (fun e => negb (is_harmless e)) evs = [].
Proof. induction 1 as [|e evs He _ IH]; [done|]. by destruct e. Qed.

Section ReloadAndWait.
Context `{Host}.

(** A run of [ReloadAndWait]: a reload that failed, or one that went out and a
    loop whose deadline is [settle] after an instant in between. *)
Lemma ReloadAndWait_run fuel ctx target settle lo w r w' :
  ReloadAndWait fuel ctx target settle lo w = (r, w') ->
  (exists e, r = Some (Err (ReloadFailed e)) /\ trace w' = trace w) \/
  (exists t0 w1 started, (tick w <= t0 < tick w1)%nat /\
     (exists evs, trace w1 = trace w ++ EvSignal (PID target) SIGUSR2 :: evs /\ Forall harmless evs) /\
     wait_loop fuel ctx target started (time_now (host_at t0) + settle)%Z (logOrDiscard lo) w1 = (r, w')).
Proof.
  unfold ReloadAndWait. intros (v & w1 & Hv%reload_run & E)%bind_run.
  destruct v as [[]|e]; [|injection E as <- <-; left; exists e; by destruct Hv].
  right. destruct Hv as (w0 & Hv & Hf1 & Ht1). pose proof (verifyMaster_forward _ _ _ _ _ Hv) as Hf0.
  apply bind_run in E as (u & w2 & Hl & E). apply bind_run in E as (started & w3 & Hst & E).
  apply bind_run in E as (now & w4 & [= <- <-] & E).
  pose proof (forward_log _ _ _ _ _ _ Hl) as Hf2.
  pose proof (processStartedAt_forward _ _ _ _ Hst) as Hf3.
  pose proof (silent_trace _ _ _ _ (processStartedAt_silent _ _) Hst) as Ht3.
  destruct (quiet_log harmless _ _ _ (fun _ _ => I) _ _ _ Hl) as (evs & Ht2 & Hevs).
  eexists (tick w3), _, started. split; [|split; [|exact E]]; [cbn; lia|].
  exists evs. cbn. rewrite Ht3, Ht2, Ht1, <- (assoc_L (++)). done.
Qed.

(** C2. What [ReloadAndWait] answers is so. Success means that after the settle
    time had passed the pid it returns was verified, as the last thing done, to
    be a trusted master serving the target's configuration, and that this pid is
    the one signalled or one [successor] found; the errors mean that the reload
    was refused, that the context had ended, that after the settle time the pid
    failed that verification, or that it was gone and no successor was found. *)
Theorem ReloadAndWait_outcome fuel ctx target settle lo w r w' :
  ReloadAndWait fuel ctx target settle lo w = (Some r, w') ->
  (exists e, r = Err (ReloadFailed e) /\ trace w' = trace w) \/
  (exists t0 t1, (tick w <= t0 < t1)%nat /\
     outcome ctx (PIDFile target) (ConfigPath target) (time_now (host_at t0) + settle)
       (logOrDiscard lo) t1 r w' /\
     forall p, names r = Some p -> p = PID target \/
       adopted (PIDFile target) (ConfigPath target) (logOrDiscard lo) t1 p).
Proof.
  intros [(e & [= ->] & Ht)|(t0 & w1 & started & Ht & _ & E)]%ReloadAndWait_run; [left; eauto|].
  right. exists t0, (tick w1). split; [done|]. destruct target. by apply wait_loop_outcome in E.
Qed.

(** C4. However the wait goes, and however long, the one thing that is done to
    any process is one SIGUSR2 to the pid asked for; nothing is run. *)
Theorem ReloadAndWait_signals_once fuel ctx target settle lo w r w' :
  ReloadAndWait fuel ctx target settle lo w = (r, w') ->
  exists evs, trace w' = trace w ++ evs /\
    List.filter (fun e => negb (is_harmless e)) evs =
    match r with
    | Some (Err (ReloadFailed _)) => []
    | _ => [EvSignal (PID target) SIGUSR2]
    end.
Proof.
  intros [(e & -> & Ht)|(t0 & w1 & started & _ & (evs & Ht & Hevs) & E)]%ReloadAndWait_run.
  { exists []. by rewrite app_nil_r. }
  destruct target as [pid pf cp]. cbn [PID] in *.
  destruct (wait_loop_harmless _ _ _ _ _ _ _ _ _ _ _ E) as (evs2 & Ht2 & Hevs2).
  exists ((EvSignal pid SIGUSR2 :: evs) ++ evs2). rewrite Ht2, Ht, <- (assoc_L (++)).
  split; [done|]. rewrite List.filter_app. cbn [List.filter is_harmless negb].
  rewrite !harmless_filtered by done.
  destruct r as [[p|[e|e|p e|p]]|]; try done.
  apply wait_loop_outcome in E as [[] _].
Qed.
End ReloadAndWait.

(** ** When waiting ends *)

Definition with_time (os : OS) (now : Z) : OS :=
  mkOS now (getuid os) (lstat os) (stat os) (read_file os) (processes os) (new_process os)
    (proc_name os) (proc_cmdline os) (proc_exe os) (proc_ppid os) (proc_rss os) (proc_create_time os)
    (find_process os) (signal os) (run_program os) (create_temp os) (write_string os) (chmod os)
    (close_file os) (remove os).

Section Termination.
Context `{Host} (ctx : context) (pidFile configPath : string) (l : logger) (T : nat).

Let target (pid : Z) : ReloadTarget := mkTarget pid pidFile configPath.

(** From the instant [T] nothing but the clock moves. *)
Definition settled : Prop :=
  forall t, (T <= t)%nat -> host_at t = with_time (host_at T) (time_now (host_at t)).

(** What takes the target's place from then on can be signalled and is no zombie. *)
Definition successors_alive : Prop :=
  forall old pid w1 w2, (T <= tick w1)%nat -> (T <= tick w2)%nat ->
    (successor (target old) l w1).1 = Some pid -> (processAlive pid w2).1 = true.

Context (deadline : Z).

(** Why a turn that began in [w] did not answer: the deadline had not passed, or
    the pid was not alive or not the same and another one was adopted. *)
Definition goes_on (w : world) (pid started pid' started' : Z) : Prop :=
  (exists w1, (tick w <= tick w1)%nat /\ (time_after deadline w1).1 = false) \/
  (exists w1 w2 w3, (tick w <= tick w1)%nat /\ (tick w <= tick w2)%nat /\ (tick w <= tick w3)%nat /\
     ((processAlive pid w1).1 = false \/ (sameProcess pid started w1).1 = false) /\
     (successor (target pid) l w2).1 = Some pid' /\ started' = (processStartedAt pid' w3).1).

(** What a program does when run in [v], as part of a turn that began in [w] and
    whatever fuel is left: it answers, or the loop goes round again later. *)
Definition turns (w : world) (pid started : Z) (m : nat -> M (option (result wait_error Z)))
    (v : world) : Prop :=
  (exists r w', forall f, m f v = (Some r, w')) \/
  (exists pid' started' w', (tick w < tick w')%nat /\ goes_on w pid started pid' started' /\
     forall f, m f v = wait_loop f ctx (target pid') started' deadline l w').

(** The three ways on from the look at the process. *)
Definition pause_of (pid started : Z) (f : nat) : M (option (result wait_error Z)) :=
  let! e := sleep_or_done ctx in
  match e with
  | Some e => ret (Some (Err (CtxDone e)))
  | None => wait_loop f ctx (target pid) started deadline l
  end.

Definition alive_branch (pid started : Z) (f : nat) : M (option (result wait_error Z)) :=
  let! over := time_after deadline in
  if over then
    let! v := verifyMaster pid configPath in
    match v with
    | Err e => ret (Some (Err (DidNotSurvive pid e)))
    | Ok _ => ret (Some (Ok pid))
    end
  else pause_of pid started f.

Definition gone_branch (pid started : Z) (f : nat) : M (option (result wait_error Z)) :=
  let! next := successor (target pid) l in
  match next with
  | Some pid' =>
      let! _ := log l LevelInfo
        "The master came back under a new pid, as a daemonized reload does" in
      let! started' := processStartedAt pid' in
      wait_loop f ctx (target pid') started' deadline l
  | None =>
      let! over := time_after deadline in
      if over then ret (Some (Err (NoSuccessor pid))) else pause_of pid started f
  end.

Lemma turns_step {A} w pid started (m : M A) (k : A -> nat -> M (option (result wait_error Z))) v x v' :
  m v = (x, v') -> turns w pid started (k x) v' ->
  turns w pid started (fun f => let! x := m in k x f) v.
Proof.
  intros E [(r & w' & H1)|(p & st & w' & Ht & Hg & H1)]; [left; exists r, w'|right; exists p, st, w'];
    [|split; [done|split; [done|]]]; intros f; by rewrite (bind_eq _ _ _ _ _ E).
Qed.

Lemma turns_answer w pid started r v : turns w pid started (fun _ => ret (Some r)) v.
Proof. left. by exists r, v. Qed.

Lemma pause_turns w pid started v :
  (tick w <= tick v)%nat -> goes_on w pid started pid started ->
  turns w pid started (pause_of pid started) v.
Proof.
  intros Hv Hg. unfold turns, pause_of, sleep_or_done, bind, emit, ctx_Err. cbn [tick trace cache].
  destruct (ctx (tick v)) as [e|]; [left; eauto|]. right.
  eexists pid, started, _. split; [|split; [exact Hg|done]]. cbn. lia.
Qed.

Lemma alive_turns w pid started v :
  (tick w <= tick v)%nat -> turns w pid started (alive_branch pid started) v.
Proof.
  intros Hv. unfold alive_branch. destruct (time_after deadline v) as [over v1] eqn:Hov.
  pose proof (time_after_forward _ _ _ _ Hov) as Hf. eapply turns_step; [exact Hov|]. destruct over.
  - destruct (verifyMaster pid configPath v1) as [[[]|e] v2] eqn:Hm;
      (eapply turns_step; [exact Hm|]); apply turns_answer.
  - apply pause_turns; [lia|]. left. exists v. by rewrite Hov.
Qed.

Lemma gone_turns w pid started v :
  (tick w < tick v)%nat ->
  (exists w1, (tick w <= tick w1)%nat /\
     ((processAlive pid w1).1 = false \/ (sameProcess pid started w1).1 = false)) ->
  turns w pid started (gone_branch pid started) v.
Proof.
  intros Hv (w1 & Hw1 & Hgone). unfold gone_branch.
  destruct (successor (target pid) l v) as [next v1] eqn:Hs.
  pose proof (successor_forward _ _ _ _ _ Hs) as Hf1. eapply turns_step; [exact Hs|].
  destruct next as [p'|].
  - destruct (log l LevelInfo "The master came back under a new pid, as a daemonized reload does" v1)
      as [u v2] eqn:Hl.
    destruct (processStartedAt p' v2) as [st v3] eqn:Hst.
    pose proof (forward_log _ _ _ _ _ _ Hl). pose proof (processStartedAt_forward _ _ _ _ Hst).
    right. exists p', st, v3. split; [lia|]. split.
    + right. exists w1, v, v2. split_and!; try done; [lia|lia| |]; [by rewrite Hs|by rewrite Hst].
    + intros f. by rewrite (bind_eq _ _ _ _ _ Hl), (bind_eq _ _ _ _ _ Hst).
  - destruct (time_after deadline v1) as [over v2] eqn:Hov.
    pose proof (time_after_forward _ _ _ _ Hov) as Hf2. eapply turns_step; [exact Hov|].
    destruct over; [apply turns_answer|]. apply pause_turns; [lia|]. left.
    exists v1. split; [lia|by rewrite Hov].
Qed.

(** One turn of the loop. *)
Lemma wait_turn pid started w :
  turns w pid started (fun f => wait_loop (S f) ctx (target pid) started deadline l) w.
Proof.
  change (turns w pid started (fun f =>
    let! e := ctx_Err ctx in
    match e with
    | Some e => ret (Some (Err (CtxDone e)))
    | None =>
        let! alive := processAlive pid in
        let! same := if alive then sameProcess pid started else ret false in
        if same then alive_branch pid started f else gone_branch pid started f
    end) w).
  eapply turns_step; [done|]. destruct (ctx (tick w)) as [e|]; [apply turns_answer|].
  set (w1 := mkWorld _ _ _).
  destruct (processAlive pid w1) as [alive w2] eqn:Ha. eapply turns_step; [exact Ha|].
  pose proof (processAlive_forward _ _ _ _ Ha) as Hf2. cbn [tick w1] in Hf2.
  destruct ((if alive then sameProcess pid started else ret false) w2) as [same w3] eqn:Hsm.
  assert (Hf3 : (tick w2 <= tick w3)%nat).
  { destruct alive; [by apply (sameProcess_forward _ _ _ _ _ Hsm)|by injection Hsm as <- <-]. }
  eapply turns_step; [exact Hsm|]. destruct same; [apply alive_turns; lia|]. apply gone_turns; [lia|].
  destruct alive; [exists w2|exists w1]; (split; [cbn; lia|]); [right|left]; by rewrite ?Hsm, ?Ha.
Qed.

Context (Hsettled : settled) (Halive : successors_alive).

Lemma processStartedAt_settled pid w1 w2 :
  (T <= tick w1)%nat -> (T <= tick w2)%nat ->
  (processStartedAt pid w1).1 = (processStartedAt pid w2).1.
Proof using Hsettled.
  intros H1 H2. unfold processStartedAt. destruct goos; unfold bind, observe; cbn [tick].
  - rewrite (Hsettled (tick w1)), (Hsettled (tick w2)) by done. cbn [with_time read_file].
    by destruct (read_file _ _).
  - rewrite (Hsettled (tick w1)), (Hsettled (tick w2)) by done. cbn [with_time new_process].
    destruct (new_process _ _); [|done]. cbn [tick].
    rewrite (Hsettled (S (tick w1))), (Hsettled (S (tick w2))) by lia.
    cbn [with_time proc_create_time]. by destruct (proc_create_time _ _).
Qed.

Lemma sameProcess_settled pid w1 w2 :
  (T <= tick w1)%nat -> (T <= tick w2)%nat ->
  (sameProcess pid (processStartedAt pid w1).1 w2).1 = true.
Proof using Hsettled.
  intros H1 H2. unfold sameProcess. case_match; [done|]. unfold bind.
  pose proof (processStartedAt_settled pid w2 w1 H2 H1) as E.
  destruct (processStartedAt pid w2) as [s w3]. cbn in *. by rewrite E, Z.eqb_refl.
Qed.

Context (Hlate : forall t, (T <= t)%nat -> (deadline < time_now (host_at t))%Z).

Lemma goes_on_late w pid started pid' started' :
  (T <= tick w)%nat -> goes_on w pid started pid' started' ->
  exists w1 w2 w3, (T <= tick w1)%nat /\ (T <= tick w2)%nat /\ (T <= tick w3)%nat /\
     ((processAlive pid w1).1 = false \/ (sameProcess pid started w1).1 = false) /\
     (successor (target pid) l w2).1 = Some pid' /\ started' = (processStartedAt pid' w3).1.
Proof using Hlate.
  intros HT [(w1 & Hw1 & Hn)|(w1 & w2 & w3 & ? & ? & ? & ?)].
  - unfold time_after, bind, observe, ret in Hn. cbn in Hn. apply Z.ltb_ge in Hn.
    specialize (Hlate (tick w1) ltac:(lia)). lia.
  - exists w1, w2, w3. split; [lia|]. split; [lia|]. split; [lia|done].
Qed.

(** From [T] on two turns are enough: one to adopt, one to see the adopted pid
    alive. *)
Lemma wait_loop_late pid started w :
  (T <= tick w)%nat ->
  exists r w', forall f, wait_loop (2 + f) ctx (target pid) started deadline l w = (Some r, w').
Proof using Hlate Hsettled Halive.
  intros HT. destruct (wait_turn pid started w) as [(r & w' & E)|(p & s & w' & Hw & Hg & E)];
    [exists r, w'; intros f; apply (E (S f))|].
  apply goes_on_late in Hg as (_ & w2 & w3 & _ & H2 & H3 & _ & Hs & Hst); [|done].
  destruct (wait_turn p s w') as [(r & w'' & E')|(p2 & s2 & w'' & _ & Hg & _)].
  - exists r, w''. intros f. change (2 + f)%nat with (S (S f)). by rewrite E, E'.
  - apply goes_on_late in Hg as (v1 & _ & _ & G1 & _ & _ & [Hd|Hd] & _); [..|lia].
    + by rewrite (Halive pid p w2 v1) in Hd.
    + by rewrite Hst, sameProcess_settled in Hd.
Qed.

Lemma wait_loop_ends n pid started w :
  (T <= tick w + n)%nat ->
  exists r w', forall f, wait_loop (n + 2 + f) ctx (target pid) started deadline l w = (Some r, w').
Proof using Hlate Hsettled Halive.
  revert pid started w. induction n as [|n IH]; intros pid started w Hn.
  - apply (wait_loop_late pid started w). lia.
  - destruct (wait_turn pid started w) as [(r & w' & E)|(p & s & w' & Hw & _ & E)];
      [exists r, w'; intros f; apply (E (n + 2 + f)%nat)|].
    destruct (IH p s w') as (r & w'' & E'); [lia|]. exists r, w''. intros f.
    change (S n + 2 + f)%nat with (S (n + 2 + f)). by rewrite E, E'.
Qed.
End Termination.

Section Ends.
Context `{Host}.

(** C3. [ReloadAndWait] returns: on a host whose clock keeps advancing, which
    otherwise settles down at some instant, and where a master that takes the
    target's place can be signalled, there is a number of turns after which it
    has answered, and its answer does not depend on how many more it was given. *)
Theorem ReloadAndWait_returns ctx target settle lo w T :
  (forall d, exists t1, forall t, (t1 <= t)%nat -> (d < time_now (host_at t))%Z) ->
  settled T -> successors_alive (PIDFile target) (ConfigPath target) (logOrDiscard lo) T ->
  exists fuel r w', forall f, ReloadAndWait (fuel + f) ctx target settle lo w = (Some r, w').
Proof.
  intros Hclock Hset Hal. unfold ReloadAndWait.
  destruct (ReloadMaster (PID target) (ConfigPath target) w) as [[[]|e] w1] eqn:Er;
    [|exists 0%nat; eexists _, w1; intros f; by rewrite (bind_eq _ _ _ _ _ Er)].
  destruct (log (logOrDiscard lo) LevelDebug "Reloaded php-fpm master" w1) as [u w2] eqn:El.
  destruct (processStartedAt (PID target) w2) as [started w3] eqn:Es.
  set (w4 := mkWorld (S (tick w3)) (trace w3) (cache w3)).
  assert (En : observe time_now w3 = (time_now (host_at (tick w3)), w4)) by done.
  set (deadline := (time_now (host_at (tick w3)) + settle)%Z).
  destruct (Hclock deadline) as (t1 & Hlate).
  set (T' := Nat.max T t1).
  assert (Hset' : settled T').
  { intros t Ht. rewrite (Hset t), (Hset T') by lia. done. }
  assert (Hal' : successors_alive (PIDFile target) (ConfigPath target) (logOrDiscard lo) T').
  { intros old pid v1 v2 H1 H2. apply (Hal old); lia. }
  destruct (wait_loop_ends ctx (PIDFile target) (ConfigPath target) (logOrDiscard lo) T' deadline
    Hset' Hal' (fun t Ht => Hlate t ltac:(lia)) T' (PID target) started w4 ltac:(lia))
    as (r & w' & E).
  exists (T' + 2)%nat, r, w'. intros f. rewrite (bind_eq _ _ _ _ _ Er), (bind_eq _ _ _ _ _ El).
  rewrite (bind_eq _ _ _ _ _ Es), (bind_eq _ _ _ _ _ En). destruct target. apply E.
Qed.
End Ends.

(** ** A wait that never ends *)

Section Livelock.
Context `{Host} (ctx : context) (pidFile configPath : string) (l : logger) (T : nat) (first p q : Z).

Let target (pid : Z) : ReloadTarget := mkTarget pid pidFile configPath.

(** From the instant [T] the target and two others refuse the caller's signals,
    and each is found in place of the one before: [p] for the target and for [q],
    [q] for [p]. *)
Definition refuses (pid : Z) : Prop :=
  forall t, (T <= t)%nat -> exists e, signal (host_at t) pid 0 = Err e.

Definition found_for (old new : Z) : Prop :=
  forall v, (T <= tick v)%nat -> (successor (target old) l v).1 = Some new.

Definition dueling : Prop :=
  refuses first /\ refuses p /\ refuses q /\ found_for first p /\ found_for p q /\ found_for q p.

(** Whom the loop watches after [n] more adoptions than one. *)
Definition adoptee (n : nat) : Z := if Nat.even n then p else q.

Lemma adoptee_S n : adoptee (S n) = if Nat.even n then q else p.
Proof. unfold adoptee. rewrite Nat.even_succ, <- Nat.negb_even. by destruct (Nat.even n). Qed.

Context (Hctx : forall t, (T <= t)%nat -> ctx t = None).

Lemma refuses_dead pid v : refuses pid -> (T <= tick v)%nat -> (processAlive pid v).1 = false.
Proof.
  intros Hr Hv. unfold processAlive, bind, observe, ret. destruct (find_process _ _); [|done].
  cbn [tick]. destruct (Hr (S (tick v))) as [e He]; [lia|]. by rewrite He.
Qed.

(** One turn adopts, without a look at the deadline and without a pause. *)
Lemma adoption_turn old new started deadline v :
  refuses old -> found_for old new -> (T <= tick v)%nat ->
  exists started' v' evs, (tick v <= tick v')%nat /\ trace v' = trace v ++ evs /\
    Forall (fun e => e <> EvSleep) evs /\
    forall f, wait_loop (S f) ctx (target old) started deadline l v =
              wait_loop f ctx (target new) started' deadline l v'.
Proof using Hctx.
  intros Hr Hf Hv. set (P := fun e => e <> EvSleep).
  assert (HP : forall lv msg, P (EvLog lv msg)) by done.
  set (v1 := mkWorld (S (tick v)) (trace v) (cache v)).
  destruct (processAlive old v1) as [alive v2] eqn:Ha.
  pose proof (processAlive_forward _ _ _ _ Ha) as Hf2. cbn [tick v1] in Hf2.
  assert (Hd : alive = false).
  { pose proof (refuses_dead old v1 Hr) as E. rewrite Ha in E. apply E. cbn. lia. }
  subst alive. destruct (successor (target old) l v2) as [next v3] eqn:Hs.
  pose proof (successor_forward _ _ _ _ _ Hs) as Hf3.
  assert (Hnext : next = Some new) by (pose proof (Hf v2) as E; rewrite Hs in E; apply E; lia).
  subst next. set (msg := "The master came back under a new pid, as a daemonized reload does").
  destruct (log l LevelInfo msg v3) as [u v4] eqn:Hl. pose proof (forward_log _ _ _ _ _ _ Hl) as Hf4.
  destruct (processStartedAt new v4) as [st v5] eqn:Hst.
  pose proof (processStartedAt_forward _ _ _ _ Hst) as Hf5.
  destruct (successor_logs P _ _ HP _ _ _ Hs) as (e1 & T1 & P1).
  destruct (quiet_log P _ _ _ HP _ _ _ Hl) as (e2 & T2 & P2).
  exists st, v5, (e1 ++ e2). split; [lia|].
  rewrite (silent_trace _ _ _ _ (processStartedAt_silent _ _) Hst), T2, T1.
  rewrite (silent_trace _ _ _ _ (processAlive_silent _ _) Ha), <- (assoc_L (++)). split; [done|].
  split; [by apply Forall_app|]. intros f. cbn [wait_loop].
  rewrite (bind_eq (ctx_Err ctx) _ v None v1) by (unfold ctx_Err; by rewrite Hctx).
  cbn [target PID PIDFile ConfigPath]. rewrite (bind_eq _ _ _ _ _ Ha), (bind_eq (ret false) _ v2 false v2) by done.
  by rewrite (bind_eq _ _ _ _ _ Hs), (bind_eq _ _ _ _ _ Hl), (bind_eq _ _ _ _ _ Hst).
Qed.

Lemma adoptions n started deadline v :
  dueling -> (T <= tick v)%nat ->
  exists started' v' evs, (T <= tick v')%nat /\ trace v' = trace v ++ evs /\
    Forall (fun e => e <> EvSleep) evs /\
    forall f, wait_loop (S n + f) ctx (target first) started deadline l v =
              wait_loop f ctx (target (adoptee n)) started' deadline l v'.
Proof using Hctx.
  intros (R1 & Rp & Rq & F1 & Fp & Fq) Hv. induction n as [|n (st & v1 & e1 & Hv1 & T1 & P1 & E1)].
  - destruct (adoption_turn first p started deadline v) as (st & v' & evs & ? & ? & ? & E); [done..|].
    exists st, v', evs. split; [lia|]. by split_and!.
  - destruct (adoption_turn (adoptee n) (adoptee (S n)) st deadline v1)
      as (st' & v' & evs & ? & T2 & P2 & E); [..|done|].
    { unfold adoptee. by destruct (Nat.even n). }
    { rewrite adoptee_S. unfold adoptee. by destruct (Nat.even n). }
    exists st', v', (e1 ++ evs). split; [lia|]. rewrite T2, T1, <- (assoc_L (++)).
    split; [done|]. split; [by apply Forall_app|]. intros f.
    change (S (S n) + f)%nat with (S (S n + f)). rewrite <- E, <- E1. f_equal. lia.
Qed.
End Livelock.

(** C32. Without that condition the wait need not end. Suppose that once the signal
    is out the context never ends, the target is gone, and two masters that the
    caller may not signal are each found in place of the other. Then, whatever the
    clock and the settle time, no number of turns gives an answer: the loop
    watches the two in turn, one turn each, and never pauses between them. *)
Theorem ReloadAndWait_livelock `{Host} ctx target settle lo w w0 p q :
  ReloadMaster (PID target) (ConfigPath target) w = (Ok tt, w0) ->
  (forall t, (tick w0 <= t)%nat -> ctx t = None) ->
  dueling (PIDFile target) (ConfigPath target) (logOrDiscard lo) (tick w0) (PID target) p q ->
  (forall fuel, (ReloadAndWait fuel ctx target settle lo w).1 = None) /\
  exists deadline, forall n, exists started v evs,
    trace v = trace w0 ++ evs /\ Forall (fun e => e <> EvSleep) evs /\
    forall f, ReloadAndWait (S n + f) ctx target settle lo w =
      wait_loop f ctx (mkTarget (if Nat.even n then p else q) (PIDFile target) (ConfigPath target))
        started deadline (logOrDiscard lo) v.
Proof.
  intros Hr Hctx Hd. set (l := logOrDiscard lo) in *.
  assert (Hloop : exists started deadline v evs, (tick w0 <= tick v)%nat /\ trace v = trace w0 ++ evs /\
    Forall (fun e => e <> EvSleep) evs /\
    forall fuel, ReloadAndWait fuel ctx target settle lo w = wait_loop fuel ctx target started deadline l v).
  { destruct (log l LevelDebug "Reloaded php-fpm master" w0) as [u w1] eqn:Hl.
    destruct (processStartedAt (PID target) w1) as [st w2] eqn:Hst.
    pose proof (forward_log _ _ _ _ _ _ Hl). pose proof (processStartedAt_forward _ _ _ _ Hst).
    destruct (quiet_log (fun e => e <> EvSleep) l LevelDebug "Reloaded php-fpm master"
      (fun _ _ => ltac:(done)) _ _ _ Hl) as (evs & Ht & He).
    eexists st, _, _, evs. split; [|split; [|split; [exact He|]]]; [| |intros fuel; unfold ReloadAndWait; fold l].
    3: by rewrite (bind_eq _ _ _ _ _ Hr), (bind_eq _ _ _ _ _ Hl), (bind_eq _ _ _ _ _ Hst).
    - cbn. lia.
    - cbn. by rewrite (silent_trace _ _ _ _ (processStartedAt_silent _ _) Hst). }
  destruct Hloop as (st & deadline & v & e0 & Hv & T0 & P0 & Hloop).
  assert (Hall : forall n, exists started v' evs, trace v' = trace w0 ++ evs /\
    Forall (fun e => e <> EvSleep) evs /\
    forall f, ReloadAndWait (S n + f) ctx target settle lo w =
      wait_loop f ctx (mkTarget (adoptee p q n) (PIDFile target) (ConfigPath target)) started deadline l v').
  { intros n. destruct target as [pid pf cp]. cbn [PID PIDFile ConfigPath] in *.
    destruct (adoptions ctx pf cp l (tick w0) pid p q Hctx n st deadline v Hd Hv)
      as (st' & v' & evs & _ & T1 & P1 & E).
    exists st', v', (e0 ++ evs). rewrite T1, T0, <- (assoc_L (++)). split; [done|].
    split; [by apply Forall_app|]. intros f. by rewrite Hloop, E. }
  split; [|by exists deadline].
  intros [|n]; [by rewrite Hloop|]. destruct (Hall n) as (st' & v' & _ & _ & _ & E).
  rewrite <- (Nat.add_0_r (S n)), E. done.
Qed.

(** ** Instances *)

(** A master that reloads and dies, leaving two others that serve the same
    configuration and that the caller may not signal. *)
Definition before_death (now : Z) : machine :=
  mkMachine now 0 stock_paths [] [fpm_proc 7] [] no_exec.

Definition duel (now : Z) : machine :=
  mkMachine now 0 stock_paths [] [fpm_proc 8; fpm_proc 9] [8; 9]%Z no_exec.

Definition duel_target (pid : Z) : ReloadTarget := mkTarget pid "" "/etc/php-fpm.conf".

(** One master, and a clock that ticks. *)
Definition calm_host : Host := host_of (fun t => before_death (Z.of_nat t)).

Definition duel_start : world :=
  Eval vm_compute in (ReloadMaster (H := calm_host) 7 "/etc/php-fpm.conf" start).2.

Definition death : nat := Eval vm_compute in tick duel_start.

Definition duel_host : Host :=
  host_of (fun t => if (t <? death)%nat then before_death (Z.of_nat t) else duel (Z.of_nat t)).

Lemma duel_found old new :
  (forall k tr c, (successor (H := duel_host) (duel_target old) DiscardHandler
     (mkWorld (death + k) tr c)).1 = Some new) ->
  found_for (H := duel_host) "" "/etc/php-fpm.conf" DiscardHandler death old new.
Proof.
  intros HP [t tr c] Hv. cbn [tick] in Hv. replace t with (death + (t - death))%nat by lia. apply HP.
Qed.

Lemma duel_dueling :
  dueling (H := duel_host) "" "/etc/php-fpm.conf" DiscardHandler death 7 8 9.
Proof.
  assert (Hr : forall pid, (pid = 7 \/ pid = 8 \/ pid = 9)%Z -> refuses (H := duel_host) death pid).
  { intros pid Hp t Ht. replace t with (death + (t - death))%nat by lia.
    destruct Hp as [->|[->| ->]]; eexists; vm_compute; reflexivity. }
  split_and!; [apply Hr; auto..| | |]; apply duel_found; intros k tr c; vm_compute; reflexivity.
Qed.

Lemma ReloadAndWait_livelock_witness :
  (ReloadAndWait (H := duel_host) 1000 Background (duel_target 7) 5 None start).1 = None.
Proof.
  exact (proj1 (ReloadAndWait_livelock (H := duel_host) Background (duel_target 7) 5 None start duel_start 8 9
    ltac:(vm_compute; reflexivity) (fun _ _ => eq_refl) duel_dueling) 1000%nat).
Defined.

Lemma verifyMaster_sound_witness :
  exists name cmd, proc_name (host_at (Host := calm_host) 1) 7 = Ok name /\
    full_match fpmNamePattern (Base name) = true /\
    proc_cmdline (host_at (Host := calm_host) 2) 7 = Ok cmd /\
    Clean (extractConfigFromMaster cmd) = "/etc/php-fpm.conf".
Proof.
  destruct (verifyMaster_sound (H := calm_host) 7 "/etc//php-fpm.conf" start
    (verifyMaster (H := calm_host) 7 "/etc//php-fpm.conf" start).2)
    as (_ & name & cmd & b & w1 & w2 & H1 & H2 & H3 & _ & _ & _ & _ & Hc).
  - vm_compute. reflexivity.
  - exists name, cmd. split; [exact H1|]. split; [exact H2|]. split; [exact H3|].
    destruct Hc as [Hc|Hc]; [discriminate|]. rewrite Hc. vm_compute. reflexivity.
Defined.

Lemma verifyMaster_wraps_witness :
  is_ok (verifyMaster (H := calm_host) 4294967303 "/etc/php-fpm.conf" start).1 = true.
Proof.
  rewrite (proj1 (verifyMaster_wraps (H := calm_host) 7 4294967303 "/etc/php-fpm.conf" start
    eq_refl eq_refl eq_refl)).
  vm_compute. reflexivity.
Defined.

Definition pidfile_machine : machine :=
  mkMachine 0 0 stock_paths [("/run/php-fpm.pid", "7" +:+ byte_string LF)] [fpm_proc 7] [] no_exec.

Lemma MasterPID_reads_witness :
  (MasterPID (H := steady pidfile_machine) "/run/php-fpm.pid" start).1 = Ok 7%Z.
Proof.
  rewrite (MasterPID_reads (H := steady pidfile_machine) "/run/php-fpm.pid" 7 start) by (reflexivity || lia).
  vm_compute. reflexivity.
Defined.

Definition calm_end : world :=
  Eval vm_compute in (ReloadAndWait (H := calm_host) 40 Background (duel_target 7) 50 None start).2.

Lemma calm_answer :
  ReloadAndWait (H := calm_host) 40 Background (duel_target 7) 50 None start =
  (Some (Ok 7%Z), calm_end).
Proof. vm_compute. reflexivity. Qed.

Lemma ReloadAndWait_outcome_witness :
  exists t0 t1, outcome (H := calm_host) Background "" "/etc/php-fpm.conf"
    (time_now (host_at (Host := calm_host) t0) + 50) DiscardHandler t1 (Ok 7%Z) calm_end.
Proof.
  destruct (ReloadAndWait_outcome (H := calm_host) 40 Background (duel_target 7) 50 None start
    (Ok 7%Z) calm_end calm_answer) as [(e & [=] & _)|(t0 & t1 & _ & Ho & _)].
  exists t0, t1. exact Ho.
Defined.

Lemma ReloadAndWait_signals_once_witness :
  exists evs, trace calm_end = [] ++ evs /\
    List.filter (fun e => negb (is_harmless e)) evs = [EvSignal 7 12].
Proof.
  exact (ReloadAndWait_signals_once (H := calm_host) 40 Background (duel_target 7) 50 None start
    _ _ calm_answer).
Defined.

Lemma calm_successors :
  successors_alive (H := calm_host) "" "/etc/php-fpm.conf" DiscardHandler 0.
Proof.
  intros old pid [t1 tr1 c1] [t2 tr2 c2] _ _ Hs. revert Hs.
  assert (Hd : (successor (H := calm_host) (mkTarget old "" "/etc/php-fpm.conf") DiscardHandler
    (mkWorld t1 tr1 c1)).1 =
    m_PID <$> List.find (matching_master (mkTarget old "" "/etc/php-fpm.conf"))
      [mkMaster 7 "/usr/sbin/php-fpm" "/etc/php-fpm.conf"]).
  { unfold successor. cbn [PIDFile ConfigPath]. erewrite bind_eq; [|vm_compute; reflexivity].
    cbn iota beta. change (String.eqb "/etc/php-fpm.conf" "") with false. cbn iota.
    erewrite bind_eq; [|vm_compute; reflexivity]. reflexivity. }
  rewrite Hd. cbn [List.find]. destruct (matching_master _ _); [|done].
  intros [= <-]. reflexivity.
Qed.

Lemma ReloadAndWait_returns_witness :
  exists fuel r w', forall f,
    ReloadAndWait (H := calm_host) (fuel + f) Background (duel_target 7) 50 None start = (Some r, w').
Proof.
  apply (ReloadAndWait_returns (H := calm_host) Background (duel_target 7) 50 None start 0).
  - intros d. exists (Z.to_nat d + 1)%nat. intros t Ht. cbn. lia.
  - intros t _. reflexivity.
  - exact calm_successors.
Defined.
