(* ===== verification/Data.v ===== *)
(** * The data of a scrape (target.go, metrics.go, info.go, opcache.go: the structs)

    A [float64] is Stdlib's computable model of IEEE 754 binary64. *)

From Stdlib Require Import Floats.SpecFloat.
From S2P Require Import Prelude GoStrings Config Host Discover.

(** ** float64 *)

Definition float64 : Type := spec_float.

Definition f64_add (x y : float64) : float64 := SFadd 53 1024 x y.
Definition f64_div (x y : float64) : float64 := SFdiv 53 1024 x y.
(** The nearest [float64] to an integer. *)
Definition f64_of_Z (n : Z) : float64 := binary_normalize 53 1024 n 0 false.
Definition f64_zero : float64 := S754_zero false.

Arguments f64_add : simpl never.
Arguments f64_div : simpl never.
Arguments f64_of_Z : simpl never.

(** ** Targets (target.go) *)

Record Target := mkScrapeTarget {
  t_Name : string; t_Socket : string; t_StatusSocket : string; t_StatusPath : string;
  t_ConfigPath : string; t_Binary : string; t_MaxChildren : Z; t_ProcessManager : string;
  t_Workload : string; t_PID : Z; t_Timeout : Z
}.

(** ** PHP (info.go) and its opcode cache (opcache.go) *)

(** [Extensions] is [None] for a nil slice. *)
Record Info := mkPhpInfo { Version : string; Extensions : option (list string) }.

Record Memory := mkMemory {
  UsedMemory : Z; FreeMemory : Z; WastedMemory : Z; CurrentWastedPct : float64
}.

Record Stats := mkStats {
  s_StartTime : option Z; s_LastRestartTime : option Z; NumCachedScripts : Z; Hits : Z; Misses : Z;
  BlacklistMisses : Z; OomRestarts : Z; HashRestarts : Z; ManualRestarts : Z; HitRate : float64
}.

Record OpcacheStatus := mkOpcache { Enabled : bool; MemoryUsage : Memory; Statistics : Stats }.

(** ** Pools (metrics.go) *)

Record PoolProcess := mkPoolProcess {
  pp_PID : Z; State : string; pp_StartTime : Z; pp_StartSince : Z; Requests : Z;
  RequestDuration : Z; RequestMethod : string; RequestURI : string; ContentLength : Z;
  User : string; Script : string; LastRequestCPU : float64; LastRequestMemory : float64;
  CurrentRSS : Z; CurrentPSS : Z; SubtreeRSS : Z
}.

Record Pool := mkPool {
  Address : string; Path : string; Name : string; ProcessManager : string; StartTime : Z;
  StartSince : Z; AcceptedConnections : Z; ListenQueue : Z; MaxListenQueue : Z;
  ListenQueueLength : Z; IdleProcesses : Z; ActiveProcesses : Z; TotalProcesses : Z;
  MaxActiveProcesses : Z; MaxChildrenReached : Z; SlowRequests : Z; MemoryPeak : Z;
  Processes : list PoolProcess; ProcessesCpu : option float64; ProcessesMemory : option float64;
  (** [None] for a nil map. *)
  PoolConfig : option (gmap string string); OpcacheObserved : bool; PoolOpcacheStatus : option OpcacheStatus;
  PhpInfo : option Info
}.

(** Assignments to the fields the library fills in. *)

Definition set_rss (own pss : Z) (subtree : option Z) (p : PoolProcess) : PoolProcess :=
  mkPoolProcess (pp_PID p) (State p) (pp_StartTime p) (pp_StartSince p) (Requests p)
    (RequestDuration p) (RequestMethod p) (RequestURI p) (ContentLength p) (User p) (Script p)
    (LastRequestCPU p) (LastRequestMemory p) own pss (default (SubtreeRSS p) subtree).

Definition set_uri (uri : string) (p : PoolProcess) : PoolProcess :=
  mkPoolProcess (pp_PID p) (State p) (pp_StartTime p) (pp_StartSince p) (Requests p)
    (RequestDuration p) (RequestMethod p) uri (ContentLength p) (User p) (Script p)
    (LastRequestCPU p) (LastRequestMemory p) (CurrentRSS p) (CurrentPSS p) (SubtreeRSS p).

Definition set_processes (ps : list PoolProcess) (p : Pool) : Pool :=
  mkPool (Address p) (Path p) (Name p) (ProcessManager p) (StartTime p) (StartSince p)
    (AcceptedConnections p) (ListenQueue p) (MaxListenQueue p) (ListenQueueLength p)
    (IdleProcesses p) (ActiveProcesses p) (TotalProcesses p) (MaxActiveProcesses p)
    (MaxChildrenReached p) (SlowRequests p) (MemoryPeak p) ps (ProcessesCpu p) (ProcessesMemory p)
    (PoolConfig p) (OpcacheObserved p) (PoolOpcacheStatus p) (PhpInfo p).

Definition set_counts (idle active total : Z) (p : Pool) : Pool :=
  mkPool (Address p) (Path p) (Name p) (ProcessManager p) (StartTime p) (StartSince p)
    (AcceptedConnections p) (ListenQueue p) (MaxListenQueue p) (ListenQueueLength p)
    idle active total (MaxActiveProcesses p)
    (MaxChildrenReached p) (SlowRequests p) (MemoryPeak p) (Processes p) (ProcessesCpu p)
    (ProcessesMemory p) (PoolConfig p) (OpcacheObserved p) (PoolOpcacheStatus p) (PhpInfo p).

Definition set_averages (cpu mem : option float64) (p : Pool) : Pool :=
  mkPool (Address p) (Path p) (Name p) (ProcessManager p) (StartTime p) (StartSince p)
    (AcceptedConnections p) (ListenQueue p) (MaxListenQueue p) (ListenQueueLength p)
    (IdleProcesses p) (ActiveProcesses p) (TotalProcesses p) (MaxActiveProcesses p)
    (MaxChildrenReached p) (SlowRequests p) (MemoryPeak p) (Processes p) cpu mem
    (PoolConfig p) (OpcacheObserved p) (PoolOpcacheStatus p) (PhpInfo p).

Definition set_config (c : option (gmap string string)) (p : Pool) : Pool :=
  mkPool (Address p) (Path p) (Name p) (ProcessManager p) (StartTime p) (StartSince p)
    (AcceptedConnections p) (ListenQueue p) (MaxListenQueue p) (ListenQueueLength p)
    (IdleProcesses p) (ActiveProcesses p) (TotalProcesses p) (MaxActiveProcesses p)
    (MaxChildrenReached p) (SlowRequests p) (MemoryPeak p) (Processes p) (ProcessesCpu p)
    (ProcessesMemory p) c (OpcacheObserved p) (PoolOpcacheStatus p) (PhpInfo p).

Definition set_php (i : Info) (p : Pool) : Pool :=
  mkPool (Address p) (Path p) (Name p) (ProcessManager p) (StartTime p) (StartSince p)
    (AcceptedConnections p) (ListenQueue p) (MaxListenQueue p) (ListenQueueLength p)
    (IdleProcesses p) (ActiveProcesses p) (TotalProcesses p) (MaxActiveProcesses p)
    (MaxChildrenReached p) (SlowRequests p) (MemoryPeak p) (Processes p) (ProcessesCpu p)
    (ProcessesMemory p) (PoolConfig p) (OpcacheObserved p) (PoolOpcacheStatus p) (Some i).

Definition set_opcache (o : OpcacheStatus) (p : Pool) : Pool :=
  mkPool (Address p) (Path p) (Name p) (ProcessManager p) (StartTime p) (StartSince p)
    (AcceptedConnections p) (ListenQueue p) (MaxListenQueue p) (ListenQueueLength p)
    (IdleProcesses p) (ActiveProcesses p) (TotalProcesses p) (MaxActiveProcesses p)
    (MaxChildrenReached p) (SlowRequests p) (MemoryPeak p) (Processes p) (ProcessesCpu p)
    (ProcessesMemory p) (PoolConfig p) true (Some o) (PhpInfo p).

Definition set_address (address path : string) (p : Pool) : Pool :=
  mkPool address path (Name p) (ProcessManager p) (StartTime p) (StartSince p)
    (AcceptedConnections p) (ListenQueue p) (MaxListenQueue p) (ListenQueueLength p)
    (IdleProcesses p) (ActiveProcesses p) (TotalProcesses p) (MaxActiveProcesses p)
    (MaxChildrenReached p) (SlowRequests p) (MemoryPeak p) (Processes p) (ProcessesCpu p)
    (ProcessesMemory p) (PoolConfig p) (OpcacheObserved p) (PoolOpcacheStatus p) (PhpInfo p).

(** The required fields of a status page, once they are known to be there. *)
Definition set_required (active idle total queue : Z) (workers : list PoolProcess) (p : Pool) : Pool :=
  mkPool (Address p) (Path p) (Name p) (ProcessManager p) (StartTime p) (StartSince p)
    (AcceptedConnections p) queue (MaxListenQueue p) (ListenQueueLength p)
    idle active total (MaxActiveProcesses p)
    (MaxChildrenReached p) (SlowRequests p) (MemoryPeak p) workers (ProcessesCpu p)
    (ProcessesMemory p) (PoolConfig p) (OpcacheObserved p) (PoolOpcacheStatus p) (PhpInfo p).
