(* ===== verification/Rss.v ===== *)
(** * Worker memory (rss.go)

    The snapshot of the process table, the walk down a worker's descendants, and
    the enrichment of a pool's workers. Memory is read when it is asked for, so
    the reads are the host's at their own instants. *)

From S2P Require Import Prelude GoStrings Config Host Samples Discover Data.
Open Scope go_scope.

(** ** The snapshot *)

(** [byPID] maps each pid to gopsutil's handle, which is that pid. *)
Record processSnapshot := mkSnapshot { children : gmap Z (list Z); byPID : gset Z }.

Definition empty_snapshot : processSnapshot := mkSnapshot ∅ ∅.

(** [s.children[pid]] *)
Definition children_of (s : processSnapshot) (pid : Z) : list Z := default [] (children s !! pid).

Definition add_process (pid : Z) (s : processSnapshot) : processSnapshot :=
  mkSnapshot (children s) ({[pid]} ∪ byPID s).

Definition add_child (ppid pid : Z) (s : processSnapshot) : processSnapshot :=
  mkSnapshot (<[ppid := children_of s ppid ++ [pid]]> (children s)) (byPID s).

(** ** smaps_rollup *)

Definition parse_pss_line (line : string) : Z :=
  match Fields (str_drop 4 line) with
  | [] => 0
  | field :: _ =>
      match ParseInt field with
      | (kb, None) => to_int64 (kb * 1024)
      | (_, Some _) => 0
      end
  end%Z.

Fixpoint parse_pss_lines (lines : list string) : Z :=
  match lines with
  | [] => 0%Z
  | line :: lines' => if HasPrefix line "Pss:" then parse_pss_line line else parse_pss_lines lines'
  end.

Definition parsePSSBytes (data : string) : Z := parse_pss_lines (split_byte LF data).

Definition smaps_path (pid : Z) : string := "/proc/" +:+ Itoa pid +:+ "/smaps_rollup".

Section Operations.
Context `{Host}.

Fixpoint snapshot_loop (all : list Z) (s : processSnapshot) : M processSnapshot :=
  match all with
  | [] => ret s
  | p :: all' =>
      let s := add_process p s in
      let! ppid := observe (fun os => proc_ppid os p) in
      match ppid with
      | Err _ => snapshot_loop all' s
      | Ok ppid => snapshot_loop all' (add_child ppid p s)
      end
  end.

Definition snapshotProcesses : M (option processSnapshot) :=
  let! all := observe processes in
  match all with
  | Err _ => ret None
  | Ok all => let! s := snapshot_loop all empty_snapshot in ret (Some s)
  end.

Definition rssOf (s : processSnapshot) (pid : Z) : M Z :=
  if decide (pid ∈ byPID s) then
    let! mem := observe (fun os => proc_rss os pid) in
    match mem with
    | None => ret 0%Z
    | Some rss => ret (to_int64 rss)
    end
  else ret 0%Z.

Definition pssOf (pid : Z) : M Z :=
  if (pid <=? 0)%Z then ret 0%Z
  else
    let! data := observe (fun os => read_file os (smaps_path pid)) in
    match data with
    | Err _ => ret 0%Z
    | Ok data => ret (parsePSSBytes data)
    end.

(** [for _, child := range children { total += f(child) }], the set of pids
    already seen passed along. *)
Fixpoint sum_children (f : Z -> gset Z -> M (Z * gset Z)) (cs : list Z) (total : Z) (seen : gset Z) :
    M (Z * gset Z) :=
  match cs with
  | [] => ret (total, seen)
  | c :: cs' =>
      let! r := f c seen in
      sum_children f cs' (to_int64 (total + r.1)) r.2
  end.

(** [levels] is what is left of the depth bound: [65 - depth]. *)
Fixpoint subtreeRSSBounded (levels : nat) (s : processSnapshot) (pid : Z) (seen : gset Z) :
    M (Z * gset Z) :=
  match levels with
  | O => ret (0%Z, seen)
  | S f =>
      if decide (pid ∈ seen) then ret (0%Z, seen)
      else
        let! own := rssOf s pid in
        sum_children (subtreeRSSBounded f s) (children_of s pid) own ({[pid]} ∪ seen)
  end.

Definition max_depth : nat := 64.

Definition subtreeRSS (s : processSnapshot) (pid : Z) : M Z :=
  let! r := subtreeRSSBounded (S max_depth) s pid ∅ in ret r.1.

(** One worker, and whether it was missing. *)
Definition enrich_worker (snap : option processSnapshot) (p : PoolProcess) :
    M (PoolProcess * bool) :=
  let pid := pp_PID p in
  if (pid <=? 0)%Z then ret (p, false)
  else
    let! proc := observe (fun os => new_process os (to_int32 pid)) in
    match proc with
    | Err _ => ret (p, true)
    | Ok _ =>
        let! mem := observe (fun os => proc_rss os (to_int32 pid)) in
        match mem with
        | None => ret (p, true)
        | Some rss =>
            let own := to_int64 rss in
            let! pss := pssOf pid in
            match snap with
            | None => ret (set_rss own pss None p, false)
            | Some snap =>
                let! subtree := subtreeRSS snap (to_int32 pid) in
                let subtree := if (subtree <? own)%Z then own else subtree in
                ret (set_rss own pss (Some subtree) p, false)
            end
        end
    end.

Fixpoint enrich_workers (snap : option processSnapshot) (ps : list PoolProcess) :
    M (list PoolProcess * nat) :=
  match ps with
  | [] => ret ([], 0%nat)
  | p :: ps' =>
      let! r := enrich_worker snap p in
      let! rs := enrich_workers snap ps' in
      ret (r.1 :: rs.1, if r.2 then S rs.2 else rs.2)
  end.

Definition enrichWorkerRSS (pool : Pool) (snap : option processSnapshot) (l : option logger) : M Pool :=
  let l := logOrDiscard l in
  let! r := enrich_workers snap (Processes pool) in
  let missing := r.2 in
  let! _ :=
    if (missing =? length (Processes pool))%nat && (0 <? missing)%nat
    then log l LevelWarn "A pool's memory could not be read for ANY of its workers"
    else if (0 <? missing)%nat
         then log l LevelDebug "Some workers' memory could not be read"
         else ret tt in
  ret (set_processes r.1 pool).
End Operations.

(** ** What the walk adds up *)

Definition sum_Z (l : list Z) : Z := foldr Z.add 0%Z l.

Lemma sum_Z_app l k : sum_Z (l ++ k) = (sum_Z l + sum_Z k)%Z.
Proof. unfold sum_Z. induction l as [|x l IH]; [done|]. cbn. rewrite IH. lia. Qed.

Lemma to_int64_idem x : to_int64 (to_int64 x) = to_int64 x.
Proof. apply to_int64_id, to_int64_range. Qed.

Section Walk.
Context `{Host} (s : processSnapshot).

(** The process itself and everything below it. *)
Definition descends : Z -> Z -> Prop := rtc (fun p c => c ∈ children_of s p).

(** The memory [rssOf] reads, on a host where it holds still. *)
Definition rss_at (pid : Z) : Z :=
  if decide (pid ∈ byPID s) then
    match proc_rss (host_at 0) pid with Some rss => to_int64 rss | None => 0 end
  else 0%Z.

Definition memory_still : Prop := forall t pid, proc_rss (host_at t) pid = proc_rss (host_at 0) pid.

(** A table that is a forest of bounded height: each child ranks lower. *)
Definition ranked (h : Z -> nat) : Prop :=
  forall p c, c ∈ children_of s p -> (h c < h p)%nat.

(** The walk from [roots] took [seen] to [seen'] by visiting [visited]; with
    levels to spare for every root it skipped nothing. *)
Record visits (levels : nat) (roots : list Z) (seen seen' : gset Z) (visited : list Z) : Prop := {
  visits_once : NoDup visited;
  visits_new : forall p, p ∈ visited -> (p ∉ seen) /\ exists r, r ∈ roots /\ descends r p;
  visits_seen : seen' = list_to_set visited ∪ seen;
  visits_all : forall h, ranked h -> (forall r, r ∈ roots -> (h r < levels)%nat) ->
    (forall r, r ∈ roots -> r ∈ seen') /\
    (forall p c, p ∈ visited -> c ∈ children_of s p -> c ∈ seen')
}.

Lemma visits_nil levels seen : visits levels [] seen seen [].
Proof.
  split; [constructor|by intros ? ?%not_elem_of_nil|by rewrite list_to_set_nil, (left_id_L ∅ (∪))|].
  intros h _ _. split; [by intros ? ?%not_elem_of_nil|by intros ? ? ?%not_elem_of_nil].
Qed.

Lemma visits_cons levels c cs seen1 seen2 seen3 v1 v2 :
  visits levels [c] seen1 seen2 v1 -> visits levels cs seen2 seen3 v2 ->
  visits levels (c :: cs) seen1 seen3 (v1 ++ v2).
Proof.
  intros [N1 I1 S1 A1] [N2 I2 S2 A2]. split.
  - apply NoDup_app. split; [done|]. split; [|done]. intros p Hp1 Hp2.
    apply I2 in Hp2 as [Hp2 _]. apply Hp2. rewrite S1.
    by apply elem_of_union_l, elem_of_list_to_set.
  - intros p [Hp|Hp]%elem_of_app.
    + destruct (I1 p Hp) as (Hs & r & ->%list_elem_of_singleton & Hr). split; [done|].
      exists c. split; [left|done].
    + destruct (I2 p Hp) as (Hs & r & Hr & Hd). split.
      { intros Hp'. apply Hs. rewrite S1. by apply elem_of_union_r. }
      exists r. split; [by right|done].
  - by rewrite S2, S1, list_to_set_app_L, (assoc_L (∪)), (comm_L (∪) (list_to_set v2)).
  - intros h Hh Hl. destruct (A1 h Hh) as [R1 C1].
    { intros r ->%list_elem_of_singleton. apply Hl. left. }
    destruct (A2 h Hh) as [R2 C2]; [intros r Hr; apply Hl; by right|]. split.
    + intros r [->|Hr]%elem_of_cons; [|by apply R2].
      rewrite S2. apply elem_of_union_r, R1. left.
    + intros p c' [Hp|Hp]%elem_of_app Hc; [|by eapply C2].
      rewrite S2. apply elem_of_union_r. by eapply C1.
Qed.

Lemma sum_children_visits levels f cs total seen w total' seen' w' T :
  (forall c seen w t seen' w', f c seen w = ((t, seen'), w') ->
     exists v, visits levels [c] seen seen' v /\ t = to_int64 (sum_Z (map rss_at v))) ->
  total = to_int64 T ->
  sum_children f cs total seen w = ((total', seen'), w') ->
  exists v, visits levels cs seen seen' v /\ total' = to_int64 (T + sum_Z (map rss_at v)).
Proof.
  intros Hf. revert total seen w T. induction cs as [|c cs IH]; intros total seen w T HT E;
    cbn [sum_children] in E.
  - injection E as <- <- <-. exists []. split; [apply visits_nil|]. cbn. by rewrite Z.add_0_r.
  - apply bind_run in E as ([t seen1] & w1 & Ef & E). cbn [fst snd] in E.
    destruct (Hf _ _ _ _ _ _ Ef) as (v1 & V1 & ->).
    apply (IH _ _ _ (T + sum_Z (map rss_at v1))%Z) in E as (v2 & V2 & ->).
    + exists (v1 ++ v2). split; [by eapply visits_cons|]. rewrite map_app, sum_Z_app. f_equal. lia.
    + by rewrite HT, to_int64_add_r, to_int64_add_l.
Qed.

Context (Hmem : memory_still).

Lemma rssOf_run pid w : exists w', rssOf s pid w = (rss_at pid, w').
Proof using Hmem.
  unfold rssOf, rss_at. case_decide; [|by eexists]. unfold bind, observe. rewrite Hmem.
  destruct (proc_rss _ pid); by eexists.
Qed.

Lemma rss_at_range pid : to_int64 (rss_at pid) = rss_at pid.
Proof. unfold rss_at. repeat case_match; try done. apply to_int64_idem. Qed.

Lemma subtree_visits levels pid seen w total seen' w' :
  subtreeRSSBounded levels s pid seen w = ((total, seen'), w') ->
  exists v, visits levels [pid] seen seen' v /\ total = to_int64 (sum_Z (map rss_at v)).
Proof using Hmem.
  revert pid seen w total seen' w'.
  induction levels as [|f IH]; intros pid seen w total seen' w' E; cbn [subtreeRSSBounded] in E.
  - injection E as <- <- <-. exists []. split; [|done].
    destruct (visits_nil 0 seen) as [N I S A]. split; [done|by intros ? ?%not_elem_of_nil|done|].
    intros h _ Hl. specialize (Hl pid (list_elem_of_here _ _)). lia.
  - case_decide as Hin.
    { injection E as <- <- <-. exists []. split; [|done].
      destruct (visits_nil 0 seen) as [N I S A]. split; [done|by intros ? ?%not_elem_of_nil|done|].
      intros h _ _. split; [by intros r ->%list_elem_of_singleton|by intros ? ? ?%not_elem_of_nil]. }
    destruct (rssOf_run pid w) as [w1 Er]. rewrite (bind_eq _ _ _ _ _ Er) in E.
    apply (sum_children_visits f _ _ _ _ _ _ _ _ (rss_at pid)) in E as (v & [N I S A] & ->);
      [|intros; by eapply IH|by rewrite rss_at_range].
    exists (pid :: v). split; [|done]. split.
    + apply NoDup_cons. split; [|done]. intros Hp. apply I in Hp as [Hp _]. apply Hp.
      by apply elem_of_union_l, elem_of_singleton.
    + intros p [->|Hp]%elem_of_cons.
      * split; [done|]. exists pid. split; [left|]. apply rtc_refl.
      * destruct (I p Hp) as (Hs & c & Hc & Hd). split.
        { intros Hp'. apply Hs. by apply elem_of_union_r. }
        exists pid. split; [left|]. by eapply rtc_l.
    + by rewrite S, list_to_set_cons, (assoc_L (∪)), (comm_L (∪) (list_to_set v)).
    + intros h Hh Hl. destruct (A h Hh) as [R C].
      { intros c Hc. pose proof (Hh _ _ Hc). specialize (Hl pid (list_elem_of_here _ _)). lia. }
      split.
      * intros r ->%list_elem_of_singleton. rewrite S.
        by apply elem_of_union_r, elem_of_union_l, elem_of_singleton.
      * intros p c [->|Hp]%elem_of_cons Hc; [by apply R|by eapply C].
Qed.
End Walk.

(** C13. The memory of a worker's subtree: the walk ends whatever the table holds,
    cycles included, adds up each process once, and only processes that descend
    from the worker; and when the table is a forest no deeper than the bound, all
    of them. Memory is assumed to hold still while it is read. *)
Theorem subtreeRSS_counts_once `{Host} s pid w :
  memory_still ->
  exists visited, NoDup visited /\
    (forall p, p ∈ visited -> descends s pid p) /\
    (subtreeRSS s pid w).1 = to_int64 (sum_Z (map (rss_at s) visited)) /\
    forall h, ranked s h -> (h pid <= max_depth)%nat ->
      forall p, descends s pid p -> p ∈ visited.
Proof.
  intros Hmem. unfold subtreeRSS, bind.
  destruct (subtreeRSSBounded _ s pid ∅ w) as [[total seen] w1] eqn:E.
  apply subtree_visits in E as (v & [N I S A] & ->); [|done]. exists v. split; [done|]. split.
  - intros p Hp. by apply I in Hp as (_ & r & ->%list_elem_of_singleton & ?).
  - split; [done|]. intros h Hh Hd p Hp. destruct (A h Hh) as [R C].
    { intros r ->%list_elem_of_singleton. lia. }
    assert (Hseen : forall q, q ∈ seen <-> q ∈ v) by 
      (intros q; rewrite S, elem_of_union, elem_of_list_to_set; by split; [intros [?|?%elem_of_empty]|left]).
    apply Hseen. revert p Hp. apply (rtc_ind_r (fun q => q ∈ seen) pid); [apply R; left|].
    intros q c _ Hc Hq. apply (C q c); [by apply Hseen|done].
Qed.

(** ** The snapshot *)

Definition is_child (os : OS) (ppid p : Z) : bool :=
  match proc_ppid os p with Ok q => (q =? ppid)%Z | Err _ => false end.

(** The snapshot of a host that stands still is its process table turned
    around: the children of a pid are the processes whose parent it is, in the
    order of the table, a process that could not be asked being in the table and
    no one's child. *)
Theorem snapshot_inverts_parents `{Host} w procs :
  stands_still -> processes (host_at 0) = Ok procs ->
  exists s w', snapshotProcesses w = (Some s, w') /\
    byPID s = list_to_set procs /\
    forall ppid, children_of s ppid =
      List.filter (is_child (host_at 0) ppid) procs.
Proof.
  intros Hs Hp.
  assert (Hloop : forall all s w, exists s' w', snapshot_loop all s w = (s', w') /\
    byPID s' = list_to_set all ∪ byPID s /\
    forall ppid, children_of s' ppid = children_of s ppid ++
      List.filter (is_child (host_at 0) ppid) all).
  { clear w. induction all as [|p all IH]; intros s w; cbn [snapshot_loop].
    - exists s, w. split; [done|]. split; [by rewrite list_to_set_nil, (left_id_L ∅ (∪))|].
      intros ppid. by rewrite app_nil_r.
    - set (w1 := mkWorld (S (tick w)) (trace w) (cache w)).
      rewrite (bind_eq _ _ w (proc_ppid (host_at 0) p) w1) by (unfold observe; by rewrite Hs).
      destruct (proc_ppid (host_at 0) p) as [pp|e] eqn:Ep.
      + destruct (IH (add_child pp p (add_process p s)) w1) as (s' & w' & -> & Hb & Hc).
        exists s', w'. split; [done|]. split.
        * rewrite Hb, list_to_set_cons. cbn. by rewrite (assoc_L (∪)), (comm_L (∪) (list_to_set all)).
        * intros ppid. rewrite Hc. cbn [List.filter]. unfold is_child at 2. rewrite Ep.
          unfold children_of, add_child, add_process. cbn [children].
          destruct (Z.eqb_spec pp ppid) as [->|Hne].
          -- rewrite lookup_insert_eq. cbn. by rewrite <- (assoc_L (++)).
          -- by rewrite lookup_insert_ne.
      + destruct (IH (add_process p s) w1) as (s' & w' & -> & Hb & Hc). exists s', w'.
        split; [done|]. split.
        * rewrite Hb, list_to_set_cons. cbn. by rewrite (assoc_L (∪)), (comm_L (∪) (list_to_set all)).
        * intros ppid. rewrite Hc. cbn [List.filter]. unfold is_child at 2. by rewrite Ep. }
  unfold snapshotProcesses.
  rewrite (bind_eq _ _ w (Ok procs) (mkWorld (S (tick w)) (trace w) (cache w)))
    by (unfold observe; by rewrite Hs, Hp).
  destruct (Hloop procs empty_snapshot (mkWorld (S (tick w)) (trace w) (cache w)))
    as (s & w' & E & Hb & Hc).
  rewrite (bind_eq _ _ _ _ _ E). exists s, w'. split; [done|].
  split; [rewrite Hb; apply (right_id_L ∅ (∪))|]. intros ppid. apply Hc.
Qed.

(** ** Proportional set size *)

(** A rollup as the kernel prints it: lines, ended by a line feed each. *)
Definition rollup (lines : list string) : string := join_byte LF (lines ++ [""]).

(** The total is the value of the one line that starts with [Pss:], whatever
    breakdown lines come before and after it, in bytes; below 2^53 kilobytes
    nothing wraps. *)
Theorem parsePSSBytes_total before pad kb after :
  Forall (fun line => no_byte LF line = true /\ HasPrefix line "Pss:" = false) before ->
  str_forall space1 pad = true -> no_byte LF pad = true -> (0 <= kb < 2 ^ 53)%Z ->
  Forall (fun line => no_byte LF line = true) after ->
  parsePSSBytes (rollup (before ++ ("Pss:" +:+ pad +:+ Itoa kb +:+ " kB") :: after)) = (kb * 1024)%Z.
Proof.
  intros Hb Hpad Hlf Hkb Ha. unfold parsePSSBytes, rollup.
  destruct (Itoa_word kb ltac:(lia)) as [Hw Hne].
  assert (Hline : no_byte LF ("Pss:" +:+ pad +:+ Itoa kb +:+ " kB") = true).
  { unfold no_byte in *. rewrite !str_forall_app, Hlf. cbn.
    rewrite (str_forall_impl (fun c => negb (spaceish c)) _ (Itoa kb)); [done| |exact Hw].
    intros c Hc. destruct (Ascii.eqb_spec c LF) as [->|]; [discriminate|done]. }
  rewrite split_join_byte.
  2: { intros E. by apply app_eq_nil in E as [_ E]. }
  2: { apply Forall_app. split; [|by repeat constructor]. apply Forall_app. split.
       - eapply Forall_impl; [exact Hb|]. by intros line [? _].
       - by constructor. }
  induction Hb as [|line before [_ Hp] _ IH]; cbn [app parse_pss_lines]; [|by rewrite Hp].
  change ("Pss:" +:+ ?x) with (String "P" (String "s" (String "s" (String ":" x)))).
  change (HasPrefix (String "P" (String "s" (String "s" (String ":" ?x)))) "Pss:")
    with true. cbv iota.
  unfold parse_pss_line. change (str_drop 4 (String ?a (String ?b (String ?c (String ?d ?x))))) with x.
  assert (Hf : Fields (pad +:+ Itoa kb +:+ " kB") = [Itoa kb; "kB"]).
  { clear Hline Hlf. unfold Fields. induction pad as [|c pad IHp].
    - change (fields_from 0 "" (Itoa kb +:+ " kB") = [Itoa kb; "kB"]).
      rewrite fields_word, str_app_nil_l by done.
      change (fields_from 0 (Itoa kb) " kB") with (fields_from 0 (Itoa kb) (String " " "kB")).
      rewrite fields_space by done. unfold end_word. apply String.eqb_neq in Hne. by rewrite Hne.
    - cbn in Hpad. apply andb_true_iff in Hpad as [Hc Hpad].
      rewrite str_app_cons, fields_space by done. by apply IHp. }
  rewrite Hf. pose proof (Atoi_Itoa kb ltac:(lia)) as E. unfold Atoi in E. rewrite E.
  apply to_int64_id. unfold is_int64. lia.
Qed.

(** ** Enrichment *)

Section Enrichment.
Context `{Host}.

Definition unreadable (t : nat) (pid : Z) : Prop :=
  (exists e, new_process (host_at t) (to_int32 pid) = Err e) \/
  proc_rss (host_at t) (to_int32 pid) = None.

(** What enrichment makes of a worker, from the instant [since] on: nothing, when
    it has no pid or its process could not be read; and otherwise it fills in the
    memory that was read, the proportional share, and with a snapshot the subtree,
    or the worker's own memory where a race made that the larger. *)
Definition enriched (since : nat) (snap : option processSnapshot) (p p' : PoolProcess) : Prop :=
  let pid := pp_PID p in
  (p' = p /\ ((pid <= 0)%Z \/ exists t, (since <= t)%nat /\ unreadable t pid)) \/
  ((0 < pid)%Z /\ exists t rss wp ws,
     (since <= t)%nat /\ new_process (host_at t) (to_int32 pid) = Ok tt /\
     proc_rss (host_at (S t)) (to_int32 pid) = Some rss /\
     tick wp = S (S t) /\ (tick wp <= tick ws)%nat /\
     p' = set_rss (to_int64 rss) (pssOf pid wp).1
            (match snap with
             | None => None
             | Some s => Some (Z.max (to_int64 rss) (subtreeRSS s (to_int32 pid) ws).1)
             end) p).

Lemma enriched_earlier t t' snap p p' : (t <= t')%nat -> enriched t' snap p p' -> enriched t snap p p'.
Proof.
  intros Ht [[-> [Hp|(u & Hu & Hr)]]|(Hp & u & rss & wp & ws & Hu & H1)].
  - left. auto.
  - left. split; [done|]. right. exists u. split; [lia|done].
  - right. split; [done|]. exists u, rss, wp, ws. split; [lia|done].
Qed.

(** Enrichment leaves alone all of a worker but its memory. *)
Lemma enriched_frame t snap p p' :
  enriched t snap p p' -> p' = set_rss (CurrentRSS p') (CurrentPSS p') (Some (SubtreeRSS p')) p.
Proof.
  intros [[-> _]|(_ & u & rss & wp & ws & _ & _ & _ & _ & _ & ->)]; [by destruct p|].
  by destruct p, snap.
Qed.

Lemma pssOf_forward pid : forward (pssOf pid).
Proof. unfold pssOf. frame_steps. Qed.

Lemma subtreeRSSBounded_forward levels s pid seen : forward (subtreeRSSBounded levels s pid seen).
Proof.
  revert pid seen. induction levels as [|f IH]; intros pid seen; cbn [subtreeRSSBounded]; [auto with forward|].
  case_match; [auto with forward|]. apply forward_bind; [unfold rssOf; frame_steps|]. intros own.
  generalize ({[pid]} ∪ seen). revert own. induction (children_of s pid) as [|c cs IHc];
    intros own seen'; cbn [sum_children]; [auto with forward|].
  apply forward_bind; [apply IH|]. intros r. apply IHc.
Qed.

Lemma subtreeRSS_forward s pid : forward (subtreeRSS s pid).
Proof. unfold subtreeRSS. apply forward_bind; [apply subtreeRSSBounded_forward|auto with forward]. Qed.

Lemma enrich_worker_forward snap p : forward (enrich_worker snap p).
Proof.
  pose proof pssOf_forward as Hp. pose proof subtreeRSS_forward as Hs.
  unfold enrich_worker. frame_steps; auto.
Qed.

Lemma enrichWorkerRSS_run pool snap l w :
  exists w', enrichWorkerRSS pool snap l w =
    (set_processes (enrich_workers snap (Processes pool) w).1.1 pool, w').
Proof.
  unfold enrichWorkerRSS. unfold bind at 1.
  destruct (enrich_workers snap (Processes pool) w) as [[ps n] w1].
  unfold bind. match goal with |- context [let '(_, _) := ?m in _] => destruct m as [[] w2] end.
  by exists w2.
Qed.

Lemma enrich_worker_enriched snap p w :
  enriched (tick w) snap p (enrich_worker snap p w).1.1.
Proof.
  destruct (enrich_worker snap p w) as [[p' m] w'] eqn:E. cbn.
  unfold enrich_worker in E. destruct (Z.leb_spec (pp_PID p) 0); [injection E as <- _ _; left; auto|].
  apply bind_run in E as (proc & w1 & [= Hproc <-] & E).
  destruct proc as [[]|e]; [|injection E as <- _ _; left; split; [done|]; right; exists (tick w);
    split; [lia|]; left; by exists e].
  apply bind_run in E as (mem & w2 & [= Hmem <-] & E). cbn [tick trace cache] in *.
  destruct mem as [rss|]; [|injection E as <- _ _; left; split; [done|]; right; exists (S (tick w));
    split; [lia|]; by right].
  apply bind_run in E as (pss & w3 & Hpss & E). right. split; [done|].
  exists (tick w), rss. pose proof (pssOf_forward _ _ _ _ Hpss) as Hf.
  eexists (mkWorld (S (S (tick w))) (trace w) (cache w)), w3. rewrite Hpss. cbn [tick fst] in *.
  split_and!; try done. destruct snap as [snap|]; [|by injection E as <- _ _].
  apply bind_run in E as (subtree & w4 & Hs & E). injection E as <- _ _. rewrite Hs. cbn [fst].
  do 2 f_equal. destruct (Z.ltb_spec subtree (to_int64 rss)); lia.
Qed.

Lemma enrich_workers_enriched snap ps w :
  Forall2 (enriched (tick w) snap) ps (enrich_workers snap ps w).1.1.
Proof.
  revert w. induction ps as [|p ps IH]; intros w; cbn [enrich_workers]; [constructor|].
  unfold bind. pose proof (enrich_worker_enriched snap p w) as Hp.
  destruct (enrich_worker snap p w) as [[p' m] w1] eqn:E1. apply enrich_worker_forward in E1.
  pose proof (IH w1) as Hps. destruct (enrich_workers snap ps w1) as [[ps' n] w2].
  constructor; [done|]. eapply Forall2_impl; [exact Hps|]. intros q q'. by apply enriched_earlier.
Qed.

(** C39. Enrichment keeps the pool as it was reported, worker by worker and in
    order. A worker without a pid, or whose process could not be read when it was
    asked for, stays as it was; any other gets the memory that was read, its
    proportional share, and where there is a snapshot the memory of its subtree,
    or its own if that is more. *)
Theorem enrichWorkerRSS_frame pool snap l w :
  let pool' := (enrichWorkerRSS pool snap l w).1 in
  pool' = set_processes (Processes pool') pool /\
  Forall2 (enriched (tick w) snap) (Processes pool) (Processes pool').
Proof.
  destruct (enrichWorkerRSS_run pool snap l w) as [w' ->]. split; [reflexivity|apply enrich_workers_enriched].
Qed.
End Enrichment.

(** ** Instances *)

(** A worker that spawned two processes, one of which is, by a race, its own
    ancestor. *)
Definition looping : processSnapshot :=
  mkSnapshot (<[10%Z := [11; 12]%Z]> (<[12%Z := [10]%Z]> ∅)) {[10%Z; 11%Z; 12%Z]}.

Definition rss_machine : machine :=
  mkMachine 0 0 [] [] [mkProc 10 1 "php-fpm" "" "" 100; mkProc 11 10 "ffmpeg" "" "" 20;
                       mkProc 12 10 "sh" "" "" 3] [] no_exec.

Lemma steady_memory m : memory_still (H := steady m).
Proof. by intros t pid. Qed.

Lemma subtreeRSS_counts_once_witness :
  (subtreeRSS (H := steady rss_machine) looping 10 start).1 = 123%Z /\
  exists visited, NoDup visited /\
    (subtreeRSS (H := steady rss_machine) looping 10 start).1 =
    to_int64 (sum_Z (map (rss_at (H := steady rss_machine) looping) visited)).
Proof.
  split; [vm_compute; reflexivity|].
  destruct (subtreeRSS_counts_once (H := steady rss_machine) looping 10 start (steady_memory _))
    as (v & Hv & _ & Hs & _).
  exists v. split; [exact Hv|exact Hs].
Defined.

Lemma snapshot_inverts_parents_witness :
  exists s w', snapshotProcesses (H := steady rss_machine) start = (Some s, w') /\
    children_of s 10 = [11; 12]%Z /\ children_of s 1 = [10]%Z.
Proof.
  destruct (snapshot_inverts_parents (H := steady rss_machine) start [10; 11; 12]%Z
    (steady_still rss_machine) eq_refl) as (s & w' & E & _ & Hc).
  exists s, w'. split; [exact E|]. rewrite !Hc. vm_compute. split; reflexivity.
Defined.

Lemma parsePSSBytes_total_witness :
  parsePSSBytes (rollup ["55d0-7ffe ---p 00000000 00:00 0    [rollup]"; "Rss:     5344 kB";
    "Pss:     1711 kB"; "Pss_Anon:     700 kB"]) = 1752064%Z.
Proof.
  refine (parsePSSBytes_total ["55d0-7ffe ---p 00000000 00:00 0    [rollup]"; "Rss:     5344 kB"]
    "     " 1711 ["Pss_Anon:     700 kB"] _ _ _ _ _); [|reflexivity|reflexivity|lia|];
    repeat constructor.
Defined.
