(* ===== verification/Target.v ===== *)
(** * Targets and addresses (target.go, metrics.go: ParseAddress)

    How a discovered pool becomes something to dial. *)

From S2P Require Import Prelude GoStrings Config Host Discover Data.

(** [3 * time.Second] *)
Definition DefaultTimeout : Z := 3 * 10 ^ 9.

Definition dialTimeout (t : Target) : Z :=
  if (0 <? t_Timeout t)%Z then t_Timeout t else DefaultTimeout.

Definition statusAddress (t : Target) : string :=
  if negb (String.eqb (t_StatusSocket t) "") then t_StatusSocket t else t_Socket t.

Definition label (t : Target) : string :=
  if negb (String.eqb (t_Name t) "") then t_Name t
  else if negb (String.eqb (t_StatusSocket t) "") then t_StatusSocket t
  else t_Socket t.

Definition TargetFromDiscovered (d : Discovered) : Target := {|
  t_Name := d_Name d;
  t_Socket := d_Socket d;
  t_StatusSocket := d_StatusSocket d;
  t_StatusPath := d_StatusPath d;
  t_ConfigPath := d_ConfigPath d;
  t_Binary := d_Binary d;
  t_PID := d_PID d;
  t_MaxChildren := d_MaxChildren d;
  t_ProcessManager := d_ProcessManager d;
  t_Workload := d_Workload d;
  t_Timeout := 0
|}.

Inductive address_error := UnsupportedSocket (addr : string).

(** The scheme, the address and the script path. *)
Definition ParseAddress (addr path : string) : result address_error (string * string * string) :=
  if HasPrefix addr "unix://" then Ok ("unix", TrimPrefix addr "unix://", path)
  else if HasPrefix addr "tcp://" then Ok ("tcp", TrimPrefix addr "tcp://", path)
  else if HasPrefix addr "/" then Ok ("unix", addr, path)
  else Err (UnsupportedSocket addr).

(** ** Round trip with discovery *)

(** What php-fpm's [listen] value means: a path, an address, or a bare port on
    the loopback interface. *)
Definition listen_endpoint (listen : string) : string * string :=
  if HasPrefix listen "/" then ("unix", listen)
  else if Contains listen ":" then ("tcp", listen)
  else ("tcp", "127.0.0.1:" +:+ listen).

Lemma ParseAddress_unix s path : ParseAddress ("unix://" +:+ s) path = Ok ("unix", s, path).
Proof.
  unfold ParseAddress. rewrite HasPrefix_app. by rewrite TrimPrefix_app.
Qed.

Lemma ParseAddress_tcp s path : ParseAddress ("tcp://" +:+ s) path = Ok ("tcp", s, path).
Proof.
  unfold ParseAddress.
  assert (Hu : HasPrefix ("tcp://" +:+ s) "unix://" = false) by reflexivity.
  by rewrite Hu, HasPrefix_app, TrimPrefix_app.
Qed.

Lemma ParseAddress_socket listen path :
  socket_address listen <> "" ->
  ParseAddress (socket_address listen) path =
  Ok ((listen_endpoint listen).1, (listen_endpoint listen).2, path).
Proof.
  unfold socket_address, listen_endpoint. intros Hne.
  destruct (String.eqb_spec listen ""); [done|].
  destruct (HasPrefix listen "/"); [apply ParseAddress_unix|].
  destruct (Contains listen ":"); [apply ParseAddress_tcp|].
  destruct ((Atoi listen).2); [done|].
  exact (ParseAddress_tcp ("127.0.0.1:" +:+ listen) path).
Qed.

(** C37. Every pool discovery reports can be dialled: the address it wrote down
    reads back, and it is the endpoint the pool's [pm.status_listen] means, or its
    [listen] where that is absent or makes no sense. *)
Theorem discovered_status_endpoint exe config pid global pool path :
  has_socket pool = true ->
  let listen := get pool.2 "listen" in
  let status_listen := get pool.2 "pm.status_listen" in
  let endpoint := if String.eqb (socket_address status_listen) "" then listen_endpoint listen
                  else listen_endpoint status_listen in
  ParseAddress (statusAddress (TargetFromDiscovered (entry_of exe config pid global pool))) path =
  Ok (endpoint.1, endpoint.2, path).
Proof.
  intros Hs listen status_listen. unfold has_socket, pool_socket in Hs. fold listen in Hs.
  apply negb_true_iff in Hs.
  unfold statusAddress, TargetFromDiscovered, entry_of, pool_socket.
  cbn [t_StatusSocket t_Socket d_StatusSocket d_Socket]. fold listen status_listen.
  destruct (String.eqb (socket_address status_listen) "") eqn:E.
  - rewrite Hs. cbn [negb]. by apply ParseAddress_socket, String.eqb_neq.
  - rewrite E. cbn [negb]. by apply ParseAddress_socket, String.eqb_neq.
Qed.

Lemma discovered_status_endpoint_witness :
  ParseAddress (statusAddress (TargetFromDiscovered (entry_of "/usr/sbin/php-fpm" "/etc/php-fpm.conf" 7 ∅
    ("www", <["listen" := "/run/www.sock"]> (<["pm.status_listen" := "9001"]> ∅))))) "/status" =
  Ok ("tcp", "127.0.0.1:9001", "/status").
Proof.
  rewrite discovered_status_endpoint by (vm_compute; reflexivity). vm_compute. reflexivity.
Defined.
