(* ===== verification/Info.v ===== *)
(** * PHP version and extensions (info.go)

    First [GetPHPStats] as one caller runs it with nobody else in flight; then,
    in [FlightSystem], the same critical sections as a system of concurrent
    callers that coalesce onto one lookup per binary. *)

From S2P Require Import Prelude GoStrings Config Host Samples Trust Run Discover Data.
Open Scope go_scope.

(** [time.Hour] and [time.Minute] *)
Definition phpInfoTTL : Z := 3600 * 10 ^ 9.
Definition phpInfoFailureTTL : Z := 60 * 10 ^ 9.

Record phpInfoEntry := mkEntry {
  e_info : option Info; e_err : option bounded_error; expiresAt : Z
}.

Abbreviation info_cache := (gmap string phpInfoEntry).

(** [append([]string(nil), ext...)]: nil for an empty slice. *)
Definition clone_slice (ext : list string) : option (list string) :=
  match ext with [] => None | _ => Some ext end.

Definition clone_info (i : option Info) : option Info :=
  match i with
  | None => None
  | Some i => Some (mkPhpInfo (Version i) (match Extensions i with
                                            | None => None
                                            | Some ext => clone_slice ext
                                            end))
  end.

(** ** The critical sections *)

(** Under the lock: a fresh entry for the binary. *)
Definition fresh_entry (now : Z) (e : phpInfoEntry) : bool := (now <? expiresAt e)%Z.

Definition info_ttl (err : option bounded_error) : Z :=
  match err with Some _ => phpInfoFailureTTL | None => phpInfoTTL end.

(** Under the lock again, once the lookup is done. *)
Definition store_info (binary : string) (info : option Info) (err : option bounded_error) (now : Z)
    (c : info_cache) : info_cache :=
  <[binary := mkEntry info err (now + info_ttl err)%Z]> c.

(** ** Reading a binary *)

Definition first_line (out : string) : string :=
  match split_byte LF out with
  | line :: _ => TrimSpace line
  | [] => "unknown"
  end.

Definition is_extension (line : string) : bool :=
  negb (String.eqb line "") && negb (HasPrefix line "[").

Fixpoint collect_extensions (lines : list string) (exts : list string) : list string :=
  match lines with
  | [] => exts
  | line :: lines' =>
      let line := TrimSpace line in
      collect_extensions lines' (if is_extension line then exts ++ [line] else exts)
  end.

Section Operations.
Context `{Host}.

Definition getPHPVersion (bin : string) : M (result bounded_error string) :=
  let! r := runBounded bin ["-v"] in
  match r.2 with
  | Some err => ret (Err err)
  | None => ret (Ok (first_line r.1))
  end.

(** [var exts []string] is nil until something is appended to it. *)
Definition getPHPExtensions (bin : string) : M (result bounded_error (option (list string))) :=
  let! r := runBounded bin ["-m"] in
  match r.2 with
  | Some err => ret (Err err)
  | None => ret (Ok (clone_slice (collect_extensions (split_byte LF r.1) [])))
  end.

Definition readPHPInfo (binary : string) : M (result bounded_error Info) :=
  try! version := getPHPVersion binary in
  try! ext := getPHPExtensions binary in
  ret (Ok (mkPhpInfo version ext)).

(** The answer and the error, which are those of the entry or of the lookup. *)
Definition GetPHPStats (target : Target) (c : info_cache) :
    M (option Info * option bounded_error * info_cache) :=
  let lookup :=
    let! r := readPHPInfo (t_Binary target) in
    let '(info, err) := match r with Ok i => (Some i, None) | Err e => (None, Some e) end in
    let! now := observe time_now in
    ret (clone_info info, err, store_info (t_Binary target) info err now c) in
  match c !! t_Binary target with
  | Some entry =>
      let! now := observe time_now in
      if fresh_entry now entry then ret (clone_info (e_info entry), e_err entry, c) else lookup
  | None => lookup
  end.
End Operations.

(** ** One caller after another *)

Lemma clone_info_idem i : clone_info (clone_info i) = clone_info i.
Proof. by destruct i as [[v [[|e ext]|]]|]. Qed.

Section Sequential.
Context `{Host}.

Lemma runBounded_forward binary args : forward (runBounded binary args).
Proof.
  intros w r w' [(e & _ & _ & ->)|(w1 & lr & Hv & Hc & _)]%runBounded_run.
  - by apply (trustedPath_forward binary w _ _ (surjective_pairing _)).
  - apply trustedPath_forward in Hv. unfold cmd_run, bind, observe, emit, ret in Hc.
    destruct (run_program _ _ _); injection Hc as _ <-; cbn; lia.
Qed.

Lemma readPHPInfo_forward binary : forward (readPHPInfo binary).
Proof.
  pose proof (runBounded_forward binary) as Hr.
  unfold readPHPInfo, getPHPVersion, getPHPExtensions. frame_steps.
Qed.

(** C35. An answer is shared for an hour after the lookup that gave it finished, and
    an error for a minute: a caller asking for the same binary before that gets the
    same answer and error and runs nothing, and one asking later looks the binary
    up as if nothing had been stored. A lookup that failed only because its own
    caller gave up is a failure like any other. *)
Theorem GetPHPStats_shared target c w info err c1 w1 :
  c !! t_Binary target = None -> GetPHPStats target c w = ((info, err, c1), w1) ->
  exists stored, (tick w <= stored < tick w1)%nat /\
    let lifetime := (match err with None => 60 * 60 * 10 ^ 9 | Some _ => 60 * 10 ^ 9 end)%Z in
    forall w2, let w3 := mkWorld (S (tick w2)) (trace w2) (cache w2) in
      GetPHPStats target c1 w2 =
      if (time_now (host_at (tick w2)) <? time_now (host_at stored) + lifetime)%Z
      then ((info, err, c1), w3)
      else GetPHPStats target (delete (t_Binary target) c1) w3.
Proof.
  intros Hmiss E. unfold GetPHPStats in E. rewrite Hmiss in E.
  apply bind_run in E as (r & wa & Hr%readPHPInfo_forward & E).
  destruct r as [i|e]; apply bind_run in E as (now & wb & [= <- <-] & [= <- <- <- <-]);
    exists (tick wa); (split; [cbn; lia|]); intros lifetime w2 w3; subst lifetime;
    unfold GetPHPStats, store_info;
    rewrite lookup_insert_eq, lookup_delete_eq;
    (rewrite (bind_eq _ _ w2 (time_now (host_at (tick w2))) w3) by done);
    unfold fresh_entry; cbn [expiresAt e_info e_err info_ttl];
    change phpInfoTTL with (60 * 60 * 10 ^ 9)%Z; change phpInfoFailureTTL with (60 * 10 ^ 9)%Z;
    (destruct (_ <? _)%Z; [unfold ret; by rewrite ?clone_info_idem|]);
    unfold bind; destruct (readPHPInfo (t_Binary target) w3) as [[?|?] w4]; unfold observe, ret;
    by rewrite ?insert_delete_eq, !insert_insert_eq.
Qed.
End Sequential.

(** ** Callers in flight together

    One goroutine per request. [entries] and [inflight] are the two maps the lock
    guards; [closed] holds the answers of the calls whose channel was closed.
    What [readPHPInfo] answers, and when, is left open. *)

Module FlightSystem.

Abbreviation answer := (option Info * option bounded_error)%type.

Inductive goroutine :=
  | Leading (binary : string) (call : nat)
  | Waiting (binary : string) (call : nat)
  | Done (binary : string) (a : answer)
  | GaveUp (binary : string).

Record state := mkState {
  entries : info_cache;
  inflight : gmap string nat;
  closed : gmap nat answer;
  calls : nat;
  now : Z;
  goroutines : list goroutine
}.

Definition initial (t : Z) : state := mkState ∅ ∅ ∅ 0 t [].

(** The lock-guarded decision a request starts with. *)
Inductive decision := Cached (a : answer) | Join (call : nat) | Lead.

Definition decide_request (s : state) (binary : string) : decision :=
  match entries s !! binary with
  | Some e =>
      if fresh_entry (now s) e then Cached (clone_info (e_info e), e_err e)
      else match inflight s !! binary with Some call => Join call | None => Lead end
  | None => match inflight s !! binary with Some call => Join call | None => Lead end
  end.

Inductive step : state -> state -> Prop :=
  | StepTime s dt :
      (0 <= dt)%Z ->
      step s (mkState (entries s) (inflight s) (closed s) (calls s) (now s + dt) (goroutines s))
  | StepCached s binary a :
      decide_request s binary = Cached a ->
      step s (mkState (entries s) (inflight s) (closed s) (calls s) (now s)
                (Done binary a :: goroutines s))
  | StepJoin s binary call :
      decide_request s binary = Join call ->
      step s (mkState (entries s) (inflight s) (closed s) (calls s) (now s)
                (Waiting binary call :: goroutines s))
  | StepLead s binary :
      decide_request s binary = Lead ->
      step s (mkState (entries s) (<[binary := calls s]> (inflight s)) (closed s) (S (calls s)) (now s)
                (Leading binary (calls s) :: goroutines s))
  (** The leader's lookup is over: it stores, leaves the in-flight map, closes
      the channel and returns. The channel is closed outside the lock; that is
      one step with what the lock guards, since it only lets waiters go. *)
  | StepFinish s before after binary call info err :
      goroutines s = before ++ Leading binary call :: after ->
      step s (mkState (store_info binary info err (now s) (entries s)) (delete binary (inflight s))
                (<[call := (info, err)]> (closed s)) (calls s) (now s)
                (before ++ Done binary (clone_info info, err) :: after))
  | StepReceive s before after binary call info err :
      goroutines s = before ++ Waiting binary call :: after ->
      closed s !! call = Some (info, err) ->
      step s (mkState (entries s) (inflight s) (closed s) (calls s) (now s)
                (before ++ Done binary (clone_info info, err) :: after))
  | StepGiveUp s before after binary call :
      goroutines s = before ++ Waiting binary call :: after ->
      step s (mkState (entries s) (inflight s) (closed s) (calls s) (now s)
                (before ++ GaveUp binary :: after)).

Inductive reachable (t : Z) : state -> Prop :=
  | reach_init : reachable t (initial t)
  | reach_step s s' : reachable t s -> step s s' -> reachable t s'.

(** ** The invariant *)

(** The calls led for a binary, one per leading goroutine. *)
Definition leads (binary : string) (g : goroutine) : option nat :=
  match g with
  | Leading b call => if String.eqb b binary then Some call else None
  | _ => None
  end.

Definition waits_ok (s : state) (g : goroutine) : Prop :=
  match g with
  | Waiting b call => inflight s !! b = Some call \/ is_Some (closed s !! call)
  | _ => True
  end.

Record inv (s : state) : Prop := mkInv {
  inv_leads : forall binary, omap (leads binary) (goroutines s) = option_list (inflight s !! binary);
  inv_waits : Forall (waits_ok s) (goroutines s);
  inv_fresh : forall binary e, entries s !! binary = Some e ->
    (expiresAt e <= now s + info_ttl (e_err e))%Z
}.

Lemma flight_inv_initial t : inv (initial t).
Proof. split; cbn; [done|constructor|by intros binary e; rewrite lookup_empty]. Qed.

Lemma leads_middle binary before g g' after :
  leads binary g = leads binary g' ->
  omap (leads binary) (before ++ g :: after) = omap (leads binary) (before ++ g' :: after).
Proof. intros E. by rewrite !omap_app, !omap_step, E. Qed.

Lemma waits_ok_more s s' g :
  (forall b call, inflight s !! b = Some call -> inflight s' !! b = Some call \/ is_Some (closed s' !! call)) ->
  (forall call, is_Some (closed s !! call) -> is_Some (closed s' !! call)) ->
  waits_ok s g -> waits_ok s' g.
Proof. intros H1 H2. destruct g; cbn; [done| |done|done]. intros [H|H]; auto. Qed.

Lemma Forall_swap {A} (P Q : A -> Prop) before g g' after :
  (forall x, P x -> Q x) -> Q g' -> Forall P (before ++ g :: after) -> Forall Q (before ++ g' :: after).
Proof.
  intros HPQ Hg. rewrite !Forall_app, !Forall_cons. intros (H1 & _ & H2).
  split; [by eapply Forall_impl|]. split; [done|by eapply Forall_impl].
Qed.

Lemma decide_lead s binary : decide_request s binary = Lead -> inflight s !! binary = None.
Proof. unfold decide_request. repeat case_match; congruence. Qed.

Lemma decide_join s binary call :
  decide_request s binary = Join call -> inflight s !! binary = Some call.
Proof. unfold decide_request. repeat case_match; congruence. Qed.

(** The leader of a call is the one in flight for its binary. *)
Lemma leader_inflight s before after binary call :
  inv s -> goroutines s = before ++ Leading binary call :: after ->
  inflight s !! binary = Some call /\
  omap (leads binary) before = [] /\ omap (leads binary) after = [].
Proof.
  intros [Hl _ _] E. specialize (Hl binary). rewrite E, omap_app, omap_step in Hl.
  cbn [leads] in Hl. rewrite String.eqb_refl in Hl. cbn [option_list] in Hl.
  destruct (inflight s !! binary) as [call'|]; cbn in Hl.
  - destruct (omap (leads binary) before) as [|x l]; cbn in Hl.
    + by injection Hl as -> ->.
    + injection Hl as -> Hl. by apply app_eq_nil in Hl as [_ ?].
  - by apply app_eq_nil in Hl as [_ ?].
Qed.

Lemma flight_step_inv s s' : inv s -> step s s' -> inv s'.
Proof.
  intros Hinv Hstep. pose proof Hinv as [Hl Hw Hf].
  destruct Hstep as [s dt Hdt|s b a Hd|s b call Hd|s b Hd|s before after b call info err E
    |s before after b call info err E Hc|s before after b call E].
  - split; cbn [entries inflight closed calls now goroutines]; [done|done|]. intros b e He. specialize (Hf b e He). lia.
  - split; cbn [entries inflight closed calls now goroutines]; [done|by constructor|done].
  - split; cbn [entries inflight closed calls now goroutines]; [done| |done]. constructor; [|done]. left. by apply decide_join.
  - apply decide_lead in Hd. split; cbn [entries inflight closed calls now goroutines]; [| |done].
    + intros b'. rewrite omap_step, Hl. cbn [leads]. destruct (String.eqb_spec b b') as [<-|Hne].
      * by rewrite Hd, lookup_insert_eq.
      * by rewrite lookup_insert_ne.
    + constructor; [done|]. eapply Forall_impl; [exact Hw|]. intros g.
      apply waits_ok_more; cbn; [|done]. intros b' call Hb. left.
      rewrite lookup_insert_ne; [done|]. intros <-. congruence.
  - destruct (leader_inflight _ _ _ _ _ Hinv E) as (Hb & H1 & H2). split; cbn [entries inflight closed calls now goroutines].
    + intros b'. destruct (decide (b = b')) as [<-|Hne].
      * rewrite lookup_delete_eq, omap_app, omap_step, H1, H2. done.
      * rewrite lookup_delete_ne, <- Hl, E by done. apply leads_middle. cbn.
        by apply String.eqb_neq in Hne as ->.
    + rewrite E in Hw. eapply Forall_swap; [|done|exact Hw]. intros g.
      apply waits_ok_more; cbn.
      * intros b' call' Hb'. destruct (decide (b = b')) as [<-|Hne].
        { right. replace call' with call by congruence. rewrite lookup_insert_eq. eauto. }
        left. by rewrite lookup_delete_ne.
      * intros call' Hs. destruct (decide (call = call')) as [<-|Hne];
          [rewrite lookup_insert_eq; eauto|by rewrite lookup_insert_ne].
    + intros b' e. unfold store_info. destruct (decide (b = b')) as [<-|Hne].
      * rewrite lookup_insert_eq. intros [= <-]. cbn. lia.
      * rewrite lookup_insert_ne by done. apply Hf.
  - split; cbn [entries inflight closed calls now goroutines]; [|rewrite E in Hw; by eapply Forall_swap|done].
    intros b'. rewrite <- Hl, E. by apply leads_middle.
  - split; cbn [entries inflight closed calls now goroutines]; [|rewrite E in Hw; by eapply Forall_swap|done].
    intros b'. rewrite <- Hl, E. by apply leads_middle.
Qed.

Lemma flight_reachable_inv t s : reachable t s -> inv s.
Proof. induction 1 as [|s s' _ IH Hstep]; [apply flight_inv_initial|by eapply flight_step_inv]. Qed.

Lemma omap_short {A B} (f : A -> option B) (l : list A) i j x y :
  (length (omap f l) <= 1)%nat -> l !! i = Some x -> l !! j = Some y ->
  is_Some (f x) -> is_Some (f y) -> i = j.
Proof.
  assert (Hin : forall l k z, l !! k = Some z -> is_Some (f z) -> (0 < length (omap f l))%nat).
  { clear. intros l k z Hk [b Hb]. enough (Hb' : b ∈ omap f l).
    { destruct (omap f l); [by apply not_elem_of_nil in Hb'|cbn; lia]. }
    apply list_elem_of_omap. exists z. split; [by eapply list_elem_of_lookup_2|done]. }
  revert i j. induction l as [|a l IH]; intros i j Hlen Hi Hj Hx Hy; [done|].
  rewrite omap_step, length_app in Hlen.
  destruct i as [|i], j as [|j]; cbn in Hi, Hj; [done| | |].
  - injection Hi as ->. destruct Hx as [b Hb]. rewrite Hb in Hlen. cbn in Hlen.
    pose proof (Hin _ _ _ Hj Hy). lia.
  - injection Hj as ->. destruct Hy as [b Hb]. rewrite Hb in Hlen. cbn in Hlen.
    pose proof (Hin _ _ _ Hi Hx). lia.
  - f_equal. apply IH; [lia|done..].
Qed.

(** C9. However requests interleave, at most one lookup per binary is under way,
    and nobody waits for nothing: every caller that joined a lookup either has its
    answer ready to receive, or the goroutine leading exactly that lookup is still
    running and will close it. *)
Theorem single_flight t s :
  reachable t s ->
  (forall i j binary call call', goroutines s !! i = Some (Leading binary call) ->
     goroutines s !! j = Some (Leading binary call') -> i = j) /\
  (forall i binary call, goroutines s !! i = Some (Waiting binary call) ->
     is_Some (closed s !! call) \/ exists j, goroutines s !! j = Some (Leading binary call)).
Proof.
  intros [Hl Hw _]%flight_reachable_inv. split.
  - intros i j binary call call' Hi Hj.
    eapply (omap_short (leads binary)); [|exact Hi|exact Hj|..].
    + rewrite Hl. destruct (inflight s !! binary); cbn; lia.
    + cbn. rewrite String.eqb_refl. eauto.
    + cbn. rewrite String.eqb_refl. eauto.
  - intros i binary call Hi. eapply Forall_lookup_1 in Hw; [|exact Hi].
    destruct Hw as [Hb|Hc]; [right|by left].
    assert (Hin : call ∈ omap (leads binary) (goroutines s)) by (rewrite Hl, Hb; left).
    apply list_elem_of_omap in Hin as (g & Hg & Hlead).
    apply list_elem_of_lookup_1 in Hg as [j Hj]. exists j. rewrite Hj. f_equal.
    destruct g as [b c| | |]; cbn in Hlead; try done.
    destruct (String.eqb_spec b binary) as [->|]; congruence.
Qed.

(** Two callers, one lookup. *)
Definition two_callers : state :=
  mkState ∅ (<["/usr/sbin/php-fpm" := 0%nat]> ∅) ∅ 1 0
    [Waiting "/usr/sbin/php-fpm" 0; Leading "/usr/sbin/php-fpm" 0].

Definition one_caller : state :=
  mkState ∅ (<["/usr/sbin/php-fpm" := 0%nat]> ∅) ∅ 1 0 [Leading "/usr/sbin/php-fpm" 0].

Lemma two_callers_reachable : reachable 0 two_callers.
Proof.
  assert (H1 : reachable 0 one_caller).
  { exact (reach_step _ _ _ (reach_init 0) (StepLead (initial 0) "/usr/sbin/php-fpm" eq_refl)). }
  assert (Hd : decide_request one_caller "/usr/sbin/php-fpm" = Join 0) by (vm_compute; reflexivity).
  exact (reach_step _ _ _ H1 (StepJoin one_caller "/usr/sbin/php-fpm" 0 Hd)).
Qed.

Lemma single_flight_witness :
  is_Some (closed two_callers !! 0%nat) \/
  exists j, goroutines two_callers !! j = Some (Leading "/usr/sbin/php-fpm" 0).
Proof. exact (proj2 (single_flight 0 two_callers two_callers_reachable) 0%nat _ _ eq_refl). Defined.

End FlightSystem.

(** ** Instances *)

(** php-fpm prints a version, and the answer is shared half an hour later; a
    failure is shared for less than a minute. *)
Definition versioned (now : Z) : machine :=
  mkMachine now 0 stock_paths [] [] [] (fun _ args => Ran ["PHP 8.3.0 (fpm-fcgi)"; byte_string LF] None).

Definition half_hour : Host :=
  host_of (fun t => versioned (if (t <? 20)%nat then 0 else 1800 * 10 ^ 9)).

Definition stock_target : Target :=
  mkScrapeTarget "www" "" "" "/status" "/etc/php-fpm.conf" "/usr/sbin/php-fpm" 0 "" "" 0 0.

Definition first_stats : option Info * option bounded_error * info_cache * world :=
  Eval vm_compute in (GetPHPStats (H := half_hour) stock_target ∅ start).

Lemma GetPHPStats_shared_witness :
  (GetPHPStats (H := half_hour) stock_target first_stats.1.2 (mkWorld 40 [] (mkCache ∅ 0))).1.1 =
  (Some (mkPhpInfo "PHP 8.3.0 (fpm-fcgi)" (Some ["PHP 8.3.0 (fpm-fcgi)"])), None).
Proof.
  destruct (GetPHPStats_shared (H := half_hour) stock_target ∅ start first_stats.1.1.1 first_stats.1.1.2
    first_stats.1.2 first_stats.2) as (stored & Hs & Hshared).
  - reflexivity.
  - vm_compute. reflexivity.
  - assert (Hst : (stored < 20)%nat).
    { assert (tick first_stats.2 <= 20)%nat by (vm_compute; lia). lia. }
    assert (Hnow : (time_now (host_at (Host := half_hour) stored) = 0)%Z).
    { change (time_now (host_at (Host := half_hour) stored))
        with (m_now (versioned (if (stored <? 20)%nat then 0 else 1800 * 10 ^ 9))).
      apply Nat.ltb_lt in Hst. by rewrite Hst. }
    rewrite Hshared, Hnow. vm_compute. reflexivity.
Defined.
