(* ===== verification/Opcache.v ===== *)
(** * The opcode cache probe (opcache.go)

    The script PHP-FPM is asked to run, as a piece of package state that is
    created, reused, removed and recreated, and the request that runs it.
    FastCGI is a library the source calls and the decoding of JSON text is
    encoding/json's: both are parameters ([FastCGI], [OpcacheJSON]). *)

From S2P Require Import Prelude GoStrings GoPath Config Host Samples Trust Run Discover Data Target.
Open Scope go_scope.

(** ** FastCGI *)

(** What a status page decodes into: the pool, and the five fields that must not
    be missing. *)
Record status_payload := mkPayload {
  sp_Pool : Pool; sp_Active : option Z; sp_Idle : option Z; sp_Total : option Z;
  sp_Queue : option Z; sp_Workers : option (list PoolProcess)
}.

Definition fcgi_error : Type := string.

(** github.com/cboxdk/fcgx: dialling, a GET with its environment, and the two ways
    of reading the response; each call happens at an instant. *)
Class FastCGI := {
  Response : Type;
  fcgx_Dial : nat -> string -> string -> result fcgi_error unit;
  fcgx_Get : nat -> string -> string -> gmap string string -> result fcgi_error Response;
  fcgx_ReadJSON : Response -> result fcgi_error status_payload;
  fcgx_ReadBody : Response -> result fcgi_error string
}.

Definition json_error : Type := string.

(** [json.Unmarshal] of a body into the two structs of [parseOpcacheStatus]. *)
Class OpcacheJSON := {
  unmarshal_enabled : string -> result json_error (option bool);
  unmarshal_status : string -> result json_error OpcacheStatus
}.

Section Calls.
Context `{Host} `{FastCGI}.

Definition DialContext (scheme address : string) : M (result fcgi_error unit) :=
  fun w => (fcgx_Dial (tick w) scheme address, mkWorld (S (tick w)) (trace w) (cache w)).

Definition client_Get (scheme address : string) (env : gmap string string) :
    M (result fcgi_error Response) :=
  fun w => (fcgx_Get (tick w) scheme address env,
            mkWorld (S (tick w)) (trace w ++ [EvRequest address (get env "SCRIPT_FILENAME")]) (cache w)).
End Calls.

(** ** The script *)

Definition opcacheScriptPrefix : string := "cbox-phpfpm-opcache-".

(** [0644] *)
Definition script_mode : Z := 420.

Definition newline : string := byte_string LF.
Definition dquote : string := byte_string QUOTE.

Definition opcacheScriptContent : string :=
  "<?php" +:+ newline +:+
  "error_reporting(0);" +:+ newline +:+
  "ini_set('display_errors', 0);" +:+ newline +:+
  "header(" +:+ dquote +:+ "Status: 200 OK" +:+ dquote +:+ ");" +:+ newline +:+
  "header(" +:+ dquote +:+ "Content-Type: application/json" +:+ dquote +:+ ");" +:+ newline +:+
  "echo json_encode(opcache_get_status(false));" +:+ newline +:+
  "exit;".

Inductive script_error :=
  | CannotCreate (e : os_error)
  | CannotWrite (e : os_error)
  | CannotChmod (e : os_error)
  | CannotClose (e : os_error).

(** [opcacheScriptPath] and [opcacheScriptErr]. *)
Record script_state := mkScript { scriptPath : string; scriptErr : option script_error }.

Inductive opcache_error :=
  | ScriptError (e : script_error)
  | OpcacheSocket (e : address_error)
  | OpcacheDial (e : fcgi_error)
  | OpcacheGet (e : fcgi_error)
  | OpcacheRead (e : fcgi_error)
  | OpcacheParse (e : json_error)
  | NoCacheState.

Section Operations.
Context `{Host}.

(** A call that acts on the file system, recorded when it succeeds. *)
Definition act (f : OS -> result os_error unit) (e : event) : M (result os_error unit) :=
  let! r := observe f in
  match r with
  | Ok _ => let! _ := emit e in ret r
  | Err _ => ret r
  end.

Definition remove_quietly (path : string) : M unit :=
  let! _ := act (fun os => remove os path) (EvRemove path) in ret tt.

(** The deferred [f.Close()]. *)
Definition close_script (f : string) (st : script_state) : M script_state :=
  let! c := observe (fun os => close_file os f) in
  match c, scriptErr st with
  | Err e, None => ret (mkScript (scriptPath st) (Some (CannotClose e)))
  | _, _ => ret st
  end.

(** The function literal: it leaves its outcome in the two variables. *)
Definition create_script (st : script_state) : M script_state :=
  let! f := observe (fun os => create_temp os "" (opcacheScriptPrefix +:+ "*.php")) in
  match f with
  | Err e => ret (mkScript (scriptPath st) (Some (CannotCreate e)))
  | Ok f =>
      let! _ := emit (EvCreate f) in
      let! wr := act (fun os => write_string os f opcacheScriptContent)
                   (EvWrite f opcacheScriptContent) in
      match wr with
      | Err e =>
          let! _ := remove_quietly f in
          close_script f (mkScript (scriptPath st) (Some (CannotWrite e)))
      | Ok _ =>
          let! ch := act (fun os => chmod os f script_mode) (EvChmod f script_mode) in
          match ch with
          | Err e =>
              let! _ := remove_quietly f in
              close_script f (mkScript (scriptPath st) (Some (CannotChmod e)))
          | Ok _ => close_script f (mkScript f (scriptErr st))
          end
      end
  end.

Definition opcacheScript (st : script_state) : M (string * option script_error * script_state) :=
  let create :=
    let! st := create_script (mkScript (scriptPath st) None) in
    ret (scriptPath st, scriptErr st, st) in
  if negb (String.eqb (scriptPath st) "") then
    let! s := observe (fun os => stat os (scriptPath st)) in
    match s with
    | Ok _ => ret (scriptPath st, None, st)
    | Err _ => create
    end
  else create.

Definition RemoveOpcacheScript (st : script_state) : M script_state :=
  if negb (String.eqb (scriptPath st) "") then
    let! _ := remove_quietly (scriptPath st) in
    ret (mkScript "" (scriptErr st))
  else ret st.

Definition parseOpcacheStatus `{OpcacheJSON} (body : string) : result opcache_error OpcacheStatus :=
  match unmarshal_enabled body with
  | Err e => Err (OpcacheParse e)
  | Ok None => Err NoCacheState
  | Ok (Some _) => map_err OpcacheParse (unmarshal_status body)
  end.

Definition probe_env (path : string) : gmap string string :=
  <["SCRIPT_FILENAME" := path]> (<["SCRIPT_NAME" := "/" +:+ Base path]>
    (<["SERVER_SOFTWARE" := "cboxdk/phpfpm"]> (<["REMOTE_ADDR" := "127.0.0.1"]> ∅))).

Definition GetOpcacheStatus `{FastCGI} `{OpcacheJSON} (target : Target) (st : script_state) :
    M (result opcache_error OpcacheStatus * script_state) :=
  let! s := opcacheScript st in
  let '(tmpPath, err, st) := s in
  match err with
  | Some e => ret (Err (ScriptError e), st)
  | None =>
      match ParseAddress (statusAddress target) "" with
      | Err e => ret (Err (OpcacheSocket e), st)
      | Ok (scheme, address, _) =>
          let! d := DialContext scheme address in
          match d with
          | Err e => ret (Err (OpcacheDial e), st)
          | Ok _ =>
              let! resp := client_Get scheme address (probe_env tmpPath) in
              match resp with
              | Err e => ret (Err (OpcacheGet e), st)
              | Ok resp =>
                  match fcgx_ReadBody resp with
                  | Err e => ret (Err (OpcacheRead e), st)
                  | Ok body => ret (parseOpcacheStatus body, st)
                  end
              end
          end
      end
  end.
End Operations.

(** ** The script's life *)

Section Script.
Context `{Host}.

Lemma act_run f e w r w' :
  act f e w = (r, w') ->
  trace w' = trace w ++ (if is_ok r then [e] else []).
Proof.
  unfold act, bind, observe, emit, ret. destruct (f _) as [[]|x]; intros [= <- <-]; cbn;
    by rewrite ?app_nil_r.
Qed.

Lemma close_script_run f st w st' w' :
  close_script f st w = (st', w') ->
  trace w' = trace w /\ scriptPath st' = scriptPath st /\
  (scriptErr st' = None -> st' = st).
Proof.
  unfold close_script, bind, observe, ret. destruct (close_file _ f), (scriptErr st) eqn:E;
    intros [= <- <-]; cbn; split_and!; by try congruence.
Qed.

(** C36. Whenever the probe is handed a script without an error, it is either the
    one already there, found to exist at that instant and left untouched, or one
    made during this very call: created under a fresh name, filled with the fixed
    content, and made readable, in that order and with nothing else done to the
    file system. In particular a script that was removed, by a shutdown or by
    anyone else, is made again. *)
Theorem opcacheScript_ready st w p st' w' :
  opcacheScript st w = ((p, None, st'), w') ->
  (p = scriptPath st /\ st' = st /\ stat (host_at (tick w)) p = Ok tt /\ trace w' = trace w) \/
  ((scriptPath st = "" \/ stat (host_at (tick w)) (scriptPath st) <> Ok tt) /\
   st' = mkScript p None /\
   (exists t, create_temp (host_at t) "" (opcacheScriptPrefix +:+ "*.php") = Ok p) /\
   trace w' = trace w ++ [EvCreate p; EvWrite p opcacheScriptContent; EvChmod p script_mode]).
Proof.
  assert (Hcreate : forall v st1,
    (let! st := create_script (mkScript (scriptPath st1) None) in
     ret (scriptPath st, scriptErr st, st)) v = ((p, None, st'), w') ->
    st' = mkScript p None /\
    (exists t, create_temp (host_at t) "" (opcacheScriptPrefix +:+ "*.php") = Ok p) /\
    trace w' = trace v ++ [EvCreate p; EvWrite p opcacheScriptContent; EvChmod p script_mode]).
  { intros v st1 (st2 & v1 & Hc & [= Hp Herr <- <-])%bind_run. unfold create_script in Hc.
    apply bind_run in Hc as (f & v2 & [= <- <-] & Hc).
    destruct (create_temp _ _ _) as [f|e] eqn:Ef; [|injection Hc as <- <-; done].
    apply bind_run in Hc as (u & v3 & [= _ <-] & Hc). cbn [tick trace cache] in Hc.
    apply bind_run in Hc as (wr & v4 & Hw%act_run & Hc).
    destruct wr as [[]|e].
    - apply bind_run in Hc as (ch & v5 & Hch%act_run & Hc). destruct ch as [[]|e].
      + apply close_script_run in Hc as (Ht & Hpath & Hsame). specialize (Hsame Herr). subst st2.
        cbn in *. subst f. split; [done|]. split; [by exists (tick v)|].
        rewrite Ht, Hch, Hw. by rewrite <- !(assoc_L (++)).
      + apply bind_run in Hc as (u' & v6 & _ & Hc). apply close_script_run in Hc as (_ & _ & Hsame).
        specialize (Hsame Herr). by subst st2.
    - apply bind_run in Hc as (u' & v6 & _ & Hc). apply close_script_run in Hc as (_ & _ & Hsame).
      specialize (Hsame Herr). by subst st2. }
  unfold opcacheScript. destruct (String.eqb_spec (scriptPath st) "") as [Hp|Hp]; cbn [negb].
  - intros E%Hcreate. right. split; [by left|done].
  - intros (s & w1 & [= <- <-] & E)%bind_run. destruct (stat _ _) as [[]|e] eqn:Es.
    + injection E as <- <- <-. left. done.
    + apply Hcreate in E. right. split; [right; done|done].
Qed.
End Script.

(** ** What a cache state is *)

(** Only a response that states whether the cache is on becomes a status: one
    that does not, PHP's [false] and an empty object among them, is an error and
    never a cache that is off or empty. *)
Theorem parseOpcacheStatus_explicit `{OpcacheJSON} body status :
  parseOpcacheStatus body = Ok status <->
  (exists enabled, unmarshal_enabled body = Ok (Some enabled)) /\ unmarshal_status body = Ok status.
Proof.
  unfold parseOpcacheStatus. destruct (unmarshal_enabled body) as [[b|]|e].
  - rewrite map_err_Ok. split; [eauto|by intros [_ ?]].
  - by split; [|intros [[? ?] _]].
  - by split; [|intros [[? ?] _]].
Qed.

(** ** Instances *)

Definition fresh_script : string := "/tmp/cbox-phpfpm-opcache-1.php".

Lemma opcacheScript_ready_witness :
  let r := opcacheScript (H := steady stock) (mkScript "/tmp/removed.php" None) start in
  r.1.2 = mkScript fresh_script None /\
  trace r.2 = [EvCreate fresh_script; EvWrite fresh_script opcacheScriptContent;
               EvChmod fresh_script 420].
Proof.
  destruct (opcacheScript_ready (H := steady stock) (mkScript "/tmp/removed.php" None) start fresh_script
    (mkScript fresh_script None)
    (opcacheScript (H := steady stock) (mkScript "/tmp/removed.php" None) start).2)
    as [(Hp & _)|(_ & Hst & _ & Ht)].
  - vm_compute. reflexivity.
  - vm_compute in Hp. discriminate Hp.
  - split; [vm_compute; reflexivity|exact Ht].
Defined.
