(* ===== verification/Scrape.v ===== *)
(** * Scraping pools (status.go, metrics.go)

    Reading a status page, what is made of its process list and of the effective
    configuration, one pool's scrape, and ([ScrapeSystem]) the concurrent round
    over all of them. *)

From S2P Require Import Prelude GoStrings GoPath Config Host Samples Trust Run ConfigCache Discover.
From S2P Require Import Data Rss Target Info Opcache.
Open Scope go_scope.

(** ** Reading a status page (status.go) *)

Inductive identity_error :=
  | NoPoolName (path : string)
  | WrongPool (path reported asked : string).

Inductive scrape_error :=
  | BadSocket (e : address_error)
  | DialFailed (e : fcgi_error)
  | GetFailed (e : fcgi_error)
  | NotJSON (e : fcgi_error)
  | MissingFields
  | NotItsStatus (e : identity_error).

Definition checkIsStatusFor `{CaseFolding} (reported asked path : string) : result identity_error unit :=
  if String.eqb reported "" then Err (NoPoolName path)
  else if negb (String.eqb asked "") && negb (EqualFold reported asked)
       then Err (WrongPool path reported asked)
       else Ok tt.

Definition status_env (path : string) : gmap string string :=
  <["SCRIPT_FILENAME" := path]> (<["SCRIPT_NAME" := path]>
    (<["SERVER_SOFTWARE" := "cboxdk/phpfpm"]> (<["SERVER_PROTOCOL" := "HTTP/1.1"]>
      (<["REMOTE_ADDR" := "127.0.0.1"]> (<["QUERY_STRING" := "json&full"]> ∅))))).

(** What a decoded page is worth. *)
Definition accept_status `{CaseFolding} (asked address path : string) (p : status_payload) :
    result scrape_error Pool :=
  match sp_Active p, sp_Idle p, sp_Total p, sp_Queue p, sp_Workers p with
  | Some active, Some idle, Some total, Some queue, Some workers =>
      let pool := set_required active idle total queue workers (sp_Pool p) in
      match checkIsStatusFor (Name pool) asked path with
      | Err e => Err (NotItsStatus e)
      | Ok _ => Ok (set_address address path pool)
      end
  | _, _, _, _, _ => Err MissingFields
  end.

Section ReadStatus.
Context `{Host} `{FastCGI} `{CaseFolding}.

Definition readStatus (target : Target) (l : logger) : M (result scrape_error Pool) :=
  match ParseAddress (statusAddress target) (t_StatusPath target) with
  | Err e => ret (Err (BadSocket e))
  | Ok (scheme, address, path) =>
      let! _ := log l LevelDebug "Dialing FastCGI" in
      let! d := DialContext scheme address in
      match d with
      | Err e => ret (Err (DialFailed e))
      | Ok _ =>
          let! _ := log l LevelDebug "Sending FCGI request" in
          let! resp := client_Get scheme address (status_env path) in
          match resp with
          | Err e => ret (Err (GetFailed e))
          | Ok resp =>
              match fcgx_ReadJSON resp with
              | Err e => ret (Err (NotJSON e))
              | Ok payload => ret (accept_status (t_Name target) address path payload)
              end
          end
      end
  end.

Definition ReadStatus (target : Target) : M (result scrape_error Pool) :=
  readStatus target (logOrDiscard None).
End ReadStatus.

(** ** Counting processes (metrics.go: recountProcesses) *)

Definition strip_query (p : PoolProcess) : PoolProcess :=
  match IndexByte (RequestURI p) "?"%char with
  | Some q => set_uri (str_take q (RequestURI p)) p
  | None => p
  end.

Definition is_active (p : PoolProcess) : bool :=
  existsb (String.eqb (ToLower (State p)))
    ["running"; "reading headers"; "info"; "finishing"; "ending"].

Definition is_idle (p : PoolProcess) : bool := String.eqb (ToLower (State p)) "idle".

(** Not the library's own traffic. *)
Definition is_foreign (statusPath : string) (p : PoolProcess) : bool :=
  negb (HasPrefix (RequestURI p) statusPath) &&
  negb (HasPrefix (RequestURI p) ("/" +:+ opcacheScriptPrefix)).

Record tally := mkTally {
  activeCount : Z; idleCount : Z; totalCPU : float64; totalMem : float64; count : Z
}.

(** The body of the loop over the processes. *)
Definition tally_process (statusPath : string) (t : tally) (p : PoolProcess) : tally :=
  let t :=
    if is_active p
    then mkTally (activeCount t + 1) (idleCount t) (totalCPU t) (totalMem t) (count t)
    else if is_idle p
    then mkTally (activeCount t) (idleCount t + 1) (totalCPU t) (totalMem t) (count t)
    else t in
  if is_foreign statusPath p
  then mkTally (activeCount t) (idleCount t) (f64_add (totalCPU t) (LastRequestCPU p))
         (f64_add (totalMem t) (LastRequestMemory p)) (count t + 1)
  else t.

Definition recountProcesses (statusPath : string) (pool : Pool) : Pool :=
  let ps := map strip_query (Processes pool) in
  let t := fold_left (tally_process statusPath) ps (mkTally 0 0 f64_zero f64_zero 0) in
  let pool := set_counts (idleCount t) (activeCount t) (Z.of_nat (length ps)) (set_processes ps pool) in
  if (0 <? count t)%Z
  then set_averages (Some (f64_div (totalCPU t) (f64_of_Z (count t))))
         (Some (f64_div (totalMem t) (f64_of_Z (count t)))) pool
  else pool.

(** ** The configuration that leaves the process (metrics.go: exportableConfig) *)

Definition exportedConfigKeys : list string :=
  ["pm.max_children"; "pm.max_requests"; "pm.max_spare_servers"; "pm.max_spawn_rate";
   "pm.min_spare_servers"; "pm.process_idle_timeout"; "pm.start_servers"; "request_slowlog_timeout";
   "request_terminate_timeout"; "rlimit_core"; "rlimit_files"].

Definition exported (key : string) : bool :=
  existsb (String.eqb (ToLower (TrimSpace key))) exportedConfigKeys.

Definition export_setting (out : gmap string string) (kv : string * string) : gmap string string :=
  if exported kv.1 then <[kv.1 := kv.2]> out else out.

Section Scrape.
Context `{Host} `{CaseFolding}.

Definition exportableConfig (values : gmap string string) : M (gmap string string) :=
  let! kvs := range values in ret (fold_left export_setting kvs ∅).

(** [found] sections match [name] up to case, [match] being the last of them. *)
Definition match_step (name : string) (acc : option (gmap string string) * Z)
    (section : string * gmap string string) : option (gmap string string) * Z :=
  if EqualFold section.1 name then (Some section.2, (acc.2 + 1)%Z) else acc.

(** The section of the configuration that is this pool's. *)
Definition pool_section (pools : gmap string (gmap string string)) (name : string) :
    M (option (gmap string string)) :=
  match pools !! name with
  | Some values => ret (Some values)
  | None =>
      let! sections := range pools in
      let '(matched, found) := fold_left (match_step name) sections (None, 0%Z) in
      ret (if (found =? 1)%Z then matched else None)
  end.

(** ** One pool *)

Record Result := mkResult { Timestamp : Z; Pools_ : gmap string Pool; Global_ : gmap string string }.

Record PoolOutcome := mkOutcome {
  o_Name : string; o_Socket : string; o_Result : option Result; o_Err : option scrape_error
}.

(** The package state a scrape goes through, next to the parse cache. *)
Record pkg_state := mkPkg { php_cache : info_cache; script : script_state }.

(** What a scrape learns from the effective configuration. *)
Definition read_config (ctx : context) (target : Target) (pool : Pool) :
    M (Pool * gmap string string) :=
  let! conf := ParseConfigContext ctx (t_Binary target) (t_ConfigPath target) in
  match conf with
  | Err _ => ret (pool, ∅)
  | Ok conf =>
      let! section := pool_section (Config.Pools conf) (Name pool) in
      let! pool :=
        match section with
        | Some values => let! c := exportableConfig values in ret (set_config (Some c) pool)
        | None => ret pool
        end in
      let! global := exportableConfig (Global conf) in
      ret (pool, global)
  end.

Definition scrape `{FastCGI} `{OpcacheJSON} (ctx : context) (target : Target)
    (snap : option processSnapshot) (l : option logger) (st : pkg_state) :
    M (PoolOutcome * pkg_state) :=
  let l := logOrDiscard l in
  let outcome := mkOutcome (label target) (statusAddress target) None None in
  let! timestamp := observe time_now in
  let! now := observe time_now in
  let ctx := WithDeadline ctx (now + dialTimeout target) in
  let! status := readStatus target l in
  match status with
  | Err e => ret (mkOutcome (o_Name outcome) (o_Socket outcome) None (Some e), st)
  | Ok pool =>
      let! conf := read_config ctx target pool in
      let '(pool, global) := conf in
      let! pool := enrichWorkerRSS pool snap (Some l) in
      let pool := recountProcesses (t_StatusPath target) pool in
      let! php := GetPHPStats target (php_cache st) in
      let '(info, err, cache) := php in
      let! pool :=
        match err, info with
        | None, Some info => ret (set_php info pool)
        | _, _ => let! _ := log l LevelDebug "failed to get PHP info" in ret pool
        end in
      let! oc := GetOpcacheStatus target (script st) in
      let! pool :=
        match oc.1 with
        | Ok status => ret (set_opcache status pool)
        | Err _ => let! _ := log l LevelDebug "failed to get Opcache info" in ret pool
        end in
      let name := if String.eqb (t_Name target) "" && negb (String.eqb (Name pool) "")
                  then Name pool else o_Name outcome in
      ret (mkOutcome name (o_Socket outcome)
             (Some (mkResult timestamp (<[Name pool := pool]> ∅) global)) None,
           mkPkg cache oc.2)
  end.

Definition Scrape `{FastCGI} `{OpcacheJSON} (ctx : context) (target : Target) (l : option logger)
    (st : pkg_state) : M (PoolOutcome * pkg_state) :=
  let! snap := snapshotProcesses in
  scrape ctx target snap l st.
End Scrape.

(** ** A status page is its pool's, and complete *)

Section ReadStatusTheorems.
Context `{Host} `{FastCGI} `{CaseFolding}.

Lemma accept_status_Ok asked address path p pool :
  accept_status asked address path p = Ok pool <->
  exists active idle total queue workers,
    sp_Active p = Some active /\ sp_Idle p = Some idle /\ sp_Total p = Some total /\
    sp_Queue p = Some queue /\ sp_Workers p = Some workers /\
    Name (sp_Pool p) <> "" /\ (asked = "" \/ EqualFold (Name (sp_Pool p)) asked = true) /\
    pool = set_address address path (set_required active idle total queue workers (sp_Pool p)).
Proof.
  unfold accept_status, checkIsStatusFor. split.
  - destruct (sp_Active p) as [a|], (sp_Idle p) as [i|], (sp_Total p) as [t|], (sp_Queue p) as [q|],
      (sp_Workers p) as [ws|]; try done. cbn [Name set_required].
    destruct (String.eqb_spec (Name (sp_Pool p)) "") as [|Hn]; [done|].
    destruct (EqualFold (Name (sp_Pool p)) asked) eqn:Ef, (String.eqb_spec asked "") as [Ha|Ha];
      cbn [negb andb]; intros [= <-]; exists a, i, t, q, ws; split_and!; auto.
  - intros (a & i & t & q & ws & -> & -> & -> & -> & -> & Hn & Ha & ->). cbn [Name set_required].
    apply String.eqb_neq in Hn. rewrite Hn.
    destruct Ha as [->|Ha]; [done|]. rewrite Ha. cbn [negb]. by rewrite andb_false_r.
Qed.

(** [pool] is what the target's status page said when it was asked at the instant
    [t]: the decoded page with its five required fields, none of them missing, for
    a pool that is named, and named as asked. *)
Definition page_read (target : Target) (t : nat) (pool : Pool) : Prop :=
  exists scheme address resp p active idle total queue workers,
    ParseAddress (statusAddress target) (t_StatusPath target) = Ok (scheme, address, t_StatusPath target) /\
    fcgx_Get t scheme address (status_env (t_StatusPath target)) = Ok resp /\
    fcgx_ReadJSON resp = Ok p /\
    sp_Active p = Some active /\ sp_Idle p = Some idle /\ sp_Total p = Some total /\
    sp_Queue p = Some queue /\ sp_Workers p = Some workers /\
    Name (sp_Pool p) <> "" /\
    (t_Name target = "" \/ EqualFold (Name (sp_Pool p)) (t_Name target) = true) /\
    pool = set_address address (t_StatusPath target)
             (set_required active idle total queue workers (sp_Pool p)).

Lemma ParseAddress_path addr path scheme address path' :
  ParseAddress addr path = Ok (scheme, address, path') -> path' = path.
Proof. unfold ParseAddress. intros E. repeat case_match; by simplify_eq. Qed.

Lemma readStatus_Ok target l w pool w' :
  readStatus target l w = (Ok pool, w') ->
  page_read target (S (tick w)) pool /\
  (l = DiscardHandler -> trace w' = trace w ++ [EvRequest (Address pool) (t_StatusPath target)]).
Proof.
  unfold readStatus. destruct (ParseAddress _ _) as [[[scheme address] path]|e] eqn:Ep; [|done].
  pose proof (ParseAddress_path _ _ _ _ _ Ep) as ->.
  intros (u & w1 & El & E)%bind_run. apply bind_run in E as (d & w2 & [= <- <-] & E).
  assert (Hw1 : tick w1 = tick w) by (destruct l; by injection El as _ <-).
  destruct (fcgx_Dial _ _ _) as [[]|e]; [|done].
  apply bind_run in E as (u' & w3 & El' & E).
  assert (Hw3 : tick w3 = S (tick w)) by (destruct l; injection El' as _ <-; cbn; by rewrite Hw1).
  apply bind_run in E as (resp & w4 & [= Hget <-] & E). rewrite Hw3 in Hget.
  destruct resp as [resp|e]; [|done].
  destruct (fcgx_ReadJSON resp) as [p|e] eqn:Ej; [|done]. injection E as E <-.
  apply accept_status_Ok in E as (a & i & t & q & ws & ? & ? & ? & ? & ? & ? & ? & ->).
  split; [by exists scheme, address, resp, p, a, i, t, q, ws|].
  intros ->. injection El as _ <-. by injection El' as _ <-.
Qed.

Lemma page_read_name target t pool :
  page_read target t pool ->
  Name pool <> "" /\ (t_Name target = "" \/ EqualFold (Name pool) (t_Name target) = true).
Proof. by intros (? & ? & ? & ? & ? & ? & ? & ? & ? & _ & _ & _ & _ & _ & _ & _ & _ & ? & ? & ->). Qed.

(** C24. A pool comes out of [ReadStatus] only when the page answered for it. One
    request was made, at one instant, and nothing else was done; the response to
    it, decoded, had all five fields lifecycle decisions rest on, and they are the
    pool's, so none of its numbers is a zero made up for a missing one; and the
    page named a pool, the one that was asked for if one was. Everything else of
    the pool is as the page said, but for where it was read. *)
Theorem ReadStatus_complete target w pool w' :
  ReadStatus target w = (Ok pool, w') ->
  trace w' = trace w ++ [EvRequest (Address pool) (t_StatusPath target)] /\
  exists scheme resp p,
    ParseAddress (statusAddress target) (t_StatusPath target) =
      Ok (scheme, Address pool, t_StatusPath target) /\
    fcgx_Get (S (tick w)) scheme (Address pool) (status_env (t_StatusPath target)) = Ok resp /\
    fcgx_ReadJSON resp = Ok p /\
    sp_Active p = Some (ActiveProcesses pool) /\ sp_Idle p = Some (IdleProcesses pool) /\
    sp_Total p = Some (TotalProcesses pool) /\ sp_Queue p = Some (ListenQueue pool) /\
    sp_Workers p = Some (Processes pool) /\
    Name pool <> "" /\ (t_Name target = "" \/ EqualFold (Name pool) (t_Name target) = true) /\
    pool = set_address (Address pool) (t_StatusPath target)
             (set_required (ActiveProcesses pool) (IdleProcesses pool) (TotalProcesses pool)
                (ListenQueue pool) (Processes pool) (sp_Pool p)).
Proof.
  intros [(scheme & address & resp & p & a & i & t & q & ws & Hp) Ht]%readStatus_Ok.
  split; [by apply Ht|]. destruct Hp as (? & ? & ? & ? & ? & ? & ? & ? & ? & ? & ->).
  exists scheme, resp, p. by split_and!.
Qed.
End ReadStatusTheorems.

(** ** Counts and averages *)

Definition count_if {A} (P : A -> bool) (l : list A) : Z := Z.of_nat (length (List.filter P l)).

Lemma count_if_cons {A} (P : A -> bool) x l :
  count_if P (x :: l) = ((if P x then 1 else 0) + count_if P l)%Z.
Proof. unfold count_if. cbn [List.filter]. destruct (P x); cbn [length]; lia. Qed.

Lemma tally_spec statusPath ps t :
  fold_left (tally_process statusPath) ps t =
  mkTally (activeCount t + count_if is_active ps)
    (idleCount t + count_if (fun p => negb (is_active p) && is_idle p) ps)
    (fold_left f64_add (map LastRequestCPU (List.filter (is_foreign statusPath) ps)) (totalCPU t))
    (fold_left f64_add (map LastRequestMemory (List.filter (is_foreign statusPath) ps)) (totalMem t))
    (count t + count_if (is_foreign statusPath) ps).
Proof.
  revert t. induction ps as [|p ps IH]; intros t.
  - destruct t. cbn. unfold count_if. cbn. by rewrite !Z.add_0_r.
  - cbn [fold_left List.filter]. rewrite IH, !count_if_cons. unfold tally_process.
    destruct (is_active p), (is_idle p), (is_foreign statusPath p); cbn; f_equal; lia.
Qed.

Lemma active_not_idle p : is_active p = true -> is_idle p = false.
Proof.
  unfold is_active, is_idle. intros [s [Hin Hs%String.eqb_eq]]%existsb_exists. rewrite Hs. clear Hs.
  repeat (destruct Hin as [<-|Hin]; [reflexivity|]). destruct Hin.
Qed.

Lemma strip_query_uri p : no_byte "?" (RequestURI (strip_query p)) = true.
Proof.
  unfold strip_query. destruct (IndexByte (RequestURI p) "?") as [q|] eqn:E.
  - cbn [RequestURI set_uri]. by apply IndexByte_Some in E as [_ ?].
  - by apply IndexByte_None.
Qed.

Lemma strip_query_tail p :
  exists tail, RequestURI p = RequestURI (strip_query p) +:+ tail /\
    (tail = "" \/ HasPrefix tail "?" = true).
Proof.
  unfold strip_query. destruct (IndexByte (RequestURI p) "?") as [q|] eqn:E.
  - cbn [RequestURI set_uri]. apply IndexByte_Some in E as [E _].
    exists (String "?" (str_drop (S q) (RequestURI p))). split; [exact E|]. by right.
  - exists "". rewrite str_app_nil_r. auto.
Qed.

(** What counts as what, in php-fpm's words: a worker that serves a request, one
    that waits for one, and a request of the library's own, which is for the
    status path or for a probe script. *)
Definition serving (p : PoolProcess) : bool :=
  let state := ToLower (State p) in
  String.eqb state "running" || String.eqb state "reading headers" || String.eqb state "info" ||
  String.eqb state "finishing" || String.eqb state "ending".

Definition resting (p : PoolProcess) : bool := String.eqb (ToLower (State p)) "idle".

Definition own_request (statusPath : string) (p : PoolProcess) : Prop :=
  (exists rest, RequestURI p = statusPath +:+ rest) \/
  (exists rest, RequestURI p = "/cbox-phpfpm-opcache-" +:+ rest).

#[export] Instance own_request_dec statusPath p : Decision (own_request statusPath p).
Proof.
  refine (cast_if (decide (HasPrefix (RequestURI p) statusPath ||
    HasPrefix (RequestURI p) "/cbox-phpfpm-opcache-" = true)));
    unfold own_request; rewrite <- !HasPrefix_spec, <- orb_true_iff; done.
Defined.

Lemma is_active_serving p : is_active p = serving p.
Proof. unfold is_active, serving. cbn [existsb]. by rewrite orb_false_r, !orb_assoc. Qed.

Lemma is_foreign_own statusPath p : is_foreign statusPath p = negb (bool_decide (own_request statusPath p)).
Proof.
  apply eq_true_iff_eq. rewrite negb_true_iff, bool_decide_eq_false. unfold is_foreign, own_request.
  rewrite <- !HasPrefix_spec, andb_true_iff, !negb_true_iff, <- !not_true_iff_false. tauto.
Qed.

(** A summary that is its process list's: no request URI keeps a query string, and
    the counts are the list's. *)
Definition summarised (pool : Pool) : Prop :=
  Forall (fun p => no_byte "?" (RequestURI p) = true) (Processes pool) /\
  ActiveProcesses pool = count_if serving (Processes pool) /\
  IdleProcesses pool = count_if resting (Processes pool) /\
  TotalProcesses pool = Z.of_nat (length (Processes pool)) /\
  (ActiveProcesses pool + IdleProcesses pool <= TotalProcesses pool)%Z.

Lemma idle_counted_once ps :
  count_if (fun p => negb (is_active p) && is_idle p) ps = count_if is_idle ps.
Proof.
  unfold count_if. do 2 f_equal. apply filter_ext. intros p.
  destruct (is_active p) eqn:E; [|done]. by rewrite (active_not_idle p).
Qed.

Lemma active_idle_le ps : (count_if is_active ps + count_if is_idle ps <= Z.of_nat (length ps))%Z.
Proof.
  rewrite <- idle_counted_once. induction ps as [|p ps IH]; [done|].
  rewrite !count_if_cons. cbn [length]. destruct (is_active p), (is_idle p); cbn [negb andb]; lia.
Qed.

Lemma recount_fields statusPath pool :
  let ps := map strip_query (Processes pool) in
  let foreign := List.filter (is_foreign statusPath) ps in
  exists cpu mem, recountProcesses statusPath pool =
    set_averages cpu mem
      (set_counts (count_if is_idle ps) (count_if is_active ps) (Z.of_nat (length ps))
         (set_processes ps pool)) /\
    (foreign <> [] ->
       cpu = Some (f64_div (fold_left f64_add (map LastRequestCPU foreign) f64_zero)
                     (f64_of_Z (Z.of_nat (length foreign)))) /\
       mem = Some (f64_div (fold_left f64_add (map LastRequestMemory foreign) f64_zero)
                     (f64_of_Z (Z.of_nat (length foreign))))) /\
    (foreign = [] -> cpu = ProcessesCpu pool /\ mem = ProcessesMemory pool).
Proof.
  cbv zeta. unfold recountProcesses. rewrite tally_spec, idle_counted_once.
  cbn [activeCount idleCount totalCPU totalMem count]. rewrite !Z.add_0_l.
  set (ps := map strip_query (Processes pool)). set (foreign := List.filter (is_foreign statusPath) ps).
  change (count_if (is_foreign statusPath) ps) with (Z.of_nat (length foreign)).
  destruct (Z.ltb_spec 0 (Z.of_nat (length foreign))) as [Hlt|Hge].
  - eexists _, _. split; [done|]. split; [done|]. intros E. rewrite E in Hlt. cbn in Hlt. lia.
  - exists (ProcessesCpu pool), (ProcessesMemory pool). split; [done|]. split; [|done].
    destruct foreign; [done|cbn in Hge; lia].
Qed.

Lemma recount_summarised statusPath pool : summarised (recountProcesses statusPath pool).
Proof.
  destruct (recount_fields statusPath pool) as (cpu & mem & -> & _).
  unfold summarised. cbn [set_averages set_counts set_processes Processes ActiveProcesses IdleProcesses
    TotalProcesses]. split_and!; try done; [| |apply active_idle_le].
  - apply Forall_map, Forall_true. intros p. apply strip_query_uri.
  - unfold count_if. do 2 f_equal. apply filter_ext, is_active_serving.
Qed.

(** The mean of some measures, as the code adds them up. *)
Definition mean (xs : list float64) : float64 :=
  f64_div (fold_left f64_add xs f64_zero) (f64_of_Z (Z.of_nat (length xs))).

(** C25. The summary is recomputed from the process list. The processes are those
    of the page with the query string cut off each request URI; the busy workers
    are those running, reading headers, in info, finishing or ending, in whatever
    case, and the idle ones those in idle; and the averages are the means over
    exactly the requests that are neither for the status path nor for a probe
    script, and are left alone when there is no other. *)
Theorem recountProcesses_spec statusPath pool :
  let pool' := recountProcesses statusPath pool in
  let others := filter (fun p => ~ own_request statusPath p) (Processes pool') in
  Processes pool' = map strip_query (Processes pool) /\
  Forall2 (fun p p' => exists tail, RequestURI p = RequestURI p' +:+ tail /\
             (tail = "" \/ HasPrefix tail "?" = true)) (Processes pool) (Processes pool') /\
  summarised pool' /\
  ProcessesCpu pool' =
    (if decide (others = []) then ProcessesCpu pool else Some (mean (map LastRequestCPU others))) /\
  ProcessesMemory pool' =
    (if decide (others = []) then ProcessesMemory pool else Some (mean (map LastRequestMemory others))).
Proof.
  cbv zeta.
  assert (Hps : Processes (recountProcesses statusPath pool) = map strip_query (Processes pool)).
  { by destruct (recount_fields statusPath pool) as (cpu & mem & -> & _). }
  assert (Hf : filter (fun p => ~ own_request statusPath p) (Processes (recountProcesses statusPath pool)) =
    List.filter (is_foreign statusPath) (map strip_query (Processes pool))).
  { rewrite Hps. generalize (map strip_query (Processes pool)). intros ps.
    induction ps as [|p ps IH]; [done|]. cbn [List.filter].
    rewrite filter_cons, IH, is_foreign_own. by repeat case_decide; case_bool_decide. }
  split; [exact Hps|]. split; [|split; [apply recount_summarised|]].
  - rewrite Hps. apply Forall2_fmap_r, Forall_Forall2_diag, Forall_true. intros p. apply strip_query_tail.
  - rewrite Hf. destruct (recount_fields statusPath pool) as (cpu & mem & -> & Hne & He).
    set (foreign := List.filter _ _) in *. cbn [set_averages ProcessesCpu ProcessesMemory].
    unfold mean. rewrite !length_map. case_decide as Hd; [exact (He Hd)|exact (Hne Hd)].
Qed.

(** ** The configuration *)

Section ConfigTheorems.
Context `{Host} `{CaseFolding}.

Lemma export_settings_lookup kvs out k :
  NoDup kvs.*1 -> (forall v, (k, v) ∈ kvs -> out !! k = None) ->
  fold_left export_setting kvs out !! k =
  if exported k then match (list_to_map kvs : gmap string string) !! k with Some v => Some v | None => out !! k end
  else out !! k.
Proof.
  revert out. induction kvs as [|[k' v'] kvs IH]; intros out Hnd Hout.
  { cbn. rewrite lookup_empty. by case_match. }
  cbn in Hnd. apply NoDup_cons in Hnd as [Hn Hnd]. cbn [fold_left]. rewrite IH; [|done|].
  - rewrite (list_to_map_cons (M := gmap string)). unfold export_setting. cbn [fst snd]. destruct (decide (k' = k)) as [->|Hne].
    + rewrite lookup_insert_eq. destruct (exported k) eqn:E.
      * rewrite lookup_insert_eq. by rewrite (not_elem_of_list_to_map_1 (M := gmap string)).
      * done.
    + destruct (exported k'); by rewrite !lookup_insert_ne.
  - intros v Hv. unfold export_setting. cbn [fst snd].
    assert (Hne : k' <> k).
    { intros ->. apply Hn, list_elem_of_fmap. by exists (k, v). }
    destruct (exported k'); [rewrite lookup_insert_ne by done|]; apply (Hout v); by right.
Qed.

Lemma exportableConfig_run values w :
  exists out w', exportableConfig values w = (out, w') /\
    forall k, out !! k = if exported k then values !! k else None.
Proof.
  unfold exportableConfig, bind, range, ret. eexists _, _. split; [done|]. intros k.
  set (kvs := range_order (tick w) values).
  assert (Hp : kvs ≡ₚ map_to_list values) by apply range_order_perm.
  rewrite export_settings_lookup.
  - rewrite (list_to_map_proper _ (map_to_list values)); [|rewrite Hp; apply NoDup_fst_map_to_list|done].
    rewrite list_to_map_to_list, lookup_empty. case_match; [|done]. by destruct (values !! k).
  - rewrite Hp. apply NoDup_fst_map_to_list.
  - intros v _. apply lookup_empty.
Qed.

(** C27. What leaves the process of a section of the configuration is an
    allow-list: a setting is published exactly when its key, trimmed and in lower
    case, is one of the eleven, with the value the configuration gives it; every
    other setting, credentials included, stays. *)
Theorem exportableConfig_allow_list values w k v :
  (exportableConfig values w).1 !! k = Some v <->
  values !! k = Some v /\ In (ToLower (TrimSpace k)) exportedConfigKeys.
Proof.
  destruct (exportableConfig_run values w) as (out & w' & -> & Hout). cbn [fst]. rewrite Hout.
  assert (He : exported k = true <-> In (ToLower (TrimSpace k)) exportedConfigKeys).
  { unfold exported. rewrite existsb_exists. split.
    - by intros (key & Hin & ->%String.eqb_eq).
    - intros Hin. exists (ToLower (TrimSpace k)). split; [done|apply String.eqb_refl]. }
  rewrite <- He. destruct (exported k); [tauto|]. by split; [|intros []].
Qed.

Definition folds_to (name section : string) : Prop := EqualFold section name = true.

Lemma match_fold name sections acc :
  fold_left (match_step name) sections acc =
  let hits := List.filter (fun s => EqualFold s.1 name) sections in
  (match last hits with Some s => Some s.2 | None => acc.1 end, (acc.2 + Z.of_nat (length hits))%Z).
Proof.
  revert acc. induction sections as [|s sections IH]; intros acc.
  - destruct acc. cbn. by rewrite Z.add_0_r.
  - cbn [fold_left List.filter]. rewrite IH. unfold match_step at 1 2.
    destruct (EqualFold s.1 name); [|done]. cbn [fst snd]. cbv zeta.
    rewrite last_cons. cbn [length]. f_equal; [|lia]. by destruct (last _).
Qed.

(** C26. The section a pool's settings are read from does not depend on the order
    a map happens to be ranged over: it is the one with exactly its name, or else
    the only one whose name differs from it by case alone, or none. *)
Theorem pool_section_unambiguous pools name w m :
  (pool_section pools name w).1 = Some m <->
  pools !! name = Some m \/
  (pools !! name = None /\ exists section, pools !! section = Some m /\ folds_to name section /\
     forall other, is_Some (pools !! other) -> folds_to name other -> other = section).
Proof.
  unfold pool_section. destruct (pools !! name) as [m'|].
  - cbn. split; [by left|]. by intros [?|[? _]].
  - unfold bind, range. rewrite match_fold. cbn [fst snd].
    set (order := range_order (tick w) pools).
    assert (Hp : order ≡ₚ map_to_list pools) by apply range_order_perm.
    assert (Hnd : NoDup order.*1) by (rewrite Hp; apply NoDup_fst_map_to_list).
    assert (Hin : forall s v, (s, v) ∈ List.filter (fun s => EqualFold s.1 name) order <->
      pools !! s = Some v /\ folds_to name s).
    { intros s v. rewrite list_elem_of_In, filter_In, <- list_elem_of_In, Hp, elem_of_map_to_list. done. }
    assert (Hnd' : NoDup (map fst (List.filter (fun s => EqualFold s.1 name) order)))
      by (by apply NoDup_filter_fst).
    revert Hin Hnd'. generalize (List.filter (fun s => EqualFold s.1 name) order) as hits.
    intros hits Hin Hnd'. split.
    + destruct (Z.eqb_spec (0 + Z.of_nat (length hits)) 1) as [Hlen|]; [|done].
      destruct hits as [|[s v] [|]]; cbn in Hlen; try lia. cbn. intros [= ->]. right.
      destruct (proj1 (Hin s m)) as [Hs Hf]; [left|]. split; [done|]. exists s. split; [done|].
      split; [done|]. intros other [v Hv] Ho.
      assert (Hi : (other, v) ∈ [(s, m)]) by (by apply Hin).
      apply list_elem_of_singleton in Hi. by injection Hi.
    + intros [?|(_ & s & Hs & Hf & Hu)]; [done|].
      assert (Hi : (s, m) ∈ hits) by (by apply Hin).
      assert (Hall : forall p, p ∈ hits -> p = (s, m)).
      { intros [s' v'] Hi'. apply Hin in Hi' as [Hs' Hf'].
        assert (s' = s) as -> by (apply Hu; eauto). congruence. }
      destruct hits as [|h1 [|h2 hits]]; [by apply not_elem_of_nil in Hi| |].
      * rewrite (Hall h1) by left. done.
      * exfalso. rewrite (Hall h1), (Hall h2) in Hnd' by (left || (right; left)).
        cbn in Hnd'. apply NoDup_cons in Hnd' as [Hn _]. apply Hn. left.
Qed.
End ConfigTheorems.

(** ** One pool's outcome *)

(** Settings that may leave the process. *)
Definition publishable (settings : gmap string string) : Prop :=
  forall k, is_Some (settings !! k) -> In (ToLower (TrimSpace k)) exportedConfigKeys.

Lemma publishable_empty : publishable ∅.
Proof. intros k [v Hv]. by rewrite lookup_empty in Hv. Qed.

Lemma exported_In k : exported k = true -> In (ToLower (TrimSpace k)) exportedConfigKeys.
Proof. unfold exported. rewrite existsb_exists. by intros (key & Hin & ->%String.eqb_eq). Qed.

Section OutcomeTheorems.
Context `{Host} `{CaseFolding} `{FastCGI} `{OpcacheJSON}.

Lemma exportableConfig_publishable values w out w' :
  exportableConfig values w = (out, w') -> publishable out.
Proof.
  intros E. destruct (exportableConfig_run values w) as (out' & w'' & E' & Hout).
  rewrite E in E'. injection E' as -> ->. intros k [v Hv]. rewrite Hout in Hv.
  destruct (exported k) eqn:Ek; [by apply exported_In|done].
Qed.

Lemma read_config_run ctx target pool w pool' global w' :
  read_config ctx target pool w = ((pool', global), w') ->
  publishable global /\
  exists c, pool' = set_config c pool /\
    (c = PoolConfig pool \/ exists settings, c = Some settings /\ publishable settings).
Proof.
  assert (Hsame : pool = set_config (PoolConfig pool) pool) by (by destruct pool).
  unfold read_config. intros (conf & w1 & _ & E)%bind_run. destruct conf as [conf|e].
  - apply bind_run in E as (section & w2 & _ & E). apply bind_run in E as (p & w3 & Ep & E).
    apply bind_run in E as (g & w4 & Eg%exportableConfig_publishable & E). injection E as <- <- _.
    split; [done|]. destruct section as [values|].
    + apply bind_run in Ep as (c & w5 & Ec%exportableConfig_publishable & [= <- _]).
      exists (Some c). split; [done|]. right. eauto.
    + injection Ep as <- _. exists (PoolConfig pool). auto.
  - injection E as <- <- _. split; [apply publishable_empty|]. exists (PoolConfig pool). auto.
Qed.

(** A worker of the result is the page's, with its memory filled in and the query
    string cut off its request. *)
Definition published_worker (p p' : PoolProcess) : Prop :=
  pp_PID p' = pp_PID p /\ State p' = State p /\
  exists tail, RequestURI p = RequestURI p' +:+ tail /\ (tail = "" \/ HasPrefix tail "?" = true).

(** What is in the result of one pool whose status page said [page]: that pool,
    with counts that are its processes', no query string, and no setting off the
    list; a pool whose settings could not be told keeps what the page gave for
    them, which of php-fpm's own pages is nothing. *)
Definition pool_collected (r : Result) (page pool : Pool) : Prop :=
  Pools_ r = {[Name pool := pool]} /\ Name pool = Name page /\
  Forall2 published_worker (Processes page) (Processes pool) /\ summarised pool /\
  publishable (Global_ r) /\
  (PoolConfig pool = PoolConfig page \/
   exists settings, PoolConfig pool = Some settings /\ publishable settings).

(** The contract of one scrape that began at the instant [since]. *)
Definition outcome_of (target : Target) (since : nat) (o : PoolOutcome) : Prop :=
  o_Socket o = statusAddress target /\
  (t_Name target <> "" -> o_Name o = t_Name target) /\
  match o_Result o, o_Err o with
  | Some r, None =>
      exists t page pool, (since <= t)%nat /\ page_read target t page /\ pool_collected r page pool /\
        (t_Name target = "" -> o_Name o = Name pool)
  | None, Some _ => o_Name o = label target
  | _, _ => False
  end.

(** The part of a pool that PHP's own answers leave alone. *)
Definition core (p : Pool) : string * list PoolProcess * (Z * Z * Z) * option (gmap string string) :=
  (Name p, Processes p, (ActiveProcesses p, IdleProcesses p, TotalProcesses p), PoolConfig p).

Lemma summarised_core p p' : core p' = core p -> summarised p -> summarised p'.
Proof. unfold core, summarised. intros [= _ -> -> -> -> _]. done. Qed.

Lemma published_workers t snap page ps :
  Forall2 (enriched t snap) page ps -> Forall2 published_worker page (map strip_query ps).
Proof.
  intros Hen. apply Forall2_fmap_r. eapply Forall2_impl; [exact Hen|]. intros p p' Hp%enriched_frame.
  destruct (strip_query_tail p') as (tail & Ht & Hq).
  assert (Hs : pp_PID (strip_query p') = pp_PID p' /\ State (strip_query p') = State p').
  { unfold strip_query. by destruct (IndexByte _ _). }
  destruct Hs as [Hpid Hst].
  assert (Hf : pp_PID p' = pp_PID p /\ State p' = State p /\ RequestURI p' = RequestURI p)
    by (by rewrite Hp).
  destruct Hf as (Hf1 & Hf2 & Hf3). split_and!; [congruence|congruence|].
  exists tail. split; [congruence|done].
Qed.

Lemma scrape_contract ctx target snap l st w o st' w' :
  scrape ctx target snap l st w = ((o, st'), w') -> outcome_of target (tick w) o.
Proof.
  assert (Hlabel : t_Name target <> "" -> label target = t_Name target).
  { intros Hn%String.eqb_neq. unfold label. by rewrite Hn. }
  unfold scrape. intros (t1 & w1 & [= _ <-] & E)%bind_run.
  apply bind_run in E as (t2 & w2 & [= _ <-] & E). cbn [tick trace cache] in E.
  apply bind_run in E as (status & w3 & Es & E).
  destruct status as [page|e]; [|injection E as <- _ _; done].
  apply readStatus_Ok in Es as [Hpage _]. cbn [tick] in Hpage.
  pose proof (page_read_name _ _ _ Hpage) as [Hname _].
  apply bind_run in E as ([pool global] & w4 & (Hg & c & -> & Hc)%read_config_run & E).
  apply bind_run in E as (pool & w5 & Ee & E).
  destruct (enrichWorkerRSS_run (set_config c page) snap (Some (logOrDiscard l)) w4) as [w5' Ee'].
  rewrite Ee in Ee'. injection Ee' as -> _.
  pose proof (enrich_workers_enriched snap (Processes page) w4) as Hen.
  set (ps := (enrich_workers snap (Processes (set_config c page)) w4).1.1) in *.
  pose proof (recount_summarised (t_StatusPath target) (set_processes ps (set_config c page))) as Hsum.
  destruct (recount_fields (t_StatusPath target) (set_processes ps (set_config c page)))
    as (cpu & mem & Er & _).
  apply bind_run in E as ([[info err] c1] & w6 & _ & E). apply bind_run in E as (pool1 & w7 & E1 & E).
  set (counted := recountProcesses _ _) in *.
  assert (Hc1 : core pool1 = core counted).
  { destruct err, info; (try by injection E1 as <- _); by apply bind_run in E1 as (u & w1' & _ & [= <- _]). }
  apply bind_run in E as (oc & w8 & _ & E). apply bind_run in E as (pool2 & w9 & E2 & E).
  assert (Hc2 : core pool2 = core counted).
  { rewrite <- Hc1. destruct oc.1; (try by injection E2 as <- _);
      by apply bind_run in E2 as (u & w1' & _ & [= <- _]). }
  injection E as <- _ _. unfold outcome_of. cbn [o_Socket o_Name o_Result o_Err].
  pose proof (summarised_core _ _ Hc2 Hsum) as Hsum2. unfold core in Hc2. rewrite Er in Hc2.
  injection Hc2 as Hn Hp _ _ _ Hcfg.
  split; [done|]. split.
  - intros Hne. apply String.eqb_neq in Hne as Hne'. rewrite Hne'. cbn. auto.
  - exists (S (S (S (tick w)))), page, pool2. split; [lia|]. split; [exact Hpage|]. split.
    + unfold pool_collected. cbn [Pools_ Global_]. rewrite Hn in *. split_and!; try done.
      * rewrite Hp. apply published_workers with (snap := snap) (t := tick w4). exact Hen.
      * rewrite Hcfg. exact Hc.
    + intros ->. rewrite Hn. apply String.eqb_neq in Hname. cbn. by rewrite Hname.
Qed.

Lemma readStatus_keeps_cache target l : keeps_cache (readStatus target l).
Proof.
  assert (Hd : forall scheme address, keeps_cache (DialContext scheme address))
    by (by intros ? ? w r w' [= _ <-]).
  assert (Hr : forall scheme address env, keeps_cache (client_Get scheme address env))
    by (by intros ? ? ? w r w' [= _ <-]).
  unfold readStatus. frame_steps; auto.
Qed.

(** C12. A scrape is either a result or an error, never both and never neither,
    and it always names its pool: a configured name survives whatever happened,
    and a pool without one goes by its own name when it answered and by its
    socket when it did not. A result is made of what the pool's status page said
    when it was asked during this scrape: it holds that one pool, worker by
    worker, with counts that are its processes', no query string on a request, and
    no setting, of the pool or global, that is not on the allow-list. A failure
    leaves the caches and the probe's script as they were. *)
Theorem scrape_outcome ctx target snap l st w o st' w' :
  scrape ctx target snap l st w = ((o, st'), w') ->
  outcome_of target (tick w) o /\ (o_Err o <> None -> st' = st /\ cache w' = cache w).
Proof.
  intros E. pose proof (scrape_contract _ _ _ _ _ _ _ _ _ E) as Ho. split; [done|]. intros Herr.
  unfold scrape in E. apply bind_run in E as (t1 & w1 & [= _ <-] & E).
  apply bind_run in E as (t2 & w2 & [= _ <-] & E).
  apply bind_run in E as (status & w3 & Es%readStatus_keeps_cache & E).
  destruct status as [page|e]; [exfalso|by injection E as _ <- <-].
  apply bind_run in E as ([pool global] & w4 & _ & E). apply bind_run in E as (pool' & w5 & _ & E).
  apply bind_run in E as ([[info err] c1] & w6 & _ & E). apply bind_run in E as (pool1 & w7 & _ & E).
  apply bind_run in E as (oc & w8 & _ & E). apply bind_run in E as (pool2 & w9 & _ & E).
  by injection E as <- _ _.
Qed.
End OutcomeTheorems.

(** ** The library's own requests *)

Lemma Base_in_dir dir name :
  no_byte SLASH name = true -> name <> "" -> Base (dir +:+ String SLASH name) = name.
Proof.
  intros Hn Hne. destruct name as [|c name']; [done|]. set (name := String c name') in *.
  assert (Ht : trim_right_byte SLASH name = name).
  { revert Hn. generalize name. clear. intros s. induction s as [|d s IH]; [done|].
    unfold no_byte. cbn [str_forall]. intros [Hd Hs]%andb_true_iff. cbn [trim_right_byte]. rewrite IH by done.
    apply negb_true_iff in Hd. rewrite Hd. by destruct s. }
  unfold Base. destruct (String.eqb_spec (dir +:+ String SLASH name) "") as [E|_].
  { apply (f_equal String.length) in E. rewrite str_length_app in E. cbn in E. lia. }
  assert (Hs : trim_right_byte SLASH (String SLASH name) = String SLASH name).
  { cbn [trim_right_byte]. by rewrite Ht. }
  rewrite trim_right_byte_app, Hs by (by rewrite Hs). cbv zeta.
  rewrite LastIndexByte_app by done.
  assert (Hdrop : str_drop (S (String.length dir)) (dir +:+ String SLASH name) = name).
  { clear. induction dir as [|d dir IH]; [done|]. rewrite str_app_cons. exact IH. }
  by rewrite Hdrop.
Qed.

(** The probe's own request is never counted as the pool's traffic: whatever
    directory and random part the temporary file got, a worker serving the script
    name the probe asks for is left out of the averages. *)
Theorem probe_not_counted statusPath dir random p :
  no_byte SLASH random = true ->
  RequestURI p = get (probe_env (dir +:+ "/" +:+ opcacheScriptPrefix +:+ random)) "SCRIPT_NAME" ->
  is_foreign statusPath p = false.
Proof.
  intros Hr Huri. unfold is_foreign. rewrite Huri.
  assert (Hb : Base (dir +:+ "/" +:+ opcacheScriptPrefix +:+ random) = opcacheScriptPrefix +:+ random).
  { apply (Base_in_dir dir (opcacheScriptPrefix +:+ random)); [|done].
    unfold no_byte in *. by rewrite str_forall_app, Hr. }
  assert (Hname : forall path, get (probe_env path) "SCRIPT_NAME" = "/" +:+ Base path).
  { intros path. unfold get, probe_env. by rewrite lookup_insert_ne, lookup_insert_eq. }
  rewrite Hname, Hb. pose proof (HasPrefix_app ("/" +:+ opcacheScriptPrefix) random) as Hp.
  rewrite str_app_assoc in Hp. rewrite Hp. apply andb_false_r.
Qed.

(** ** All pools at once (metrics.go: ScrapeAll) *)

(** What the round relies on of one scrape: it answers, and what it answers is an
    outcome of the pool it was given. *)
Class PoolScraper := {
  answers : Target -> PoolOutcome -> Prop;
  answers_some : forall target, exists o, answers target o;
  answers_contract : forall target o, answers target o -> o_Socket o = statusAddress target
}.

(** [scrape] is such a scraper, whatever snapshot, caches and instant it runs with. *)
#[export] Program Instance scrape_answers `{Host} `{CaseFolding} `{FastCGI} `{OpcacheJSON}
    (ctx : context) (snap : option processSnapshot) (l : option logger) : PoolScraper := {
  answers target o := exists st w st' w', scrape ctx target snap l st w = ((o, st'), w')
}.
Next Obligation.
  intros ? ? ? ? ctx snap l target.
  set (st := mkPkg ∅ (mkScript "" None)). set (w := mkWorld 0 [] (mkCache ∅ 0)).
  exists (scrape ctx target snap l st w).1.1, st, w, (scrape ctx target snap l st w).1.2,
    (scrape ctx target snap l st w).2.
  by destruct (scrape ctx target snap l st w) as [[? ?] ?].
Qed.
Next Obligation.
  intros ? ? ? ? ctx snap l target o (st & w & st' & w' & E).
  by apply scrape_contract in E as [? _].
Qed.

Module ScrapeSystem.

(** [make(chan struct{}, min(len(targets), max(4, runtime.NumCPU())))]. *)
Definition slots (ncpu n : nat) : nat := Nat.min n (Nat.max 4 ncpu).

(** A goroutine, from the [go] statement to its [wg.Done]. The warning logged for a
    failed scrape, which nothing waits for, is not a step. *)
Inductive phase := Queued | Scraping | Stored | Released | Finished.

#[export] Instance phase_eq_dec : EqDecision phase.
Proof. solve_decision. Defined.

Inductive round_error := AllFailed (n : nat).

(** [goroutines] has one entry per goroutine started so far; [returned] is what
    [ScrapeAll] returned, once it has. *)
Record state := mkState {
  goroutines : list phase;
  outcomes : list PoolOutcome;
  returned : option (list PoolOutcome * option round_error)
}.

Definition zero_outcome : PoolOutcome := mkOutcome "" "" None None.

Definition initial (n : nat) : state := mkState [] (replicate n zero_outcome) None.

(** Slots taken: a slot is given back after the outcome is stored. *)
Definition slot_of (p : phase) : nat :=
  match p with Scraping | Stored => 1 | _ => 0 end.

Definition held (s : state) : nat := sum_list_with slot_of (goroutines s).

Definition succeeded (o : PoolOutcome) : bool :=
  match o_Err o with None => true | Some _ => false end.

(** The last lines of [ScrapeAll]. *)
Definition conclude (os : list PoolOutcome) : list PoolOutcome * option round_error :=
  if (0 <? length os)%nat && negb (existsb succeeded os) then (os, Some (AllFailed (length os)))
  else (os, None).

Section System.
Context `{PoolScraper} (ncpu : nat) (targets : list Target).

Inductive step : state -> state -> Prop :=
  | StepGo s :
      (length (goroutines s) < length targets)%nat ->
      step s (mkState (goroutines s ++ [Queued]) (outcomes s) (returned s))
  | StepAcquire s i :
      goroutines s !! i = Some Queued -> (held s < slots ncpu (length targets))%nat ->
      step s (mkState (<[i := Scraping]> (goroutines s)) (outcomes s) (returned s))
  | StepStore s i target o :
      goroutines s !! i = Some Scraping -> targets !! i = Some target -> answers target o ->
      step s (mkState (<[i := Stored]> (goroutines s)) (<[i := o]> (outcomes s)) (returned s))
  | StepRelease s i :
      goroutines s !! i = Some Stored ->
      step s (mkState (<[i := Released]> (goroutines s)) (outcomes s) (returned s))
  | StepDone s i :
      goroutines s !! i = Some Released ->
      step s (mkState (<[i := Finished]> (goroutines s)) (outcomes s) (returned s))
  (** [wg.Wait()] returns, and so does [ScrapeAll]. *)
  | StepReturn s :
      returned s = None -> length (goroutines s) = length targets ->
      Forall (fun p => p = Finished) (goroutines s) ->
      step s (mkState (goroutines s) (outcomes s) (Some (conclude (outcomes s)))).

(** [n] steps from the start. *)
Inductive reachable : nat -> state -> Prop :=
  | reach_init : reachable 0 (initial (length targets))
  | reach_step n s s' : reachable n s -> step s s' -> reachable (S n) s'.

Definition stored_phase (p : phase) : bool :=
  match p with Stored | Released | Finished => true | _ => false end.

Definition answered (s : state) : Prop :=
  forall i p target, goroutines s !! i = Some p -> stored_phase p = true -> targets !! i = Some target ->
  exists o, outcomes s !! i = Some o /\ answers target o.

Record inv (s : state) : Prop := mkInv {
  inv_started : (length (goroutines s) <= length targets)%nat;
  inv_outcomes : length (outcomes s) = length targets;
  inv_answered : answered s;
  inv_held : (held s <= slots ncpu (length targets))%nat;
  inv_returned : forall r, returned s = Some r ->
    r = conclude (outcomes s) /\ length (goroutines s) = length targets /\
    Forall (fun p => p = Finished) (goroutines s)
}.
Lemma sum_insert (f : phase -> nat) l i p q :
  l !! i = Some p -> (sum_list_with f (<[i := q]> l) + f p = sum_list_with f l + f q)%nat.
Proof.
  revert i. induction l as [|x l IH]; intros [|i] E; try done.
  - injection E as ->. change (<[0:=q]> (p :: l)) with (q :: l). cbn [sum_list_with]. lia.
  - change (<[S i:=q]> (x :: l)) with (x :: <[i:=q]> l). cbn [sum_list_with].
    specialize (IH i E). lia.
Qed.

Lemma finished_lookup gs i p :
  Forall (fun p => p = Finished) gs -> gs !! i = Some p -> p = Finished.
Proof. intros Hf Hi. by eapply Forall_lookup in Hf. Qed.

(** A goroutine moves from [p] to [q], storing nothing it had not stored. *)
Lemma answered_move s i p q r :
  goroutines s !! i = Some p -> (stored_phase q = true -> stored_phase p = true) ->
  answered s -> answered (mkState (<[i := q]> (goroutines s)) (outcomes s) r).
Proof.
  intros Hi Hpq Ha j p' target. cbn [goroutines outcomes]. destruct (decide (i = j)) as [<-|Hne].
  - rewrite list_lookup_insert_eq by (by eapply lookup_lt_Some). intros [= <-] Hs. eapply Ha; eauto.
  - rewrite list_lookup_insert_ne by done. apply Ha.
Qed.

Lemma answered_store s i target o r :
  goroutines s !! i = Some Scraping -> targets !! i = Some target -> answers target o ->
  length (outcomes s) = length targets ->
  answered s ->
  answered (mkState (<[i := Stored]> (goroutines s)) (<[i := o]> (outcomes s)) r).
Proof.
  intros Hi Ht Ho Hlen Ha j p' target'. cbn [goroutines outcomes]. destruct (decide (i = j)) as [<-|Hne].
  - intros _ _ Ht'. exists o. rewrite list_lookup_insert_eq.
    + split; [done|]. congruence.
    + rewrite Hlen. by eapply lookup_lt_Some.
  - rewrite !list_lookup_insert_ne by done. apply Ha.
Qed.

Lemma round_inv_initial : inv (initial (length targets)).
Proof.
  split; cbn.
  - lia.
  - by rewrite length_replicate.
  - intros i p target. cbn. by rewrite lookup_nil.
  - lia.
  - done.
Qed.

(** Nothing moves once the round has returned. *)
Lemma returned_stuck s s' r : inv s -> returned s = Some r -> ~ step s s'.
Proof.
  intros Hinv Hr Hstep. destruct (inv_returned _ Hinv _ Hr) as (_ & Hlen & Hf).
  destruct Hstep as [s Hgo|s i Hi _|s i t o Hi _ _|s i Hi|s i Hi|s Hn _ _];
    try (apply (finished_lookup _ _ _ Hf) in Hi; discriminate Hi); [lia|congruence].
Qed.

Lemma round_step_inv s s' : inv s -> step s s' -> inv s'.
Proof.
  intros Hinv Hstep.
  assert (Hnone : returned s = None).
  { destruct (returned s) as [r|] eqn:Hr; [|done]. by destruct (returned_stuck _ s' _ Hinv Hr). }
  destruct Hinv as [Hst Hout Hans Hheld _].
  destruct Hstep as [s Hgo|s i Hi Hslot|s i t o Hi Ht Ho|s i Hi|s i Hi|s _ Hlen Hf];
    (split; cbn [goroutines outcomes returned]; rewrite ?length_insert, ?length_app;
     [cbn [length]; lia|done| | |]); try (by rewrite Hnone);
    try (unfold held in *; cbn [goroutines];
         pose proof (sum_insert slot_of _ i _ Scraping Hi) as E1;
         pose proof (sum_insert slot_of _ i _ Stored Hi) as E2;
         pose proof (sum_insert slot_of _ i _ Released Hi) as E3;
         pose proof (sum_insert slot_of _ i _ Finished Hi) as E4; cbn [slot_of] in *; lia).
  - intros i p target. cbn [goroutines outcomes]. rewrite lookup_app_Some. intros [Hi|[_ Hi]] Hs.
    + by eapply Hans.
    + apply list_lookup_singleton_Some in Hi as [_ <-]. discriminate Hs.
  - unfold held in *. cbn [goroutines]. rewrite sum_list_with_app. cbn. lia.
  - by eapply answered_move.
  - by eapply answered_store.
  - by eapply answered_move.
  - by eapply answered_move.
  - exact Hans.
  - exact Hheld.
  - by intros r [= <-].
Qed.

Lemma round_reachable_inv n s : reachable n s -> inv s.
Proof. induction 1 as [|n s s' _ IH Hstep]; [apply round_inv_initial|by eapply round_step_inv]. Qed.

(** Steps a goroutine has left, and the whole round. *)
Definition weight (p : phase) : nat :=
  match p with Queued => 4 | Scraping => 3 | Stored => 2 | Released => 1 | Finished => 0 end.

Definition remaining (s : state) : nat :=
  5 * (length targets - length (goroutines s)) + sum_list_with weight (goroutines s) +
  match returned s with Some _ => 0 | None => 1 end.

Lemma step_remaining s s' : inv s -> step s s' -> remaining s = S (remaining s').
Proof.
  intros Hinv Hstep.
  assert (Hnone : returned s = None).
  { destruct (returned s) as [r|] eqn:Hr; [|done]. by destruct (returned_stuck _ s' _ Hinv Hr). }
  destruct Hinv as [Hst _ _ _ _]. unfold remaining.
  destruct Hstep as [s Hgo|s i Hi Hslot|s i t o Hi Ht Ho|s i Hi|s i Hi|s _ Hlen Hf];
    cbn [goroutines outcomes returned]; rewrite Hnone, ?length_insert;
    try (pose proof (sum_insert weight _ i _ Scraping Hi) as E1;
         pose proof (sum_insert weight _ i _ Stored Hi) as E2;
         pose proof (sum_insert weight _ i _ Released Hi) as E3;
         pose proof (sum_insert weight _ i _ Finished Hi) as E4; cbn [weight] in *; lia).
  - rewrite length_app, sum_list_with_app. cbn. lia.
  - lia.
Qed.

Lemma idle_slots gs :
  Forall (fun p => p = Queued \/ p = Finished) gs -> sum_list_with slot_of gs = 0%nat.
Proof. induction 1 as [|p gs [->| ->] _ IH]; [done|exact IH|exact IH]. Qed.

Lemma step_exists s : inv s -> returned s = None -> exists s', step s s'.
Proof.
  intros Hinv Hr. pose proof Hinv as [Hst Hout _ _ _].
  destruct (decide (length (goroutines s) < length targets)%nat) as [Hlt|Hge];
    [eexists; by apply StepGo|].
  destruct (decide (Forall (fun p => p = Finished) (goroutines s))) as [Hf|Hex];
    [eexists; apply StepReturn; [done|lia|done]|].
  destruct (decide (Forall (fun p => p = Queued \/ p = Finished) (goroutines s)))
    as [Hq|Hbusy].
  - apply (not_Forall_Exists _), Exists_exists in Hex as (p & [i Hi]%list_elem_of_lookup & Hp).
    destruct (Forall_lookup_1 _ _ _ _ Hq Hi) as [->| ->]; [|by destruct Hp].
    eexists. eapply StepAcquire; [exact Hi|]. unfold held. rewrite idle_slots by done.
    apply lookup_lt_Some in Hi. unfold slots. lia.
  - apply (not_Forall_Exists _), Exists_exists in Hbusy as (p & [i Hi]%list_elem_of_lookup & Hp).
    destruct p; [naive_solver| | | |naive_solver].
    + destruct (lookup_lt_is_Some_2 targets i) as [target Ht].
      { apply lookup_lt_Some in Hi. lia. }
      destruct (answers_some target) as [o Ho]. eexists. by eapply StepStore.
    + eexists. by eapply StepRelease.
    + eexists. by eapply StepDone.
Qed.

Lemma existsb_failed os :
  existsb succeeded os = false <-> Forall (fun o => o_Err o <> None) os.
Proof.
  unfold succeeded. induction os as [|o os IH]; [by split|]. cbn [existsb].
  rewrite orb_false_iff, IH, Forall_cons. by destruct (o_Err o); split; intros [? ?].
Qed.

(** C10. When the round returns, it returns one outcome per target, each the
    answer to the target in the same place, however the goroutines were
    scheduled and in whatever order they finished; and an error exactly when
    there was something to scrape and every pool of it failed. *)
Theorem ScrapeAll_result n s os err :
  reachable n s -> returned s = Some (os, err) ->
  Forall2 answers targets os /\
  Forall2 (fun target o => o_Socket o = statusAddress target) targets os /\
  (is_Some err <-> targets <> [] /\ Forall (fun o => o_Err o <> None) os).
Proof using Type.
  intros Hinv%round_reachable_inv Hr. destruct (inv_returned _ Hinv _ Hr) as (Hc & Hlen & Hf).
  pose proof (inv_outcomes _ Hinv) as Hout. pose proof (inv_answered _ Hinv) as Hans.
  assert (Hos : os = outcomes s) by (unfold conclude in Hc; by case_match; injection Hc).
  subst os. assert (Hall : Forall2 answers targets (outcomes s)).
  { apply Forall2_same_length_lookup_2; [done|]. intros i target o Ht Ho.
    destruct (lookup_lt_is_Some_2 (goroutines s) i) as [p Hi].
    { rewrite Hlen. by eapply lookup_lt_Some. }
    destruct (Hans i p target Hi) as (o' & Ho' & Ha); [|done|congruence].
    by rewrite (finished_lookup _ _ _ Hf Hi). }
  split_and!; [exact Hall|eapply Forall2_impl; [exact Hall|apply answers_contract]|].
  rewrite <- existsb_failed. unfold conclude in Hc. rewrite Hout in Hc.
  destruct targets as [|t ts], (existsb succeeded (outcomes s)); cbn in Hc; injection Hc as ->;
    split; try (by intros [? ?]); try (by intros [? [=]]); eauto.
Qed.

(** C11. The round never deadlocks and never runs away: never more than
    [min(len(targets), max(4, NumCPU))] scrapes hold a slot, until it has
    returned there is always a goroutine that can move, and it returns after
    exactly five steps per target and one more. *)
Theorem ScrapeAll_terminates n s :
  reachable n s ->
  (held s <= Nat.min (length targets) (Nat.max 4 ncpu))%nat /\
  (returned s = None -> exists s', step s s') /\
  (is_Some (returned s) <-> n = (5 * length targets + 1)%nat) /\
  (n <= 5 * length targets + 1)%nat.
Proof using Type.
  intros Hs. pose proof (round_reachable_inv _ _ Hs) as Hinv.
  assert (Hn : (n + remaining s = 5 * length targets + 1)%nat).
  { clear Hinv. induction Hs as [|n s s' Hs IH Hstep].
    - unfold remaining. cbn. lia.
    - rewrite (step_remaining _ _ (round_reachable_inv _ _ Hs) Hstep) in IH. lia. }
  split; [exact (inv_held _ Hinv)|]. split; [by apply step_exists|]. split; [|lia].
  unfold remaining in Hn. split.
  - intros [r Hr]. destruct (inv_returned _ Hinv _ Hr) as (_ & Hlen & Hf). rewrite Hr in Hn.
    assert (Hz : sum_list_with weight (goroutines s) = 0%nat) by (clear Hn Hlen; by induction Hf as [|p gs -> _ IH]).
    lia.
  - intros ->. destruct (returned s); [eauto|lia].
Qed.
End System.

End ScrapeSystem.

(** ** Instances *)

(** A pool's status page, served by every address; no opcode cache. *)
Definition worker (uri state : string) : PoolProcess :=
  mkPoolProcess 0 state 0 0 1 0 "GET" uri 0 "" "" f64_zero f64_zero 0 0 0.

Definition page_pool (name : string) : Pool :=
  mkPool "" "" name "static" 0 0 0 0 0 0 0 0 0 0 0 0 0 [] None None None false None None.

Definition www_page : status_payload :=
  mkPayload (page_pool "www") (Some 1%Z) (Some 1%Z) (Some 2%Z) (Some 0%Z)
    (Some [worker "/pay?token=1" "Running"; worker "/status" "Idle"]).

Definition page_server : FastCGI := {|
  Response := status_payload;
  fcgx_Dial := fun _ _ _ => Ok tt;
  fcgx_Get := fun _ _ _ _ => Ok www_page;
  fcgx_ReadJSON := fun page => Ok page;
  fcgx_ReadBody := fun _ => Ok "false"
|}.

Definition no_opcache : OpcacheJSON := {|
  unmarshal_enabled := fun _ => Ok None;
  unmarshal_status := fun _ => Err "no object"
|}.

(** [unicode.SimpleFold] on the ASCII letters and the two runes in their orbits. *)
Definition ascii_folding : CaseFolding := fun r =>
  if (r =? 107)%Z then 8490%Z else if (r =? 8490)%Z then 75%Z
  else if (r =? 115)%Z then 383%Z else if (r =? 383)%Z then 83%Z
  else if (65 <=? r)%Z && (r <=? 90)%Z then (r + 32)%Z
  else if (97 <=? r)%Z && (r <=? 122)%Z then (r - 32)%Z
  else r.

Definition www_target : Target :=
  mkScrapeTarget "WWW" "/run/www.sock" "" "/status" "/etc/php-fpm.conf" "/usr/sbin/php-fpm" 0 "" "" 0 0.

Definition bad_target : Target :=
  mkScrapeTarget "" "bogus" "" "/status" "/etc/php-fpm.conf" "/usr/sbin/php-fpm" 0 "" "" 0 0.

#[local] Instance stock_host : Host := steady stock.
#[local] Existing Instances page_server no_opcache ascii_folding.

Definition www_status : result scrape_error Pool * world :=
  Eval vm_compute in ReadStatus www_target start.

Definition www_status_pool : Pool :=
  Eval vm_compute in match www_status.1 with Ok pool => pool | Err _ => page_pool "" end.

Lemma ReadStatus_complete_witness :
  Name www_status_pool = "www" /\ Name www_status_pool <> "" /\
  sp_Workers www_page = Some (Processes www_status_pool) /\
  Address www_status_pool = "/run/www.sock".
Proof.
  destruct (ReadStatus_complete www_target start www_status_pool www_status.2)
    as (_ & sc & resp & p & Hp & Hget & Hj & _ & _ & _ & _ & Hws & Hn & _).
  - vm_compute. reflexivity.
  - injection Hget as Hr. injection Hj as Hj. rewrite <- Hr in Hj. rewrite Hj.
    split; [reflexivity|]. split; [exact Hn|]. split; [exact Hws|]. reflexivity.
Defined.

Lemma probe_not_counted_witness :
  is_foreign "/status" (worker "/cbox-phpfpm-opcache-1.php" "Running") = false.
Proof.
  apply (probe_not_counted "/status" "/tmp" "1.php"); vm_compute; reflexivity.
Defined.

Definition empty_pkg : pkg_state := mkPkg ∅ (mkScript "" None).

Definition run_scrape (target : Target) : PoolOutcome * pkg_state * world :=
  scrape Background target None None empty_pkg start.

Lemma run_scrape_eq target :
  scrape Background target None None empty_pkg start =
  ((run_scrape target).1.1, (run_scrape target).1.2, (run_scrape target).2).
Proof. unfold run_scrape. by destruct (scrape _ _ _ _ _ _) as [[? ?] ?]. Qed.

Lemma scrape_outcome_witness :
  o_Name (run_scrape www_target).1.1 = "WWW" /\ outcome_of www_target 0 (run_scrape www_target).1.1.
Proof.
  split; [vm_compute; reflexivity|].
  exact (proj1 (scrape_outcome _ _ _ _ _ _ _ _ _ (run_scrape_eq www_target))).
Defined.

(** A round over a pool that answers and one that cannot be reached, which
    finishes first. *)
Module RoundInstance.
Import ScrapeSystem.

Definition two_targets : list Target := [www_target; bad_target].

#[local] Instance two_scraper : PoolScraper := scrape_answers Background None None.

Definition after (gs : list phase) (os : list PoolOutcome) : ScrapeSystem.state :=
  mkState gs os None.

Definition good : PoolOutcome := (run_scrape www_target).1.1.
Definition bad : PoolOutcome := (run_scrape bad_target).1.1.

Definition round_end : ScrapeSystem.state :=
  mkState [Finished; Finished] [good; bad] (Some ([good; bad], None)).

Lemma round_steps : reachable 4 two_targets 11 round_end.
Proof.
  assert (Hans : forall target, answers target (run_scrape target).1.1).
  { intros target. exists empty_pkg, start, (run_scrape target).1.2, (run_scrape target).2.
    apply run_scrape_eq. }
  pose (z := zero_outcome).
  apply (reach_step 4 two_targets 10 (after [Finished; Finished] [good; bad])).
  2: { apply (StepReturn 4 two_targets (after [Finished; Finished] [good; bad])); [done|done|].
       by repeat constructor. }
  apply (reach_step 4 two_targets 9 (after [Released; Finished] [good; bad]));
    [|by apply (StepDone 4 two_targets (after [Released; Finished] [good; bad]) 0)].
  apply (reach_step 4 two_targets 8 (after [Stored; Finished] [good; bad]));
    [|by apply (StepRelease 4 two_targets (after [Stored; Finished] [good; bad]) 0)].
  apply (reach_step 4 two_targets 7 (after [Scraping; Finished] [z; bad]));
    [|by apply (StepStore 4 two_targets (after [Scraping; Finished] [z; bad]) 0 www_target)].
  apply (reach_step 4 two_targets 6 (after [Scraping; Released] [z; bad]));
    [|by apply (StepDone 4 two_targets (after [Scraping; Released] [z; bad]) 1)].
  apply (reach_step 4 two_targets 5 (after [Scraping; Stored] [z; bad]));
    [|by apply (StepRelease 4 two_targets (after [Scraping; Stored] [z; bad]) 1)].
  apply (reach_step 4 two_targets 4 (after [Scraping; Scraping] [z; z]));
    [|by apply (StepStore 4 two_targets (after [Scraping; Scraping] [z; z]) 1 bad_target)].
  apply (reach_step 4 two_targets 3 (after [Queued; Scraping] [z; z]));
    [|apply (StepAcquire 4 two_targets (after [Queued; Scraping] [z; z]) 0); [done|cbn; lia]].
  apply (reach_step 4 two_targets 2 (after [Queued; Queued] [z; z]));
    [|apply (StepAcquire 4 two_targets (after [Queued; Queued] [z; z]) 1); [done|cbn; lia]].
  apply (reach_step 4 two_targets 1 (after [Queued] [z; z]));
    [|apply (StepGo 4 two_targets (after [Queued] [z; z])); cbn; lia].
  apply (reach_step 4 two_targets 0 (initial 2)); [apply reach_init|].
  apply (StepGo 4 two_targets (initial 2)). cbn. lia.
Qed.

Lemma ScrapeAll_result_witness : Forall2 answers two_targets [good; bad].
Proof. exact (proj1 (ScrapeAll_result 4 two_targets 11 round_end [good; bad] None round_steps eq_refl)). Defined.

Lemma ScrapeAll_terminates_witness : (held round_end <= 2)%nat /\ is_Some (returned round_end).
Proof.
  destruct (ScrapeAll_terminates 4 two_targets 11 round_end round_steps) as (Hh & _ & Hr & _).
  split; [exact Hh|]. by apply Hr.
Defined.

End RoundInstance.
